(* ===== verification/_CoqProject ===== *)
-Q . S2P
Prelude.v
GoBytes.v
GoTime.v
GoFloat.v
GoStrings.v
Protocol.v
Json.v
Canonical.v
JsonText.v
JsonRoundtrip.v
GoTimeParse.v
GoDuration.v
Sha256.v
Observability.v
Store.v
Effects.v
Shared.v
Crypto.v
Envelope.v
MemStore.v
Broker.v
BrokerProofs.v
Concurrency.v
Fixtures.v
BrokerTheorems.v
ScopeRegistry.v
BruteForce.v
NatsPublisher.v
EventJson.v
Postgres.v
PgStore.v
PgxStore.v
PostgresTheorems.v
Decode.v
Wire.v
Http.v
HttpTheorems.v
Metrics.v
Oidc.v
OidcProofs.v
OidcTheorems.v
Alerts.v
ConfigReload.v
Cdc.v
Cli.v
Serve.v
CliTheorems.v
ServeTheorems.v
Sessions.v
Events.v
Cve.v
