(* ===== verification/Prelude.v ===== *)
(** * Hanko: a verification of the broker

    Hanko is a trust broker written in Go.  It issues _sigils_ (identities),
    _capability tokens_ bound to a sigil, and signed _attestation envelopes_
    that carry capabilities; it verifies envelopes, consuming the nonce of
    every capability so that each is accepted once, and it revokes.  Around
    this core are three stores, an HTTP server with a token exchange for
    third-party (OIDC) identities, an observability layer (events on NATS,
    brute-force detection, configuration reload, change data capture), a
    command line and server program that puts them together, and a watcher
    for vulnerable dependencies.

    ** How the program is modelled

    Pure Go functions are Rocq functions on the data of the source: byte
    strings, integers with their 64-bit wrap-around, IEEE doubles, instants
    with zone offset, JSON values.  A Go [(value, error)] pair is a [result].
    Code with effects is a [proc] (Effects), the tree of its atomic operations
    (reading the clock, drawing randomness, one store method, publishing one
    event, bumping one counter), with [run] for its execution alone and
    [pool_step] for the interleaving of several requests: the broker itself
    takes no lock.  Methods of a store are single atomic operations because
    MemStore holds its mutex and the Postgres stores send one statement.  Code
    that shares memory under a lock, as the token exchange does, is an [sproc]
    (Shared): a program with critical sections, in which started goroutines
    publish later.  [play] runs a pool of them under a schedule, which is how
    a session of the server is run.  A run-time panic is the error [Panic].

    ** Which file models which part

    - Prelude, GoBytes, GoTime, GoTimeParse, GoDuration, GoFloat, GoStrings:
      the Go language and standard library as used (hex, base64, time and its
      texts, durations, float64, strings).
    - Json, JsonText, JsonRoundtrip, Decode: encoding/json: values, writing,
      scanning and parsing of text, decoding into structs and slices.
      Canonical: CanonicalJSON of crypto/ed25519.go.  Sha256: crypto/sha256.
    - Protocol: protocol/types.go.  Envelope: the JSON form of those types and
      the signed body of an envelope (envelopeBody of broker/broker.go).
      Wire: decoding an envelope from its text.
    - Crypto: Sign, Verify, key and nonce generation of crypto/ed25519.go.
    - Store: the Store interface of broker/broker.go and its contracts
      ([StoreSafe], [StoreExact]).  MemStore: store/mem.go and
      store/interface.go.  Postgres, PgStore, PgxStore: the two Postgres
      stores (store/postgres.go, store/pgstore/pgstore.go) on tables, with
      statements that may fail before or after taking effect.
    - Effects: atomic operations, programs, runs and interleavings, the
      metrics calls (internal/observability/metrics.go), and [ensures], the
      logic for what every execution of a program does.  Shared: goroutines
      with critical sections, their schedules, and the logic [assures] (lock
      invariants and one history for all threads) with budgets ([spends]).
    - Broker: broker/broker.go; BrokerProofs, Concurrency and BrokerTheorems
      prove it correct alone and under interleaving.
    - ScopeRegistry: broker/scope_registry.go.
    - Http, HttpTheorems: broker/http.go and broker/http_admin.go.
    - Oidc, OidcProofs, OidcTheorems: broker/oidc.go.  Alerts: the exchange
      together with the brute-force detector.
    - Observability and EventJson (subject.go, events.go), BruteForce
      (brute_force.go), NatsPublisher (nats_publisher.go), Metrics
      (metrics.go), ConfigReload (config_reload.go), Cdc (cdc.go):
      internal/observability.
    - Cli: the commands of cmd/hanko-broker/main.go, from arguments,
      environment, files and store to exit code and output; CliTheorems.
      Serve: cmd/hanko-broker/serve.go and the dispatch of main;
      ServeTheorems.  Sessions: answers of a running server and what later
      processes see.  Events: the effects of the whole server, and the
      messages they become.
    - Cve: cve/watcher.go.
    - Fixtures: concrete surroundings in which definitions are evaluated.

    ** What the theorems show

    - Replay: however concurrent requests interleave, and over any store that
      keeps the replay contract, a nonce is accepted at most once
      (BrokerTheorems); MemStore and both Postgres stores keep it, the latter
      whatever statements fail (MemStore, PostgresTheorems).
    - Verification: the result, the nonces consumed and the counters on every
      branch; acceptance characterised exactly; issued envelopes verify; the
      signature covers every field; revocation takes effect on every
      verification that starts later (BrokerTheorems, PostgresTheorems).
    - Texts: canonical JSON computed on values is what marshalling, parsing
      and marshalling the text gives (JsonRoundtrip); an envelope survives
      being printed and read (Wire); parsing inverts writing for all values
      within the decoder's depth (JsonRoundtrip).
    - Across processes: the generated key is the key that is loaded, verify
      exits with 0 exactly for acceptable envelopes, what one process issues
      the next can verify, and a revocation holds for all later processes and
      server sessions, whether a command made it (CliTheorems) or a request
      to a server among other, concurrent ones (Sessions).
    - Start-up: what the flags mean and which endpoints are closed by default
      (ServeTheorems); every metric and event of the server is well typed, and
      every message names the workspace and the correlation id of its subject
      (Events).
    - Requests always finish, under every interleaving (BrokerTheorems), and a
      request to the server after a fixed number of its own turns (Sessions).
    - Access: who can revoke over HTTP, who is given a token by the exchange,
      for which scopes and how long, what is announced about it and what the
      audit file says, under every interleaving (HttpTheorems, OidcTheorems,
      ScopeRegistry).
    - Observability: alerts are raised exactly when due and once (BruteForce),
      also when concurrent exchanges share the detector (Alerts);
      events are neither lost nor duplicated unaccounted for, in FIFO order,
      and the backlog of an outage is delivered when it ends (NatsPublisher);
      reloads are all or nothing (ConfigReload); the change stream is mirrored
      exactly, redacted, and never acknowledged early (Cdc).
    - The watcher reads requirements exactly and reports exactly what was
      answered about them (Cve).

    ** Parameters

    What is not in the repository is a type class whose fields stand for it:
    [Env] (clock, UUIDs, randomness), [Ed25519] with [Ed25519Laws] (lengths,
    and that signatures verify; nothing is assumed about forgery), [PgEnv]
    (UUID and timestamp types, statement failures), [Idp] (identity provider,
    and what an append adds to the audit file), [JwtLib] (JWT library), [Toml], [LogRepl] (pgoutput parsing),
    [Prom] (the Prometheus handler), [MapRange] (iteration order of Go maps).  The host of a process (files,
    environment, standard input) and the outcomes of network calls at start-up
    are the records [Host] and [Net].  Theorems hold for every
    instance; each class has a concrete instance used by the witnesses.

    ** Bounds

    Recursion is structural, on lists of capabilities, queued events, received
    messages, arguments or lines, with three exceptions that take fuel.
    Draining the ring buffer runs at most as often as the ring holds events
    (NatsPublisher).  The JSON parser gets twice the length of the text plus
    one; more fuel never changes its answer ([parse_fuel] of JsonText).
    ParseDuration gets the length of its text; more does not change its answer
    either ([duration_loop_fuel] of GoDuration).  Schedules are lists of turns of
    any length; theorems hold for all of them.  JSON nests at most 10000 deep
    and lines of go.mod are shorter than 64 KiB, the limits of the Go packages.

    ** Not modelled

    How fmt renders the arguments of a format (outputs keep the format and the
    arguments), the texts of errors of encoding/json, and the effects of a
    partially failed write of a key file or of a response body that breaks off.  A
    fetch of an identity provider's keys happens inside one step, since the
    cache's lock is held meanwhile.  Outside the program: sockets, TLS, HTTP
    parsing and the listener (net/http), connection pools, the Prometheus
    registry and its text format, the delivery of signals. *)


From stdpp Require Export base gmap sets list strings numbers sorting.
From Stdlib Require Export ZArith Lia Ascii.
From Stdlib Require String.

#[export] Set Default Goal Selector "!".

(** ** Bytes and strings

    A Go [string] is an immutable byte sequence: Rocq's [string] of 8-bit
    [ascii].  A Go byte slice is a [list ascii]. *)
Abbreviation bytes := (list ascii).

Definition to_bytes (s : string) : bytes := String.list_ascii_of_string s.
Definition of_bytes (b : bytes) : string := String.string_of_list_ascii b.

(** The value of a byte as an integer, 0 to 255. *)
Definition byte_val (a : ascii) : Z := Z.of_N (N_of_ascii a).
(** The byte of an integer, modulo 256 (Go's [byte(x)] conversion). *)
Definition byte_of (z : Z) : ascii := ascii_of_N (Z.to_N (z mod 256)).

Section bytes.
Implicit Types (s : string) (b : bytes).

Lemma of_to_bytes s : of_bytes (to_bytes s) = s.
Proof. apply String.string_of_list_ascii_of_string. Qed.

Lemma to_of_bytes b : to_bytes (of_bytes b) = b.
Proof. apply String.list_ascii_of_string_of_list_ascii. Qed.

Lemma to_bytes_inj s1 s2 : to_bytes s1 = to_bytes s2 -> s1 = s2.
Proof. intros H. by rewrite <-(of_to_bytes s1), <-(of_to_bytes s2), H. Qed.

Lemma of_bytes_inj b1 b2 : of_bytes b1 = of_bytes b2 -> b1 = b2.
Proof. intros H. by rewrite <-(to_of_bytes b1), <-(to_of_bytes b2), H. Qed.

Lemma to_bytes_app s1 s2 : to_bytes (s1 +:+ s2) = to_bytes s1 ++ to_bytes s2.
Proof. induction s1 as [|a s1 IH]; simpl; [done|]. by f_equal. Qed.

Lemma length_to_bytes s : length (to_bytes s) = String.length s.
Proof. induction s; simpl; auto. Qed.

Lemma byte_val_range a : (0 <= byte_val a < 256)%Z.
Proof. unfold byte_val. pose proof (N_ascii_bounded a). lia. Qed.

Lemma byte_of_val a : byte_of (byte_val a) = a.
Proof.
  unfold byte_of. rewrite Z.mod_small by apply byte_val_range.
  unfold byte_val. rewrite N2Z.id. apply ascii_N_embedding.
Qed.

Lemma byte_val_of z : (0 <= z < 256)%Z -> byte_val (byte_of z) = z.
Proof.
  intros Hz. unfold byte_val, byte_of. rewrite Z.mod_small by done.
  rewrite N_ascii_embedding by lia. lia.
Qed.

Lemma byte_val_inj a1 a2 : byte_val a1 = byte_val a2 -> a1 = a2.
Proof. intros H. by rewrite <-(byte_of_val a1), <-(byte_of_val a2), H. Qed.
End bytes.

(** ** Machine integers *)

(** Two's-complement wrap-around of Go's [int64] (and [int] on 64-bit). *)
Definition int64_wrap (z : Z) : Z := ((z + 2 ^ 63) mod 2 ^ 64 - 2 ^ 63)%Z.
Definition int64_min : Z := (- 2 ^ 63)%Z.
Definition int64_max : Z := (2 ^ 63 - 1)%Z.
Definition is_int64 (z : Z) : Prop := (int64_min <= z <= int64_max)%Z.

Lemma int64_wrap_id z : is_int64 z -> int64_wrap z = z.
Proof.
  unfold is_int64, int64_min, int64_max, int64_wrap. intros Hz.
  rewrite Z.mod_small; lia.
Qed.

Lemma int64_wrap_add a b : int64_wrap (int64_wrap a + b) = int64_wrap (a + b).
Proof.
  unfold int64_wrap. f_equal.
  replace ((a + 2 ^ 63) mod 2 ^ 64 - 2 ^ 63 + b + 2 ^ 63)%Z with
    ((a + 2 ^ 63) mod 2 ^ 64 + b)%Z by lia.
  rewrite Zplus_mod_idemp_l. f_equal. lia.
Qed.

Lemma int64_wrap_range z : is_int64 (int64_wrap z).
Proof.
  unfold is_int64, int64_min, int64_max, int64_wrap.
  pose proof (Z.mod_pos_bound (z + 2 ^ 63) (2 ^ 64)). lia.
Qed.

(** A boolean property of a bounded range is checked by evaluation. *)
Lemma Z_range_forall (P : Z -> bool) (n : nat) :
  forallb P (Z.of_nat <$> seq 0 n) = true ->
  forall i, (0 <= i < Z.of_nat n)%Z -> P i = true.
Proof.
  intros H i Hi. rewrite forallb_forall in H. apply H.
  apply list_elem_of_In, list_elem_of_fmap. exists (Z.to_nat i).
  split; [lia|]. apply elem_of_seq. lia.
Qed.

(** [injection] on a list equation, without reducing the tails. *)
Lemma cons_eq_split {A} (x y : A) l k : x :: l = y :: k -> x = y /\ l = k.
Proof. by intros [= -> ->]. Qed.

(** Two texts split the same way when the first parts are made of symbols the
    second parts cannot start with. *)
Lemma app_inj_pred {A} (P : A -> Prop) (l1 l2 r1 r2 : list A) :
  Forall P l1 -> Forall P l2 ->
  (forall x r, r1 = x :: r -> ~ P x) -> (forall x r, r2 = x :: r -> ~ P x) ->
  l1 ++ r1 = l2 ++ r2 -> l1 = l2 /\ r1 = r2.
Proof.
  intros H1. revert l2; induction H1 as [|x l1 Hx H1 IH]; intros l2 H2 N1 N2 E.
  - destruct H2 as [|y l2 Hy H2]; [done|]. simpl in E. by destruct (N1 _ _ E).
  - destruct H2 as [|y l2 Hy H2]; simpl in E.
    + symmetry in E. by destruct (N2 _ _ E).
    + injection E as -> E. destruct (IH l2 H2 N1 N2 E) as [-> ->]. done.
Qed.

(** ** Permutations by counting *)

Definition occurrences {A} `{EqDecision A} (x : A) (l : list A) : nat :=
  count_occ (decide_rel (=)) l x.

Lemma occurrences_app {A} `{EqDecision A} (x : A) l k :
  occurrences x (l ++ k) = (occurrences x l + occurrences x k)%nat.
Proof. apply count_occ_app. Qed.

Lemma occurrences_cons {A} `{EqDecision A} (x y : A) l :
  occurrences x (y :: l) = (occurrences x [y] + occurrences x l)%nat.
Proof. apply (occurrences_app x [y] l). Qed.

Lemma occurrences_nil {A} `{EqDecision A} (x : A) : occurrences x [] = 0%nat.
Proof. done. Qed.

Lemma Permutation_occurrences {A} `{EqDecision A} (l k : list A) :
  l ≡ₚ k <-> forall x, occurrences x l = occurrences x k.
Proof. apply Permutation_count_occ. Qed.

(** Permutation goals and hypotheses between concatenations. *)
Ltac solve_perm :=
  repeat match goal with H : _ ≡ₚ _ |- _ => rewrite Permutation_occurrences in H end;
  apply Permutation_occurrences; let z := fresh in intros z;
  repeat match goal with H : forall x, occurrences x _ = _ |- _ => specialize (H z) end;
  repeat (rewrite ?occurrences_app in *;
          match goal with
          | H : context [occurrences z (?y :: ?l)] |- _ =>
              lazymatch l with [] => fail | _ => rewrite (occurrences_cons z y l) in H end
          | |- context [occurrences z (?y :: ?l)] =>
              lazymatch l with [] => fail | _ => rewrite (occurrences_cons z y l) end
          end);
  rewrite ?occurrences_app in *; rewrite ?occurrences_nil in *; lia.

(** ** Fallible and stateful code

    [result E A] is a Go [(A, error)] pair used the Go way: the value is only
    meaningful when the error is nil.  [M W A] is one atomic operation on a
    state [W]; it keeps the state it reached when it returns an error. *)
Inductive result (E A : Type) : Type :=
| Ok (a : A)
| Err (e : E).
Arguments Ok {E A} a.
Arguments Err {E A} e.

#[export] Instance result_eq_dec {E A} `{EqDecision E, EqDecision A} :
  EqDecision (result E A).
Proof. solve_decision. Defined.

Definition is_ok {E A} (r : result E A) : bool :=
  match r with Ok _ => true | Err _ => false end.

Definition M (W A : Type) : Type := W -> A * W.

Declare Scope go_scope.
Delimit Scope go_scope with go.

(** ** Iteration over maps *)

(** [range] over a map in its n-th use: every entry once, in any order. *)
Class MapRange : Type := {
  map_range {V} : nat -> gmap string V -> list (string * V);
  map_range_perm {V} n (m : gmap string V) : map_range n m ≡ₚ map_to_list m
}.

Lemma elem_of_map_range `{!MapRange} {V} n (m : gmap string V) k v :
  (k, v) ∈ map_range n m <-> m !! k = Some v.
Proof. by rewrite map_range_perm, elem_of_map_to_list. Qed.

(** ** Byte-wise string order: [sort.Strings] *)

Definition string_le (s1 s2 : string) : Prop := String.leb s1 s2 = true.
#[export] Instance string_le_dec : RelDecision string_le.
Proof. intros s1 s2. unfold string_le. apply _. Defined.

Lemma string_compare_lt_trans s1 s2 s3 :
  String.compare s1 s2 = Lt -> String.compare s2 s3 = Lt ->
  String.compare s1 s3 = Lt.
Proof.
  revert s2 s3; induction s1 as [|a1 s1 IH]; intros [|a2 s2] [|a3 s3]; simpl; try done.
  unfold Ascii.compare.
  destruct (N.compare_spec (N_of_ascii a1) (N_of_ascii a2)) as [E12|L12|]; try done;
  destruct (N.compare_spec (N_of_ascii a2) (N_of_ascii a3)) as [E23|L23|]; try done;
  intros H1 H2;
  destruct (N.compare_spec (N_of_ascii a1) (N_of_ascii a3)); try lia; eauto.
Qed.

#[export] Instance string_le_antisymm : AntiSymm (=) string_le.
Proof. intros s1 s2. unfold string_le. apply String.leb_antisym. Qed.

#[export] Instance string_le_total : Total string_le.
Proof. intros s1 s2. unfold string_le. destruct (String.leb_total s1 s2); auto. Qed.

#[export] Instance string_le_trans : Transitive string_le.
Proof.
  intros s1 s2 s3. unfold string_le, String.leb.
  destruct (String.compare s1 s2) eqn:E12; try done.
  - apply String.compare_eq_iff in E12 as ->. done.
  - destruct (String.compare s2 s3) eqn:E23; try done.
    + apply String.compare_eq_iff in E23 as ->. by rewrite E12.
    + by rewrite (string_compare_lt_trans _ _ _ E12 E23).
Qed.

Definition sort_strings (l : list string) : list string := merge_sort string_le l.

Lemma sort_strings_perm l : sort_strings l ≡ₚ l.
Proof. apply merge_sort_Permutation. Qed.

Lemma sort_strings_sorted l : Sorted string_le (sort_strings l).
Proof. apply Sorted_merge_sort. apply _. Qed.

(** Sorting forgets the order in which a Go map was iterated. *)
Lemma sort_strings_Permutation l1 l2 : l1 ≡ₚ l2 -> sort_strings l1 = sort_strings l2.
Proof.
  intros H. apply (Sorted_unique string_le).
  - apply sort_strings_sorted.
  - apply sort_strings_sorted.
  - by rewrite !sort_strings_perm.
Qed.
