(* ===== verification/GoBytes.v ===== *)
(** Byte encodings of Go's standard library used by the broker:
    [encoding/hex] (nonce keys, fingerprints, CLI keys) and [encoding/base64]
    (the standard padded alphabet that [encoding/json] uses for byte slices,
    and the unpadded URL alphabet of the JWKS documents), with their round
    trips and the injectivity facts the stores and the signature rely on. *)

From Stdlib Require Wf_nat.
From S2P Require Import Prelude.
Local Open Scope Z_scope.

(** Sixteen- and sixty-four-symbol alphabets, by index. *)
Definition sym (alphabet : string) (i : Z) : ascii :=
  default "000"%char (to_bytes alphabet !! Z.to_nat i).
Fixpoint sym_index_from (l : bytes) (a : ascii) (i : Z) : option Z :=
  match l with
  | [] => None
  | c :: l => if decide (c = a) then Some i else sym_index_from l a (i + 1)
  end.
Definition sym_index (alphabet : string) (a : ascii) : option Z :=
  sym_index_from (to_bytes alphabet) a 0.

(** ** encoding/hex *)

Definition hex_lower : string := "0123456789abcdef".
Definition hex_upper : string := "0123456789ABCDEF".

Definition hex_byte (a : ascii) : bytes :=
  [sym hex_lower (byte_val a / 16); sym hex_lower (byte_val a mod 16)].
(** [hex.EncodeToString] *)
Definition hex_encode (b : bytes) : string := of_bytes (b ≫= hex_byte).

Definition hex_val (a : ascii) : option Z :=
  match sym_index hex_lower a with
  | Some v => Some v
  | None => sym_index hex_upper a
  end.
Fixpoint hex_decode_bytes (b : bytes) : option bytes :=
  match b with
  | [] => Some []
  | [_] => None
  | h :: l :: b =>
      hv ← hex_val h; lv ← hex_val l;
      rest ← hex_decode_bytes b;
      Some (byte_of (16 * hv + lv) :: rest)
  end.
(** [hex.DecodeString]: both cases accepted; an odd length or a non-hex
    digit is an error. *)
Definition hex_decode (s : string) : option bytes := hex_decode_bytes (to_bytes s).

Lemma hex_byte_decode a b :
  hex_decode_bytes (hex_byte a ++ b) = rest ← hex_decode_bytes b; Some (a :: rest).
Proof. by destruct a as [[] [] [] [] [] [] [] []]. Qed.

Lemma hex_decode_encode b : hex_decode (hex_encode b) = Some b.
Proof.
  unfold hex_decode, hex_encode. rewrite to_of_bytes.
  induction b as [|a b IH]; [done|].
  change ((a :: b) ≫= hex_byte) with (hex_byte a ++ (b ≫= hex_byte)).
  by rewrite hex_byte_decode, IH.
Qed.

Lemma hex_encode_inj b1 b2 : hex_encode b1 = hex_encode b2 -> b1 = b2.
Proof.
  intros H. apply (f_equal hex_decode) in H. rewrite !hex_decode_encode in H.
  by injection H.
Qed.

Lemma hex_encode_length b : String.length (hex_encode b) = (2 * length b)%nat.
Proof.
  unfold hex_encode. rewrite <-length_to_bytes, to_of_bytes.
  induction b as [|a b IH]; [done|].
  change ((a :: b) ≫= hex_byte) with (hex_byte a ++ (b ≫= hex_byte)).
  rewrite length_app, IH. simpl. lia.
Qed.

(** ** encoding/base64 *)

Definition b64_std : string :=
  "ABCDEFGHIJKLMNOPQRSTUVWXYZabcdefghijklmnopqrstuvwxyz0123456789+/".
Definition b64_url : string :=
  "ABCDEFGHIJKLMNOPQRSTUVWXYZabcdefghijklmnopqrstuvwxyz0123456789-_".

(** The encoding of one to three bytes, padded with [pad] to four symbols. *)
Definition b64_one (al : string) (pad : bytes) (a : ascii) : bytes :=
  let x := byte_val a in
  [sym al (x / 4); sym al (x mod 4 * 16)] ++ pad ++ pad.
Definition b64_two (al : string) (pad : bytes) (a b : ascii) : bytes :=
  let x := byte_val a in let y := byte_val b in
  [sym al (x / 4); sym al (x mod 4 * 16 + y / 16); sym al (y mod 16 * 4)] ++ pad.
Definition b64_three (al : string) (a b c : ascii) : bytes :=
  let x := byte_val a in let y := byte_val b in let z := byte_val c in
  [sym al (x / 4); sym al (x mod 4 * 16 + y / 16);
   sym al (y mod 16 * 4 + z / 64); sym al (z mod 64)].
Fixpoint b64_encode_bytes (al : string) (pad : bytes) (l : bytes) : bytes :=
  match l with
  | [] => []
  | [a] => b64_one al pad a
  | [a; b] => b64_two al pad a b
  | a :: b :: c :: l => b64_three al a b c ++ b64_encode_bytes al pad l
  end.
(** [base64.StdEncoding.EncodeToString] and
    [base64.RawURLEncoding.EncodeToString]. *)
Definition base64_std_encode (l : bytes) : string :=
  of_bytes (b64_encode_bytes b64_std ["="%char] l).
Definition base64_rawurl_encode (l : bytes) : string :=
  of_bytes (b64_encode_bytes b64_url [] l).

(** Unpadded decoding of a list of symbol values: full quads, then a rest of
    two or three symbols (the bits below the last byte are ignored, as the
    non-strict Go decoder does); one left-over symbol is corrupt input. *)
Fixpoint b64_decode_vals (l : list Z) : option bytes :=
  match l with
  | [] => Some []
  | [_] => None
  | [p; q] => Some [byte_of (p * 4 + q / 16)]
  | [p; q; r] => Some [byte_of (p * 4 + q / 16); byte_of (q mod 16 * 16 + r / 4)]
  | p :: q :: r :: s :: l =>
      rest ← b64_decode_vals l;
      Some (byte_of (p * 4 + q / 16) :: byte_of (q mod 16 * 16 + r / 4)
            :: byte_of (r mod 4 * 64 + s) :: rest)
  end.
(** [base64.RawURLEncoding.DecodeString]: line breaks are skipped, any other
    byte outside the alphabet (padding included) is corrupt input. *)
Definition is_newline (a : ascii) : bool :=
  bool_decide (a = "010"%char) || bool_decide (a = "013"%char).
Definition base64_rawurl_decode (s : string) : option bytes :=
  vals ← mapM (sym_index b64_url) (filter (fun a => negb (is_newline a)) (to_bytes s));
  b64_decode_vals vals.

(** The six-bit values behind an encoding. *)
Fixpoint b64_vals (l : bytes) : list Z :=
  match l with
  | [] => []
  | [a] => [byte_val a / 4; byte_val a mod 4 * 16]
  | [a; b] => [byte_val a / 4; byte_val a mod 4 * 16 + byte_val b / 16;
               byte_val b mod 16 * 4]
  | a :: b :: c :: l =>
      byte_val a / 4 :: byte_val a mod 4 * 16 + byte_val b / 16
      :: byte_val b mod 16 * 4 + byte_val c / 64 :: byte_val c mod 64 :: b64_vals l
  end.

Ltac byte_lia :=
  repeat match goal with
  | a : ascii |- _ =>
      lazymatch goal with
      | H : 0 <= byte_val a < 256 |- _ => fail
      | _ => pose proof (byte_val_range a)
      end
  end;
  Z.div_mod_to_equations; lia.

Lemma byte_of_eq z a : z = byte_val a -> byte_of z = a.
Proof. intros ->. apply byte_of_val. Qed.

Lemma b64_vals_decode l : b64_decode_vals (b64_vals l) = Some l.
Proof.
  revert l. fix IH 1. intros [|a [|b [|c l]]]; simpl.
  - done.
  - by rewrite (byte_of_eq _ a) by byte_lia.
  - rewrite (byte_of_eq _ a) by byte_lia. by rewrite (byte_of_eq _ b) by byte_lia.
  - rewrite IH. simpl. rewrite (byte_of_eq _ a) by byte_lia.
    rewrite (byte_of_eq _ b) by byte_lia. by rewrite (byte_of_eq _ c) by byte_lia.
Qed.

Lemma b64_vals_range l : Forall (fun v => 0 <= v < 64) (b64_vals l).
Proof.
  revert l. fix IH 1. intros [|a [|b [|c l]]]; simpl; repeat constructor; try byte_lia.
  apply IH.
Qed.

(** Every encoding is the symbols of the six-bit values, then padding. *)
Lemma b64_encode_vals al pad l :
  exists k, b64_encode_bytes al pad l = (sym al <$> b64_vals l) ++ mjoin (replicate k pad).
Proof.
  revert l. fix IH 1. intros [|a [|b [|c l]]].
  - by exists 0%nat.
  - exists 2%nat. simpl. by rewrite app_nil_r.
  - exists 1%nat. simpl. by rewrite app_nil_r.
  - destruct (IH l) as [k Hk]. exists k. simpl. by rewrite Hk.
Qed.

Definition b64_alphabet (al : string) : bool :=
  forallb (fun i => bool_decide (sym_index al (sym al i) = Some i) &&
                    negb (is_newline (sym al i)) && bool_decide (sym al i <> "="%char))
          (Z.of_nat <$> seq 0 64).

Lemma b64_std_ok : b64_alphabet b64_std = true.
Proof. vm_compute. done. Qed.
Lemma b64_url_ok : b64_alphabet b64_url = true.
Proof. vm_compute. done. Qed.

Lemma b64_sym_spec al i :
  b64_alphabet al = true -> 0 <= i < 64 ->
  sym_index al (sym al i) = Some i /\ is_newline (sym al i) = false /\
  sym al i <> "="%char.
Proof.
  intros Hal Hi. pose proof (Z_range_forall _ 64 Hal i Hi) as H. cbv beta in H.
  apply andb_true_iff in H as [[H1 H2]%andb_true_iff H3].
  split; [by apply bool_decide_eq_true in H1|].
  split; [by destruct (is_newline _)|by apply bool_decide_eq_true in H3].
Qed.

(** Reading the symbols back, through any filter that keeps them. *)
Lemma b64_symbols_back al (keep : ascii -> bool) vs :
  b64_alphabet al = true -> Forall (fun v => 0 <= v < 64) vs ->
  (forall v, 0 <= v < 64 -> keep (sym al v) = true) ->
  mapM (sym_index al) (filter keep (sym al <$> vs)) = Some vs.
Proof.
  intros Hal Hvs Hk. induction Hvs as [|v vs Hv Hvs IH]; [done|].
  rewrite fmap_cons, filter_cons_True by (rewrite Hk by done; done). simpl.
  destruct (b64_sym_spec al v Hal Hv) as [-> _]. simpl. by rewrite IH.
Qed.

Lemma base64_rawurl_decode_encode l :
  base64_rawurl_decode (base64_rawurl_encode l) = Some l.
Proof.
  unfold base64_rawurl_decode, base64_rawurl_encode. rewrite to_of_bytes.
  destruct (b64_encode_vals b64_url [] l) as [k ->].
  assert (mjoin (replicate k ([] : bytes)) = []) as -> by (by induction k).
  rewrite app_nil_r, b64_symbols_back.
  - apply b64_vals_decode.
  - apply b64_url_ok.
  - apply b64_vals_range.
  - intros v Hv. by destruct (b64_sym_spec b64_url v b64_url_ok Hv) as (_ & -> & _).
Qed.

(** [base64.StdEncoding.DecodeString]: groups of four symbols, of which only
    the last may end in one or two padding characters; line breaks are
    skipped, everything else is corrupt input. *)
Fixpoint b64_decode_padded (al : string) (l : bytes) : option bytes :=
  match l with
  | [] => Some []
  | a :: b :: c :: d :: l =>
      p ← sym_index al a;
      q ← sym_index al b;
      if decide (d = "="%char /\ l = []) then
        if decide (c = "="%char) then b64_decode_vals [p; q]
        else r ← sym_index al c; b64_decode_vals [p; q; r]
      else
        r ← sym_index al c;
        s ← sym_index al d;
        head ← b64_decode_vals [p; q; r; s];
        rest ← b64_decode_padded al l;
        Some (head ++ rest)
  | _ => None
  end.
Definition base64_std_decode (s : string) : option bytes :=
  b64_decode_padded b64_std (filter (fun a => negb (is_newline a)) (to_bytes s)).

Lemma b64_std_sym v :
  0 <= v < 64 -> sym_index b64_std (sym b64_std v) = Some v /\
  is_newline (sym b64_std v) = false /\ sym b64_std v <> "="%char.
Proof. apply b64_sym_spec, b64_std_ok. Qed.

Lemma b64_std_no_newline l :
  filter (fun a => negb (is_newline a)) (b64_encode_bytes b64_std ["="%char] l) =
  b64_encode_bytes b64_std ["="%char] l.
Proof.
  destruct (b64_encode_vals b64_std ["="%char] l) as [k ->]. rewrite filter_app. f_equal.
  - pose proof (b64_vals_range l) as H. induction H as [|v vs Hv Hvs IH]; [done|].
    rewrite fmap_cons, filter_cons_True; [by rewrite IH|].
    by rewrite (proj1 (proj2 (b64_std_sym v Hv))).
  - induction k as [|k IH]; [done|].
    change (mjoin (replicate (S k) ["="%char])) with ("="%char :: mjoin (replicate k ["="%char])).
    by rewrite filter_cons_True, IH.
Qed.

Lemma base64_std_decode_encode l :
  base64_std_decode (base64_std_encode l) = Some l.
Proof.
  unfold base64_std_decode, base64_std_encode. rewrite to_of_bytes, b64_std_no_newline.
  induction l as [l IH] using (Wf_nat.induction_ltof1 _ length). unfold Wf_nat.ltof in IH.
  assert (forall v, 0 <= v < 64 -> sym_index b64_std (sym b64_std v) = Some v) as Hs.
  { intros v Hv. apply (b64_std_sym v Hv). }
  assert (forall v, 0 <= v < 64 -> sym b64_std v <> "="%char) as Hp.
  { intros v Hv. apply (b64_std_sym v Hv). }
  destruct l as [|a [|b [|c l]]]; [done| | |]; cbn [b64_encode_bytes b64_one b64_two b64_three app].
  - cbn [b64_decode_padded]. rewrite !Hs by byte_lia. simpl. f_equal. f_equal.
    apply byte_of_eq. byte_lia.
  - cbn [b64_decode_padded]. rewrite !Hs by byte_lia. simpl. rewrite decide_False by (apply Hp; byte_lia).
    f_equal. f_equal; [|f_equal]; apply byte_of_eq; byte_lia.
  - cbn [b64_decode_padded]. rewrite !Hs by byte_lia. simpl.
    rewrite decide_False by (intros [H _]; revert H; apply Hp; byte_lia).
    rewrite IH by (simpl; lia). simpl. f_equal. f_equal; [|f_equal; [|f_equal]];
      apply byte_of_eq; byte_lia.
Qed.

Lemma base64_std_encode_inj l1 l2 :
  base64_std_encode l1 = base64_std_encode l2 -> l1 = l2.
Proof.
  intros H. apply (f_equal base64_std_decode) in H.
  rewrite !base64_std_decode_encode in H. by injection H.
Qed.
