(* ===== verification/GoTime.v ===== *)
(** Go's [time] package as the broker uses it: instants with a zone offset,
    [After]/[Before]/[Add]/[Sub]/[Unix], [int64] durations, and the RFC 3339
    text that [Format(time.RFC3339Nano)] and [Time.MarshalJSON] produce, with
    the proof that the text determines the instant. *)

From stdpp Require Import pretty.
From S2P Require Import Prelude.
Local Open Scope Z_scope.

(** An instant in nanoseconds since the Unix epoch, and the offset of its
    location east of UTC in seconds. *)
Record Time := mkTime { t_ns : Z; t_off : Z }.
#[export] Instance Time_eq_dec : EqDecision Time.
Proof. solve_decision. Defined.

(** [Duration] is an [int64] count of nanoseconds. *)
Definition Nanosecond : Z := 1.
Definition Millisecond : Z := 1000000.
Definition Second : Z := 1000000000.
Definition Minute : Z := 60 * Second.
Definition Hour : Z := 60 * Minute.
(** [time.Duration(n) * time.Second] on an [int] n: the product wraps. *)
Definition seconds (n : Z) : Z := int64_wrap (n * Second).

Definition After (t u : Time) : bool := t_ns u <? t_ns t.
Definition Before (t u : Time) : bool := t_ns t <? t_ns u.
Definition Add (t : Time) (d : Z) : Time := mkTime (t_ns t + d) (t_off t).
(** [Sub] saturates at the ends of [int64]. *)
Definition Sub (t u : Time) : Z :=
  Z.max int64_min (Z.min int64_max (t_ns t - t_ns u)).
Definition UTC (t : Time) : Time := mkTime (t_ns t) 0.
Definition Unix (t : Time) : Z := t_ns t / Second.
Definition Milliseconds (d : Z) : Z := Z.quot d Millisecond.
Definition zero_time : Time := mkTime (-62135596800 * Second) 0.
Definition IsZero (t : Time) : bool := t_ns t =? t_ns zero_time.

(** ** Calendar *)

(** Proleptic Gregorian date of a day number (0 is 1970-01-01): years are
    counted from March in cycles of 400 years. *)
Definition civil_of_days (z : Z) : Z * Z * Z :=
  let z' := z + 719468 in
  let era := z' / 146097 in
  let doe := z' mod 146097 in
  let yoe := (doe - doe / 1460 + doe / 36524 - doe / 146096) / 365 in
  let doy := doe - (365 * yoe + yoe / 4 - yoe / 100) in
  let mp := (5 * doy + 2) / 153 in
  let d := doy - (153 * mp + 2) / 5 + 1 in
  let m := if mp <? 10 then mp + 3 else mp - 9 in
  ((if m <=? 2 then yoe + era * 400 + 1 else yoe + era * 400), m, d).
Definition days_of_civil (ymd : Z * Z * Z) : Z :=
  let '(y0, m, d) := ymd in
  let y := if m <=? 2 then y0 - 1 else y0 in
  let era := y / 400 in
  let yoe := y mod 400 in
  let mp := if 2 <? m then m - 3 else m + 9 in
  let doy := (153 * mp + 2) / 5 + d - 1 in
  let doe := yoe * 365 + yoe / 4 - yoe / 100 + doy in
  era * 146097 + doe - 719468.

(** Within a 400-year cycle the year and the day of the year are in range. *)
Lemma year_of_era_range doe :
  0 <= doe < 146097 ->
  0 <= (doe - doe / 1460 + doe / 36524 - doe / 146096) / 365 < 400.
Proof. intros H. Z.div_mod_to_equations. lia. Qed.

Lemma day_of_year_range doe :
  0 <= doe < 146097 ->
  let yoe := (doe - doe / 1460 + doe / 36524 - doe / 146096) / 365 in
  0 <= doe - (365 * yoe + yoe / 4 - yoe / 100) <= 366.
Proof. intros H. cbv zeta. Z.div_mod_to_equations. lia. Qed.

Lemma month_day_range doy :
  0 <= doy <= 366 ->
  let mp := (5 * doy + 2) / 153 in
  0 <= mp <= 11 /\ 1 <= doy - (153 * mp + 2) / 5 + 1 <= 32.
Proof. intros H. cbv zeta. Z.div_mod_to_equations. lia. Qed.

(** Reading a calendar date back from its parts. *)
Lemma days_of_civil_parts era yoe mp d :
  0 <= yoe < 400 -> 0 <= mp <= 11 ->
  let m := if mp <? 10 then mp + 3 else mp - 9 in
  days_of_civil ((if m <=? 2 then yoe + era * 400 + 1 else yoe + era * 400), m, d) =
  era * 146097 + (yoe * 365 + yoe / 4 - yoe / 100 + ((153 * mp + 2) / 5 + d - 1)) - 719468.
Proof.
  intros Hy Hm. cbv zeta. unfold days_of_civil.
  destruct (Z.ltb_spec mp 10) as [Hlt|Hge].
  - destruct (Z.leb_spec (mp + 3) 2); [lia|]. destruct (Z.ltb_spec 2 (mp + 3)); [|lia].
    rewrite Z.div_add, Z.mod_add, (Z.div_small yoe), (Z.mod_small yoe) by lia.
    by replace (mp + 3 - 3) with mp by lia.
  - destruct (Z.leb_spec (mp - 9) 2); [|lia]. destruct (Z.ltb_spec 2 (mp - 9)); [lia|].
    replace (yoe + era * 400 + 1 - 1) with (yoe + era * 400) by lia.
    rewrite Z.div_add, Z.mod_add, (Z.div_small yoe), (Z.mod_small yoe) by lia.
    by replace (mp - 9 + 9) with mp by lia.
Qed.

Lemma civil_of_days_spec z :
  let '(y, m, d) := civil_of_days z in
  days_of_civil (y, m, d) = z /\ 1 <= m <= 12 /\ 1 <= d <= 32.
Proof.
  unfold civil_of_days. cbv zeta.
  pose proof (Z.mod_pos_bound (z + 719468) 146097 ltac:(lia)) as Hdoe.
  pose proof (year_of_era_range _ Hdoe) as Hy.
  pose proof (day_of_year_range _ Hdoe) as Hdoy. cbv zeta in Hdoy.
  pose proof (month_day_range _ Hdoy) as [Hmp Hd].
  pose proof (Z.div_mod (z + 719468) 146097 ltac:(lia)) as Hz.
  set (doe := (z + 719468) mod 146097) in *.
  set (yoe := (doe - doe / 1460 + doe / 36524 - doe / 146096) / 365) in *.
  set (doy := doe - (365 * yoe + yoe / 4 - yoe / 100)) in *.
  set (mp := (5 * doy + 2) / 153) in *.
  rewrite days_of_civil_parts by done.
  split; [lia|split; [destruct (Z.ltb_spec mp 10); lia|lia]].
Qed.

(** ** RFC 3339 text *)

Definition digit (d : Z) : ascii := byte_of (48 + d).
(** [w] decimal digits, most significant first. *)
Fixpoint dec_digits (w : nat) (z : Z) : bytes :=
  match w with
  | O => []
  | S w => dec_digits w (z / 10) ++ [digit (z mod 10)]
  end.
(** Go's [appendInt]: a sign if negative, at least [w] digits. *)
Definition append_int (x : Z) (w : nat) : bytes :=
  let sign := if x <? 0 then ["-"%char] else [] in
  let a := Z.abs x in
  sign ++ (if a <? 10 ^ Z.of_nat w then dec_digits w a else to_bytes (pretty a)).

(** The fractional second: nothing when it is zero, else a point and nine
    digits without their trailing zeros. *)
Definition is_zero_digit (a : ascii) : bool := bool_decide (a = "0"%char).
Fixpoint drop_zeros (l : bytes) : bytes :=
  match l with
  | [] => []
  | a :: l => if is_zero_digit a then drop_zeros l else a :: l
  end.
Definition fraction (ns : Z) : bytes :=
  if ns =? 0 then [] else "."%char :: reverse (drop_zeros (reverse (dec_digits 9 ns))).
(** [Z07:00]: the offset in minutes, [Z] for UTC. *)
Definition zone (off : Z) : bytes :=
  if off =? 0 then ["Z"%char] else
  let m := Z.abs (Z.quot off 60) in
  (if Z.quot off 60 <? 0 then "-"%char else "+"%char)
  :: dec_digits 2 (m / 60) ++ [":"%char] ++ dec_digits 2 (m mod 60).

(** Date and time of day at the time's own offset. *)
Definition local_seconds (t : Time) : Z := t_ns t / Second + t_off t.
Definition year (t : Time) : Z := (civil_of_days (local_seconds t / 86400)).1.1.

Definition rfc3339_bytes (t : Time) : bytes :=
  let s := local_seconds t in
  let '(y, m, d) := civil_of_days (s / 86400) in
  let sod := s mod 86400 in
  append_int y 4 ++ "-"%char :: dec_digits 2 m ++ "-"%char :: dec_digits 2 d ++
  "T"%char :: dec_digits 2 (sod / 3600) ++ ":"%char :: dec_digits 2 (sod mod 3600 / 60) ++
  ":"%char :: dec_digits 2 (sod mod 60) ++ fraction (t_ns t mod Second) ++ zone (t_off t).
(** [t.Format(time.RFC3339Nano)] *)
Definition format_rfc3339nano (t : Time) : string := of_bytes (rfc3339_bytes t).
(** The text of [Time.MarshalJSON], which rejects years outside 0 to 9999 and
    zone hours of 24 and more. *)
Definition marshal_time (t : Time) : option string :=
  if (0 <=? year t) && (year t <=? 9999) && (Z.abs (Z.quot (t_off t) 60) <? 24 * 60)
  then Some (format_rfc3339nano t) else None.

Example rfc3339_epoch :
  format_rfc3339nano (mkTime 0 0) = "1970-01-01T00:00:00Z".
Proof. vm_compute. reflexivity. Qed.
Example rfc3339_offset :
  format_rfc3339nano (mkTime (1780747200 * Second + 120000000) 7200)
  = "2026-06-06T14:00:00.12+02:00".
Proof. vm_compute. reflexivity. Qed.

(** Times whose text loses nothing: offsets of whole minutes within a day
    (every zone in use today). *)
Definition whole_minute_zone (t : Time) : Prop :=
  t_off t mod 60 = 0 /\ Z.abs (t_off t) < 86400.

Lemma digit_inj a b : 0 <= a < 10 -> 0 <= b < 10 -> digit a = digit b -> a = b.
Proof.
  intros Ha Hb H. apply (f_equal byte_val) in H. unfold digit in H.
  rewrite !byte_val_of in H by lia. lia.
Qed.

Lemma length_dec_digits w z : length (dec_digits w z) = w.
Proof.
  revert z; induction w as [|w IH]; intros z; simpl; [done|].
  rewrite length_app, IH. simpl. lia.
Qed.

Lemma dec_digits_inj w a b :
  0 <= a < 10 ^ Z.of_nat w -> 0 <= b < 10 ^ Z.of_nat w ->
  dec_digits w a = dec_digits w b -> a = b.
Proof.
  revert a b; induction w as [|w IH]; intros a b Ha Hb; simpl.
  { change (10 ^ Z.of_nat 0) with 1 in *. lia. }
  rewrite Nat2Z.inj_succ, Z.pow_succ_r in Ha, Hb by lia.
  intros [Hq Hr]%app_inj_tail.
  apply IH in Hq; [|split; [apply Z.div_pos; lia|apply Z.div_lt_upper_bound; lia]..].
  apply digit_inj in Hr; [|apply Z.mod_pos_bound; lia..].
  rewrite (Z.div_mod a 10), (Z.div_mod b 10) by lia. congruence.
Qed.

Lemma drop_zeros_spec l : exists k, l = replicate k "0"%char ++ drop_zeros l.
Proof.
  induction l as [|a l [k Hk]]; simpl; [by exists 0%nat|].
  unfold is_zero_digit. case_bool_decide as E; [|by exists 0%nat].
  exists (S k). simpl. subst a. by rewrite <-Hk.
Qed.

Lemma drop_zeros_inj l1 l2 :
  length l1 = length l2 -> drop_zeros l1 = drop_zeros l2 -> l1 = l2.
Proof.
  destruct (drop_zeros_spec l1) as [k1 H1], (drop_zeros_spec l2) as [k2 H2].
  intros Hl Hd.
  pose proof (f_equal length H1) as L1. pose proof (f_equal length H2) as L2.
  rewrite length_app, length_replicate in L1, L2. rewrite Hd in L1.
  rewrite H1, H2, Hd. by replace k1 with k2 by lia.
Qed.

Definition fraction_char (a : ascii) : Prop :=
  a = "."%char \/ 48 <= byte_val a < 58.

Lemma dec_digits_chars w z : Forall fraction_char (dec_digits w z).
Proof.
  revert z; induction w as [|w IH]; intros z; simpl; [done|].
  apply Forall_app. split; [apply IH|]. constructor; [|done]. right. unfold digit.
  pose proof (Z.mod_pos_bound z 10). rewrite byte_val_of; lia.
Qed.

Local Opaque dec_digits.

Lemma fraction_inj a b :
  0 <= a < Second -> 0 <= b < Second -> fraction a = fraction b -> a = b.
Proof.
  intros Ha Hb. unfold fraction.
  destruct (Z.eqb_spec a 0), (Z.eqb_spec b 0); try done; [lia|].
  intros [_ H]%cons_eq_split. apply (f_equal reverse) in H. rewrite !reverse_involutive in H.
  apply drop_zeros_inj in H; [|by rewrite !length_reverse, !length_dec_digits].
  apply (f_equal reverse) in H. rewrite !reverse_involutive in H.
  by apply dec_digits_inj in H.
Qed.

Lemma fraction_chars ns : Forall fraction_char (fraction ns).
Proof.
  unfold fraction. destruct (ns =? 0); [done|]. constructor; [by left|].
  apply Forall_reverse. destruct (drop_zeros_spec (reverse (dec_digits 9 ns))) as [k Hk].
  pose proof (dec_digits_chars 9 ns) as H. apply Forall_reverse in H.
  rewrite Hk in H. by apply Forall_app in H as [_ H].
Qed.

Lemma zone_head off x r : zone off = x :: r -> ~ fraction_char x.
Proof.
  unfold zone. destruct (off =? 0); [|destruct (_ <? 0)];
    intros [= <- _] [?|[H1 H2]]; try discriminate;
    apply (Z.lt_irrefl 0); vm_compute in H1, H2; by destruct H1.
Qed.

Lemma zone_inj a b :
  a mod 60 = 0 -> Z.abs a < 86400 -> b mod 60 = 0 -> Z.abs b < 86400 ->
  zone a = zone b -> a = b.
Proof.
  intros Ha Ha' Hb Hb'. unfold zone.
  pose proof (Z.quot_rem' a 60). pose proof (Z.quot_rem' b 60).
  assert (Z.rem a 60 = 0) by (apply Z.rem_mod_eq_0; lia).
  assert (Z.rem b 60 = 0) by (apply Z.rem_mod_eq_0; lia).
  set (x := Z.quot a 60) in *. set (y := Z.quot b 60) in *.
  destruct (Z.eqb_spec a 0), (Z.eqb_spec b 0); [lia| | |].
  1,2: by destruct (_ <? 0).
  intros [Es E]%cons_eq_split.
  apply app_inj_1 in E as [E1 [_ E2]%cons_eq_split]; [|by rewrite !length_dec_digits].
  apply dec_digits_inj in E1; [|Z.div_mod_to_equations; lia..].
  apply dec_digits_inj in E2; [|Z.div_mod_to_equations; lia..].
  assert (Z.abs x = Z.abs y) by (Z.div_mod_to_equations; lia).
  destruct (Z.ltb_spec x 0), (Z.ltb_spec y 0); try discriminate; lia.
Qed.

(** Two fixed-width numbers followed by a separator. *)
Lemma dec_field_inj w a b (c : ascii) l k :
  0 <= a < 10 ^ Z.of_nat w -> 0 <= b < 10 ^ Z.of_nat w ->
  dec_digits w a ++ c :: l = dec_digits w b ++ c :: k -> a = b /\ l = k.
Proof.
  intros Ha Hb E.
  apply app_inj_1 in E as [E [_ ->]%cons_eq_split]; [|by rewrite !length_dec_digits].
  by apply dec_digits_inj in E.
Qed.

Lemma clock_parts s :
  0 <= s < 86400 -> 0 <= s / 3600 < 100 /\ 0 <= s mod 3600 / 60 < 100 /\ 0 <= s mod 60 < 100.
Proof. intros H. Z.div_mod_to_equations. lia. Qed.

Lemma clock_inj s r :
  s / 3600 = r / 3600 -> s mod 3600 / 60 = r mod 3600 / 60 -> s mod 60 = r mod 60 -> s = r.
Proof. intros H1 H2 H3. Z.div_mod_to_equations. lia. Qed.

Lemma div_mod_eq_inj a b n : 0 < n -> a / n = b / n -> a mod n = b mod n -> a = b.
Proof. intros Hn H1 H2. rewrite (Z.div_mod a n), (Z.div_mod b n) by lia. congruence. Qed.

Lemma append_year y : 0 <= y <= 9999 -> append_int y 4 = dec_digits 4 y.
Proof.
  intros Hy. unfold append_int. destruct (Z.ltb_spec y 0); [lia|].
  rewrite Z.abs_eq by lia. by rewrite (proj2 (Z.ltb_lt y _)) by (simpl; lia).
Qed.

(** The tail of the text: fraction and zone. *)
Lemma fraction_zone_inj a b o p :
  0 <= a < Second -> 0 <= b < Second ->
  o mod 60 = 0 -> Z.abs o < 86400 -> p mod 60 = 0 -> Z.abs p < 86400 ->
  fraction a ++ zone o = fraction b ++ zone p -> a = b /\ o = p.
Proof.
  intros Ha Hb Ho1 Ho2 Hp1 Hp2 E.
  apply (app_inj_pred fraction_char) in E as [E7 E8];
    [|apply fraction_chars|apply fraction_chars|apply zone_head|apply zone_head].
  apply fraction_inj in E7; [|done..]. by apply zone_inj in E8.
Qed.

(** The text determines the instant and the zone. *)
Lemma rfc3339_bytes_inj t u :
  whole_minute_zone t -> whole_minute_zone u ->
  0 <= year t <= 9999 -> 0 <= year u <= 9999 ->
  rfc3339_bytes t = rfc3339_bytes u -> t = u.
Proof.
  intros [Zt1 Zt2] [Zu1 Zu2]. unfold year, rfc3339_bytes.
  set (s := local_seconds t). set (r := local_seconds u).
  pose proof (civil_of_days_spec (s / 86400)) as Hs.
  pose proof (civil_of_days_spec (r / 86400)) as Hr.
  destruct (civil_of_days (s / 86400)) as [[y1 m1] d1].
  destruct (civil_of_days (r / 86400)) as [[y2 m2] d2]. simpl.
  destruct Hs as (Hs & Hm1 & Hd1), Hr as (Hr & Hm2 & Hd2). intros Hy1 Hy2.
  rewrite !append_year by done.
  destruct (clock_parts (s mod 86400)) as (A1 & A2 & A3); [by apply Z.mod_pos_bound|].
  destruct (clock_parts (r mod 86400)) as (B1 & B2 & B3); [by apply Z.mod_pos_bound|].
  intros [E1 E]%dec_field_inj; [|simpl; lia..].
  apply dec_field_inj in E as [E2 E]; [|simpl; lia..].
  apply dec_field_inj in E as [E3 E]; [|simpl; lia..].
  apply dec_field_inj in E as [E4 E]; [|simpl; done..].
  apply dec_field_inj in E as [E5 E]; [|simpl; done..].
  apply app_inj_1 in E as [E6 E]; [|by rewrite !length_dec_digits].
  apply dec_digits_inj in E6; [|simpl; done..].
  apply fraction_zone_inj in E as [E7 E8]; [|by try apply Z.mod_pos_bound..].
  pose proof (clock_inj _ _ E4 E5 E6) as Esod.
  assert (s = r) as Esr by (apply (div_mod_eq_inj _ _ 86400); [lia|congruence|done]).
  assert (t_ns t = t_ns u) as Ens.
  { apply (div_mod_eq_inj _ _ Second); [done| |done].
    subst s r. unfold local_seconds in Esr. lia. }
  destruct t, u; simpl in *. congruence.
Qed.

Lemma marshal_time_Some t x :
  marshal_time t = Some x -> 0 <= year t <= 9999 /\ x = of_bytes (rfc3339_bytes t).
Proof.
  unfold marshal_time. destruct (_ && _ && _) eqn:Et; [|done]. intros [= <-].
  split; [lia|done].
Qed.

Lemma marshal_time_inj t u x :
  whole_minute_zone t -> whole_minute_zone u ->
  marshal_time t = Some x -> marshal_time u = Some x -> t = u.
Proof.
  intros Zt Zu [Yt ->]%marshal_time_Some [Yu E]%marshal_time_Some.
  apply of_bytes_inj in E. by apply rfc3339_bytes_inj.
Qed.

(** The error of [MarshalJSON] is exactly the documented one. *)
Lemma marshal_time_total t :
  0 <= year t <= 9999 -> whole_minute_zone t ->
  marshal_time t = Some (format_rfc3339nano t).
Proof.
  intros Hy [H1 H2]. unfold marshal_time. rewrite !andb_true_intro; [done|].
  split; [lia|]. assert (Z.abs (Z.quot (t_off t) 60) < 24 * 60); [|lia].
  rewrite <-Z.quot_abs by lia. Z.quot_rem_to_equations. lia.
Qed.

(** [t.Format("2006-01-02T15:04:05.999Z07:00")]: the fraction is cut to
    milliseconds. *)
Definition format_rfc3339milli (t : Time) : string :=
  format_rfc3339nano (mkTime (t_ns t - t_ns t mod Millisecond) (t_off t)).
