(* ===== verification/GoFloat.v ===== *)
(** Go's [float64]: IEEE 754 binary64 numbers, with the operations the program
    uses ([time.Duration.Seconds], comparison, conversion to [int]). *)

From Stdlib Require Import SpecFloat.
From S2P Require Import Prelude GoTime.
Local Open Scope Z_scope.

Abbreviation float64 := spec_float.

(** [float64(z)] on an integer. *)
Definition float_of_int (z : Z) : float64 := binary_normalize 53 1024 z 0 false.
Definition float_add (x y : float64) : float64 := SFadd 53 1024 x y.
Definition float_mul (x y : float64) : float64 := SFmul 53 1024 x y.
Definition float_div (x y : float64) : float64 := SFdiv 53 1024 x y.
Definition float_lt (x y : float64) : bool := SFltb x y.

(** [Duration.Seconds] *)
Definition Seconds (d : Z) : float64 :=
  let sec := Z.quot d Second in
  let nsec := Z.rem d Second in
  float_add (float_of_int sec) (float_div (float_of_int nsec) (float_of_int 1000000000)).

(** [int(f)]: the value without its fraction.  Outside the range of [int] the
    result is up to the implementation: amd64 gives the least integer. *)
Definition int_of_float (f : float64) : Z :=
  match f with
  | S754_zero _ => 0
  | S754_finite s m e =>
      let v := Z.quot ((if s then Z.opp else id) (Z.pos m) * 2 ^ Z.max 0 e) (2 ^ Z.max 0 (- e)) in
      if (int64_min <=? v) && (v <=? int64_max) then v else int64_min
  | S754_infinity _ | S754_nan => int64_min
  end.

Example Seconds_half : Seconds 1500000000 = S754_finite false 6755399441055744 (-52).
Proof. vm_compute. reflexivity. Qed.

Example int_of_float_neg : int_of_float (Seconds (-2500000000)) = -2.
Proof. vm_compute. reflexivity. Qed.
