(* ===== verification/GoStrings.v ===== *)
(** The functions of Go's [strings] package that the broker calls, on byte
    lists, and the facts about splitting and joining used by the subjects,
    the issuer map, the client address and the go.mod parser. *)

From S2P Require Import Prelude.

(** ** On bytes *)

(** The parts of [l] between the bytes [c] ([strings.Split] by one byte):
    never empty, one more part than separators. *)
Fixpoint split_on (c : ascii) (l : bytes) : list bytes :=
  match l with
  | [] => [[]]
  | a :: l =>
      if decide (a = c) then [] :: split_on c l
      else match split_on c l with
           | [] => [[a]]
           | p :: ps => (a :: p) :: ps
           end
  end.
(** Everything before the first [c], and what follows it ([IndexByte],
    [SplitN] with limit 2). *)
Fixpoint cut (c : ascii) (l : bytes) : option (bytes * bytes) :=
  match l with
  | [] => None
  | a :: l => if decide (a = c) then Some ([], l)
              else '(p, r) ← cut c l; Some (a :: p, r)
  end.
(** The same at the last [c] ([LastIndex]). *)
Fixpoint cut_last (c : ascii) (l : bytes) : option (bytes * bytes) :=
  match l with
  | [] => None
  | a :: l => match cut_last c l with
              | Some (p, r) => Some (a :: p, r)
              | None => if decide (a = c) then Some ([], l) else None
              end
  end.
Fixpoint strip_prefix (p l : bytes) : option bytes :=
  match p, l with
  | [], _ => Some l
  | a :: p, b :: l => if decide (a = b) then strip_prefix p l else None
  | _ :: _, [] => None
  end.
(** White space of [TrimSpace] and [Fields] among the ASCII bytes. *)
Definition is_space (a : ascii) : bool :=
  bool_decide (a ∈ [" "%char; "009"%char; "010"%char; "011"%char; "012"%char; "013"%char]).
Fixpoint trim_left (l : bytes) : bytes :=
  match l with
  | [] => []
  | a :: l => if is_space a then trim_left l else a :: l
  end.
Definition trim_space (l : bytes) : bytes := reverse (trim_left (reverse (trim_left l))).
(** Maximal runs of non-space bytes. *)
Fixpoint fields (l : bytes) : list bytes :=
  match l with
  | [] => []
  | a :: l =>
      if is_space a then fields l
      else match l with
           | b :: _ => if is_space b then [a] :: fields l
                       else match fields l with
                            | [] => [[a]]
                            | p :: ps => (a :: p) :: ps
                            end
           | [] => [[a]]
           end
  end.

(** ** On strings *)

Definition Split (s : string) (c : ascii) : list string := of_bytes <$> split_on c (to_bytes s).
Definition HasPrefix (s p : string) : bool :=
  bool_decide (is_Some (strip_prefix (to_bytes p) (to_bytes s))).
Definition TrimPrefix (s p : string) : string :=
  of_bytes (default (to_bytes s) (strip_prefix (to_bytes p) (to_bytes s))).
Definition TrimSpace (s : string) : string := of_bytes (trim_space (to_bytes s)).
Definition Fields (s : string) : list string := of_bytes <$> fields (to_bytes s).
Fixpoint Join (l : list string) (sep : string) : string :=
  match l with
  | [] => ""
  | [s] => s
  | s :: l => s +:+ sep +:+ Join l sep
  end.
(** [IndexByte] as the pair of slices around it. *)
Definition Cut (s : string) (c : ascii) : option (string * string) :=
  '(p, r) ← cut c (to_bytes s); Some (of_bytes p, of_bytes r).
Definition CutLast (s : string) (c : ascii) : option (string * string) :=
  '(p, r) ← cut_last c (to_bytes s); Some (of_bytes p, of_bytes r).

(** [c] does not occur in [s]. *)
Definition lacks (c : ascii) (s : string) : Prop := c ∉ to_bytes s.
#[export] Instance lacks_dec c s : Decision (lacks c s).
Proof. unfold lacks. apply _. Defined.

Lemma split_on_app c p l :
  c ∉ p -> split_on c (p ++ c :: l) = p :: split_on c l.
Proof.
  induction p as [|a p IH]; simpl; intros H.
  - by rewrite decide_True.
  - apply not_elem_of_cons in H as [Ha Hp]. rewrite decide_False by congruence.
    by rewrite IH.
Qed.

Lemma split_on_end c p : c ∉ p -> split_on c p = [p].
Proof.
  induction p as [|a p IH]; simpl; intros H; [done|].
  apply not_elem_of_cons in H as [Ha Hp]. rewrite decide_False by congruence.
  by rewrite IH.
Qed.

Lemma cut_app c p l : c ∉ p -> cut c (p ++ c :: l) = Some (p, l).
Proof.
  induction p as [|a p IH]; simpl; intros H.
  - by rewrite decide_True.
  - apply not_elem_of_cons in H as [Ha Hp]. rewrite decide_False by congruence.
    by rewrite IH.
Qed.

Lemma cut_none c l : c ∉ l -> cut c l = None.
Proof.
  induction l as [|a l IH]; [done|]. intros Hn. apply not_elem_of_cons in Hn as [Ha Hl]. cbn.
  rewrite decide_False by done. by rewrite IH.
Qed.

Lemma cut_last_none c l : c ∉ l -> cut_last c l = None.
Proof.
  induction l as [|a l IH]; simpl; intros H; [done|].
  apply not_elem_of_cons in H as [Ha Hl]. rewrite IH by done.
  by rewrite decide_False by congruence.
Qed.

Lemma cut_last_app c p l : c ∉ l -> cut_last c (p ++ c :: l) = Some (p, l).
Proof.
  intros H. induction p as [|a p IH]; simpl.
  - rewrite cut_last_none by done. by rewrite decide_True.
  - by rewrite IH.
Qed.

Lemma CutLast_app c p r : lacks c r -> CutLast (p +:+ String c r) c = Some (p, r).
Proof.
  intros H. unfold CutLast. rewrite to_bytes_app. change (to_bytes (String c r)) with
    (c :: to_bytes r). rewrite cut_last_app by done. simpl. by rewrite !of_to_bytes.
Qed.

Lemma Cut_app c p r : lacks c p -> Cut (p +:+ String c r) c = Some (p, r).
Proof.
  intros H. unfold Cut. rewrite to_bytes_app. change (to_bytes (String c r)) with
    (c :: to_bytes r). rewrite cut_app by done. simpl. by rewrite !of_to_bytes.
Qed.

Lemma HasPrefix_char (c : ascii) a s : HasPrefix (String a s) (String c "") = bool_decide (a = c).
Proof.
  unfold HasPrefix. simpl. apply bool_decide_ext. case_decide as H; split.
  - by intros _.
  - by eexists.
  - by intros [].
  - by intros ->.
Qed.

Lemma cut_last_is_Some c l : c ∈ l -> is_Some (cut_last c l).
Proof.
  induction l as [|a l IH]; simpl; [by intros ?%elem_of_nil|]. intros [->|H]%elem_of_cons.
  - destruct (cut_last _ _) as [[]|]; [by eexists|]. rewrite decide_True by done. by eexists.
  - destruct (IH H) as [[p r] ->]. by eexists.
Qed.

Lemma Split_app c p r : lacks c p -> Split (p +:+ String c r) c = p :: Split r c.
Proof.
  intros H. unfold Split. rewrite to_bytes_app.
  change (to_bytes (String c r)) with (c :: to_bytes r).
  rewrite split_on_app by done. cbn. by rewrite of_to_bytes.
Qed.

Lemma Split_end c p : lacks c p -> Split p c = [p].
Proof. intros H. unfold Split. rewrite split_on_end by done. cbn. by rewrite of_to_bytes. Qed.

(** ** [strconv.Atoi] *)

Definition digit_val (a : ascii) : option Z :=
  let v := (byte_val a - 48)%Z in
  if (0 <=? v)%Z && (v <=? 9)%Z then Some v else None.
Fixpoint parse_digits (l : bytes) (acc : Z) : option Z :=
  match l with
  | [] => Some acc
  | a :: l => d ← digit_val a; parse_digits l (acc * 10 + d)%Z
  end.
(** An optional sign and decimal digits, in the range of [int]. *)
Definition Atoi (s : string) : option Z :=
  let '(neg, ds) :=
    match to_bytes s with
    | a :: l => if decide (a = "-"%char) then (true, l)
                else if decide (a = "+"%char) then (false, l) else (false, a :: l)
    | [] => (false, [])
    end in
  match ds with
  | [] => None
  | _ =>
      n ← parse_digits ds 0;
      let z := if (neg : bool) then (- n)%Z else n in
      if (int64_min <=? z)%Z && (z <=? int64_max)%Z then Some z else None
  end.

Example Atoi_ex : Atoi "60" = Some 60%Z /\ Atoi "-7" = Some (-7)%Z /\ Atoi "6x" = None /\
  Atoi "" = None /\ Atoi "9223372036854775808" = None.
Proof. by vm_compute. Qed.
