(* ===== verification/Protocol.v ===== *)
(** The Hanko v0.1 wire types and sentinel errors (protocol/types.go).

    A Go slice or map that may be nil is an [option]: nil and empty are
    different values for [encoding/json]. *)

From S2P Require Import Prelude GoTime.

Definition Version : string := "hanko/v0.1".

(** A possibly nil slice, and its elements as [range] sees them. *)
Definition slice (A : Type) : Type := option (list A).
Definition elems {A} (s : slice A) : list A := default [] s.

Record Sigil := mkSigil {
  sg_ID : string;
  sg_Subject : string;
  sg_PublicKey : slice ascii;
  sg_CreatedAt : Time;
  sg_ExpiresAt : option Time;
  sg_Metadata : option (gmap string string)
}.

Record CapabilityToken := mkCap {
  cap_ID : string;
  cap_SigilID : string;
  cap_Scope : string;
  cap_IssuedAt : Time;
  cap_ExpiresAt : Time;
  cap_Nonce : slice ascii
}.

Record AttestationEnvelope := mkEnvelope {
  env_Version : string;
  env_SigilID : string;
  env_Caps : slice CapabilityToken;
  env_Issuer : string;
  env_IssuedAt : Time;
  env_ExpiresAt : Time;
  env_Signature : slice ascii
}.

Record RevocationEntry := mkRevocation {
  rev_ID : string;
  rev_TargetType : string;
  rev_Reason : string;
  rev_RevokedAt : Time;
  rev_RevokedBy : string
}.

(** [RevocationList]: its [Entries]. *)
Definition RevocationList : Type := list RevocationEntry.

#[export] Instance Sigil_eq_dec : EqDecision Sigil.
Proof. solve_decision. Defined.
#[export] Instance CapabilityToken_eq_dec : EqDecision CapabilityToken.
Proof. solve_decision. Defined.
#[export] Instance AttestationEnvelope_eq_dec : EqDecision AttestationEnvelope.
Proof. solve_decision. Defined.
#[export] Instance RevocationEntry_eq_dec : EqDecision RevocationEntry.
Proof. solve_decision. Defined.

(** ** Errors *)

Record VerifyError := mkVerifyError { Code : string; Message : string }.
#[export] Instance VerifyError_eq_dec : EqDecision VerifyError.
Proof. solve_decision. Defined.
Definition VerifyError_Error (e : VerifyError) : string :=
  Code e +:+ ": " +:+ Message e.

Definition ErrSignatureInvalid : VerifyError := mkVerifyError "signature_invalid"
  "attestation signature does not match canonical JSON body".
Definition ErrSigilRevoked : VerifyError := mkVerifyError "sigil_revoked"
  "sigil has been revoked".
Definition ErrCapRevoked : VerifyError := mkVerifyError "cap_revoked"
  "capability token has been revoked".
Definition ErrCapExpired : VerifyError := mkVerifyError "capability_expired"
  "capability token is expired".
Definition ErrNonceReplayed : VerifyError := mkVerifyError "nonce_replayed"
  "capability token nonce has already been used".
Definition ErrReplayAttack : VerifyError := mkVerifyError "replay_attack"
  "nonce already consumed — concurrent or replayed attestation rejected".
Definition ErrScopeMismatch : VerifyError := mkVerifyError "scope_mismatch"
  "capability token scope does not cover the requested action".
Definition ErrScopeUnknown : VerifyError := mkVerifyError "unknown_scope_rejected"
  "capability token scope is not recognized by this consumer".

(** How a call ends when it does not return a value: a Go [error] (a sentinel,
    a formatted message, or a [%w] wrapping whose text is the prefix followed
    by the wrapped text), or a run-time panic, which no caller wraps. *)
Inductive error : Type :=
| ErrVerify (e : VerifyError)
| ErrStr (msg : string)
| ErrWrap (prefix : string) (inner : error)
| Panic (msg : string).
#[export] Instance error_eq_dec : EqDecision error.
Proof. solve_decision. Defined.

Fixpoint Error (e : error) : string :=
  match e with
  | ErrVerify v => VerifyError_Error v
  | ErrStr m => m
  | ErrWrap p e => p +:+ Error e
  | Panic m => m
  end.

(** [fmt.Errorf("...: %w", err)]: errors are wrapped, panics unwind. *)
Definition Errorf_w (prefix : string) (e : error) : error :=
  match e with Panic m => Panic m | _ => ErrWrap prefix e end.
(** A caller that answers any error of a call with its own [e']. *)
Definition replace_err (e' : error) (e : error) : error :=
  match e with Panic m => Panic m | _ => e' end.

Abbreviation res A := (result error A).
