(* ===== verification/Json.v ===== *)
(** [encoding/json] on the generic values of the signing path, and
    [CanonicalJSON] / [marshalCanonical] (crypto/ed25519.go).

    A generic value is what [json.Unmarshal] stores in an [any].  An object
    is its entries in some iteration order: Go map iteration is unordered, so
    nothing may depend on that order ([marshalCanonical_order]).  A number is
    represented by the literal Go prints for its [float64]. *)

From Stdlib Require Wf_nat.
From S2P Require Import Prelude GoBytes GoTime Protocol.
Local Open Scope Z_scope.

Inductive json : Type :=
| JNull
| JBool (b : bool)
| JNumber (lit : string)
| JString (s : string)
| JArray (l : list json)
| JObject (m : list (string * json)).

(** Induction with hypotheses for the elements and entries. *)
Lemma json_rect' (P : json -> Prop) :
  P JNull -> (forall b, P (JBool b)) -> (forall n, P (JNumber n)) ->
  (forall s, P (JString s)) ->
  (forall l, Forall P l -> P (JArray l)) ->
  (forall m, Forall (fun kv => P kv.2) m -> P (JObject m)) ->
  forall v, P v.
Proof.
  intros Hn Hb Hnum Hs Ha Ho. fix IH 1.
  intros [|b|n|s|l|m]; [exact Hn|apply Hb|apply Hnum|apply Hs|apply Ha|apply Ho].
  - induction l as [|v l IHl]; constructor; [apply IH|exact IHl].
  - induction m as [|[k v] m IHm]; constructor; [apply IH|exact IHm].
Qed.

(** ** Strings *)

Definition quote_char : ascii := "034".
Definition backslash : ascii := "\"%char.

(** One decoding step of [utf8.DecodeRuneInString]: an ASCII byte, a valid
    multi-byte sequence, or one byte of an invalid one. *)
Inductive rune : Type :=
| RAscii (a : ascii)
| RMulti (l : bytes)
| RInvalid (a : ascii).

Definition in_range (a : ascii) (lo hi : Z) : bool :=
  (lo <=? byte_val a) && (byte_val a <=? hi).
Definition is_cont (a : ascii) : bool := in_range a 128 191.
(** The accepted range of the second byte, by the first (Go's [acceptRanges]),
    and the length of the sequence; length 0 for a byte that starts none. *)
Definition utf8_first (a : ascii) : nat * Z * Z :=
  let v := byte_val a in
  if in_range a 194 223 then (2%nat, 128, 191)
  else if v =? 224 then (3%nat, 160, 191)
  else if v =? 237 then (3%nat, 128, 159)
  else if in_range a 225 239 then (3%nat, 128, 191)
  else if v =? 240 then (4%nat, 144, 191)
  else if in_range a 241 243 then (4%nat, 128, 191)
  else if v =? 244 then (4%nat, 128, 143)
  else (0%nat, 0, 0).

Fixpoint decode_runes (l : bytes) : list rune :=
  match l with
  | [] => []
  | a :: l1 =>
      if byte_val a <? 128 then RAscii a :: decode_runes l1 else
      let '(n, lo, hi) := utf8_first a in
      match n, l1 with
      | 2%nat, b :: l2 =>
          if in_range b lo hi then RMulti [a; b] :: decode_runes l2
          else RInvalid a :: decode_runes l1
      | 3%nat, b :: c :: l3 =>
          if in_range b lo hi && is_cont c then RMulti [a; b; c] :: decode_runes l3
          else RInvalid a :: decode_runes l1
      | 4%nat, b :: c :: d :: l4 =>
          if in_range b lo hi && is_cont c && is_cont d
          then RMulti [a; b; c; d] :: decode_runes l4
          else RInvalid a :: decode_runes l1
      | _, _ => RInvalid a :: decode_runes l1
      end
  end.

Definition replacement : bytes := [byte_of 239; byte_of 191; byte_of 189].
Definition line_sep : bytes := [byte_of 226; byte_of 128; byte_of 168].
Definition para_sep : bytes := [byte_of 226; byte_of 128; byte_of 169].

(** Go's [appendString] with HTML escaping, one rune at a time. *)
Definition escape_ascii (a : ascii) : bytes :=
  let v := byte_val a in
  if (v =? 34) || (v =? 92) then [backslash; a]
  else if v =? 8 then to_bytes "\b"
  else if v =? 12 then to_bytes "\f"
  else if v =? 10 then to_bytes "\n"
  else if v =? 13 then to_bytes "\r"
  else if v =? 9 then to_bytes "\t"
  else if (v <? 32) || (v =? 60) || (v =? 62) || (v =? 38)
  then to_bytes "\u00" ++ hex_byte a
  else [a].
Definition escape_rune (r : rune) : bytes :=
  match r with
  | RAscii a => escape_ascii a
  | RMulti l =>
      if decide (l = line_sep) then to_bytes "\u2028"
      else if decide (l = para_sep) then to_bytes "\u2029"
      else l
  | RInvalid _ => to_bytes "\ufffd"
  end.
(** [json.Marshal] of a string. *)
Definition quote (s : string) : bytes :=
  quote_char :: (decode_runes (to_bytes s) ≫= escape_rune) ++ [quote_char].

(** The string [json.Unmarshal] gives back: invalid bytes are replaced. *)
Definition rune_bytes (r : rune) : bytes :=
  match r with
  | RAscii a => [a]
  | RMulti l => l
  | RInvalid _ => replacement
  end.
Definition to_valid_utf8 (s : string) : string :=
  of_bytes (decode_runes (to_bytes s) ≫= rune_bytes).
Definition valid_rune (r : rune) : bool :=
  match r with RInvalid _ => false | _ => true end.
(** [utf8.ValidString] *)
Definition valid_utf8 (s : string) : bool :=
  forallb valid_rune (decode_runes (to_bytes s)).

Example quote_ex :
  of_bytes (quote "a<b>&c") = String quote_char ("a\u003cb\u003e\u0026c" +:+ String quote_char "").
Proof. vm_compute. reflexivity. Qed.

(** ** Reading a quoted string back *)

(** What a [\u] escape of the encoder stands for. *)
Definition unescape_u (h : bytes) : option bytes :=
  if decide (h = to_bytes "2028") then Some line_sep
  else if decide (h = to_bytes "2029") then Some para_sep
  else if decide (h = to_bytes "fffd") then Some replacement
  else match h with
       | z1 :: z2 :: h => if decide (z1 = "0"%char /\ z2 = "0"%char)
                          then hex_decode_bytes h else None
       | _ => None
       end.
Definition unescape_char (c : ascii) : option ascii :=
  let v := byte_val c in
  if (v =? 34) || (v =? 92) then Some c
  else if decide (c = "b"%char) then Some (byte_of 8)
  else if decide (c = "f"%char) then Some (byte_of 12)
  else if decide (c = "n"%char) then Some (byte_of 10)
  else if decide (c = "r"%char) then Some (byte_of 13)
  else if decide (c = "t"%char) then Some (byte_of 9)
  else None.
(** The contents up to the closing quote, and what follows it. *)
Fixpoint unquote (l : bytes) : option (bytes * bytes) :=
  match l with
  | [] => None
  | a :: l =>
      if decide (a = quote_char) then Some ([], l)
      else if decide (a = backslash) then
        match l with
        | c :: l =>
            match unescape_char c, l with
            | Some x, _ => '(s, r) ← unquote l; Some (x :: s, r)
            | None, h1 :: h2 :: h3 :: h4 :: l =>
                if decide (c = "u"%char) then
                  x ← unescape_u [h1; h2; h3; h4];
                  '(s, r) ← unquote l; Some (x ++ s, r)
                else None
            | _, _ => None
            end
        | [] => None
        end
      else '(s, r) ← unquote l; Some (a :: s, r)
  end.

Definition prepend (x : bytes) (o : option (bytes * bytes)) : option (bytes * bytes) :=
  '(s, r) ← o; Some (x ++ s, r).

(** Runes as the decoder produces them. *)
Definition rune_wf (r : rune) : Prop :=
  match r with
  | RAscii a => byte_val a < 128
  | RMulti l => Forall (fun a => 128 <= byte_val a) l
  | RInvalid _ => True
  end.

Lemma in_range_high a lo hi : 128 <= lo -> in_range a lo hi = true -> 128 <= byte_val a.
Proof. unfold in_range. lia. Qed.

Lemma utf8_first_range a n lo hi :
  utf8_first a = (n, lo, hi) -> n = 0%nat \/ 128 <= lo.
Proof.
  unfold utf8_first. intros H. repeat case_match; injection H as <- <- <-; lia.
Qed.

Lemma decode_runes_wf l : Forall rune_wf (decode_runes l).
Proof.
  induction l as [l IH] using (Wf_nat.induction_ltof1 _ length).
  unfold Wf_nat.ltof in IH. destruct l as [|a l1]; simpl; [constructor|].
  destruct (Z.ltb_spec (byte_val a) 128) as [Ha|Ha]; [constructor; [exact Ha|apply IH; simpl; lia]|].
  destruct (utf8_first a) as [[n lo] hi] eqn:E. apply utf8_first_range in E.
  destruct n as [|[|[|[|[|n]]]]]; try (constructor; [exact I|apply IH; simpl; lia]).
  - destruct l1 as [|b l2]; [constructor; [exact I|constructor]|].
    destruct (in_range b lo hi) eqn:Eb; [|constructor; [exact I|apply IH; simpl; lia]].
    apply in_range_high in Eb; [|lia]. constructor; [|apply IH; simpl; lia]. by repeat constructor.
  - destruct l1 as [|b [|c l3]]; try (constructor; [exact I|apply IH; simpl; lia]).
    destruct (_ && _) eqn:Eb; [|constructor; [exact I|apply IH; simpl; lia]].
    apply andb_true_iff in Eb as [Eb Ec].
    apply in_range_high in Eb; [|lia]. apply in_range_high in Ec; [|lia].
    constructor; [|apply IH; simpl; lia]. by repeat constructor.
  - destruct l1 as [|b [|c [|d l4]]]; try (constructor; [exact I|apply IH; simpl; lia]).
    destruct (_ && _ && _) eqn:Eb; [|constructor; [exact I|apply IH; simpl; lia]].
    apply andb_true_iff in Eb as [[Eb Ec]%andb_true_iff Ed].
    apply in_range_high in Eb; [|lia]. apply in_range_high in Ec; [|lia].
    apply in_range_high in Ed; [|lia].
    constructor; [|apply IH; simpl; lia]. by repeat constructor.
Qed.

Lemma unquote_plain a l :
  128 <= byte_val a -> unquote (a :: l) = prepend [a] (unquote l).
Proof.
  intros Ha. simpl. rewrite !decide_False.
  - by destruct (unquote l) as [[s r]|].
  - intros ->. vm_compute in Ha. congruence.
  - intros ->. vm_compute in Ha. congruence.
Qed.

Lemma unquote_ascii a l :
  byte_val a < 128 -> unquote (escape_ascii a ++ l) = prepend [a] (unquote l).
Proof.
  intros Ha.
  destruct a as [[] [] [] [] [] [] [] []]; try (exfalso; vm_compute in Ha; congruence);
    match goal with |- context [escape_ascii ?a] =>
      let e := eval vm_compute in (escape_ascii a) in
      change (escape_ascii a) with e end;
    simpl; by destruct (unquote l) as [[s r]|].
Qed.

Lemma unquote_u h1 h2 h3 h4 x l :
  unescape_u [h1; h2; h3; h4] = Some x ->
  unquote (backslash :: "u"%char :: h1 :: h2 :: h3 :: h4 :: l) = prepend x (unquote l).
Proof.
  intros H.
  change (unquote (backslash :: "u"%char :: h1 :: h2 :: h3 :: h4 :: l)) with
    (x ← unescape_u [h1; h2; h3; h4]; '(s, r) ← unquote l; Some (x ++ s, r)).
  by rewrite H.
Qed.

Lemma prepend_prepend x y o : prepend x (prepend y o) = prepend (x ++ y) o.
Proof. destruct o as [[s r]|]; simpl; [|done]. by rewrite (assoc_L (++)). Qed.

Lemma unquote_rune r l :
  rune_wf r -> unquote (escape_rune r ++ l) = prepend (rune_bytes r) (unquote l).
Proof.
  destruct r as [a|m|a]; cbn [escape_rune rune_bytes rune_wf]; intros Hr.
  - by apply unquote_ascii.
  - repeat case_decide; subst; [by apply unquote_u..|].
    repeat match goal with H : m <> _ |- _ => clear H end.
    induction Hr as [|a m Ha Hm IH]; [simpl; by destruct (unquote l) as [[s r]|]|].
    change ((a :: m) ++ l) with (a :: (m ++ l)). rewrite unquote_plain, IH by done.
    by rewrite prepend_prepend.
  - by apply unquote_u.
Qed.

(** [json.Unmarshal] of [json.Marshal] of a string: the string with its
    invalid bytes replaced, and the text that followed it. *)
Lemma unquote_quote s r :
  unquote (tail (quote s) ++ r) = Some (to_bytes (to_valid_utf8 s), r).
Proof.
  unfold quote, to_valid_utf8. rewrite to_of_bytes. cbn [tail].
  pose proof (decode_runes_wf (to_bytes s)) as H.
  induction H as [|x l Hx Hl IH]; [done|]. rewrite !bind_cons.
  rewrite <-app_assoc in IH. rewrite <-!app_assoc. by rewrite unquote_rune, IH.
Qed.

Lemma decode_runes_bytes l :
  forallb valid_rune (decode_runes l) = true -> decode_runes l ≫= rune_bytes = l.
Proof.
  induction l as [l IH] using (Wf_nat.induction_ltof1 _ length).
  unfold Wf_nat.ltof in IH. destruct l as [|a l1]; simpl; [done|].
  destruct (byte_val a <? 128); [simpl; intros H; f_equal; apply IH; simpl; auto; lia|].
  destruct (utf8_first a) as [[n lo] hi].
  destruct n as [|[|[|[|[|n]]]]]; try done.
  - destruct l1 as [|b l2]; [done|]. destruct (in_range _ _ _); [|done].
    simpl. intros H. do 2 f_equal. apply IH; simpl; auto; lia.
  - destruct l1 as [|b [|c l3]]; try done. destruct (_ && _); [|done].
    simpl. intros H. do 3 f_equal. apply IH; simpl; auto; lia.
  - destruct l1 as [|b [|c [|d l4]]]; try done. destruct (_ && _ && _); [|done].
    simpl. intros H. do 4 f_equal. apply IH; simpl; auto; lia.
Qed.

Lemma to_valid_utf8_id s : valid_utf8 s = true -> to_valid_utf8 s = s.
Proof.
  intros H. unfold to_valid_utf8. rewrite decode_runes_bytes by done. apply of_to_bytes.
Qed.

(** Quoted strings are self-delimiting. *)
Lemma quote_app_inj s1 s2 r1 r2 :
  quote s1 ++ r1 = quote s2 ++ r2 ->
  to_valid_utf8 s1 = to_valid_utf8 s2 /\ r1 = r2.
Proof.
  intros H. change (quote s1) with (quote_char :: tail (quote s1)) in H.
  change (quote s2) with (quote_char :: tail (quote s2)) in H.
  apply cons_eq_split in H as [_ H]. apply (f_equal unquote) in H.
  rewrite !unquote_quote in H. injection H as H ->. split; [by apply to_bytes_inj|done].
Qed.
