(* ===== verification/Canonical.v ===== *)
(** [CanonicalJSON] and [marshalCanonical] (crypto/ed25519.go): the bytes that
    are signed.  The output does not depend on the iteration order of Go maps,
    and on well-formed values it determines the value. *)

From S2P Require Import Prelude GoBytes GoTime Protocol Json.
Local Open Scope Z_scope.

(** Index of a Go map given by its entries. *)
Fixpoint assoc_get {V} (m : list (string * V)) (k : string) : option V :=
  match m with
  | [] => None
  | (k', v) :: m => if decide (k' = k) then Some v else assoc_get m k
  end.

(** Items appended one after the other, a comma before each but the first. *)
Definition join_comma (items : list bytes) : bytes :=
  match items with
  | [] => []
  | x :: items => x ++ (items ≫= cons ","%char)
  end.

(** Object keys are collected, sorted and looked up; arrays keep their order;
    everything else is [json.Marshal].  No case can fail on a generic value:
    the error returns of the Go code are for types that [Unmarshal] never
    produces. *)
Fixpoint marshalCanonical (v : json) : bytes :=
  match v with
  | JObject m =>
      let rendered := map (fun kv => (kv.1, marshalCanonical kv.2)) m in
      let keys := sort_strings (map fst m) in
      "{"%char :: join_comma
        (map (fun k => quote k ++ ":"%char :: default [] (assoc_get rendered k)) keys)
      ++ ["}"%char]
  | JArray l => "["%char :: join_comma (map marshalCanonical l) ++ ["]"%char]
  | JNull => to_bytes "null"
  | JBool true => to_bytes "true"
  | JBool false => to_bytes "false"
  | JNumber lit => to_bytes lit
  | JString s => quote s
  end.

(** [json.Marshal] then [json.Unmarshal] of a generic value: invalid bytes of
    strings and keys are replaced; [Marshal] writes the entries in key order,
    so of two keys that become equal the last one in that order is kept. *)
Definition keep_last {V} (m : list (string * V)) : list (string * V) :=
  foldr (fun e acc => if bool_decide (e.1 ∈ map fst acc) then acc else e :: acc) [] m.
Fixpoint json_roundtrip (v : json) : json :=
  match v with
  | JObject m =>
      let entries := map (fun kv => (kv.1, json_roundtrip kv.2)) m in
      let sorted := omap (fun k => pair (to_valid_utf8 k) <$> assoc_get entries k)
                         (sort_strings (map fst m)) in
      JObject (keep_last sorted)
  | JArray l => JArray (map json_roundtrip l)
  | JString s => JString (to_valid_utf8 s)
  | v => v
  end.

Definition CanonicalJSON (v : json) : res bytes :=
  Ok (marshalCanonical (json_roundtrip v)).

(** ** Well-formed values *)

Definition number_char (a : ascii) : bool :=
  in_range a 48 57 || bool_decide (a ∈ to_bytes "-+.eE").
Definition number_lit (s : string) : bool :=
  match to_bytes s with
  | [] => false
  | a :: l => (in_range a 48 57 || bool_decide (a = "-"%char)) && forallb number_char l
  end.
(** What [Unmarshal] can produce: valid strings, number literals, and objects
    whose keys are distinct. *)
Fixpoint json_wf (v : json) : bool :=
  match v with
  | JNull | JBool _ => true
  | JNumber lit => number_lit lit
  | JString s => valid_utf8 s
  | JArray l => forallb json_wf l
  | JObject m => bool_decide (NoDup (map fst m)) &&
                 forallb (fun kv => valid_utf8 kv.1 && json_wf kv.2) m
  end.

(** The same value with every object's entries in key order. *)
Fixpoint canon (v : json) : json :=
  match v with
  | JObject m =>
      let entries := map (fun kv => (kv.1, canon kv.2)) m in
      JObject (map (fun k => (k, default JNull (assoc_get entries k)))
                   (sort_strings (map fst m)))
  | JArray l => JArray (map canon l)
  | v => v
  end.

(** Serialization that keeps the entries' order. *)
Fixpoint render (v : json) : bytes :=
  match v with
  | JObject m =>
      "{"%char :: join_comma (map (fun kv => quote kv.1 ++ ":"%char :: render kv.2) m)
      ++ ["}"%char]
  | JArray l => "["%char :: join_comma (map render l) ++ ["]"%char]
  | JNull => to_bytes "null"
  | JBool true => to_bytes "true"
  | JBool false => to_bytes "false"
  | JNumber lit => to_bytes lit
  | JString s => quote s
  end.

Section assoc.
Context {V : Type}.
Implicit Types (m : list (string * V)) (k : string).

Lemma assoc_get_Some_In m k v : assoc_get m k = Some v -> (k, v) ∈ m.
Proof.
  induction m as [|[k' v'] m IH]; simpl; [done|].
  case_decide as E; [intros [= ->]; subst; by left|]. intros H. right. auto.
Qed.

Lemma assoc_get_In m k v : NoDup (map fst m) -> (k, v) ∈ m -> assoc_get m k = Some v.
Proof.
  induction m as [|[k' v'] m IH]; simpl; [by intros _ ?%elem_of_nil|].
  intros [Hk Hm]%NoDup_cons [[= -> ->]|Hin]%elem_of_cons.
  - by rewrite decide_True.
  - rewrite decide_False; [by apply IH|]. intros ->. apply Hk.
    apply list_elem_of_fmap. by exists (k, v).
Qed.

Lemma assoc_get_is_Some m k : k ∈ map fst m -> is_Some (assoc_get m k).
Proof.
  induction m as [|[k' v'] m IH]; simpl; [by intros ?%elem_of_nil|].
  case_decide as E; [eauto|]. intros [->|H]%elem_of_cons; [done|auto].
Qed.

Lemma assoc_get_perm m1 m2 k :
  NoDup (map fst m1) -> m1 ≡ₚ m2 -> assoc_get m1 k = assoc_get m2 k.
Proof.
  intros Hnd Hp. assert (NoDup (map fst m2)) as Hnd2 by (by rewrite <-Hp).
  destruct (assoc_get m1 k) as [v|] eqn:E1.
  - apply assoc_get_Some_In in E1. rewrite Hp in E1. by rewrite (assoc_get_In m2 k v).
  - destruct (assoc_get m2 k) as [v|] eqn:E2; [|done].
    apply assoc_get_Some_In in E2. rewrite <-Hp in E2.
    by rewrite (assoc_get_In m1 k v) in E1.
Qed.

Lemma assoc_get_map {W} (f : V -> W) m k :
  assoc_get (map (fun kv => (kv.1, f kv.2)) m) k = f <$> assoc_get m k.
Proof.
  induction m as [|[k' v'] m IH]; simpl; [done|]. by case_decide.
Qed.
End assoc.

Lemma map_fst_map {V W} (f : V -> W) (m : list (string * V)) :
  map fst (map (fun kv => (kv.1, f kv.2)) m) = map fst m.
Proof. rewrite map_map. by apply map_ext. Qed.

(** ** The output is order-independent *)

(** Two values that differ only in the iteration order of one object. *)
Inductive reordered : json -> json -> Prop :=
| reordered_here m1 m2 :
    NoDup (map fst m1) -> m1 ≡ₚ m2 -> reordered (JObject m1) (JObject m2)
| reordered_elem l1 l2 v w :
    reordered v w -> reordered (JArray (l1 ++ v :: l2)) (JArray (l1 ++ w :: l2))
| reordered_entry m1 m2 k v w :
    reordered v w ->
    reordered (JObject (m1 ++ (k, v) :: m2)) (JObject (m1 ++ (k, w) :: m2)).

Lemma marshalCanonical_perm m1 m2 :
  NoDup (map fst m1) -> m1 ≡ₚ m2 ->
  marshalCanonical (JObject m1) = marshalCanonical (JObject m2).
Proof.
  intros Hnd Hp. cbn [marshalCanonical].
  rewrite (sort_strings_Permutation (map fst m1) (map fst m2)) by (by rewrite Hp).
  do 3 f_equal. apply map_ext. intros k. do 3 f_equal.
  by rewrite !assoc_get_map, (assoc_get_perm m1 m2).
Qed.

Lemma marshalCanonical_reordered v w :
  reordered v w -> marshalCanonical v = marshalCanonical w.
Proof.
  induction 1 as [m1 m2|l1 l2 v w H IH|m1 m2 k v w H IH].
  - by apply marshalCanonical_perm.
  - cbn [marshalCanonical]. by rewrite !map_app, !map_cons, IH.
  - cbn [marshalCanonical]. rewrite !map_app, !map_cons. cbn [fst snd]. by rewrite IH.
Qed.

(** ** The output determines the value *)

Lemma marshalCanonical_render v : marshalCanonical v = render (canon v).
Proof.
  induction v as [| | | |l IH|m IH] using json_rect'; try done.
  - cbn [marshalCanonical canon render]. do 3 f_equal. rewrite map_map.
    apply map_ext_Forall. exact IH.
  - cbn [marshalCanonical canon render]. do 3 f_equal. rewrite map_map.
    apply map_ext_in. intros k Hk. cbn [fst snd]. do 2 f_equal.
    rewrite !assoc_get_map. rewrite <-list_elem_of_In, sort_strings_perm in Hk.
    destruct (assoc_get_is_Some m k Hk) as [v Hv]. rewrite Hv. simpl.
    rewrite Forall_forall in IH. apply (IH (k, v)). by apply assoc_get_Some_In.
Qed.

(** What can follow a value inside a document. *)
Definition delimiter (a : ascii) : Prop := a = ","%char \/ a = "]"%char \/ a = "}"%char.
Definition delimited (r : bytes) : Prop := forall a r', r = a :: r' -> delimiter a.

(** The first byte tells the kind of value. *)
Definition kind (v : json) : Z :=
  match v with
  | JNull => 0 | JBool true => 1 | JBool false => 2 | JNumber _ => 3
  | JString _ => 4 | JArray _ => 5 | JObject _ => 6
  end.
Definition kind_of_byte (a : ascii) : Z :=
  if decide (a = "n"%char) then 0 else if decide (a = "t"%char) then 1
  else if decide (a = "f"%char) then 2 else if decide (a = quote_char) then 4
  else if decide (a = "["%char) then 5 else if decide (a = "{"%char) then 6
  else if decide (a = "]"%char) then 7 else if decide (a = "}"%char) then 7 else 3.

Lemma number_start_kind a :
  in_range a 48 57 || bool_decide (a = "-"%char) = true -> kind_of_byte a = 3.
Proof. by destruct a as [[] [] [] [] [] [] [] []]. Qed.

Lemma render_head v :
  json_wf v = true -> exists a l, render v = a :: l /\ kind_of_byte a = kind v.
Proof.
  destruct v as [|[]|lit|s|l|m]; intros Hwf; [by eexists _, _..| | | |].
  - simpl in *. unfold number_lit in Hwf. destruct (to_bytes lit) as [|a l]; [done|].
    apply andb_true_iff in Hwf as [H _]. exists a, l. split; [done|].
    by apply number_start_kind.
  - exists quote_char, (tail (quote s)). by split.
  - exists "["%char, (join_comma (map render l) ++ ["]"%char]). by split.
  - by eexists "{"%char, _.
Qed.

(** The unambiguity of one value, against every other. *)
Definition unambiguous (v : json) : Prop :=
  json_wf v = true -> forall w r1 r2, json_wf w = true ->
  delimited r1 -> delimited r2 -> render v ++ r1 = render w ++ r2 -> v = w /\ r1 = r2.

Lemma delimited_cons a r : delimiter a -> delimited (a :: r).
Proof. by intros H ? ? [= <- _]. Qed.

(** Comma-separated items closed by [c]. *)
Lemma items_inj {A} (f : A -> bytes) (c : ascii) (l1 l2 : list A) r1 r2 :
  delimiter c -> c <> ","%char ->
  Forall (fun x => forall y s1 s2, y ∈ l2 -> delimited s1 -> delimited s2 ->
          f x ++ s1 = f y ++ s2 -> x = y /\ s1 = s2) l1 ->
  (map f l1 ≫= cons ","%char) ++ c :: r1 = (map f l2 ≫= cons ","%char) ++ c :: r2 ->
  l1 = l2 /\ r1 = r2.
Proof.
  intros Hd Hc H1. revert l2 H1. induction l1 as [|x l1 IH]; intros [|y l2] H1; simpl.
  - by intros [= ->].
  - intros [? _]%cons_eq_split. done.
  - intros [? _]%cons_eq_split. done.
  - rewrite <-!app_assoc. intros [_ E]%cons_eq_split. inversion_clear H1 as [|?? Hx H1'].
    assert (forall l r, delimited ((map f l ≫= cons ","%char) ++ c :: r)) as Hdel.
    { intros [|z l] r; simpl; apply delimited_cons; [done|by left]. }
    apply Hx in E as [-> E]; [|by left|apply Hdel|apply Hdel].
    apply IH in E as [-> ->]; [done|].
    eapply Forall_impl; [exact H1'|]. intros z Hz w s1 s2 Hw. apply Hz. by right.
Qed.

Lemma join_comma_inj {A} (f : A -> bytes) (c : ascii) (l1 l2 : list A) r1 r2 :
  delimiter c -> c <> ","%char ->
  Forall (fun x => forall y s1 s2, y ∈ l2 -> delimited s1 -> delimited s2 ->
          f x ++ s1 = f y ++ s2 -> x = y /\ s1 = s2) l1 ->
  (forall x, x ∈ l1 ++ l2 -> exists a l, f x = a :: l /\ a <> c) ->
  join_comma (map f l1) ++ c :: r1 = join_comma (map f l2) ++ c :: r2 ->
  l1 = l2 /\ r1 = r2.
Proof.
  intros Hd Hc H1 Hh. destruct l1 as [|x l1], l2 as [|y l2]; simpl.
  - by intros [= ->].
  - destruct (Hh y) as (a & l & -> & Ha); [by left|]. by intros [? _]%cons_eq_split.
  - destruct (Hh x) as (a & l & -> & Ha); [by left|]. by intros [? _]%cons_eq_split.
  - rewrite <-!app_assoc. intros E. inversion_clear H1 as [|?? Hx H1'].
    assert (forall l r, delimited ((map f l ≫= cons ","%char) ++ c :: r)) as Hdel.
    { intros [|z l] r; simpl; apply delimited_cons; [done|by left]. }
    apply Hx in E as [-> E]; [|by left|apply Hdel|apply Hdel].
    apply items_inj in E as [-> ->]; [done..|].
    eapply Forall_impl; [exact H1'|]. intros z Hz w s1 s2 Hw. apply Hz. by right.
Qed.

Lemma forallb_elem {A} (f : A -> bool) l x : forallb f l = true -> x ∈ l -> f x = true.
Proof. rewrite forallb_forall. intros H Hx. apply H. by apply list_elem_of_In. Qed.

Lemma number_char_not_delimiter a : number_char a = true -> ~ delimiter a.
Proof.
  intros Ha Hd. destruct Hd as [->|[->| ->]]; vm_compute in Ha; congruence.
Qed.

Lemma number_unambiguous n1 n2 r1 r2 :
  number_lit n1 = true -> number_lit n2 = true -> delimited r1 -> delimited r2 ->
  to_bytes n1 ++ r1 = to_bytes n2 ++ r2 -> n1 = n2 /\ r1 = r2.
Proof.
  assert (forall n, number_lit n = true ->
          Forall (fun a => number_char a = true) (to_bytes n)) as Hall.
  { intros n. unfold number_lit. destruct (to_bytes n) as [|a l]; [done|].
    intros [Ha Hl]%andb_true_iff. constructor.
    - unfold number_char. destruct (in_range a 48 57); [done|].
      apply bool_decide_eq_true in Ha as ->. done.
    - apply Forall_forall. intros x. by apply forallb_elem. }
  intros H1 H2 D1 D2 E.
  apply (app_inj_pred (fun a => number_char a = true)) in E as [E ->];
    [split; [by apply to_bytes_inj|done]|by apply Hall|by apply Hall| |].
  - intros x r -> Hx. by apply (number_char_not_delimiter x Hx), (D1 x r).
  - intros x r -> Hx. by apply (number_char_not_delimiter x Hx), (D2 x r).
Qed.

Lemma render_not_close v :
  json_wf v = true -> exists a l, render v = a :: l /\ a <> "]"%char.
Proof.
  intros Hv. destruct (render_head v Hv) as (a & l & Hl & Ha). exists a, l.
  split; [done|]. intros ->. by destruct v as [|[]| | | |].
Qed.

(** A value that renders like [v] is of the same kind. *)
Lemma same_kind v w r1 r2 :
  json_wf v = true -> json_wf w = true -> render v ++ r1 = render w ++ r2 ->
  kind v = kind w.
Proof.
  intros Hv Hw E. destruct (render_head v Hv) as (a & l & Hl & <-).
  destruct (render_head w Hw) as (b & k & Hk & <-). rewrite Hl, Hk in E.
  by apply cons_eq_split in E as [-> _].
Qed.

Lemma array_unambiguous l : Forall unambiguous l -> unambiguous (JArray l).
Proof.
  intros IH Hwf w r1 r2 Hw _ _ E. pose proof (same_kind _ _ _ _ Hwf Hw E) as Hk.
  destruct w as [|[]| | |l2|]; try discriminate.
  cbn [render] in E. rewrite <-!app_comm_cons, <-!app_assoc in E.
  apply cons_eq_split in E as [_ E].
  cbn [json_wf] in Hwf, Hw.
  apply join_comma_inj in E as [-> ->]; [done|by right; left|done| |].
  - rewrite Forall_forall in IH |- *. intros x Hx y s1 s2 Hy.
    apply IH; eauto using forallb_elem.
  - intros x [Hx|Hx]%elem_of_app; apply render_not_close; eauto using forallb_elem.
Qed.

Lemma object_unambiguous m :
  Forall (fun kv => unambiguous kv.2) m -> unambiguous (JObject m).
Proof.
  intros IH Hwf w r1 r2 Hw _ _ E. pose proof (same_kind _ _ _ _ Hwf Hw E) as Hk.
  destruct w as [|[]| | | |m2]; try discriminate.
  cbn [render] in E. rewrite <-!app_comm_cons, <-!app_assoc in E.
  apply cons_eq_split in E as [_ E].
  cbn [json_wf] in Hwf, Hw. apply andb_true_iff in Hwf as [_ Hwf], Hw as [_ Hw].
  apply join_comma_inj in E as [-> ->]; [done|by right; right|done| |].
  - rewrite Forall_forall in IH |- *. intros [k v] Hx [k2 v2] s1 s2 Hy D1 D2 E'.
    apply (forallb_elem _ _ _ Hwf) in Hx as Hx'. apply andb_true_iff in Hx' as [Hk1 Hv1].
    apply (forallb_elem _ _ _ Hw) in Hy as Hy'. apply andb_true_iff in Hy' as [Hk2 Hv2].
    cbn [fst snd] in *. rewrite <-!app_assoc, <-!app_comm_cons in E'.
    apply quote_app_inj in E' as [Eq [_ E']%cons_eq_split].
    rewrite !to_valid_utf8_id in Eq by done.
    pose proof (IH (k, v) Hx) as U. cbn [snd] in U.
    destruct (U Hv1 v2 _ _ Hv2 D1 D2 E') as [-> ->]. by subst.
  - intros x _. by eexists quote_char, _.
Qed.

Lemma render_unambiguous v : unambiguous v.
Proof.
  induction v as [|b|n|s|l IH|m IH] using json_rect';
    [..|by apply array_unambiguous|by apply object_unambiguous];
    intros Hwf w r1 r2 Hw D1 D2 E; pose proof (same_kind _ _ _ _ Hwf Hw E) as Hk.
  - destruct w as [|[]| | | |]; try discriminate. split; [done|]. by injection E.
  - destruct b, w as [|[]| | | |]; try discriminate; (split; [done|]; by injection E).
  - destruct w as [|[]|n2| | |]; try discriminate.
    apply number_unambiguous in E as [-> ->]; done.
  - destruct w as [|[]| |s2| |]; try discriminate. cbn [render json_wf] in *.
    apply quote_app_inj in E as [E ->]. rewrite !to_valid_utf8_id in E by done.
    by subst.
Qed.

Lemma render_inj v w :
  json_wf v = true -> json_wf w = true -> render v = render w -> v = w.
Proof.
  intros Hv Hw E. apply (render_unambiguous v Hv w [] []); [done|done|done|].
  by rewrite !app_nil_r.
Qed.

Lemma canon_wf v : json_wf v = true -> json_wf (canon v) = true.
Proof.
  induction v as [| | | |l IH|m IH] using json_rect'; try done; cbn [json_wf canon].
  - rewrite !forallb_forall. intros H x Hx. apply in_map_iff in Hx as (y & <- & Hy).
    rewrite Forall_forall in IH. apply IH; [by apply list_elem_of_In|]. by apply H.
  - intros [Hnd Hall]%andb_true_iff. apply bool_decide_eq_true in Hnd.
    rewrite map_map, map_id. rewrite bool_decide_eq_true_2 by (by rewrite sort_strings_perm).
    simpl. rewrite forallb_forall. intros [k v] Hk.
    apply in_map_iff in Hk as (k' & [= -> <-] & Hk).
    rewrite <-list_elem_of_In, sort_strings_perm in Hk.
    destruct (assoc_get_is_Some m k Hk) as [v Hv]. rewrite assoc_get_map, Hv. simpl.
    apply assoc_get_Some_In in Hv. rewrite Forall_forall in IH.
    apply (forallb_elem _ _ _ Hall) in Hv as Hv'. apply andb_true_iff in Hv' as [Hk' Hv'].
    apply andb_true_iff. split; [done|]. by apply (IH (k, v)).
Qed.

(** Values that serialize to the same bytes are the same value, up to the
    order of object entries. *)
Lemma marshalCanonical_inj v w :
  json_wf v = true -> json_wf w = true ->
  marshalCanonical v = marshalCanonical w -> canon v = canon w.
Proof.
  intros Hv Hw. rewrite !marshalCanonical_render. apply render_inj; by apply canon_wf.
Qed.

(** ** The JSON round trip inside [CanonicalJSON] *)

Lemma sort_strings_idemp l : sort_strings (sort_strings l) = sort_strings l.
Proof. apply sort_strings_Permutation, sort_strings_perm. Qed.

Lemma keep_last_id {V} (m : list (string * V)) : NoDup (map fst m) -> keep_last m = m.
Proof.
  induction m as [|[k v] m IH]; [done|]. simpl. intros [Hk Hm]%NoDup_cons.
  rewrite IH by done. by rewrite bool_decide_eq_false_2.
Qed.

Lemma omap_all {A B} (f : A -> option B) (g : A -> B) l :
  (forall x, x ∈ l -> f x = Some (g x)) -> omap f l = map g l.
Proof.
  induction l as [|x l IH]; intros H; [done|].
  cbn. rewrite H by (by left). f_equal. apply IH. intros y Hy. apply H. by right.
Qed.

(** On a well-formed value, [Unmarshal] after [Marshal] gives the value back
    with its entries in key order. *)
Lemma json_roundtrip_canon v : json_wf v = true -> json_roundtrip v = canon v.
Proof.
  induction v as [| | |s|l IH|m IH] using json_rect'; try done; cbn [json_wf].
  - intros Hs. cbn. by rewrite to_valid_utf8_id.
  - intros H. cbn. f_equal. apply map_ext_in. intros x Hx%list_elem_of_In.
    rewrite Forall_forall in IH. apply IH; [done|]. by apply (forallb_elem _ _ _ H).
  - intros [Hnd Hall]%andb_true_iff. apply bool_decide_eq_true in Hnd.
    cbn [json_roundtrip canon]. f_equal. rewrite Forall_forall in IH.
    rewrite (omap_all _ (fun k => (k, default JNull (assoc_get (map (fun kv => (kv.1, canon kv.2)) m) k)))).
    + apply keep_last_id. rewrite map_map, map_id. by rewrite sort_strings_perm.
    + intros k Hk. rewrite sort_strings_perm in Hk.
      destruct (assoc_get_is_Some m k Hk) as [v Hv]. rewrite !assoc_get_map, Hv. simpl.
      apply assoc_get_Some_In in Hv.
      apply (forallb_elem _ _ _ Hall) in Hv as Hv'. apply andb_true_iff in Hv' as [Hk' Hv'].
      rewrite to_valid_utf8_id by done. do 2 f_equal. by apply (IH (k, v)).
Qed.

Lemma assoc_get_keys {V} (f : string -> V) keys k :
  k ∈ keys -> assoc_get (map (fun k => (k, f k)) keys) k = Some (f k).
Proof.
  induction keys as [|k' keys IH]; [by intros ?%elem_of_nil|]. simpl.
  case_decide as E; [by subst|]. intros [->|H]%elem_of_cons; [done|auto].
Qed.

Lemma canon_idemp v : canon (canon v) = canon v.
Proof.
  induction v as [| | | |l IH|m IH] using json_rect'; try done.
  - cbn [canon]. f_equal. rewrite map_map. by apply map_ext_Forall.
  - cbn [canon]. f_equal. rewrite !map_map, map_id, sort_strings_idemp. cbn [fst snd].
    apply map_ext_in. intros k Hk%list_elem_of_In. f_equal.
    rewrite (assoc_get_keys (fun k => canon (default JNull (assoc_get
      (map (fun kv => (kv.1, canon kv.2)) m) k)))) by done.
    rewrite sort_strings_perm in Hk. rewrite assoc_get_map.
    destruct (assoc_get_is_Some m k Hk) as [v Hv]. rewrite Hv. simpl.
    rewrite Forall_forall in IH. apply (IH (k, v)). by apply assoc_get_Some_In.
Qed.

Lemma CanonicalJSON_wf v :
  json_wf v = true -> CanonicalJSON v = Ok (marshalCanonical v).
Proof.
  intros Hv. unfold CanonicalJSON. rewrite json_roundtrip_canon by done.
  by rewrite !marshalCanonical_render, canon_idemp.
Qed.

Lemma CanonicalJSON_inj v w :
  json_wf v = true -> json_wf w = true ->
  CanonicalJSON v = CanonicalJSON w -> canon v = canon w.
Proof.
  intros Hv Hw. rewrite !CanonicalJSON_wf by done. intros [= E].
  by apply marshalCanonical_inj.
Qed.
