(* ===== verification/JsonText.v ===== *)
(** JSON text as [encoding/json] reads and writes it: [Marshal],
    [MarshalIndent], the scanner, and the unquoting of string literals.

    A parsed value keeps the text of its string literals, as the Go decoder
    does until it knows the type of the target; [cook] unquotes them.  Object
    keys are unquoted at once.  The parser is recursive descent on fuel;
    [parse_fuel] shows that any amount above twice the length of the input
    gives the same answer. *)

From S2P Require Import Prelude GoBytes GoStrings GoTime Protocol Json Canonical.
Local Open Scope Z_scope.

(** ** Writing *)

(** With a line break (and indentation) before every element, and a space
    after colons; [Marshal] uses none of either. *)
Fixpoint render_with (nl : nat -> bytes) (sp : bytes) (d : nat) (v : json) : bytes :=
  match v with
  | JObject [] => to_bytes "{}"
  | JObject m =>
      "{"%char :: join_comma (map (fun kv => nl (S d) ++ quote kv.1 ++ ":"%char :: sp ++
                                             render_with nl sp (S d) kv.2) m)
      ++ nl d ++ ["}"%char]
  | JArray [] => to_bytes "[]"
  | JArray l =>
      "["%char :: join_comma (map (fun x => nl (S d) ++ render_with nl sp (S d) x) l)
      ++ nl d ++ ["]"%char]
  | JNull => to_bytes "null"
  | JBool true => to_bytes "true"
  | JBool false => to_bytes "false"
  | JNumber lit => to_bytes lit
  | JString s => quote s
  end.
Definition newline : ascii := "010".
(** [json.MarshalIndent(v, "", "  ")] *)
Definition marshal_indent (v : json) : bytes :=
  render_with (fun d => newline :: mjoin (replicate d [" "%char; " "%char])) [" "%char] 0 v.

(** ** String literals *)

Definition is_hex (a : ascii) : bool := in_range a 48 57 || in_range a 97 102 || in_range a 65 70.
Definition hex_value (a : ascii) : Z :=
  let v := byte_val a in
  if in_range a 48 57 then v - 48 else if in_range a 97 102 then v - 87 else v - 55.
Definition simple_escape (c : ascii) : bool :=
  bool_decide (c ∈ ["b"; "f"; "n"; "r"; "t"; "/"; "\"; quote_char]%char).

(** The text up to the closing quote, validated, and what follows. *)
Fixpoint scan_string (l : bytes) : option (bytes * bytes) :=
  match l with
  | [] => None
  | a :: l =>
      if decide (a = quote_char) then Some ([], l)
      else if decide (a = backslash) then
        match l with
        | [] => None
        | c :: l1 =>
            if simple_escape c then prepend [a; c] (scan_string l1)
            else if decide (c = "u"%char) then
              match l1 with
              | h1 :: h2 :: h3 :: h4 :: l2 =>
                  if is_hex h1 && is_hex h2 && is_hex h3 && is_hex h4
                  then prepend [a; c; h1; h2; h3; h4] (scan_string l2) else None
              | _ => None
              end
            else None
        end
      else if byte_val a <? 32 then None
      else prepend [a] (scan_string l)
  end.

(** [utf8.AppendRune] *)
Definition utf8_encode (r : Z) : bytes :=
  if r <? 128 then [byte_of r]
  else if r <? 2048 then [byte_of (192 + r / 64); byte_of (128 + r mod 64)]
  else if r <? 65536 then
    [byte_of (224 + r / 4096); byte_of (128 + r / 64 mod 64); byte_of (128 + r mod 64)]
  else [byte_of (240 + r / 262144); byte_of (128 + r / 4096 mod 64);
        byte_of (128 + r / 64 mod 64); byte_of (128 + r mod 64)].

(** The character of a one-letter escape. *)
Definition escape_value (c : ascii) : ascii :=
  if decide (c = "b"%char) then byte_of 8
  else if decide (c = "f"%char) then byte_of 12
  else if decide (c = "n"%char) then byte_of 10
  else if decide (c = "r"%char) then byte_of 13
  else if decide (c = "t"%char) then byte_of 9
  else c.
Definition hex4 (h1 h2 h3 h4 : ascii) : Z :=
  ((hex_value h1 * 16 + hex_value h2) * 16 + hex_value h3) * 16 + hex_value h4.
Definition is_surrogate (r : Z) : bool := (55296 <=? r) && (r <? 57344).
(** [utf16.DecodeRune], when the two are a pair. *)
Definition surrogate_pair (r1 r2 : Z) : option Z :=
  if (55296 <=? r1) && (r1 <? 56320) && (56320 <=? r2) && (r2 <? 57344)
  then Some ((r1 - 55296) * 1024 + (r2 - 56320) + 65536) else None.

(** [unquoteBytes]: the runes of a validated literal to the string's bytes. *)
Fixpoint unescape (l : list rune) : bytes :=
  match l with
  | [] => []
  | RAscii a :: l0 =>
      if decide (a <> backslash) then a :: unescape l0 else
      match l0 with
      | RAscii c :: l1 =>
          if decide (c <> "u"%char) then escape_value c :: unescape l1 else
          match l1 with
          | RAscii h1 :: RAscii h2 :: RAscii h3 :: RAscii h4 :: l2 =>
              let r := hex4 h1 h2 h3 h4 in
              if negb (is_surrogate r) then utf8_encode r ++ unescape l2 else
              match l2 with
              | RAscii b :: RAscii u :: RAscii g1 :: RAscii g2 :: RAscii g3 :: RAscii g4 :: l3 =>
                  match (if decide (b = backslash /\ u = "u"%char)
                         then surrogate_pair r (hex4 g1 g2 g3 g4) else None) with
                  | Some p => utf8_encode p ++ unescape l3
                  | None => replacement ++ unescape l2
                  end
              | _ => replacement ++ unescape l2
              end
          | _ => []
          end
      | _ => []
      end
  | r :: l => rune_bytes r ++ unescape l
  end.
Definition unquote_literal (raw : string) : string :=
  of_bytes (unescape (decode_runes (to_bytes raw))).

(** ** Numbers *)

Definition is_digit (a : ascii) : bool := in_range a 48 57.
Fixpoint span_digits (l : bytes) : bytes * bytes :=
  match l with
  | a :: l' => if is_digit a then let '(ds, r) := span_digits l' in (a :: ds, r) else ([], l)
  | [] => ([], [])
  end.
(** One or more digits. *)
Definition scan_digits (l : bytes) : option (bytes * bytes) :=
  match span_digits l with ([], _) => None | x => Some x end.
Definition scan_integer (l : bytes) : option (bytes * bytes) :=
  match l with
  | a :: l' => if decide (a = "0"%char) then Some (["0"%char], l') else scan_digits l
  | [] => None
  end.
Definition scan_fraction (l : bytes) : option (bytes * bytes) :=
  match l with
  | a :: l' => if decide (a = "."%char) then prepend ["."%char] (scan_digits l') else Some ([], l)
  | [] => Some ([], [])
  end.
Definition scan_exponent (l : bytes) : option (bytes * bytes) :=
  match l with
  | a :: l' =>
      if decide (a = "e"%char \/ a = "E"%char) then
        match l' with
        | s :: l'' => if decide (s = "+"%char \/ s = "-"%char)
                      then prepend [a; s] (scan_digits l'') else prepend [a] (scan_digits l')
        | [] => None
        end
      else Some ([], l)
  | [] => Some ([], [])
  end.
Definition scan_number (l : bytes) : option (bytes * bytes) :=
  let '(sign, l) := match l with
                    | a :: l' => if decide (a = "-"%char) then ([a], l') else ([], l)
                    | [] => ([], [])
                    end in
  '(int, l) ← scan_integer l;
  '(frac, l) ← scan_fraction l;
  '(exp, l) ← scan_exponent l;
  Some (sign ++ int ++ frac ++ exp, l).

(** ** Values *)

Definition is_ws (a : ascii) : bool := bool_decide (a ∈ [" "; "009"; "010"; "013"]%char).
Fixpoint skip_ws (l : bytes) : bytes :=
  match l with
  | a :: l' => if is_ws a then skip_ws l' else l
  | [] => []
  end.


Definition scan_literal (lit : string) (v : json) (l : bytes) : option (json * bytes) :=
  r ← strip_prefix (to_bytes lit) l; Some (v, r).
(** A value that is neither an object nor an array. *)
Definition parse_scalar (a : ascii) (l : bytes) : option (json * bytes) :=
  if decide (a = quote_char) then '(raw, r) ← scan_string l; Some (JString (of_bytes raw), r)
  else if decide (a = "t"%char) then scan_literal "rue" (JBool true) l
  else if decide (a = "f"%char) then scan_literal "alse" (JBool false) l
  else if decide (a = "n"%char) then scan_literal "ull" JNull l
  else '(lit, r) ← scan_number (a :: l); Some (JNumber (of_bytes lit), r).

(** [d] is how many more containers may be opened. *)
Fixpoint parse_value (fuel : nat) (d : Z) (l : bytes) : option (json * bytes) :=
  match fuel with
  | O => None
  | S fuel =>
      match skip_ws l with
      | [] => None
      | a :: l =>
          if decide (a = "{"%char) then
            if d <=? 0 then None else
            match skip_ws l with
            | b :: l' => if decide (b = "}"%char) then Some (JObject [], l')
                         else '(m, r) ← parse_members fuel (d - 1) l; Some (JObject m, r)
            | [] => None
            end
          else if decide (a = "["%char) then
            if d <=? 0 then None else
            match skip_ws l with
            | b :: l' => if decide (b = "]"%char) then Some (JArray [], l')
                         else '(es, r) ← parse_elements fuel (d - 1) l; Some (JArray es, r)
            | [] => None
            end
          else parse_scalar a l
      end
  end
with parse_members (fuel : nat) (d : Z) (l : bytes) : option (list (string * json) * bytes) :=
  match fuel with
  | O => None
  | S fuel =>
      match skip_ws l with
      | [] => None
      | q :: l =>
          if decide (q <> quote_char) then None else
          '(raw, r) ← scan_string l;
          match skip_ws r with
          | [] => None
          | c :: r =>
              if decide (c <> ":"%char) then None else
              '(v, r) ← parse_value fuel d r;
              let kv := (unquote_literal (of_bytes raw), v) in
              match skip_ws r with
              | [] => None
              | c :: r =>
                  if decide (c = "}"%char) then Some ([kv], r)
                  else if decide (c = ","%char) then
                    '(m, r) ← parse_members fuel d r; Some (kv :: m, r)
                  else None
              end
          end
      end
  end
with parse_elements (fuel : nat) (d : Z) (l : bytes) : option (list json * bytes) :=
  match fuel with
  | O => None
  | S fuel =>
      '(v, r) ← parse_value fuel d l;
      match skip_ws r with
      | [] => None
      | c :: r =>
          if decide (c = "]"%char) then Some ([v], r)
          else if decide (c = ","%char) then
            '(es, r) ← parse_elements fuel d r; Some (v :: es, r)
          else None
      end
  end.

(** Go's [maxNestingDepth]. *)
Definition max_depth : Z := 10000.
(** The first value of the text and what follows it ([Decoder.Decode]). *)
Definition parse_first (l : bytes) : option (json * bytes) :=
  parse_value (S (2 * length l)) max_depth l.
(** [json.Unmarshal]: one value, then only white space. *)
Definition parse_text (l : bytes) : option json :=
  '(v, r) ← parse_first l; match skip_ws r with [] => Some v | _ => None end.

(** The value with its string literals unquoted. *)
Fixpoint cook (v : json) : json :=
  match v with
  | JString raw => JString (unquote_literal raw)
  | JArray l => JArray (map cook l)
  | JObject m => JObject (map (fun kv => (kv.1, cook kv.2)) m)
  | v => v
  end.

(** [json.Unmarshal] and [Decoder.Decode] up to the target's type. *)
Definition unmarshal_json (l : bytes) : option json := cook <$> parse_text l.
Definition decode_json (l : bytes) : option json := (fun vr => cook vr.1) <$> parse_first l.

(** [io.LimitReader]: the first [n] bytes. *)
Fixpoint limit_reader (n : Z) (l : bytes) : bytes :=
  match l with
  | [] => []
  | a :: l => if n <=? 0 then [] else a :: limit_reader (n - 1) l
  end.

Definition q1 : string := String quote_char "".
Example parse_ex :
  cook <$> parse_text (to_bytes (" { " +:+ q1 +:+ "a\u00e9" +:+ q1 +:+ " : [1.5e+3, true ,null],"
     +:+ q1 +:+ "b" +:+ q1 +:+ ":" +:+ q1 +:+ "\ud83d\ude00" +:+ q1 +:+ "} "))
  = Some (JObject [("aé", JArray [JNumber "1.5e+3"; JBool true; JNull]); ("b", JString "😀")]).
Proof. vm_compute. reflexivity. Qed.
Example parse_bad : forallb (fun s => bool_decide (parse_text (to_bytes s) = None))
  ["01"; "1."; "[1,]"; "{,}"; "[1 2]"; "tru"; "nullx"; "1 2"; ""; "-"; "1e"; "[" ] = true.
Proof. vm_compute. reflexivity. Qed.

(** ** Fuel *)

Lemma length_skip_ws l : (length (skip_ws l) <= length l)%nat.
Proof. induction l as [|a l IH]; simpl; [done|]. destruct (is_ws a); simpl; lia. Qed.

Lemma prepend_Some x o s r :
  prepend x o = Some (s, r) -> exists s', o = Some (s', r) /\ s = x ++ s'.
Proof. unfold prepend. destruct o as [[s' r']|]; simpl; [|done]. intros [= <- <-]. eauto. Qed.

(** A literal and the rest make up the input. *)
Lemma scan_string_app l raw r :
  scan_string l = Some (raw, r) -> l = raw ++ quote_char :: r.
Proof.
  revert raw. induction l as [l IH] using (Wf_nat.induction_ltof1 _ length).
  unfold Wf_nat.ltof in IH. intros raw. destruct l as [|a l]; simpl; [done|].
  case_decide as Eq; [intros [= <- <-]; by subst|].
  case_decide as Eb.
  - destruct l as [|c l1]; [done|]. destruct (simple_escape c).
    { intros (s & Hs & ->)%prepend_Some. apply IH in Hs; [|simpl; lia]. by subst. }
    case_decide; [|done]. destruct l1 as [|h1 [|h2 [|h3 [|h4 l2]]]]; try done.
    destruct (_ && _ && _ && _); [|done].
    intros (s & Hs & ->)%prepend_Some. apply IH in Hs; [|simpl; lia]. by subst.
  - destruct (_ <? _); [done|].
    intros (s & Hs & ->)%prepend_Some. apply IH in Hs; [|simpl; lia]. by subst.
Qed.

Lemma span_digits_app l : l = (span_digits l).1 ++ (span_digits l).2.
Proof.
  induction l as [|a l IH]; simpl; [done|]. destruct (is_digit a); [|done].
  destruct (span_digits l) as [ds r]. simpl in *. by rewrite IH.
Qed.

Lemma scan_digits_app l ds r : scan_digits l = Some (ds, r) -> l = ds ++ r /\ ds <> [].
Proof.
  unfold scan_digits. pose proof (span_digits_app l) as H.
  destruct (span_digits l) as [[|d ds'] r']; [done|]. by intros [= <- <-].
Qed.

Lemma scan_integer_app l ds r : scan_integer l = Some (ds, r) -> l = ds ++ r /\ ds <> [].
Proof.
  unfold scan_integer. destruct l as [|a l]; [done|].
  case_decide; [intros [= <- <-]; by subst|]. apply scan_digits_app.
Qed.

Lemma scan_fraction_app l ds r : scan_fraction l = Some (ds, r) -> l = ds ++ r.
Proof.
  unfold scan_fraction. destruct l as [|a l]; [by intros [= <- <-]|].
  case_decide; [|by intros [= <- <-]].
  intros (s & [-> _]%scan_digits_app & ->)%prepend_Some. by subst.
Qed.

Lemma scan_exponent_app l ds r : scan_exponent l = Some (ds, r) -> l = ds ++ r.
Proof.
  unfold scan_exponent. destruct l as [|a l]; [by intros [= <- <-]|].
  case_decide; [|by intros [= <- <-]]. destruct l as [|s l]; [done|].
  case_decide; intros (t & [Ht _]%scan_digits_app & ->)%prepend_Some; by rewrite Ht.
Qed.

Lemma scan_number_app l lit r : scan_number l = Some (lit, r) -> l = lit ++ r /\ lit <> [].
Proof.
  unfold scan_number.
  set (x := match l with a :: l' => _ | [] => _ end).
  assert (l = x.1 ++ x.2) as Hx.
  { destruct l as [|a l]; [done|]. subst x. simpl. by case_decide; subst. }
  destruct x as [sign l0]. simpl in Hx. intros H.
  apply bind_Some in H as ([int l1] & [E1 N1]%scan_integer_app & H).
  apply bind_Some in H as ([frac l2] & E2%scan_fraction_app & H).
  apply bind_Some in H as ([exp l3] & E3%scan_exponent_app & [= <- <-]).
  subst l0 l1 l2. split; [subst l; by rewrite <-!app_assoc|]. by destruct sign, int.
Qed.

Lemma strip_prefix_app p l r : strip_prefix p l = Some r -> l = p ++ r.
Proof.
  revert l. induction p as [|a p IH]; intros [|b l]; simpl; try done; [congruence..|].
  case_decide; [|done]. intros ->%IH. by subst.
Qed.

Lemma parse_scalar_shorter a l v r :
  parse_scalar a l = Some (v, r) -> (length r <= length l)%nat.
Proof.
  unfold parse_scalar, scan_literal. intros H. repeat case_decide.
  - apply bind_Some in H as ([raw r'] & ->%scan_string_app & [= _ <-]).
    rewrite length_app. simpl. lia.
  - apply bind_Some in H as (r' & ->%strip_prefix_app & [= _ <-]). simpl. lia.
  - apply bind_Some in H as (r' & ->%strip_prefix_app & [= _ <-]). simpl. lia.
  - apply bind_Some in H as (r' & ->%strip_prefix_app & [= _ <-]). simpl. lia.
  - apply bind_Some in H as ([lit r'] & [Hr Hl]%scan_number_app & [= _ <-]).
    destruct lit as [|b lit]; [done|]. injection Hr as _ ->. rewrite length_app. lia.
Qed.

Lemma skip_ws_shorter l a l' : skip_ws l = a :: l' -> (length l' < length l)%nat.
Proof. intros H. pose proof (length_skip_ws l). rewrite H in *. simpl in *. lia. Qed.

(** What is left is shorter than what was read. *)
Definition shorter {A} (l : bytes) (o : option (A * bytes)) : Prop :=
  forall v r, o = Some (v, r) -> (length r < length l)%nat.

Ltac skip_step :=
  match goal with
  | H : context [match skip_ws ?l with _ => _ end] |- _ =>
      let E := fresh "E" in
      destruct (skip_ws l) eqn:E; [done|]; apply skip_ws_shorter in E
  end.

Lemma parse_shorter fuel d l :
  shorter l (parse_value fuel d l) /\ shorter l (parse_members fuel d l) /\
  shorter l (parse_elements fuel d l).
Proof.
  revert d l. induction fuel as [|fuel IH]; intros d l; [by repeat split|].
  pose proof (fun d l => proj1 (IH d l)) as IHv.
  pose proof (fun d l => proj1 (proj2 (IH d l))) as IHm.
  pose proof (fun d l => proj2 (proj2 (IH d l))) as IHe. clear IH.
  split_and!; intros v r; cbn [parse_value parse_members parse_elements]; intros H.
  - skip_step. case_decide; [|case_decide].
    + destruct (_ <=? _); [done|]. skip_step. case_decide; [injection H as _ <-; lia|].
      apply bind_Some in H as ([m r'] & Hm%IHm & [= _ <-]). lia.
    + destruct (_ <=? _); [done|]. skip_step. case_decide; [injection H as _ <-; lia|].
      apply bind_Some in H as ([m r'] & Hm%IHe & [= _ <-]). lia.
    + apply parse_scalar_shorter in H. lia.
  - skip_step. case_decide; [done|].
    apply bind_Some in H as ([raw r1] & ->%scan_string_app & H).
    rewrite length_app in E. simpl in E.
    skip_step. case_decide; [done|]. apply bind_Some in H as ([w r2] & Hw%IHv & H).
    skip_step. case_decide; [injection H as _ <-; lia|]. case_decide; [|done].
    apply bind_Some in H as ([m r3] & Hm%IHm & [= _ <-]). lia.
  - apply bind_Some in H as ([w r2] & Hw%IHv & H).
    skip_step. case_decide; [injection H as _ <-; lia|]. case_decide; [|done].
    apply bind_Some in H as ([m r3] & Hm%IHe & [= _ <-]). lia.
Qed.

(** With enough fuel the amount does not matter. *)
Lemma parse_fuel_at f g d l :
  ((2 * length l < f)%nat -> (2 * length l < g)%nat -> parse_value f d l = parse_value g d l) /\
  ((2 * length l < f)%nat -> (2 * length l < g)%nat ->
   parse_members f d l = parse_members g d l) /\
  ((2 * length l + 1 < f)%nat -> (2 * length l + 1 < g)%nat ->
   parse_elements f d l = parse_elements g d l).
Proof.
  revert g d l. induction f as [|f IH]; intros g d l; [lia|].
  destruct g as [|g]; [lia|].
  pose proof (fun d l => proj1 (IH g d l)) as IHv.
  pose proof (fun d l => proj1 (proj2 (IH g d l))) as IHm.
  pose proof (fun d l => proj2 (proj2 (IH g d l))) as IHe. clear IH.
  split_and!; intros Hf Hg; cbn [parse_value parse_members parse_elements].
  - destruct (skip_ws l) as [|a l1] eqn:E; [done|]. apply skip_ws_shorter in E.
    rewrite IHm, IHe by lia. done.
  - destruct (skip_ws l) as [|a l1] eqn:E; [done|]. apply skip_ws_shorter in E.
    case_decide; [done|]. destruct (scan_string l1) as [[raw r1]|] eqn:Es; [|done].
    apply scan_string_app in Es as ->. rewrite length_app in E. simpl in *.
    destruct (skip_ws r1) as [|c r2] eqn:E2; [done|]. apply skip_ws_shorter in E2.
    case_decide; [done|]. rewrite IHv by lia.
    destruct (parse_value g d r2) as [[v r3]|] eqn:Ev; [|done].
    apply (proj1 (parse_shorter _ _ _)) in Ev. simpl.
    destruct (skip_ws r3) as [|c' r4] eqn:E4; [done|]. apply skip_ws_shorter in E4.
    rewrite IHm by lia. done.
  - rewrite IHv by lia. destruct (parse_value g d l) as [[v r3]|] eqn:Ev; [|done].
    apply (proj1 (parse_shorter _ _ _)) in Ev. simpl.
    destruct (skip_ws r3) as [|c' r4] eqn:E4; [done|]. apply skip_ws_shorter in E4.
    rewrite IHe by lia. done.
Qed.

Lemma parse_fuel f d l :
  (2 * length l < f)%nat -> parse_value f d l = parse_value (S (2 * length l)) d l.
Proof. intros H. apply parse_fuel_at; lia. Qed.

(** ** The parser's equations, without fuel *)

Definition pv (d : Z) (l : bytes) := parse_value (S (2 * length l)) d l.
Definition pm (d : Z) (l : bytes) := parse_members (S (2 * length l)) d l.
Definition pe (d : Z) (l : bytes) := parse_elements (S (S (2 * length l))) d l.

Lemma pv_eq d l :
  pv d l =
  match skip_ws l with
  | [] => None
  | a :: l =>
      if decide (a = "{"%char) then
        if d <=? 0 then None else
        match skip_ws l with
        | b :: l' => if decide (b = "}"%char) then Some (JObject [], l')
                     else '(m, r) ← pm (d - 1) l; Some (JObject m, r)
        | [] => None
        end
      else if decide (a = "["%char) then
        if d <=? 0 then None else
        match skip_ws l with
        | b :: l' => if decide (b = "]"%char) then Some (JArray [], l')
                     else '(es, r) ← pe (d - 1) l; Some (JArray es, r)
        | [] => None
        end
      else parse_scalar a l
  end.
Proof.
  unfold pv. cbn [parse_value]. destruct (skip_ws l) as [|a l1] eqn:E; [done|].
  apply skip_ws_shorter in E. unfold pm, pe.
  rewrite (proj1 (proj2 (parse_fuel_at (2 * length l) (S (2 * length l1)) (d - 1) l1))) by lia.
  by rewrite (proj2 (proj2 (parse_fuel_at (2 * length l) (S (S (2 * length l1))) (d - 1) l1)))
    by lia.
Qed.

Lemma pm_eq d l :
  pm d l =
  match skip_ws l with
  | [] => None
  | q :: l =>
      if decide (q <> quote_char) then None else
      '(raw, r) ← scan_string l;
      match skip_ws r with
      | [] => None
      | c :: r =>
          if decide (c <> ":"%char) then None else
          '(v, r) ← pv d r;
          let kv := (unquote_literal (of_bytes raw), v) in
          match skip_ws r with
          | [] => None
          | c :: r =>
              if decide (c = "}"%char) then Some ([kv], r)
              else if decide (c = ","%char) then '(m, r) ← pm d r; Some (kv :: m, r)
              else None
          end
      end
  end.
Proof.
  unfold pm. cbn [parse_members]. destruct (skip_ws l) as [|a l1] eqn:E; [done|].
  apply skip_ws_shorter in E. case_decide; [done|].
  destruct (scan_string l1) as [[raw r1]|] eqn:Es; [|done].
  apply scan_string_app in Es as ->. rewrite length_app in E. simpl in E. cbn [mbind option_bind].
  destruct (skip_ws r1) as [|c r2] eqn:E2; [done|]. apply skip_ws_shorter in E2.
  case_decide; [done|]. unfold pv. rewrite parse_fuel by lia.
  destruct (parse_value _ d r2) as [[v r3]|] eqn:Ev; [|done].
  apply (proj1 (parse_shorter _ _ _)) in Ev. cbn [mbind option_bind].
  destruct (skip_ws r3) as [|c' r4] eqn:E4; [done|]. apply skip_ws_shorter in E4.
  rewrite (proj1 (proj2 (parse_fuel_at _ (S (2 * length r4)) d r4))) by lia. done.
Qed.

Lemma pe_eq d l :
  pe d l =
  '(v, r) ← pv d l;
  match skip_ws r with
  | [] => None
  | c :: r =>
      if decide (c = "]"%char) then Some ([v], r)
      else if decide (c = ","%char) then '(es, r) ← pe d r; Some (v :: es, r)
      else None
  end.
Proof.
  unfold pe at 1, pv. remember (S (2 * length l)) as f eqn:Ef. cbn [parse_elements].
  destruct (parse_value _ d l) as [[v r3]|] eqn:Ev; [|done].
  apply (proj1 (parse_shorter _ _ _)) in Ev. cbn [mbind option_bind].
  destruct (skip_ws r3) as [|c' r4] eqn:E4; [done|]. apply skip_ws_shorter in E4.
  by rewrite (proj2 (proj2 (parse_fuel_at f (S (S (2 * length r4))) d r4))) by lia.
Qed.
