(* ===== verification/JsonRoundtrip.v ===== *)
(** Reading back what [json.Marshal] and [json.MarshalIndent] write: the
    scanner and the unquoting of JsonText.v on the encoder's output. *)

From S2P Require Import Prelude GoBytes GoStrings GoTime Protocol Json Canonical JsonText.
Local Open Scope Z_scope.

(** ** Strings *)

(** The text between the quotes. *)
Definition escaped (s : string) : bytes := decode_runes (to_bytes s) ≫= escape_rune.

Lemma quote_escaped s : quote s = quote_char :: escaped s ++ [quote_char].
Proof. done. Qed.

Lemma scan_string_plain a l :
  128 <= byte_val a -> scan_string (a :: l) = prepend [a] (scan_string l).
Proof.
  intros Ha. simpl. rewrite !decide_False by (intros ->; vm_compute in Ha; congruence).
  by rewrite (proj2 (Z.ltb_ge _ _)) by lia.
Qed.

Lemma scan_string_ascii a l :
  byte_val a < 128 -> scan_string (escape_ascii a ++ l) = prepend (escape_ascii a) (scan_string l).
Proof.
  intros Ha.
  destruct a as [[] [] [] [] [] [] [] []]; try (exfalso; vm_compute in Ha; congruence);
    match goal with |- context [escape_ascii ?a] =>
      let e := eval vm_compute in (escape_ascii a) in
      change (escape_ascii a) with e end; reflexivity.
Qed.

Lemma scan_string_high m l :
  Forall (fun a => 128 <= byte_val a) m -> scan_string (m ++ l) = prepend m (scan_string l).
Proof.
  induction 1 as [|a m Ha Hm IH]; [cbn [app]; by destruct (scan_string l) as [[s r]|]|].
  cbn [app]. rewrite scan_string_plain, IH by done. by rewrite prepend_prepend.
Qed.

Lemma scan_string_rune r l :
  rune_wf r -> scan_string (escape_rune r ++ l) = prepend (escape_rune r) (scan_string l).
Proof.
  destruct r as [a|m|a]; cbn [escape_rune rune_wf]; intros Hr.
  - by apply scan_string_ascii.
  - repeat case_decide; [reflexivity..|]. by apply scan_string_high.
  - reflexivity.
Qed.

Lemma scan_string_escaped s r :
  scan_string (escaped s ++ quote_char :: r) = Some (escaped s, r).
Proof.
  unfold escaped. pose proof (decode_runes_wf (to_bytes s)) as H.
  induction H as [|x l Hx Hl IH]; [done|]. rewrite !bind_cons, <-app_assoc.
  by rewrite scan_string_rune, IH.
Qed.

(** A rune as the decoder produces it is decoded again at the head of any text. *)
Definition stable_rune (r : rune) : Prop :=
  match r with
  | RAscii a => byte_val a < 128
  | RMulti m => forall l, decode_runes (m ++ l) = RMulti m :: decode_runes l
  | RInvalid _ => True
  end.

Lemma decode_runes_stable l : Forall stable_rune (decode_runes l).
Proof.
  induction l as [l IH] using (Wf_nat.induction_ltof1 _ length).
  unfold Wf_nat.ltof in IH. destruct l as [|a l1]; cbn [decode_runes]; [constructor|].
  destruct (byte_val a <? 128) eqn:Ha; [constructor; [simpl; lia|apply IH; simpl; lia]|].
  destruct (utf8_first a) as [[n lo] hi] eqn:E.
  destruct n as [|[|[|[|[|n]]]]]; try (constructor; [exact I|apply IH; simpl; lia]).
  - destruct l1 as [|b l2]; [constructor; [exact I|constructor]|].
    destruct (in_range b lo hi) eqn:Eb; constructor; try (apply IH; simpl; lia); [|exact I].
    intros l. cbn [app decode_runes]. by rewrite Ha, E, Eb.
  - destruct l1 as [|b [|c l3]]; try (constructor; [exact I|apply IH; simpl; lia]).
    destruct (_ && _) eqn:Eb; constructor; try (apply IH; simpl; lia); [|exact I].
    intros l. cbn [app decode_runes]. by rewrite Ha, E, Eb.
  - destruct l1 as [|b [|c [|d l4]]]; try (constructor; [exact I|apply IH; simpl; lia]).
    destruct (_ && _ && _) eqn:Eb; constructor; try (apply IH; simpl; lia); [|exact I].
    intros l. cbn [app decode_runes]. by rewrite Ha, E, Eb.
Qed.

Lemma unescape_ascii a l :
  byte_val a < 128 ->
  unescape (decode_runes (escape_ascii a ++ l)) = a :: unescape (decode_runes l).
Proof.
  intros Ha.
  destruct a as [[] [] [] [] [] [] [] []]; try (exfalso; vm_compute in Ha; congruence);
    match goal with |- context [escape_ascii ?a] =>
      let e := eval vm_compute in (escape_ascii a) in
      change (escape_ascii a) with e end; reflexivity.
Qed.

Lemma unescape_rune r l :
  stable_rune r ->
  unescape (decode_runes (escape_rune r ++ l)) = rune_bytes r ++ unescape (decode_runes l).
Proof.
  destruct r as [a|m|a]; cbn [escape_rune rune_bytes stable_rune]; intros Hr.
  - by apply unescape_ascii.
  - repeat case_decide; subst; [reflexivity..|]. by rewrite Hr.
  - reflexivity.
Qed.

Lemma unquote_literal_escaped s : unquote_literal (of_bytes (escaped s)) = to_valid_utf8 s.
Proof.
  unfold unquote_literal, to_valid_utf8, escaped. rewrite to_of_bytes. f_equal.
  pose proof (decode_runes_stable (to_bytes s)) as H.
  induction H as [|x l Hx Hl IH]; [done|]. by rewrite !bind_cons, unescape_rune, IH.
Qed.

(** ** Numbers *)

(** The literal is a whole number of the grammar. *)
Definition number_ok (lit : string) : bool :=
  match scan_number (to_bytes lit) with Some (_, []) => true | _ => false end.
(** The text that follows a value does not extend a number. *)
Definition ends (r : bytes) : Prop := forall a r', r = a :: r' -> number_char a = false.

Lemma span_digits_more l r :
  ends r -> span_digits (l ++ r) = ((span_digits l).1, (span_digits l).2 ++ r).
Proof.
  intros Hr. induction l as [|a l IH]; simpl.
  - destruct r as [|a r]; [done|]. simpl. specialize (Hr a r eq_refl).
    unfold number_char, is_digit in *. by destruct (in_range a 48 57).
  - destruct (is_digit a); [|done]. rewrite IH. by destruct (span_digits l).
Qed.

Lemma scan_digits_more l r ds l' :
  ends r -> scan_digits l = Some (ds, l') -> scan_digits (l ++ r) = Some (ds, l' ++ r).
Proof.
  intros Hr. unfold scan_digits. rewrite span_digits_more by done.
  destruct (span_digits l) as [[|d ds'] l'']; [done|]. by intros [= <- <-].
Qed.

Lemma scan_integer_more l r ds l' :
  ends r -> scan_integer l = Some (ds, l') -> scan_integer (l ++ r) = Some (ds, l' ++ r).
Proof.
  intros Hr. unfold scan_integer. destruct l as [|a l]; [done|]. cbn [app].
  case_decide; [by intros [= <- <-]|]. apply (scan_digits_more (a :: l) r ds l' Hr).
Qed.

Lemma scan_fraction_more l r ds l' :
  ends r -> scan_fraction l = Some (ds, l') -> scan_fraction (l ++ r) = Some (ds, l' ++ r).
Proof.
  intros Hr. unfold scan_fraction. destruct l as [|a l]; cbn [app].
  - intros [= <- <-]. destruct r as [|a r]; [done|]. rewrite decide_False; [done|].
    intros ->. by specialize (Hr _ _ eq_refl).
  - case_decide; [|by intros [= <- <-]]. intros (s & Hs & ->)%prepend_Some.
    by rewrite (scan_digits_more _ _ _ _ Hr Hs).
Qed.

Lemma scan_exponent_more l r ds l' :
  ends r -> scan_exponent l = Some (ds, l') -> scan_exponent (l ++ r) = Some (ds, l' ++ r).
Proof.
  intros Hr. unfold scan_exponent. destruct l as [|a l]; cbn [app].
  - intros [= <- <-]. destruct r as [|a r]; [done|]. rewrite decide_False; [done|].
    intros [-> | ->]; by specialize (Hr _ _ eq_refl).
  - case_decide; [|by intros [= <- <-]]. destruct l as [|s l]; [done|]. cbn [app].
    case_decide; intros (t & Ht & ->)%prepend_Some.
    + by rewrite (scan_digits_more _ _ _ _ Hr Ht).
    + change (s :: l ++ r) with ((s :: l) ++ r). by rewrite (scan_digits_more _ _ _ _ Hr Ht).
Qed.

Lemma scan_number_more l r lit l' :
  ends r -> scan_number l = Some (lit, l') -> scan_number (l ++ r) = Some (lit, l' ++ r).
Proof.
  intros Hr H.
  assert (l <> []) as Hn by (destruct l; [vm_compute in H; congruence|done]).
  unfold scan_number in *.
  set (sg := fun l : bytes => match l with
                     | a :: l' => if decide (a = "-"%char) then ([a], l') else ([], l)
                     | [] => ([], []) end) in *.
  change (match l ++ r with a :: l' => _ | [] => _ end) with (sg (l ++ r)).
  change (match l with a :: l' => _ | [] => _ end) with (sg l) in H.
  assert (sg (l ++ r) = ((sg l).1, (sg l).2 ++ r)) as ->.
  { destruct l as [|a l]; [done|]. subst sg. simpl. by case_decide. }
  destruct (sg l) as [sign l0]. cbn [fst snd].
  apply bind_Some in H as ([int l1] & E1 & H).
  apply bind_Some in H as ([frac l2] & E2 & H).
  apply bind_Some in H as ([exp l3] & E3 & [= <- <-]).
  rewrite (scan_integer_more _ _ _ _ Hr E1). cbn [mbind option_bind].
  rewrite (scan_fraction_more _ _ _ _ Hr E2). cbn [mbind option_bind].
  by rewrite (scan_exponent_more _ _ _ _ Hr E3).
Qed.

Lemma scan_number_ok lit r :
  number_ok lit = true -> ends r -> scan_number (to_bytes lit ++ r) = Some (to_bytes lit, r).
Proof.
  unfold number_ok. destruct (scan_number (to_bytes lit)) as [[l []]|] eqn:E; try done.
  intros _ Hr. rewrite (scan_number_more _ _ _ _ Hr E).
  apply scan_number_app in E as [-> _]. by rewrite app_nil_r.
Qed.

Lemma number_ok_head lit :
  number_ok lit = true -> exists a l, to_bytes lit = a :: l /\ kind_of_byte a = 3 /\ is_ws a = false.
Proof.
  unfold number_ok. destruct (scan_number (to_bytes lit)) as [[l []]|] eqn:E; try done.
  intros _. destruct (to_bytes lit) as [|a k]; [vm_compute in E; congruence|].
  exists a, k. split; [done|].
  assert (in_range a 48 57 || bool_decide (a = "-"%char) = true) as Ha.
  { destruct (decide (a = "-"%char)) as [->|Hm]; [done|].
    unfold scan_number in E. rewrite decide_False in E by done.
    apply bind_Some in E as ([int l1] & E1 & _). unfold scan_integer in E1.
    destruct (decide (a = "0"%char)) as [->|Hz]; [done|].
    unfold scan_digits in E1. simpl in E1. unfold is_digit in E1.
    by destruct (in_range a 48 57). }
  split; [by apply number_start_kind|]. by destruct a as [[] [] [] [] [] [] [] []].
Qed.

(** ** Values *)

(** Numbers in the grammar; the encoder writes no other. *)
Fixpoint numbers_ok (v : json) : bool :=
  match v with
  | JNumber lit => number_ok lit
  | JArray l => forallb numbers_ok l
  | JObject m => forallb (fun kv => numbers_ok kv.2) m
  | _ => true
  end.
(** How deep the containers are nested. *)
Fixpoint depth (v : json) : Z :=
  match v with
  | JArray l => 1 + foldr Z.max 0 (map depth l)
  | JObject m => 1 + foldr Z.max 0 (map (fun kv => depth kv.2) m)
  | _ => 0
  end.
(** The value as the parser keeps it: string literals in the encoder's text. *)
Fixpoint as_read (v : json) : json :=
  match v with
  | JString s => JString (of_bytes (escaped s))
  | JArray l => JArray (map as_read l)
  | JObject m => JObject (map (fun kv => (to_valid_utf8 kv.1, as_read kv.2)) m)
  | v => v
  end.
(** The value with the invalid bytes of its strings and keys replaced. *)
Fixpoint sanitize (v : json) : json :=
  match v with
  | JString s => JString (to_valid_utf8 s)
  | JArray l => JArray (map sanitize l)
  | JObject m => JObject (map (fun kv => (to_valid_utf8 kv.1, sanitize kv.2)) m)
  | v => v
  end.

Lemma cook_as_read v : cook (as_read v) = sanitize v.
Proof.
  induction v as [| | | |l IH|m IH] using json_rect'; cbn [as_read cook sanitize]; try done.
  - by rewrite unquote_literal_escaped.
  - f_equal. rewrite map_map. by apply map_ext_Forall.
  - f_equal. rewrite map_map. apply map_ext_Forall.
    eapply Forall_impl; [exact IH|]. intros [k v] H. cbn in *. by rewrite H.
Qed.

Lemma sanitize_id v : json_wf v = true -> sanitize v = v.
Proof.
  induction v as [| | | |l IH|m IH] using json_rect'; cbn [sanitize json_wf]; try done.
  - intros H. by rewrite to_valid_utf8_id.
  - intros H. f_equal. rewrite <-(map_id l) at 2. apply map_ext_Forall.
    rewrite Forall_forall in IH |- *. intros x Hx. apply IH; [done|]. by eapply forallb_elem.
  - intros [_ H]%andb_true_iff. f_equal. rewrite <-(map_id m) at 2. apply map_ext_Forall.
    rewrite Forall_forall in IH |- *. intros [k v] Hx.
    pose proof (forallb_elem _ _ _ H Hx) as [Hk Hv]%andb_true_iff.
    cbn [fst snd] in *. specialize (IH _ Hx Hv). cbn [fst snd] in IH.
    by rewrite to_valid_utf8_id, IH by done.
Qed.

Section layout.
(** White space before every element and after every colon. *)
Context (nl : nat -> bytes) (sp : bytes).
Hypothesis nl_ws : forall k, forallb is_ws (nl k) = true.
Hypothesis sp_ws : forallb is_ws sp = true.

Lemma skip_ws_app w l : forallb is_ws w = true -> skip_ws (w ++ l) = skip_ws l.
Proof.
  induction w as [|a w IH]; simpl; [done|]. intros [Ha Hw]%andb_true_iff. rewrite Ha. auto.
Qed.

Lemma pv_ws d w l : forallb is_ws w = true -> pv d (w ++ l) = pv d l.
Proof. intros H. rewrite (pv_eq d (w ++ l)), (pv_eq d l). by rewrite skip_ws_app. Qed.

Lemma ws_not_number a : is_ws a = true -> number_char a = false.
Proof. by destruct a as [[] [] [] [] [] [] [] []]. Qed.

Lemma ends_ws w a r :
  forallb is_ws w = true -> number_char a = false -> ends (w ++ a :: r).
Proof.
  intros Hw Ha b r'. destruct w as [|c w]; simpl; [by intros [= <- _]|].
  intros [= <- _]. simpl in Hw. apply andb_true_iff in Hw as [Hc _]. by apply ws_not_number.
Qed.

(** The first byte of a value. *)
Lemma render_with_head k v :
  numbers_ok v = true ->
  exists a l, render_with nl sp k v = a :: l /\ kind_of_byte a = kind v /\ is_ws a = false.
Proof.
  destruct v as [|[]|lit|s|l|m]; intros Hok; [by eexists _, _..| | | |].
  - by apply number_ok_head.
  - exists quote_char, (tail (quote s)). by split.
  - exists "["%char. destruct l; by eexists.
  - exists "{"%char. destruct m; by eexists.
Qed.

(** One value, in any surrounding. *)
Definition reads (v : json) : Prop :=
  forall k d r, numbers_ok v = true -> depth v <= d -> ends r ->
  pv d (render_with nl sp k v ++ r) = Some (as_read v, r).

Lemma depth_nonneg v : 0 <= depth v.
Proof.
  assert (forall l : list Z, 0 <= foldr Z.max 0 l) as H by (induction l; simpl; lia).
  destruct v as [| | | |l|m]; cbn [depth]; try lia.
  - pose proof (H (map depth l)). lia.
  - pose proof (H (map (fun kv => depth kv.2) m)). lia.
Qed.

Lemma max_elem {A} (f : A -> Z) l x d :
  foldr Z.max 0 (map f l) <= d -> x ∈ l -> f x <= d.
Proof.
  induction l as [|y l IH]; simpl; [by intros _ ?%elem_of_nil|].
  intros H [->|Hx]%elem_of_cons; [lia|]. apply IH; [lia|done].
Qed.

Lemma reads_scalar v a l :
  (forall k, render_with nl sp k v = a :: l) -> is_ws a = false ->
  a <> "{"%char -> a <> "["%char ->
  (forall r, ends r -> parse_scalar a (l ++ r) = Some (as_read v, r)) -> reads v.
Proof.
  intros Hr Ha H1 H2 Hp k d r _ _ He. rewrite Hr, pv_eq. cbn [app skip_ws].
  rewrite Ha, !decide_False by done. by apply Hp.
Qed.

Definition element (k : nat) (v : json) : bytes := nl (S k) ++ render_with nl sp (S k) v.
Definition member (k : nat) (kv : string * json) : bytes :=
  nl (S k) ++ quote kv.1 ++ ":"%char :: sp ++ render_with nl sp (S k) kv.2.

Lemma render_array k x l :
  render_with nl sp k (JArray (x :: l)) =
  "["%char :: element k x ++ (map (element k) l ≫= cons ","%char) ++ nl k ++ ["]"%char].
Proof. cbn [render_with map join_comma]. by rewrite <-app_assoc. Qed.

Lemma render_object k kv m :
  render_with nl sp k (JObject (kv :: m)) =
  "{"%char :: member k kv ++ (map (member k) m ≫= cons ","%char) ++ nl k ++ ["}"%char].
Proof. cbn [render_with map join_comma]. by rewrite <-app_assoc. Qed.

(** What follows an item: the next one, or the closing bracket [c]. *)
Lemma ends_items (items : list bytes) (k : nat) (c : ascii) r :
  number_char c = false -> ends ((items ≫= cons ","%char) ++ nl k ++ c :: r).
Proof.
  intros Hc. destruct items as [|i items]; [by apply ends_ws|].
  cbn. by intros b r' [= <- _].
Qed.

Lemma pe_items k d x l r :
  Forall reads (x :: l) -> forallb numbers_ok (x :: l) = true ->
  foldr Z.max 0 (map depth (x :: l)) <= d ->
  pe d (element k x ++ (map (element k) l ≫= cons ","%char) ++ nl k ++ "]"%char :: r)
  = Some (map as_read (x :: l), r).
Proof.
  revert x. induction l as [|y l IH]; intros x [Hx Hl]%Forall_cons [Tx Tl]%andb_true_iff Hd;
    pose proof (max_elem depth _ x _ Hd ltac:(by left)) as Dx; cbn [map foldr] in Hd;
    rewrite pe_eq; unfold element at 1; rewrite <-app_assoc, pv_ws, Hx by (done || by apply ends_items);
    cbn [mbind option_bind].
  - cbn [map list_bind mbind app]. rewrite skip_ws_app by done. done.
  - rewrite map_cons, bind_cons. cbn [app skip_ws]. rewrite <-app_assoc.
    replace (is_ws ","%char) with false by done. rewrite decide_False, decide_True by done.
    rewrite IH; [done..|cbn [map foldr]; lia].
Qed.

Lemma reads_array l : Forall reads l -> reads (JArray l).
Proof.
  intros IH k d r Hok Hd He. cbn [numbers_ok depth] in Hok, Hd.
  pose proof (depth_nonneg (JArray l)) as Hn. cbn [depth] in Hn.
  destruct l as [|x l].
  - rewrite pv_eq. cbn. by rewrite (proj2 (Z.leb_gt d 0)) by (simpl in Hd; lia).
  - rewrite render_array. rewrite pv_eq. cbn [app skip_ws]. replace (is_ws "["%char) with false by done.
    rewrite decide_False, decide_True by done.
    destruct (Z.leb_spec d 0) as [H0|_]; [pose proof (depth_nonneg x); simpl in Hd; lia|].
    rewrite <-!app_assoc.
    destruct (render_with_head (S k) x) as (a & t & Ht & Ka & Wa);
      [by apply andb_true_iff in Hok as [? _]|].
    assert (exists t', skip_ws (element k x ++ (map (element k) l ≫= cons ","%char) ++
       nl k ++ ["]"%char] ++ r) = a :: t') as [t' ->].
    { unfold element at 1. rewrite <-app_assoc, skip_ws_app, Ht by done. cbn [app skip_ws].
      rewrite Wa. by eexists. }
    rewrite decide_False by (intros ->; by destruct x as [|[]| | | |]).
    cbn [app]. rewrite pe_items; [done..|]. simpl in *. lia.
Qed.

Definition read_member (kv : string * json) : string * json :=
  (to_valid_utf8 kv.1, as_read kv.2).

Lemma pm_items k d x m r :
  Forall (fun kv => reads kv.2) (x :: m) -> forallb (fun kv => numbers_ok kv.2) (x :: m) = true ->
  foldr Z.max 0 (map (fun kv => depth kv.2) (x :: m)) <= d ->
  pm d (member k x ++ (map (member k) m ≫= cons ","%char) ++ nl k ++ "}"%char :: r)
  = Some (map read_member (x :: m), r).
Proof.
  revert x. induction m as [|y m IH]; intros x [Hx Hl]%Forall_cons [Tx Tl]%andb_true_iff Hd;
    pose proof (max_elem (fun kv => depth kv.2) _ x _ Hd ltac:(by left)) as Dx;
    cbn [map foldr] in Hd;
    rewrite pm_eq; unfold member at 1; rewrite quote_escaped, <-!app_assoc;
    rewrite skip_ws_app by done; cbn [app skip_ws];
    (replace (is_ws quote_char) with false by done); rewrite decide_False by (intros H; by apply H);
    rewrite <-!app_assoc; cbn [app];
    rewrite scan_string_escaped; cbn [mbind option_bind skip_ws];
    (replace (is_ws ":"%char) with false by done); rewrite decide_False by (intros H; by apply H);
    rewrite pv_ws, Hx by (done || by apply ends_items);
    cbn [mbind option_bind]; rewrite unquote_literal_escaped.
  - cbn [map list_bind mbind app]. rewrite skip_ws_app by done. done.
  - rewrite map_cons, bind_cons. cbn [app skip_ws]. rewrite <-app_assoc.
    replace (is_ws ","%char) with false by done. rewrite decide_False, decide_True by done.
    rewrite IH; [done..|cbn [map foldr]; lia].
Qed.

Lemma reads_object m : Forall (fun kv => reads kv.2) m -> reads (JObject m).
Proof.
  intros IH k d r Hok Hd He. cbn [numbers_ok depth] in Hok, Hd.
  destruct m as [|x m].
  - rewrite pv_eq. cbn. by rewrite (proj2 (Z.leb_gt d 0)) by (simpl in Hd; lia).
  - rewrite render_object. rewrite pv_eq. cbn [app skip_ws]. replace (is_ws "{"%char) with false by done.
    rewrite decide_True by done.
    destruct (Z.leb_spec d 0) as [H0|_]; [pose proof (depth_nonneg x.2); simpl in Hd; lia|].
    rewrite <-!app_assoc.
    assert (exists t', skip_ws (member k x ++ (map (member k) m ≫= cons ","%char) ++
       nl k ++ ["}"%char] ++ r) = quote_char :: t') as [t' ->].
    { unfold member at 1. rewrite quote_escaped, <-!app_assoc, skip_ws_app by done. by eexists. }
    rewrite decide_False by done.
    cbn [app]. rewrite pm_items; [done..|]. simpl in *. lia.
Qed.

Lemma reads_all v : reads v.
Proof.
  induction v as [|[]|lit|s|l IH|m IH] using json_rect'.
  1-3: by eapply reads_scalar.
  - intros k d r Hok _ He. destruct (number_ok_head lit Hok) as (a & l & Hl & Ka & Wa).
    rewrite pv_eq. cbn [render_with]. pose proof (scan_number_ok lit r Hok He) as Hs.
    rewrite Hl in Hs |- *. cbn [app skip_ws] in *. rewrite Wa.
    rewrite !decide_False by (by intros ->). unfold parse_scalar.
    rewrite !decide_False by (by intros ->). rewrite Hs. cbn [mbind option_bind as_read].
    by rewrite <-Hl, of_to_bytes.
  - apply (reads_scalar _ quote_char (escaped s ++ [quote_char])); try done.
    intros r _. unfold parse_scalar. rewrite decide_True, <-app_assoc by done.
    cbn [app]. by rewrite scan_string_escaped.
  - by apply reads_array.
  - by apply reads_object.
Qed.

(** The text of a value, followed by white space or not, is read back. *)
Lemma parse_render v r :
  numbers_ok v = true -> depth v <= max_depth -> forallb is_ws r = true ->
  parse_text (render_with nl sp 0 v ++ r) = Some (as_read v).
Proof.
  intros Hok Hd Hr. unfold parse_text, parse_first.
  change (parse_value _ _ ?l) with (pv max_depth l). rewrite reads_all; [|done..|].
  - cbn [mbind option_bind]. rewrite <-(app_nil_r r), skip_ws_app by done. done.
  - intros a r' ->. apply ws_not_number. by apply andb_true_iff in Hr as [? _].
Qed.
End layout.

(** [json.Marshal] is the layout without white space. *)
Lemma render_plain v k : render_with (fun _ => []) [] k v = render v.
Proof.
  revert k. induction v as [|[]| | |l IH|m IH] using json_rect'; intros k; try done.
  - destruct l as [|x l]; [done|]. cbn [render_with render app]. do 3 f_equal.
    apply map_ext_Forall. eapply Forall_impl; [exact IH|]. by intros y ->.
  - destruct m as [|x m]; [done|]. cbn [render_with render app]. do 3 f_equal.
    apply map_ext_Forall. eapply Forall_impl; [exact IH|]. intros [k' v'] H. cbn [fst snd] in *.
    by rewrite H.
Qed.

Lemma indent_ws d : forallb is_ws (newline :: mjoin (replicate d [" "%char; " "%char])) = true.
Proof. induction d as [|d IH]; [done|]. simpl in *. done. Qed.

(** [Unmarshal] of [Marshal], and of [MarshalIndent] with a final line break. *)
Lemma parse_marshal v :
  numbers_ok v = true -> depth v <= max_depth -> parse_text (render v) = Some (as_read v).
Proof.
  intros Hok Hd. rewrite <-(render_plain v 0), <-(app_nil_r (render_with _ _ _ _)).
  by apply parse_render.
Qed.

Lemma parse_marshal_indent v r :
  numbers_ok v = true -> depth v <= max_depth -> forallb is_ws r = true ->
  parse_text (marshal_indent v ++ r) = Some (as_read v).
Proof. intros. apply parse_render; [apply indent_ws|done..]. Qed.

(** ** Generic values through their text *)

(** Decoding into an [any]: a repeated key keeps its last value. *)
Fixpoint to_any (v : json) : json :=
  match v with
  | JArray l => JArray (map to_any l)
  | JObject m => JObject (keep_last (map (fun kv => (kv.1, to_any kv.2)) m))
  | v => v
  end.
(** [json.Marshal] of a generic value (keys in order), then [json.Unmarshal]
    into an [any]. *)
Definition reparse (v : json) : option json :=
  (fun w => to_any (cook w)) <$> parse_text (render (canon v)).
(** [CanonicalJSON] with the two steps taken on the text. *)
Definition canonical_by_text (v : json) : option bytes :=
  w ← reparse v; Some (render (canon w)).

Lemma to_any_sanitize_canon v : to_any (sanitize (canon v)) = json_roundtrip v.
Proof.
  induction v as [| | | |l IH|m IH] using json_rect'; try done.
  - cbn [canon sanitize to_any json_roundtrip]. f_equal. rewrite !map_map.
    by apply map_ext_Forall.
  - cbn [canon sanitize to_any json_roundtrip]. do 2 f_equal. rewrite !map_map. cbn [fst snd].
    assert (forall k, k ∈ sort_strings (map fst m) -> k ∈ map fst m) as Hs
      by (intros k; by rewrite sort_strings_perm).
    induction (sort_strings (map fst m)) as [|k ks IHk]; [done|].
    cbn [map omap list_omap]. rewrite !assoc_get_map.
    destruct (assoc_get_is_Some m k) as [v Hv]; [apply Hs; by left|].
    rewrite Hv. cbn [fmap option_fmap option_map default]. f_equal.
    + f_equal. rewrite Forall_forall in IH. apply (IH (k, v)). by apply assoc_get_Some_In.
    + apply IHk. intros k' ?. apply Hs. by right.
Qed.

(** Sorting the keys changes neither the numbers nor the nesting. *)
Lemma canon_entries m k v :
  (k, v) ∈ map (fun k => (k, default JNull (assoc_get (map (fun kv => (kv.1, canon kv.2)) m) k)))
             (sort_strings (map fst m)) ->
  exists w, (k, w) ∈ m /\ v = canon w.
Proof.
  intros (k' & [= -> ->] & Hk)%list_elem_of_fmap. rewrite sort_strings_perm in Hk.
  destruct (assoc_get_is_Some m k' Hk) as [w Hw]. rewrite assoc_get_map, Hw.
  exists w. split; [by apply assoc_get_Some_In|done].
Qed.

Lemma text_ok_canon v : numbers_ok v = true -> numbers_ok (canon v) = true.
Proof.
  induction v as [| | | |l IH|m IH] using json_rect'; try done; cbn [canon numbers_ok].
  - rewrite Forall_forall in IH. intros H. apply forallb_forall.
    intros x (y & <- & Hy)%in_map_iff. rewrite <-list_elem_of_In in Hy.
    apply IH; [done|]. by eapply forallb_elem.
  - rewrite Forall_forall in IH. intros H. apply forallb_forall.
    intros [k v] (w & Hw & ->)%list_elem_of_In%canon_entries.
    apply (IH (k, w)); [done|]. apply (forallb_elem _ _ _ H Hw).
Qed.

Lemma max_le {A} (f : A -> Z) l d :
  0 <= d -> (forall x, x ∈ l -> f x <= d) -> foldr Z.max 0 (map f l) <= d.
Proof.
  intros Hd. induction l as [|y l IH]; simpl; [done|]. intros H.
  apply Z.max_lub; [apply H; by left|apply IH; intros; apply H; by right].
Qed.

Lemma max_nonneg l : 0 <= foldr Z.max 0 l.
Proof. induction l; simpl; lia. Qed.

Lemma depth_canon v : depth (canon v) <= depth v.
Proof.
  induction v as [| | | |l IH|m IH] using json_rect'; try done; cbn [canon depth].
  - rewrite Forall_forall in IH. apply Z.add_le_mono_l, max_le; [apply max_nonneg|].
    intros x (y & -> & Hy)%list_elem_of_fmap. etrans; [by apply IH|].
    by eapply max_elem.
  - rewrite Forall_forall in IH. apply Z.add_le_mono_l, max_le; [apply max_nonneg|].
    intros [k v] (w & Hw & ->)%canon_entries. cbn [snd]. etrans; [by apply (IH (k, w))|].
    by apply (max_elem (fun kv => depth kv.2) m (k, w)).
Qed.

Lemma reparse_roundtrip v :
  numbers_ok v = true -> depth v <= max_depth -> reparse v = Some (json_roundtrip v).
Proof.
  intros Hok Hd. unfold reparse. pose proof (depth_canon v).
  rewrite parse_marshal; [|by apply text_ok_canon|lia].
  cbn [fmap option_fmap option_map]. by rewrite cook_as_read, to_any_sanitize_canon.
Qed.


Definition sample_value : json :=
  JObject [("b", JArray [JNumber "1.5e-7"; JNull; JBool true]); ("a<", JString "x");
           (String (byte_of 255) "", JNumber "-3"); ("", JObject [])].
