(* ===== verification/GoTimeParse.v ===== *)
(** [time.Parse(time.RFC3339, s)] as [Time.UnmarshalJSON] calls it (its strict
    checks are disabled in the library), and the proof that it reads back what
    [Time.MarshalJSON] writes. *)

From S2P Require Import Prelude GoBytes GoStrings GoTime Protocol Json Canonical JsonText.
Local Open Scope Z_scope.

(** ** Calendar *)

Definition isLeap (y : Z) : bool :=
  (y mod 4 =? 0) && (negb (y mod 100 =? 0) || (y mod 400 =? 0)).
Definition daysIn (m y : Z) : Z :=
  if m =? 2 then if isLeap y then 29 else 28
  else 30 + (m + m / 8) mod 2.

(** ** Reading *)

Definition digit_of (a : ascii) : Z := byte_val a - 48.
(** [getnum]: two digits, or one when the width is not fixed. *)
Definition getnum (fixed : bool) (l : bytes) : option (Z * bytes) :=
  match l with
  | a :: l1 =>
      if negb (is_digit a) then None else
      match l1 with
      | b :: l2 => if is_digit b then Some (10 * digit_of a + digit_of b, l2)
                   else if fixed then None else Some (digit_of a, l1)
      | [] => if fixed then None else Some (digit_of a, [])
      end
  | [] => None
  end.
(** The value of a run of digits ([atoi]). *)
Definition digits_value (ds : bytes) : Z := foldl (fun n a => 10 * n + digit_of a) 0 ds.
(** The four digits of the year. *)
Definition get_year (l : bytes) : option (Z * bytes) :=
  match l with
  | a :: b :: c :: d :: l =>
      if is_digit a && is_digit b && is_digit c && is_digit d
      then Some (digits_value [a; b; c; d], l) else None
  | _ => None
  end.
(** A number within bounds, as the range errors require. *)
Definition in_bounds (lo hi : Z) (o : option (Z * bytes)) : option (Z * bytes) :=
  '(n, l) ← o; if (lo <=? n) && (n <=? hi) then Some (n, l) else None.
(** One separator. *)
Definition expect (c : ascii) (l : bytes) : option bytes :=
  match l with a :: l => if decide (a = c) then Some l else None | [] => None end.
(** The fractional second, which the layout does not mention: a point or a
    comma and digits, of which nine count ([parseNanoseconds]). *)
Definition nanoseconds (ds : bytes) : Z :=
  let ds := take 9 ds in digits_value ds * 10 ^ (9 - Z.of_nat (length ds)).
Definition get_fraction (l : bytes) : Z * bytes :=
  match l with
  | p :: (d :: _) as r =>
      if bool_decide (p = "."%char \/ p = ","%char) && is_digit d
      then let '(ds, r) := span_digits (tail l) in (nanoseconds ds, r) else (0, l)
  | _ => (0, l)
  end.
(** [Z07:00]: hours up to 24 and minutes up to 60 are let through. *)
Definition get_zone (l : bytes) : option (Z * bytes) :=
  match l with
  | a :: r =>
      if decide (a = "Z"%char) then Some (0, r) else
      match r with
      | h1 :: h2 :: c :: m1 :: m2 :: r =>
          if decide (c <> ":"%char) then None else
          '(hr, _) ← in_bounds 0 24 (getnum true [h1; h2]);
          '(mm, _) ← in_bounds 0 60 (getnum true [m1; m2]);
          let off := (hr * 60 + mm) * 60 in
          if decide (a = "+"%char) then Some (off, r)
          else if decide (a = "-"%char) then Some (- off, r) else None
      | _ => None
      end
  | [] => None
  end.

(** [time.Date] at UTC, for a date within its month. *)
Definition date_ns (y m d hh mm ss ns : Z) : Z :=
  (days_of_civil (y, m, d) * 86400 + hh * 3600 + mm * 60 + ss) * Second + ns.

Definition parse_rfc3339 (l : bytes) : option Time :=
  '(y, l) ← get_year l;
  l ← expect "-"%char l;
  '(m, l) ← in_bounds 1 12 (getnum true l);
  l ← expect "-"%char l;
  '(d, l) ← getnum true l;
  l ← expect "T"%char l;
  '(hh, l) ← in_bounds 0 23 (getnum false l);
  l ← expect ":"%char l;
  '(mi, l) ← in_bounds 0 59 (getnum true l);
  l ← expect ":"%char l;
  '(ss, l) ← in_bounds 0 59 (getnum true l);
  let '(ns, l) := get_fraction l in
  '(off, l) ← get_zone l;
  match l with
  | [] => if (1 <=? d) && (d <=? daysIn m y)
          then Some (mkTime (date_ns y m d hh mi ss ns - off * Second) off) else None
  | _ => None
  end.

Example parse_rfc3339_ex :
  parse_rfc3339 (to_bytes "2026-06-06T14:00:00.12+02:00")
    = Some (mkTime (1780747200 * Second + 120000000) 7200) /\
  parse_rfc3339 (to_bytes "2026-02-29T00:00:00Z") = None /\
  parse_rfc3339 (to_bytes "2026-06-06 14:00:00Z") = None /\
  parse_rfc3339 (to_bytes "2026-06-06T4:00:00,1234567899Z")
    = parse_rfc3339 (to_bytes "2026-06-06T04:00:00.123456789Z").
Proof. by vm_compute. Qed.

(** ** The calendar's dates are within their months *)

Lemma last_day_of_year doe :
  0 <= doe < 146097 ->
  let yoe := (doe - doe / 1460 + doe / 36524 - doe / 146096) / 365 in
  let doy := doe - (365 * yoe + yoe / 4 - yoe / 100) in
  doy <= 365 /\ (doy = 365 -> (yoe + 1) mod 4 = 0 /\
                 ((yoe + 1) mod 100 <> 0 \/ (yoe + 1) mod 400 = 0)).
Proof. intros H. cbv zeta. split; [|intros E; split; revert E]; Z.div_mod_to_equations; lia. Qed.

(** Days of a month by its number from March; only the last day of the year,
    29 February, depends on the year. *)
Definition month_ok (doy : Z) : bool :=
  let mp := (5 * doy + 2) / 153 in
  let d := doy - (153 * mp + 2) / 5 + 1 in
  let m := if mp <? 10 then mp + 3 else mp - 9 in
  if m =? 2 then d <=? (if doy =? 365 then 29 else 28) else d <=? 30 + (m + m / 8) mod 2.
Lemma month_ok_all doy : 0 <= doy <= 365 -> month_ok doy = true.
Proof. intros H. apply (Z_range_forall month_ok 366); [vm_compute; reflexivity|lia]. Qed.

Lemma isLeap_cycle y era : isLeap (y + era * 400) = isLeap y.
Proof.
  unfold isLeap.
  replace (y + era * 400) with (y + era * 100 * 4) at 1 by lia.
  replace (y + era * 400) with (y + era * 4 * 100) at 1 by lia.
  by rewrite !Z.mod_add by lia.
Qed.

Lemma civil_day_in_month z :
  let '(y, m, d) := civil_of_days z in d <= daysIn m y.
Proof.
  unfold civil_of_days. cbv zeta.
  pose proof (Z.mod_pos_bound (z + 719468) 146097 ltac:(lia)) as Hdoe.
  pose proof (day_of_year_range _ Hdoe) as Hdoy. cbv zeta in Hdoy.
  destruct (last_day_of_year _ Hdoe) as [H365 Hleap].
  set (doe := (z + 719468) mod 146097) in *.
  set (yoe := (doe - doe / 1460 + doe / 36524 - doe / 146096) / 365) in *.
  set (doy := doe - (365 * yoe + yoe / 4 - yoe / 100)) in *.
  pose proof (month_ok_all doy ltac:(lia)) as Hm. unfold month_ok in Hm. cbv zeta in Hm.
  set (mp := (5 * doy + 2) / 153) in *.
  set (m := if mp <? 10 then mp + 3 else mp - 9) in *. unfold daysIn.
  destruct (Z.eqb_spec m 2) as [E|E]; [|lia].
  rewrite (proj2 (Z.leb_le m 2)) by lia.
  replace (yoe + (z + 719468) / 146097 * 400 + 1) with (yoe + 1 + (z + 719468) / 146097 * 400) by lia.
  rewrite isLeap_cycle. unfold isLeap.
  destruct (Z.eqb_spec doy 365) as [Ed|Ed]; [|destruct (_ && _); lia].
  destruct (Hleap Ed) as [H4 Hy]. rewrite H4.
  destruct (Z.eqb_spec ((yoe + 1) mod 100) 0) as [H1|H1], (Z.eqb_spec ((yoe + 1) mod 400) 0);
    simpl; lia.
Qed.

(** ** Reading the text back *)

Lemma digit_back d : 0 <= d < 10 -> is_digit (digit d) = true /\ digit_of (digit d) = d.
Proof.
  intros H. unfold is_digit, in_range, digit_of, digit. rewrite byte_val_of by lia. lia.
Qed.

Lemma getnum_digits fixed z l :
  0 <= z < 100 -> getnum fixed (dec_digits 2 z ++ l) = Some (z, l).
Proof.
  intros H. cbn [dec_digits app getnum].
  destruct (digit_back (z / 10 mod 10)) as [-> ->]; [by apply Z.mod_pos_bound|].
  destruct (digit_back (z mod 10)) as [-> ->]; [by apply Z.mod_pos_bound|].
  cbn [negb]. do 2 f_equal. Z.div_mod_to_equations. lia.
Qed.

Lemma in_bounds_digits lo hi fixed z l :
  lo <= z <= hi -> 0 <= z < 100 ->
  in_bounds lo hi (getnum fixed (dec_digits 2 z ++ l)) = Some (z, l).
Proof.
  intros H1 H2. rewrite getnum_digits by done. cbn [in_bounds mbind option_bind].
  by rewrite !(proj2 (Z.leb_le _ _)) by lia.
Qed.

Lemma expect_here c l : expect c (c :: l) = Some l.
Proof. unfold expect. by rewrite decide_True. Qed.

Lemma digits_value_app ds es :
  digits_value (ds ++ es) = digits_value ds * 10 ^ Z.of_nat (length es) + digits_value es.
Proof.
  unfold digits_value. rewrite foldl_app. generalize (foldl (fun n a => 10 * n + digit_of a) 0 ds).
  induction es as [|e es IH] using rev_ind; intros n; [simpl; lia|].
  rewrite !foldl_app, IH, length_app. cbn [foldl length].
  rewrite Nat2Z.inj_add, Z.pow_add_r by lia. change (10 ^ Z.of_nat 1) with 10. lia.
Qed.

Lemma digits_value_dec w z :
  0 <= z < 10 ^ Z.of_nat w -> digits_value (dec_digits w z) = z.
Proof.
  revert z; induction w as [|w IH]; intros z H; cbn [dec_digits].
  { change (10 ^ Z.of_nat 0) with 1 in H. unfold digits_value. simpl. lia. }
  rewrite Nat2Z.inj_succ, Z.pow_succ_r in H by lia.
  rewrite digits_value_app, IH by (split; [apply Z.div_pos; lia|apply Z.div_lt_upper_bound; lia]).
  unfold digits_value. cbn [foldl length].
  rewrite (proj2 (digit_back (z mod 10) ltac:(by apply Z.mod_pos_bound))).
  change (10 ^ Z.of_nat 1) with 10. pose proof (Z.div_mod z 10). lia.
Qed.

Lemma digits_value_zeros k : digits_value (replicate k "0"%char) = 0.
Proof.
  induction k as [|k IH]; [done|]. rewrite replicate_S_end, digits_value_app, IH.
  by change (digits_value ["0"%char]) with 0.
Qed.

Lemma dec_digits_are_digits w z : forallb is_digit (dec_digits w z) = true.
Proof.
  revert z; induction w as [|w IH]; intros z; cbn [dec_digits]; [done|].
  rewrite forallb_app, IH. cbn [forallb].
  by rewrite (proj1 (digit_back (z mod 10) ltac:(by apply Z.mod_pos_bound))).
Qed.

Lemma get_year_digits y l :
  0 <= y <= 9999 -> get_year (dec_digits 4 y ++ l) = Some (y, l).
Proof.
  intros H. pose proof (digits_value_dec 4 y ltac:(simpl; lia)) as Hv.
  pose proof (dec_digits_are_digits 4 y) as Hd.
  pose proof (length_dec_digits 4 y) as Hl.
  destruct (dec_digits 4 y) as [|a [|b [|c [|d [|]]]]]; try discriminate Hl.
  cbn [app get_year]. cbn [forallb] in Hd. rewrite !andb_true_iff in Hd.
  destruct Hd as (-> & -> & -> & -> & _). cbn [andb]. by rewrite Hv.
Qed.

Lemma span_all ds r :
  forallb is_digit ds = true -> (forall a r', r = a :: r' -> is_digit a = false) ->
  span_digits (ds ++ r) = (ds, r).
Proof.
  intros H Hr. induction ds as [|a ds IH]; cbn [app].
  - destruct r as [|a r]; [done|]. simpl. by rewrite (Hr a r).
  - cbn [forallb] in H. apply andb_true_iff in H as [Ha H]. cbn [span_digits].
    by rewrite Ha, IH.
Qed.

(** The trimmed digits, and the zeros that were cut. *)
Lemma trimmed ns :
  0 < ns < Second ->
  exists ds k, fraction ns = "."%char :: ds /\ dec_digits 9 ns = ds ++ replicate k "0"%char /\
    ds <> [].
Proof.
  intros H. unfold fraction. rewrite (proj2 (Z.eqb_neq ns 0)) by lia.
  destruct (drop_zeros_spec (reverse (dec_digits 9 ns))) as [k Hk].
  apply (f_equal reverse) in Hk. rewrite reverse_involutive, reverse_app, reverse_replicate in Hk.
  eexists _, k. split; [done|]. split; [exact Hk|]. intros E. rewrite E in Hk.
  pose proof (digits_value_dec 9 ns ltac:(unfold Second in H; simpl; lia)) as Hv.
  rewrite Hk in Hv. cbn [app] in Hv. rewrite digits_value_zeros in Hv. lia.
Qed.

Lemma nanoseconds_trimmed ns ds k :
  0 < ns < Second -> dec_digits 9 ns = ds ++ replicate k "0"%char -> nanoseconds ds = ns.
Proof.
  intros H Hd. pose proof (length_dec_digits 9 ns) as Hl.
  pose proof (digits_value_dec 9 ns ltac:(unfold Second in H; simpl; lia)) as Hv.
  rewrite Hd in Hl, Hv. rewrite length_app, length_replicate in Hl.
  rewrite digits_value_app, digits_value_zeros, length_replicate in Hv.
  unfold nanoseconds. rewrite take_ge by lia. replace (9 - Z.of_nat (length ds)) with (Z.of_nat k) by lia.
  lia.
Qed.

Lemma zone_not_digit off a r : zone off = a :: r -> is_digit a = false.
Proof.
  intros H. pose proof (zone_head _ _ _ H) as Hf. unfold fraction_char in Hf.
  unfold is_digit, in_range. destruct (Z.leb_spec 48 (byte_val a)); [|done].
  destruct (Z.leb_spec (byte_val a) 57); [|done]. exfalso. apply Hf. right. lia.
Qed.

Lemma get_fraction_zone ns off :
  0 <= ns < Second -> get_fraction (fraction ns ++ zone off) = (ns, zone off).
Proof.
  intros H. destruct (decide (ns = 0)) as [->|Hn].
  - change (fraction 0) with (@nil ascii). cbn [app]. unfold zone, get_fraction.
    destruct (off =? 0); [done|]. destruct (_ <? 0); [done|done].
  - destruct (trimmed ns ltac:(lia)) as (ds & k & -> & Hd & Hne).
    pose proof (dec_digits_are_digits 9 ns) as Hall. rewrite Hd, forallb_app in Hall.
    apply andb_true_iff in Hall as [Hall _].
    rewrite <-(nanoseconds_trimmed ns ds k) by (done || lia).
    pose proof (span_all ds (zone off) Hall (zone_not_digit off)) as Hs.
    destruct ds as [|d ds]; [done|]. unfold get_fraction. cbn [app tail] in *.
    rewrite Hs. cbn [forallb] in Hall. apply andb_true_iff in Hall as [-> _]. done.
Qed.

Lemma get_zone_zone off :
  off mod 60 = 0 -> Z.abs off < 86400 -> get_zone (zone off) = Some (off, []).
Proof.
  intros Hm Ha. unfold zone. destruct (Z.eqb_spec off 0) as [->|Hz]; [done|].
  pose proof (Z.quot_rem' off 60). assert (Z.rem off 60 = 0) by (apply Z.rem_mod_eq_0; lia).
  set (q := Z.quot off 60) in *.
  pose proof (getnum_digits true (Z.abs q / 60) [] ltac:(Z.div_mod_to_equations; lia)) as Hh.
  pose proof (getnum_digits true (Z.abs q mod 60) [] ltac:(Z.div_mod_to_equations; lia)) as Hq.
  rewrite app_nil_r in Hh, Hq.
  set (s := if q <? 0 then "-"%char else "+"%char).
  assert (s <> "Z"%char) as HsZ by (subst s; by destruct (q <? 0)).
  pose proof (length_dec_digits 2 (Z.abs q / 60)) as L1.
  pose proof (length_dec_digits 2 (Z.abs q mod 60)) as L2.
  destruct (dec_digits 2 (Z.abs q / 60)) as [|h1 [|h2 []]]; try discriminate L1.
  destruct (dec_digits 2 (Z.abs q mod 60)) as [|m1 [|m2 []]]; try discriminate L2.
  cbn [app get_zone]. rewrite decide_False, decide_False by (done || by intros F; apply F).
  rewrite Hh, Hq. cbn [in_bounds mbind option_bind].
  rewrite !(proj2 (Z.leb_le _ _)) by (Z.div_mod_to_equations; lia). cbn [andb mbind option_bind].
  assert ((Z.abs q / 60 * 60 + Z.abs q mod 60) * 60 = Z.abs off) as Ho.
  { pose proof (Z.div_mod (Z.abs q) 60). lia. }
  rewrite Ho. subst s. destruct (Z.ltb_spec q 0).
  - rewrite decide_False, decide_True by done. do 2 f_equal. lia.
  - rewrite decide_True by done. do 2 f_equal. lia.
Qed.

(** The clock of a second of the day. *)
Lemma clock_bounds s :
  0 <= s < 86400 ->
  0 <= s / 3600 <= 23 /\ 0 <= s mod 3600 / 60 <= 59 /\ 0 <= s mod 60 <= 59 /\
  s / 3600 * 3600 + s mod 3600 / 60 * 60 + s mod 60 = s.
Proof. intros H. Z.div_mod_to_equations. lia. Qed.

(** Reads the next separator or number of a formatted time. *)
Ltac read_field :=
  cbn [mbind option_bind];
  first [rewrite expect_here | rewrite in_bounds_digits by lia | rewrite getnum_digits by lia].

(** [UnmarshalJSON] of [MarshalJSON]. *)
Lemma parse_rfc3339_bytes t :
  0 <= year t <= 9999 -> whole_minute_zone t -> parse_rfc3339 (rfc3339_bytes t) = Some t.
Proof.
  intros Hy [Hz1 Hz2]. unfold year, rfc3339_bytes, parse_rfc3339 in *.
  pose proof (civil_of_days_spec (local_seconds t / 86400)) as Hc.
  pose proof (civil_day_in_month (local_seconds t / 86400)) as Hd.
  destruct (civil_of_days (local_seconds t / 86400)) as [[y m] d]. cbn [fst snd] in Hy.
  destruct Hc as (Hc & Hm & Hd').
  destruct (clock_bounds (local_seconds t mod 86400)) as (B1 & B2 & B3 & B4);
    [by apply Z.mod_pos_bound|].
  rewrite append_year, get_year_digits by done. repeat read_field. cbn [mbind option_bind].
  rewrite get_fraction_zone by (by apply Z.mod_pos_bound).
  rewrite get_zone_zone by done. cbn [mbind option_bind].
  rewrite !(proj2 (Z.leb_le _ _)) by lia. cbn [andb]. unfold date_ns. rewrite Hc.
  destruct t as [ns off]. unfold local_seconds in *. cbn [t_ns t_off] in *. do 2 f_equal.
  pose proof (Z.div_mod (ns / Second + off) 86400). pose proof (Z.div_mod ns Second).
  unfold Second in *. lia.
Qed.
