(* ===== verification/GoDuration.v ===== *)
(** [time.ParseDuration], which reads the [--ttl] flag of the command line. *)

From S2P Require Import Prelude GoBytes GoStrings GoTime GoFloat Protocol Json Canonical JsonText.
From S2P Require Import GoTimeParse.
Local Open Scope Z_scope.

(** The [time] package's own [quote]: bytes that are not printable ASCII in
    hexadecimal. *)
Definition time_quote (s : string) : string :=
  of_bytes (quote_char ::
    (to_bytes s ≫= fun a =>
       if (byte_val a <? 32) || (128 <=? byte_val a) then to_bytes "\x" ++ hex_byte a
       else if bool_decide (a = quote_char \/ a = backslash) then [backslash; a] else [a])
    ++ [quote_char]).

Definition unitMap (u : string) : option Z :=
  if decide (u = "ns") then Some Nanosecond
  else if decide (u = "us" \/ u = "µs" \/ u = "μs") then Some 1000
  else if decide (u = "ms") then Some Millisecond
  else if decide (u = "s") then Some Second
  else if decide (u = "m") then Some Minute
  else if decide (u = "h") then Some Hour
  else None.

(** [leadingInt]: [None] on overflow. *)
Fixpoint leadingInt (l : bytes) (x : Z) : option (Z * bytes) :=
  match l with
  | a :: l' =>
      if is_digit a then
        if 2 ^ 63 / 10 <? x then None
        else let x' := x * 10 + digit_of a in
             if 2 ^ 63 <? x' then None else leadingInt l' x'
      else Some (x, l)
  | [] => Some (x, [])
  end.
(** [leadingFraction]: digits that do not fit are skipped. *)
Fixpoint leadingFraction (l : bytes) (x : Z) (scale : float64) (overflow : bool) :
    Z * float64 * bytes :=
  match l with
  | a :: l' =>
      if is_digit a then
        if overflow then leadingFraction l' x scale true
        else if (2 ^ 63 - 1) / 10 <? x then leadingFraction l' x scale true
        else let y := x * 10 + digit_of a in
             if 2 ^ 63 <? y then leadingFraction l' x scale true
             else leadingFraction l' y (float_mul scale (float_of_int 10)) false
      else (x, scale, l)
  | [] => (x, scale, [])
  end.
(** Everything up to the next digit or point. *)
Fixpoint span_unit (l : bytes) : bytes * bytes :=
  match l with
  | a :: l' => if is_digit a || bool_decide (a = "."%char) then ([], l)
               else let '(u, r) := span_unit l' in (a :: u, r)
  | [] => ([], [])
  end.

Definition invalid_duration (orig : string) : error :=
  ErrStr ("time: invalid duration " +:+ time_quote orig).

(** The number before a unit, with its fraction. *)
Definition duration_number (orig : string) (l : bytes) : res (Z * Z * float64 * bytes) :=
  match leadingInt l 0 with
  | None => Err (invalid_duration orig)
  | Some (v, l1) =>
      let pre := bool_decide (length l1 <> length l) in
      let '(f, scale, l2, post) :=
        match l1 with
        | a :: l1' =>
            if decide (a = "."%char) then
              let '(f, scale, l2) := leadingFraction l1' 0 (float_of_int 1) false in
              (f, scale, l2, bool_decide (length l2 <> length l1'))
            else (0, float_of_int 1, l1, false)
        | [] => (0, float_of_int 1, l1, false)
        end in
      if pre || post then Ok (v, f, scale, l2) else Err (invalid_duration orig)
  end.

(** One number and its unit, added to the [uint64] [d]. *)
Definition duration_part (orig : string) (l : bytes) (d : Z) : res (Z * bytes) :=
  match l with
  | a :: _ =>
      if negb (bool_decide (a = "."%char) || is_digit a) then Err (invalid_duration orig) else
      match duration_number orig l with
      | Err e => Err e
      | Ok (v, f, scale, l2) =>
          let '(u, rest) := span_unit l2 in
          match u with
          | [] => Err (ErrStr ("time: missing unit in duration " +:+ time_quote orig))
          | _ =>
              match unitMap (of_bytes u) with
              | None => Err (ErrStr ("time: unknown unit " +:+ time_quote (of_bytes u) +:+
                                     " in duration " +:+ time_quote orig))
              | Some unit =>
                  if 2 ^ 63 / unit <? v then Err (invalid_duration orig) else
                  let v := v * unit in
                  let v := if 0 <? f
                           then v + int_of_float (float_mul (float_of_int f)
                                      (float_div (float_of_int unit) scale))
                           else v in
                  if (0 <? f) && (2 ^ 63 <? v) then Err (invalid_duration orig)
                  else let d := (d + v) mod 2 ^ 64 in
                       if 2 ^ 63 <? d then Err (invalid_duration orig) else Ok (d, rest)
              end
          end
      end
  | [] => Ok (d, [])
  end.

(** The loop; every turn consumes at least a digit and a unit. *)
Fixpoint duration_loop (fuel : nat) (orig : string) (l : bytes) (d : Z) : res Z :=
  match l, fuel with
  | [], _ => Ok d
  | _, O => Ok d
  | _, S fuel =>
      match duration_part orig l d with
      | Err e => Err e
      | Ok (d, rest) => duration_loop fuel orig rest d
      end
  end.

Definition ParseDuration (s : string) : res Z :=
  let '(neg, l) :=
    match to_bytes s with
    | a :: l => if decide (a = "-"%char) then (true, l)
                else if decide (a = "+"%char) then (false, l) else (false, a :: l)
    | [] => (false, [])
    end in
  if decide (l = to_bytes "0") then Ok 0
  else match l with
  | [] => Err (invalid_duration s)
  | _ =>
      match duration_loop (length l) s l 0 with
      | Err e => Err e
      | Ok d => if (neg : bool) then Ok (- d)
                else if 2 ^ 63 - 1 <? d then Err (invalid_duration s) else Ok d
      end
  end.

Example ParseDuration_ex :
  ParseDuration "1h30m" = Ok (90 * Minute) /\ ParseDuration "-1.5h" = Ok (-90 * Minute) /\
  ParseDuration "1.000000001s" = Ok (Second + 1) /\ ParseDuration "0" = Ok 0 /\
  ParseDuration ".5us" = Ok 500 /\ ParseDuration "-9223372036854775808ns" = Ok int64_min /\
  ParseDuration "9223372036854775808ns" = Err (invalid_duration "9223372036854775808ns") /\
  ParseDuration "3" = Err (ErrStr ("time: missing unit in duration " +:+ time_quote "3")) /\
  ParseDuration "1d" = Err (ErrStr ("time: unknown unit " +:+ time_quote "d" +:+
                                    " in duration " +:+ time_quote "1d")) /\
  ParseDuration ".s" = Err (invalid_duration ".s") /\ ParseDuration "1µs" = Ok 1000.
Proof. vm_compute. repeat split. Qed.

(** ** Range *)

Lemma duration_part_range orig l d d' rest :
  0 <= d <= 2 ^ 63 -> duration_part orig l d = Ok (d', rest) -> 0 <= d' <= 2 ^ 63.
Proof.
  intros Hd. unfold duration_part. destruct l as [|a l]; [by intros [= <- _]|].
  destruct (negb _); [done|]. destruct (duration_number orig (a :: l)) as [[[[v f] sc] l2]|]; [|done].
  destruct (span_unit l2) as [[|u0 u] r]; [done|]. destruct (unitMap _) as [unit|]; [|done].
  destruct (_ <? v); [done|]. destruct (_ && _); [done|].
  set (x := if 0 <? f then _ else _). cbv zeta.
  destruct (Z.ltb_spec (2 ^ 63) ((d + x) mod 2 ^ 64)); [done|]. intros [= <- _].
  pose proof (Z.mod_pos_bound (d + x) (2 ^ 64)). lia.
Qed.

(** *** The loop does not depend on its fuel *)

Lemma leadingInt_shorter l x v r : leadingInt l x = Some (v, r) -> (length r <= length l)%nat.
Proof.
  revert x. induction l as [|a l IH]; intros x; cbn [leadingInt]; [by intros [= <- <-]|].
  repeat case_match; try done; [|by intros [= <- <-]]. intros E%IH. cbn. lia.
Qed.

Lemma leadingFraction_shorter l x scale o :
  (length (leadingFraction l x scale o).2 <= length l)%nat.
Proof.
  revert x scale o. induction l as [|a l IH]; intros x scale o; cbn [leadingFraction]; [done|].
  repeat case_match; try done; (etransitivity; [apply IH|cbn; lia]).
Qed.

Lemma span_unit_length l : (length (span_unit l).1 + length (span_unit l).2 = length l)%nat.
Proof.
  induction l as [|a l IH]; [done|]. cbn [span_unit]. case_match; [done|].
  destruct (span_unit l). cbn in *. lia.
Qed.

Lemma duration_number_shorter orig l v f scale r :
  duration_number orig l = Ok (v, f, scale, r) -> (length r <= length l)%nat.
Proof.
  unfold duration_number. destruct (leadingInt l 0) as [[v' l1]|] eqn:E; [|done].
  apply leadingInt_shorter in E. destruct l1 as [|a l1].
  { case_match; [|done]. by intros [= _ _ _ <-]. }
  case_decide.
  - pose proof (leadingFraction_shorter l1 0 (float_of_int 1) false) as Hl.
    destruct (leadingFraction l1 _ _ _) as [[f' s'] l2]. case_match; [|done].
    intros [= _ _ _ <-]. cbn in *. lia.
  - case_match; [|done]. by intros [= _ _ _ <-].
Qed.

Lemma duration_part_shorter orig l d d' r :
  l <> [] -> duration_part orig l d = Ok (d', r) -> (length r < length l)%nat.
Proof.
  unfold duration_part. destruct l as [|a l]; [done|]. intros _. case_match; [done|].
  destruct (duration_number _ _) as [[[[v f] scale] l2]|] eqn:E; [|done].
  apply duration_number_shorter in E. pose proof (span_unit_length l2) as Hl.
  destruct (span_unit l2) as [[|u us] rest]; [done|]. cbn [fst snd length] in *.
  repeat case_match; try done; intros [= _ <-]; lia.
Qed.

Lemma duration_loop_fuel orig l d n m :
  (length l <= n)%nat -> (length l <= m)%nat -> duration_loop n orig l d = duration_loop m orig l d.
Proof.
  revert l d m. induction n as [|n IH]; intros l d m Hn Hm; destruct l as [|a l], m; cbn in Hn, Hm;
    try lia; try done. cbn [duration_loop].
  destruct (duration_part orig (a :: l) d) as [[d' r]|] eqn:E; [|done].
  apply duration_part_shorter in E; [|done]. cbn in E. apply IH; lia.
Qed.

Lemma duration_loop_range fuel orig l d d' :
  0 <= d <= 2 ^ 63 -> duration_loop fuel orig l d = Ok d' -> 0 <= d' <= 2 ^ 63.
Proof.
  revert l d. induction fuel as [|fuel IH]; intros l d Hd.
  - destruct l; by intros [= <-].
  - destruct l as [|a l]; [by intros [= <-]|]. cbn [duration_loop].
    destruct (duration_part orig (a :: l) d) as [[d1 rest]|] eqn:E; [|done].
    apply IH. by eapply duration_part_range.
Qed.

(** What is accepted is a [Duration]. *)
Lemma ParseDuration_range s d : ParseDuration s = Ok d -> is_int64 d.
Proof.
  unfold ParseDuration, is_int64, int64_min, int64_max.
  set (x := match to_bytes s with a :: l => _ | [] => _ end). destruct x as [neg l].
  case_decide; [intros [= <-]; lia|]. destruct l as [|a l]; [done|].
  destruct (duration_loop _ _ _ _) as [n|] eqn:E; [|done].
  apply duration_loop_range in E; [|lia]. destruct neg; [intros [= <-]; lia|].
  destruct (Z.ltb_spec (2 ^ 63 - 1) n); [done|]. intros [= <-]. lia.
Qed.

(** ** Whole numbers of units *)

(** A sequence of numbers and units, such as [1h30m]. *)
Definition part : Type := bytes * string.
Definition part_ok (p : part) : Prop :=
  p.1 <> [] /\ forallb is_digit p.1 = true /\ is_Some (unitMap p.2).
Definition part_text (p : part) : bytes := p.1 ++ to_bytes p.2.
Definition part_value (p : part) : Z := digits_value p.1 * default 0 (unitMap p.2).

(** What can follow a unit. *)
Definition starts_number (r : bytes) : Prop := forall a r', r = a :: r' -> is_digit a = true.

Lemma digit_of_range a : is_digit a = true -> 0 <= digit_of a <= 9.
Proof. unfold is_digit, in_range, digit_of. lia. Qed.

Lemma digits_value_cons x ds :
  foldl (fun n a => 10 * n + digit_of a) x ds
  = x * 10 ^ Z.of_nat (length ds) + digits_value ds.
Proof.
  unfold digits_value. revert x.
  induction ds as [|d ds IH]; intros x; [simpl; lia|]. cbn [foldl length].
  rewrite IH, (IH (10 * 0 + digit_of d)), Nat2Z.inj_succ, Z.pow_succ_r by lia. lia.
Qed.

Lemma digits_value_nonneg ds : forallb is_digit ds = true -> 0 <= digits_value ds.
Proof.
  intros H. induction ds as [|d ds IH] using rev_ind; [done|].
  rewrite forallb_app in H. apply andb_true_iff in H as [H1 H2].
  rewrite digits_value_app. cbn [forallb] in H2. apply andb_true_iff in H2 as [H2 _].
  pose proof (digit_of_range d H2). specialize (IH H1). unfold digits_value at 2. simpl. lia.
Qed.

Lemma leadingInt_digits ds r x :
  forallb is_digit ds = true -> (forall a r', r = a :: r' -> is_digit a = false) ->
  0 <= x -> x * 10 ^ Z.of_nat (length ds) + digits_value ds <= 2 ^ 63 ->
  leadingInt (ds ++ r) x = Some (x * 10 ^ Z.of_nat (length ds) + digits_value ds, r).
Proof.
  intros Hd Hr. revert x. induction ds as [|d ds IH]; intros x Hx Hb.
  - unfold digits_value. cbn [app length foldl]. change (10 ^ Z.of_nat 0) with 1.
    rewrite Z.mul_1_r, Z.add_0_r.
    destruct r as [|a r]; [done|]. cbn [leadingInt]. by rewrite (Hr a r).
  - cbn [forallb] in Hd. apply andb_true_iff in Hd as [Hd1 Hd2].
    pose proof (digit_of_range d Hd1). pose proof (digits_value_nonneg ds Hd2).
    assert (x * 10 ^ Z.of_nat (length (d :: ds)) + digits_value (d :: ds) =
      (x * 10 + digit_of d) * 10 ^ Z.of_nat (length ds) + digits_value ds) as E.
    { unfold digits_value at 1. cbn [foldl length]. rewrite digits_value_cons.
      rewrite Nat2Z.inj_succ, Z.pow_succ_r by lia. lia. }
    rewrite E in Hb |- *. pose proof (Z.pow_pos_nonneg 10 (Z.of_nat (length ds))).
    assert (x * 10 + digit_of d <= 2 ^ 63) by nia.
    cbn [app leadingInt]. rewrite Hd1.
    destruct (Z.ltb_spec (2 ^ 63 / 10) x); [Z.div_mod_to_equations; lia|].
    destruct (Z.ltb_spec (2 ^ 63) (x * 10 + digit_of d)); [lia|].
    apply IH; [done|lia|done].
Qed.

Lemma unitMap_cases u unit :
  unitMap u = Some unit ->
  0 < unit /\ to_bytes u <> [] /\
  forallb (fun a => negb (is_digit a || bool_decide (a = "."%char))) (to_bytes u) = true.
Proof.
  unfold unitMap. intros H. repeat case_decide; try discriminate H; injection H as <-;
    try destruct_or!; subst; by vm_compute.
Qed.

Lemma span_unit_all u r :
  forallb (fun a => negb (is_digit a || bool_decide (a = "."%char))) u = true ->
  starts_number r -> span_unit (u ++ r) = (u, r).
Proof.
  intros Hu Hr. induction u as [|a u IH]; cbn [app].
  - destruct r as [|a r]; [done|]. cbn [span_unit]. by rewrite (Hr a r).
  - cbn [forallb] in Hu. apply andb_true_iff in Hu as [Ha Hu]. cbn [span_unit].
    rewrite negb_true_iff in Ha. by rewrite Ha, IH.
Qed.

Lemma duration_number_digits orig ds u r :
  ds <> [] -> forallb is_digit ds = true -> u <> [] ->
  forallb (fun a => negb (is_digit a || bool_decide (a = "."%char))) u = true ->
  digits_value ds <= 2 ^ 63 ->
  duration_number orig (ds ++ u ++ r) = Ok (digits_value ds, 0, float_of_int 1, u ++ r).
Proof.
  intros Hne Hd Hu Hun Hb. unfold duration_number.
  destruct u as [|b u]; [done|]. cbn [forallb] in Hun. apply andb_true_iff in Hun as [Hb1 _].
  apply negb_true_iff, orb_false_iff in Hb1 as [Hb1 Hb2%bool_decide_eq_false].
  rewrite leadingInt_digits; [|done|by intros a r' [= <- _]|done|lia].
  rewrite Z.mul_0_l, Z.add_0_l. cbn [app]. rewrite decide_False by done.
  rewrite bool_decide_eq_true_2; [done|]. rewrite length_app. destruct ds; [done|simpl; lia].
Qed.

Lemma duration_part_whole orig p r d :
  part_ok p -> starts_number r -> 0 <= d -> d + part_value p <= 2 ^ 63 ->
  duration_part orig (part_text p ++ r) d = Ok (d + part_value p, r).
Proof.
  destruct p as [ds u]. intros (Hne & Hd & [unit Hu]) Hr Hd0 Hb.
  unfold part_text, part_value in *. cbn [fst snd] in *. rewrite Hu in *.
  change (default 0 (Some unit)) with unit in *.
  destruct (unitMap_cases u unit Hu) as (Hpos & Hun & Huc).
  pose proof (digits_value_nonneg ds Hd).
  assert (digits_value ds * 1 <= digits_value ds * unit) by (apply Z.mul_le_mono_nonneg_l; lia).
  assert (digits_value ds <= 2 ^ 63) by lia.
  rewrite <-app_assoc.
  assert (exists a t, ds ++ to_bytes u ++ r = a :: t /\ is_digit a = true) as (a & t & Et & Ha).
  { destruct ds as [|a ds]; [done|]. cbn [forallb] in Hd. apply andb_true_iff in Hd as [? _].
    by eexists _, _. }
  unfold duration_part. rewrite Et, Ha, orb_true_r. cbn [negb]. rewrite <-Et.
  rewrite duration_number_digits by done. rewrite span_unit_all by done.
  destruct (to_bytes u) as [|b bs] eqn:Eb; [done|]. rewrite <-Eb, of_to_bytes, Hu.
  destruct (Z.ltb_spec (2 ^ 63 / unit) (digits_value ds)) as [Hlt|_].
  { exfalso. apply Z.lt_nge in Hlt. apply Hlt. apply Z.div_le_lower_bound; lia. }
  cbn [Z.ltb Z.compare andb]. cbv zeta. rewrite Z.mod_small by lia.
  destruct (Z.ltb_spec (2 ^ 63) (d + digits_value ds * unit)); [lia|done].
Qed.

Lemma part_value_nonneg p : part_ok p -> 0 <= part_value p.
Proof.
  intros (_ & Hd & [unit Hu]). unfold part_value. rewrite Hu.
  change (default 0 (Some unit)) with unit.
  pose proof (digits_value_nonneg _ Hd). destruct (unitMap_cases _ _ Hu) as (? & _). nia.
Qed.

Definition total (ps : list part) : Z := foldr Z.add 0 (map part_value ps).

Lemma total_nonneg ps : Forall part_ok ps -> 0 <= total ps.
Proof.
  unfold total. induction 1 as [|p ps Hp Hps IH]; simpl; [done|].
  pose proof (part_value_nonneg p Hp). lia.
Qed.

Lemma parts_start ps : Forall part_ok ps -> starts_number (ps ≫= part_text).
Proof.
  destruct 1 as [|[ds u] ps (Hne & Hd & _) _]; [done|]. intros a r.
  rewrite bind_cons. unfold part_text. cbn [fst snd] in *. destruct ds as [|d ds]; [done|].
  cbn [forallb] in Hd. apply andb_true_iff in Hd as [? _]. by intros [= <- _].
Qed.

Lemma duration_loop_parts ps fuel orig d :
  Forall part_ok ps -> (length ps <= fuel)%nat -> 0 <= d -> d + total ps <= 2 ^ 63 ->
  duration_loop fuel orig (ps ≫= part_text) d = Ok (d + total ps).
Proof.
  intros H. revert fuel d. induction H as [|p ps Hp Hps IH]; intros fuel d Hf Hd Hb.
  - unfold total. cbn. rewrite Z.add_0_r. by destruct fuel.
  - destruct fuel as [|fuel]; [simpl in Hf; lia|]. rewrite bind_cons.
    pose proof (part_value_nonneg p Hp). pose proof (total_nonneg ps Hps).
    unfold total in Hb |- *. cbn [map foldr] in Hb |- *. fold (total ps) in *.
    pose proof (duration_part_whole orig p (ps ≫= part_text) d Hp (parts_start ps Hps) Hd
      ltac:(lia)) as E.
    destruct (part_text p ++ (ps ≫= part_text)) as [|a t] eqn:Et.
    { destruct p as [[|? ?] ?]; [by destruct Hp as (? & _)|discriminate Et]. }
    cbn [duration_loop]. rewrite E, IH by (simpl in Hf; lia). f_equal. lia.
Qed.

Lemma part_text_length p : part_ok p -> (2 <= length (part_text p))%nat.
Proof.
  destruct p as [ds u]. intros (Hne & _ & [unit Hu]). unfold part_text. cbn [fst snd] in *.
  destruct (unitMap_cases u unit Hu) as (_ & Hun & _). rewrite length_app.
  destruct ds; [done|]. destruct (to_bytes u); [done|]. simpl. lia.
Qed.

Lemma parts_length ps : Forall part_ok ps -> (2 * length ps <= length (ps ≫= part_text))%nat.
Proof.
  induction 1 as [|p ps Hp Hps IH]; [done|]. rewrite bind_cons, length_app.
  pose proof (part_text_length p Hp). simpl. lia.
Qed.

(** A sequence of whole numbers of units stands for their sum, as long as it
    is a [Duration]. *)
Lemma ParseDuration_parts ps :
  ps <> [] -> Forall part_ok ps -> total ps <= int64_max ->
  ParseDuration (of_bytes (ps ≫= part_text)) = Ok (total ps).
Proof.
  intros Hne Hps Ht. unfold int64_max in Ht. unfold ParseDuration. rewrite to_of_bytes.
  pose proof (parts_length ps Hps) as Hl. pose proof (parts_start ps Hps) as Hs.
  assert (1 <= length ps)%nat by (destruct ps; [done|simpl; lia]).
  pose proof (duration_loop_parts ps (length (ps ≫= part_text)) (of_bytes (ps ≫= part_text)) 0
    Hps ltac:(lia) ltac:(lia) ltac:(lia)) as E.
  destruct (ps ≫= part_text) as [|a [|b l]] eqn:El; [simpl in Hl; lia..|].
  pose proof (Hs a _ eq_refl) as Ha.
  rewrite !decide_False by (intros ->; discriminate Ha).
  rewrite decide_False by (intros ?%(f_equal length); discriminate).
  rewrite E, Z.add_0_l. by destruct (Z.ltb_spec (2 ^ 63 - 1) (total ps)); [lia|].
Qed.
