(* ===== verification/Sha256.v ===== *)
(** SHA-256 (FIPS 180-4), the [crypto/sha256] digest behind JWKS key ids,
    metric labels, CDC redaction and key fingerprints; executable, and checked
    on the standard's test vectors. *)

From S2P Require Import Prelude GoBytes.
Local Open Scope Z_scope.

Definition w32 (z : Z) : Z := Z.land z 4294967295.
Definition rotr (n x : Z) : Z := w32 (Z.lor (Z.shiftr x n) (Z.shiftl x (32 - n))).
Definition Ch (x y z : Z) : Z := Z.lxor (Z.land x y) (Z.land (Z.lxor x 4294967295) z).
Definition Maj (x y z : Z) : Z :=
  Z.lxor (Z.land x y) (Z.lxor (Z.land x z) (Z.land y z)).
Definition Sigma0 (x : Z) : Z := Z.lxor (rotr 2 x) (Z.lxor (rotr 13 x) (rotr 22 x)).
Definition Sigma1 (x : Z) : Z := Z.lxor (rotr 6 x) (Z.lxor (rotr 11 x) (rotr 25 x)).
Definition sigma0 (x : Z) : Z := Z.lxor (rotr 7 x) (Z.lxor (rotr 18 x) (Z.shiftr x 3)).
Definition sigma1 (x : Z) : Z := Z.lxor (rotr 17 x) (Z.lxor (rotr 19 x) (Z.shiftr x 10)).

Definition sha_K : list Z :=
  [1116352408; 1899447441; 3049323471; 3921009573; 961987163; 1508970993; 2453635748;
   2870763221; 3624381080; 310598401; 607225278; 1426881987; 1925078388; 2162078206;
   2614888103; 3248222580; 3835390401; 4022224774; 264347078; 604807628; 770255983;
   1249150122; 1555081692; 1996064986; 2554220882; 2821834349; 2952996808; 3210313671;
   3336571891; 3584528711; 113926993; 338241895; 666307205; 773529912; 1294757372;
   1396182291; 1695183700; 1986661051; 2177026350; 2456956037; 2730485921; 2820302411;
   3259730800; 3345764771; 3516065817; 3600352804; 4094571909; 275423344; 430227734;
   506948616; 659060556; 883997877; 958139571; 1322822218; 1537002063; 1747873779;
   1955562222; 2024104815; 2227730452; 2361852424; 2428436474; 2756734187; 3204031479;
   3329325298].
Definition sha_H0 : list Z :=
  [1779033703; 3144134277; 1013904242; 2773480762; 1359893119; 2600822924; 528734635;
   1541459225].

Definition be_word (l : bytes) : Z := foldl (fun acc a => acc * 256 + byte_val a) 0 l.
Fixpoint be_bytes (n : nat) (z : Z) : bytes :=
  match n with
  | O => []
  | S n => be_bytes n (z / 256) ++ [byte_of (z mod 256)]
  end.

(** Padding to a multiple of 64 bytes, with the bit length at the end. *)
Definition sha_pad (m : bytes) : bytes :=
  let len := Z.of_nat (length m) in
  let zeros := Z.to_nat ((55 - len) mod 64) in
  m ++ byte_of 128 :: replicate zeros (byte_of 0) ++ be_bytes 8 (8 * len).

(** The schedule, kept newest word first. *)
Definition sha_next (w : list Z) : Z :=
  let at_ i := default 0 (w !! i) in
  w32 (sigma1 (at_ 1%nat) + at_ 6%nat + sigma0 (at_ 14%nat) + at_ 15%nat).
Fixpoint sha_schedule (n : nat) (w : list Z) : list Z :=
  match n with
  | O => w
  | S n => sha_schedule n (sha_next w :: w)
  end.

Definition sha_round (st : list Z) (kw : Z * Z) : list Z :=
  match st with
  | [a; b; c; d; e; f; g; h] =>
      let t1 := w32 (h + Sigma1 e + Ch e f g + kw.1 + kw.2) in
      let t2 := w32 (Sigma0 a + Maj a b c) in
      [w32 (t1 + t2); a; b; c; w32 (d + t1); e; f; g]
  | _ => st
  end.
Fixpoint words (l : bytes) : list Z :=
  match l with
  | a :: b :: c :: d :: l => be_word [a; b; c; d] :: words l
  | _ => []
  end.
Definition sha_block (h : list Z) (block : bytes) : list Z :=
  let w := reverse (sha_schedule 48 (reverse (words block))) in
  zip_with (fun x y => w32 (x + y)) h (foldl sha_round h (zip sha_K w)).
Fixpoint sha_blocks (n : nat) (h : list Z) (m : bytes) : list Z :=
  match n with
  | O => h
  | S n => sha_blocks n (sha_block h (take 64 m)) (drop 64 m)
  end.

(** [sha256.Sum256] *)
Definition sha256 (m : bytes) : bytes :=
  let p := sha_pad m in
  sha_blocks (length p / 64) sha_H0 p ≫= be_bytes 4.

Example sha256_empty : hex_encode (sha256 []) =
  "e3b0c44298fc1c149afbf4c8996fb92427ae41e4649b934ca495991b7852b855".
Proof. vm_compute. reflexivity. Qed.
Example sha256_abc : hex_encode (sha256 (to_bytes "abc")) =
  "ba7816bf8f01cfea414140de5dae2223b00361a396177a9cb410ff61f20015ad".
Proof. vm_compute. reflexivity. Qed.
Example sha256_two_blocks : hex_encode (sha256 (to_bytes
  "abcdbcdecdefdefgefghfghighijhijkijkljklmklmnlmnomnopnopq")) =
  "248d6a61d20638b8e5c026930c3e6039a33ce45964ff2167f6ecedd419db06c1".
Proof. vm_compute. reflexivity. Qed.

Lemma length_be_bytes n z : length (be_bytes n z) = n.
Proof.
  revert z; induction n as [|n IH]; intros z; simpl; [done|].
  rewrite length_app, IH. simpl. lia.
Qed.

Lemma length_sha_round st kw : length (sha_round st kw) = length st.
Proof. unfold sha_round. repeat case_match; done. Qed.

Lemma length_sha_block h b : length h = 8%nat -> length (sha_block h b) = 8%nat.
Proof.
  intros Hh. unfold sha_block. rewrite length_zip_with.
  assert (forall l st, length (foldl sha_round st l) = length st) as E.
  { induction l as [|x l IH]; intros st; [done|]. simpl. rewrite IH. apply length_sha_round. }
  rewrite E. lia.
Qed.

Lemma length_sha_blocks n h p : length h = 8%nat -> length (sha_blocks n h p) = 8%nat.
Proof.
  revert h p; induction n as [|n IH]; intros h p Hh; [done|].
  simpl. by apply IH, length_sha_block.
Qed.

Lemma length_digest_bytes (l : list Z) : length (l ≫= be_bytes 4) = (4 * length l)%nat.
Proof.
  induction l as [|x l IH]; [done|]. rewrite bind_cons, length_app, IH, length_be_bytes.
  simpl. lia.
Qed.

(** A digest is 32 bytes. *)
Lemma length_sha256 m : length (sha256 m) = 32%nat.
Proof. unfold sha256. by rewrite length_digest_bytes, length_sha_blocks. Qed.
