(* ===== verification/Observability.v ===== *)
(** NATS subjects and event payloads of the broker
    (internal/observability/subject.go and events.go). *)

From S2P Require Import Prelude GoStrings GoTime Protocol.

Definition Domain : string := "broker".
Definition SubDomain : string := "hanko".

Definition EntityOIDC : string := "oidc".
Definition EntitySigil : string := "sigil".
Definition EntityJWKS : string := "jwks".
Definition EntitySecurity : string := "security".
Definition EntityCDC : string := "cdc".
Definition EntityConfig : string := "config".
Definition EntityScope : string := "scope".

Definition ActionAuthRequest : string := "auth_request".
Definition ActionCodeIssued : string := "code_issued".
Definition ActionTokenIssued : string := "token_issued".
Definition ActionUserInfoServed : string := "userinfo_served".
Definition ActionSessionRevoked : string := "session_revoked".
Definition ActionFailed : string := "failed".
Definition ActionTokenFailed : string := "token_failed".
Definition ActionUserInfoFailed : string := "userinfo_failed".
Definition ActionSigilIssued : string := "issued".
Definition ActionSigilRevoked : string := "revoked".
Definition ActionJWKSRotated : string := "rotated".
Definition ActionBruteForceDetected : string := "brute_force_detected".
Definition ActionAuditRowInserted : string := "audit_row_inserted".
Definition ActionAuditRowUpdated : string := "audit_row_updated".
Definition ActionAuditRowDeleted : string := "audit_row_deleted".
Definition ActionConfigReloadRequested : string := "reload_requested".
Definition ActionConfigReloaded : string := "reloaded".
Definition ActionConfigReloadFailed : string := "reload_failed".
Definition ActionUnknownScopeRejected : string := "unknown_scope_rejected".

Record NATSSubject := mkSubject {
  ns_WorkspaceID : string;
  ns_Domain : string;
  ns_SubDomain : string;
  ns_Entity : string;
  ns_Action : string;
  ns_CorrID : string
}.
#[export] Instance NATSSubject_eq_dec : EqDecision NATSSubject.
Proof. solve_decision. Defined.

(** [NATSSubject.String] *)
Definition subject_String (s : NATSSubject) : string :=
  "shikki." +:+ ns_WorkspaceID s +:+ "." +:+ ns_Domain s +:+ "." +:+ ns_SubDomain s
  +:+ "." +:+ ns_Entity s +:+ "." +:+ ns_Action s +:+ "." +:+ ns_CorrID s.

Definition OIDCSubject (ws action corrID : string) : NATSSubject :=
  mkSubject ws Domain SubDomain EntityOIDC action corrID.
Definition SigilSubject (ws action corrID : string) : NATSSubject :=
  mkSubject ws Domain SubDomain EntitySigil action corrID.
Definition JWKSSubject (ws action corrID : string) : NATSSubject :=
  mkSubject ws Domain SubDomain EntityJWKS action corrID.
Definition SecuritySubject (ws action corrID : string) : NATSSubject :=
  mkSubject ws Domain SubDomain EntitySecurity action corrID.
Definition CDCSubject (ws action corrID : string) : NATSSubject :=
  mkSubject ws Domain SubDomain EntityCDC action corrID.
Definition ConfigSubject (ws action corrID : string) : NATSSubject :=
  mkSubject ws Domain SubDomain EntityConfig action corrID.
Definition ScopeSubject (ws action corrID : string) : NATSSubject :=
  mkSubject ws Domain SubDomain EntityScope action corrID.

(** ** Payloads *)

Record OIDCEvent := mkOIDCEvent {
  oe_TS : string; oe_CorrID : string; oe_WorkspaceID : string; oe_ClientID : string;
  oe_SubjectID : string; oe_Scopes : list string; oe_Endpoint : string;
  oe_DurationMS : Z; oe_Outcome : string; oe_FailureReason : string }.
Record SigilIssuedEvent := mkSigilIssuedEvent {
  si_TS : string; si_CorrID : string; si_WorkspaceID : string; si_SubjectID : string;
  si_CapabilitySet : list string; si_ExpiresAt : option Time; si_Outcome : string }.
Record SigilRevokedEvent := mkSigilRevokedEvent {
  sr_TS : string; sr_CorrID : string; sr_WorkspaceID : string; sr_SubjectID : string;
  sr_Reason : string; sr_Outcome : string }.
Record JWKSRotatedEvent := mkJWKSRotatedEvent {
  jr_TS : string; jr_CorrID : string; jr_WorkspaceID : string; jr_KidOld : string;
  jr_KidNew : string; jr_RotationReason : string }.
Record BruteForceEvent := mkBruteForceEvent {
  bf_TS : string; bf_CorrID : string; bf_WorkspaceID : string; bf_ClientID : string;
  bf_AttemptCount : Z; bf_WindowSeconds : Z; bf_FirstSeen : Time; bf_LastSeen : Time }.
Record CDCEvent := mkCDCEvent {
  ce_TS : string; ce_CorrID : string; ce_WorkspaceID : string; ce_Table : string;
  ce_RowID : string; ce_Op : string; ce_FieldsHashed : option (gmap string string);
  ce_DiffSummary : list string; ce_TombstoneReason : string }.
Record ConfigReloadedEvent := mkConfigReloadedEvent {
  cr_TS : string; cr_CorrID : string; cr_WorkspaceID : string;
  cr_KeysApplied : list string; cr_DurationMS : Z; cr_HankoKidInUse : string }.
Record ConfigReloadFailedEvent := mkConfigReloadFailedEvent {
  cf_TS : string; cf_CorrID : string; cf_WorkspaceID : string;
  cf_KeysAttempted : list string; cf_FailureReason : string; cf_RollbackApplied : bool }.
Record ScopeRejectedEvent := mkScopeRejectedEvent {
  se_TS : string; se_CorrID : string; se_WorkspaceID : string; se_Event : string;
  se_TokenID : string; se_SigilID : string; se_Scope : string;
  se_RequestedAction : string; se_Outcome : string }.

(** The payloads passed to [Publish], an [interface{}] in Go. *)
Inductive payload : Type :=
| POIDC (e : OIDCEvent)
| PSigilIssued (e : SigilIssuedEvent)
| PSigilRevoked (e : SigilRevokedEvent)
| PJWKSRotated (e : JWKSRotatedEvent)
| PBruteForce (e : BruteForceEvent)
| PCDC (e : CDCEvent)
| PConfigReloaded (e : ConfigReloadedEvent)
| PConfigReloadFailed (e : ConfigReloadFailedEvent)
| PScopeRejected (e : ScopeRejectedEvent).

(** One call of [Publisher.Publish]. *)
Definition event : Type := NATSSubject * payload.

(** ** The subject grammar *)

(** Every token is free of the separator. *)
Definition subject_tokens_ok (s : NATSSubject) : Prop :=
  Forall (lacks ".") [ns_WorkspaceID s; ns_Domain s; ns_SubDomain s; ns_Entity s;
                      ns_Action s; ns_CorrID s].

(** The wire text splits back into the seven tokens of the grammar. *)
Lemma subject_split s :
  subject_tokens_ok s ->
  Split (subject_String s) "." =
  ["shikki"; ns_WorkspaceID s; ns_Domain s; ns_SubDomain s; ns_Entity s; ns_Action s;
   ns_CorrID s].
Proof.
  unfold subject_tokens_ok. rewrite !Forall_cons. intros (H1 & H2 & H3 & H4 & H5 & H6 & _).
  change (subject_String s) with ("shikki" +:+ String "." (ns_WorkspaceID s +:+ String "."
    (ns_Domain s +:+ String "." (ns_SubDomain s +:+ String "." (ns_Entity s +:+ String "."
    (ns_Action s +:+ String "." (ns_CorrID s))))))).
  rewrite Split_app by (vm_compute; set_solver).
  by rewrite !Split_app, Split_end by done.
Qed.

Lemma subject_String_inj s t :
  subject_tokens_ok s -> subject_tokens_ok t ->
  subject_String s = subject_String t -> s = t.
Proof.
  intros Hs Ht E. apply (f_equal (fun x => Split x ".")) in E.
  rewrite !subject_split in E by done. destruct s, t; simpl in *. congruence.
Qed.
