(* ===== verification/Store.v ===== *)
(** The persistence interface of the broker ([Store], broker/broker.go) and
    what the broker may rely on.

    Each method is one atomic operation: [MemStore] holds its mutex for the
    whole method, the Postgres stores send one SQL statement.

    [StoreSafe] is the replay contract, which must hold even when a database
    call fails; [StoreExact] is the full contract of a store whose calls do
    not fail.  Broker theorems are proved against these classes. *)

From S2P Require Import Prelude GoTime Protocol.

Class Store (S : Type) : Type := {
  SaveSigil : Sigil -> M S (res unit);
  GetSigil : string -> M S (res Sigil);
  SaveCap : CapabilityToken -> M S (res unit);
  GetCap : string -> M S (res CapabilityToken);
  NonceUsed : slice ascii -> M S bool;
  RecordNonce : slice ascii -> M S unit;
  TryRecordNonce : slice ascii -> M S bool;
  IsRevoked : string -> M S bool;
  GetRevocationList : M S RevocationList;
  Revoke : RevocationEntry -> M S (res unit)
}.

(** [StoreCloser] (store/interface.go): what the commands open. *)
Class StoreCloser (S : Type) `{!Store S} : Type := {
  RecordNonceStrict : slice ascii -> M S (res bool);
  CloseStore : M S unit
}.

(** One call of a method, as a relation on the store's state. *)
Inductive store_step {S} `{!Store S} : S -> S -> Prop :=
| step_SaveSigil x s : store_step s (SaveSigil x s).2
| step_GetSigil x s : store_step s (GetSigil x s).2
| step_SaveCap x s : store_step s (SaveCap x s).2
| step_GetCap x s : store_step s (GetCap x s).2
| step_NonceUsed x s : store_step s (NonceUsed x s).2
| step_RecordNonce x s : store_step s (RecordNonce x s).2
| step_TryRecordNonce x s : store_step s (TryRecordNonce x s).2
| step_IsRevoked x s : store_step s (IsRevoked x s).2
| step_RevocationList s : store_step s (GetRevocationList s).2
| step_Revoke x s : store_step s (Revoke x s).2.

Class StoreSafe (S : Type) `{!Store S} : Type := {
  (** The nonce can no longer be won.  A store may refuse nil altogether, but
      otherwise only the bytes matter. *)
  consumed : S -> slice ascii -> Prop;
  consumed_bytes s n : consumed s (Some (elems n)) -> consumed s n;
  (** Nothing gives a nonce back. *)
  consumed_mono s s' n : store_step s s' -> consumed s n -> consumed s' n;
  (** Only a nonce not yet consumed is won, and winning consumes it. *)
  TryRecordNonce_won s n :
    (TryRecordNonce n s).1 = true ->
    ~ consumed s n /\ consumed (TryRecordNonce n s).2 (Some (elems n))
}.

Class StoreExact (S : Type) `{!Store S, !StoreSafe S} : Type := {
  revoked : S -> string -> bool;
  IsRevoked_exact id s :
    (IsRevoked id s).1 = revoked s id /\
    (forall i, revoked (IsRevoked id s).2 i = revoked s i) /\
    (forall n, consumed (IsRevoked id s).2 n <-> consumed s n);
  (** Nothing un-revokes. *)
  revoked_mono s s' id : store_step s s' -> revoked s id = true -> revoked s' id = true;
  (** "After Revoke returns, IsRevoked(entry.ID) MUST return true". *)
  Revoke_revokes e s :
    (Revoke e s).1 = Ok tt -> revoked (Revoke e s).2 (rev_ID e) = true;
  (** A nonce is won exactly when it was not consumed; nothing else changes. *)
  TryRecordNonce_exact n s :
    (if (TryRecordNonce n s).1 then ~ consumed s n else consumed s n) /\
    (forall id, revoked (TryRecordNonce n s).2 id = revoked s id) /\
    (forall m, consumed (TryRecordNonce n s).2 m <->
               consumed s m \/ ((TryRecordNonce n s).1 = true /\ elems m = elems n))
}.
