(* ===== verification/Effects.v ===== *)
(** Effectful code: the atomic operations the broker performs, programs over
    them, and their meaning on a [World].

    A program ([proc]) is the tree of its atomic operations.  [run] executes
    it alone; [pool_step] interleaves the operations of several programs, as
    goroutines serving requests do (the broker itself takes no lock).

    [Env] is what the process reads and cannot choose: the clock, [uuid.New]
    and the random source, one value per call.  Calls to the event publisher
    and to the Prometheus client (internal/observability/metrics.go) are
    logged in the world's trace. *)

From S2P Require Import Prelude GoTime GoFloat Protocol Observability Store.

Class Env : Type := {
  (** [time.Now()] at its n-th call. *)
  clock : nat -> Time;
  (** [uuid.New().String()] at its n-th call. *)
  uuid_supply : nat -> string;
  (** The n-th read of [k] bytes from [crypto/rand]. *)
  entropy : nat -> nat -> res bytes
}.

(** Calls to the Prometheus client library; what the client does with a call
    is not part of this program. *)
Inductive prom_call : Type :=
| HistogramObserve (family : string) (labels : list string) (v : float64)
| CounterInc (family : string) (labels : list string)
| GaugeSet (family : string) (labels : list string) (v : float64).

(** What leaves the process through the publisher or the metrics registry. *)
Inductive effect : Type :=
| EPublish (subject : NATSSubject) (p : payload)
| EMetric (c : prom_call).

(** ** Atomic operations *)

Inductive op : Type -> Type :=
| ONow : op Time
| OUuid : op string
| ORand (k : nat) : op (res bytes)
| OEmit (e : effect) : op unit
| OAddAllowed : op unit
| OAddDenied : op unit
| OSaveSigil (x : Sigil) : op (res unit)
| OGetSigil (id : string) : op (res Sigil)
| OSaveCap (x : CapabilityToken) : op (res unit)
| OGetCap (id : string) : op (res CapabilityToken)
| ONonceUsed (n : slice ascii) : op bool
| ORecordNonce (n : slice ascii) : op unit
| OTryRecordNonce (n : slice ascii) : op bool
| OIsRevoked (id : string) : op bool
| ORevocationList : op RevocationList
| ORevoke (e : RevocationEntry) : op (res unit).

Record World (S : Type) := mkWorld {
  w_store : S;
  w_clock : nat;
  w_uuid : nat;
  w_rand : nat;
  w_trace : list effect;
  w_allowed : Z;
  w_denied : Z
}.
Arguments mkWorld {S}.
Arguments w_store {S}.
Arguments w_clock {S}.
Arguments w_uuid {S}.
Arguments w_rand {S}.
Arguments w_trace {S}.
Arguments w_allowed {S}.
Arguments w_denied {S}.

Definition uint64_wrap (z : Z) : Z := (z mod 2 ^ 64)%Z.

Section handle.
Context {S : Type} {EN : Env} {ST : Store S}.

(** The state of a freshly constructed broker over a store. *)
Definition init_world (s : S) : World S := mkWorld s 0 0 0 [] 0 0.

(** A method call on the store. *)
Definition on_store {A} (c : M S A) : M (World S) A := fun w =>
  let '(a, s) := c (w_store w) in
  (a, mkWorld s (w_clock w) (w_uuid w) (w_rand w) (w_trace w) (w_allowed w) (w_denied w)).

Definition handle {A} (o : op A) : M (World S) A :=
  match o with
  | ONow => fun w =>
      (clock (w_clock w), mkWorld (w_store w) (1 + w_clock w) (w_uuid w) (w_rand w)
         (w_trace w) (w_allowed w) (w_denied w))
  | OUuid => fun w =>
      (uuid_supply (w_uuid w), mkWorld (w_store w) (w_clock w) (1 + w_uuid w) (w_rand w)
         (w_trace w) (w_allowed w) (w_denied w))
  | ORand k => fun w =>
      (entropy (w_rand w) k, mkWorld (w_store w) (w_clock w) (w_uuid w) (1 + w_rand w)
         (w_trace w) (w_allowed w) (w_denied w))
  | OEmit e => fun w =>
      (tt, mkWorld (w_store w) (w_clock w) (w_uuid w) (w_rand w)
         (w_trace w ++ [e]) (w_allowed w) (w_denied w))
  | OAddAllowed => fun w =>
      (tt, mkWorld (w_store w) (w_clock w) (w_uuid w) (w_rand w) (w_trace w)
         (uint64_wrap (w_allowed w + 1)) (w_denied w))
  | OAddDenied => fun w =>
      (tt, mkWorld (w_store w) (w_clock w) (w_uuid w) (w_rand w) (w_trace w)
         (w_allowed w) (uint64_wrap (w_denied w + 1)))
  | OSaveSigil x => on_store (SaveSigil x)
  | OGetSigil id => on_store (GetSigil id)
  | OSaveCap x => on_store (SaveCap x)
  | OGetCap id => on_store (GetCap id)
  | ONonceUsed n => on_store (NonceUsed n)
  | ORecordNonce n => on_store (RecordNonce n)
  | OTryRecordNonce n => on_store (TryRecordNonce n)
  | OIsRevoked id => on_store (IsRevoked id)
  | ORevocationList => on_store GetRevocationList
  | ORevoke e => on_store (Revoke e)
  end.
End handle.

(** ** Programs *)

Inductive proc (A : Type) : Type :=
| Ret (a : A)
| Atomic {X : Type} (o : op X) (k : X -> proc A).
Arguments Ret {A} a.
Arguments Atomic {A X} o k.

#[export] Instance proc_ret : MRet proc := @Ret.
Fixpoint proc_bind_def {A B} (f : A -> proc B) (p : proc A) : proc B :=
  match p with
  | Ret a => f a
  | Atomic o k => Atomic o (fun x => proc_bind_def f (k x))
  end.
#[export] Instance proc_bind : MBind proc := @proc_bind_def.

(** Perform one operation. *)
Definition perform {X} (o : op X) : proc X := Atomic o Ret.

(** Go's [if err != nil { return ..., err }] after a call, with the error
    rewritten by [f]. *)
Definition try_with {A B} (f : error -> error) (c : proc (res A)) (k : A -> proc (res B)) :
    proc (res B) :=
  r ← c; match r with Ok a => k a | Err e => Ret (Err (f e)) end.
Notation "x <~ c 'wrap' f ;; k" := (try_with f c (fun x => k))
  (at level 100, c at next level, f at next level, right associativity) : go_scope.

Definition now : proc Time := perform ONow.
Definition new_uuid : proc string := perform OUuid.
Definition rand_read (k : nat) : proc (res bytes) := perform (ORand k).
(** The current time as events carry it. *)
Definition nowRFC3339 : proc string := t ← now; Ret (format_rfc3339nano (UTC t)).
Definition newCorrID : proc string := new_uuid.
(** [Publisher.Publish] *)
Definition Publish (s : NATSSubject) (p : payload) : proc unit := perform (OEmit (EPublish s p)).

(** The families as [NewMetrics] registers them, with their label names. *)
Definition NewMetrics : list (string * list string) :=
  [("hanko_oidc_request_duration_seconds", ["endpoint"; "outcome"; "client_id"]);
   ("hanko_sigil_issued_total", ["capability_set_hash"; "client_id"]);
   ("hanko_brute_force_window_attempts", ["client_id"]);
   ("hanko_jwks_cache_hit_ratio", []);
   ("hanko_cdc_lag_seconds", ["table"]);
   ("hanko_config_reload_total", ["outcome"])].

(** The recording methods of [Metrics]. *)
Definition ObserveOIDCRequest (endpoint outcome clientID : string) (d : Z) : proc unit :=
  perform (OEmit (EMetric (HistogramObserve "hanko_oidc_request_duration_seconds"
                             [endpoint; outcome; clientID] (Seconds d)))).
Definition IncSigilIssued (capabilitySetHash clientID : string) : proc unit :=
  perform (OEmit (EMetric (CounterInc "hanko_sigil_issued_total"
                             [capabilitySetHash; clientID]))).
Definition SetBruteForceWindowAttempts (clientID : string) (n : float64) : proc unit :=
  perform (OEmit (EMetric (GaugeSet "hanko_brute_force_window_attempts" [clientID] n))).
Definition SetJWKSCacheHitRatio (ratio : float64) : proc unit :=
  perform (OEmit (EMetric (GaugeSet "hanko_jwks_cache_hit_ratio" [] ratio))).
Definition SetCDCLagSeconds (table : string) (sec : float64) : proc unit :=
  perform (OEmit (EMetric (GaugeSet "hanko_cdc_lag_seconds" [table] sec))).
Definition IncConfigReload (outcome : string) : proc unit :=
  perform (OEmit (EMetric (CounterInc "hanko_config_reload_total" [outcome]))).

(** ** Meaning *)

Section run.
Context {S : Type} {EN : Env} {ST : Store S}.
Abbreviation W := (World S).

(** The program alone. *)
Fixpoint run {A} (p : proc A) : M W A :=
  match p with
  | Ret a => fun w => (a, w)
  | Atomic o k => fun w => let '(x, w') := handle o w in run (k x) w'
  end.

(** Several programs, one operation of one of them at a time. *)
Definition pool (A : Type) : Type := list (proc A) * W.
Inductive pool_step {A} : pool A -> pool A -> Prop :=
| pool_step_at i ps w X (o : op X) k :
    ps !! i = Some (Atomic o k) ->
    pool_step (ps, w) (<[i := k (handle o w).1]> ps, (handle o w).2).

Lemma run_bind {A B} (p : proc A) (f : A -> proc B) w :
  run (p ≫= f) w = let '(a, w') := run p w in run (f a) w'.
Proof.
  revert w. induction p as [a|X o k IH]; intros w; [done|].
  unfold mbind, proc_bind in *. simpl. destruct (handle o w) as [x w']. apply IH.
Qed.

Lemma run_perform {X} (o : op X) w : run (perform o) w = handle o w.
Proof. simpl. by destruct (handle o w). Qed.

Lemma run_try_with {A B} f (c : proc (res A)) (k : A -> proc (res B)) w :
  run (try_with f c k) w =
  match run c w with
  | (Ok a, w') => run (k a) w'
  | (Err e, w') => (Err (f e), w')
  end.
Proof. unfold try_with. rewrite run_bind. by destruct (run c w) as [[a|e] w']. Qed.

Lemma on_store_state {A} (c : M S A) (w : W) :
  w_store (on_store c w).2 = (c (w_store w)).2.
Proof. unfold on_store. by destruct (c (w_store w)). Qed.

Lemma on_store_result {A} (c : M S A) (w : W) : (on_store c w).1 = (c (w_store w)).1.
Proof. unfold on_store. by destruct (c (w_store w)). Qed.

(** Every operation is a call of at most one store method. *)
Lemma handle_store {A} (o : op A) (w : W) :
  w_store (handle o w).2 = w_store w \/ store_step (w_store w) (w_store (handle o w).2).
Proof.
  destruct o; cbn [handle]; try (by left); right; rewrite on_store_state; constructor.
Qed.

(** A property of the store that every method preserves holds throughout. *)
Lemma handle_preserves (P : S -> Prop) :
  (forall s s', store_step s s' -> P s -> P s') ->
  forall {A} (o : op A) (w : W), P (w_store w) -> P (w_store (handle o w).2).
Proof.
  intros HP A o w Hw. destruct (handle_store o w) as [->|Hs]; [done|]. by eapply HP.
Qed.

Lemma run_preserves (P : S -> Prop) :
  (forall s s', store_step s s' -> P s -> P s') ->
  forall {A} (p : proc A) (w : W), P (w_store w) -> P (w_store (run p w).2).
Proof.
  intros HP A p. induction p as [a|X o k IH]; intros w Hw; simpl; [done|].
  pose proof (handle_preserves P HP o w Hw) as Hw'. destruct (handle o w). by apply IH.
Qed.

Lemma pool_step_preserves (P : S -> Prop) :
  (forall s s', store_step s s' -> P s -> P s') ->
  forall {A} (c c' : pool A), pool_step c c' -> P (w_store c.2) -> P (w_store c'.2).
Proof. intros HP A c c' []. simpl. by apply (handle_preserves P HP). Qed.

(** A pool of one program runs to the sequential result. *)
Lemma pool_run {A} (p : proc A) i ps w :
  ps !! i = Some p ->
  rtc pool_step (ps, w) (<[i := Ret (run p w).1]> ps, (run p w).2).
Proof.
  revert ps w. induction p as [a|X o k IH]; intros ps w Hi; simpl.
  - by rewrite list_insert_id.
  - eapply rtc_l; [by eapply pool_step_at|].
    destruct (handle o w) as [x w'] eqn:E. simpl.
    rewrite <-(list_insert_insert_eq ps i (Ret (run (k x) w').1) (k x)). apply IH.
    apply list_lookup_insert_eq. by eapply lookup_lt_Some.
Qed.
End run.

(** ** What every execution of a program does *)

(** What an operation does that others can see: an effect, or a call of a
    method of the store with its answer. *)
Inductive act : Type :=
| Emitted (e : effect)
| Called {X : Type} (o : op X) (x : X).

Definition on_the_store {X} (o : op X) : bool :=
  match o with
  | ONow | OUuid | ORand _ | OEmit _ | OAddAllowed | OAddDenied => false
  | _ => true
  end.
Definition acts_of {X} (o : op X) (x : X) : list act :=
  match o with
  | OEmit e => [Emitted e]
  | o' => if on_the_store o' then [Called o x] else []
  end.

Definition emitted (l : list act) : list effect :=
  omap (fun a => match a with Emitted e => Some e | Called _ _ => None end) l.

(** Whatever the operations answer, clock readings satisfying [T], the program
    performs some acts and returns some value related by [Q]. *)
Section ensures.
Variable T : Time -> Prop.

Definition answer_ok {X} (o : op X) : X -> Prop :=
  match o with ONow => T | _ => fun _ => True end.

Fixpoint ensures {A} (p : proc A) (Q : list act -> A -> Prop) : Prop :=
  match p with
  | Ret a => Q [] a
  | Atomic o k => forall x, answer_ok o x -> ensures (k x) (fun es a => Q (acts_of o x ++ es) a)
  end.

Lemma ensures_mono {A} (p : proc A) (Q Q' : list act -> A -> Prop) :
  ensures p Q -> (forall es a, Q es a -> Q' es a) -> ensures p Q'.
Proof.
  revert Q Q'. induction p as [a|X o k IH]; intros Q Q' H HQ; simpl in *; [auto|].
  intros x Hx. eapply IH; [by apply H|]. simpl. auto.
Qed.

Lemma ensures_bind {A B} (p : proc A) (f : A -> proc B) (Q : list act -> B -> Prop) :
  ensures p (fun es a => ensures (f a) (fun es' b => Q (es ++ es') b)) ->
  ensures (p ≫= f) Q.
Proof.
  unfold mbind, proc_bind. revert Q. induction p as [a|X o k IH]; intros Q H; simpl in *.
  - eapply ensures_mono; [exact H|]. done.
  - intros x Hx. apply IH. eapply ensures_mono; [by apply H|]. simpl. intros es a Ha.
    eapply ensures_mono; [exact Ha|]. simpl. intros es' b'. by rewrite <-app_assoc.
Qed.

(** Sequencing: use what is known of the first program. *)
Lemma ensures_seq {A B} (p : proc A) (f : A -> proc B) P Q :
  ensures p P ->
  (forall es a, P es a -> ensures (f a) (fun es' b => Q (es ++ es') b)) ->
  ensures (p ≫= f) Q.
Proof. intros Hp Hf. apply ensures_bind. by eapply ensures_mono. Qed.

Lemma ensures_now {B} (f : Time -> proc B) Q :
  (forall t, T t -> ensures (f t) Q) -> ensures (now ≫= f) Q.
Proof.
  intros H. apply (ensures_seq _ _ (fun es t => es = [] /\ T t)); [simpl; auto|].
  intros es t [-> Ht]. eapply ensures_mono; [by apply H|]. done.
Qed.

Lemma ensures_try_with {A B} f (c : proc (res A)) (k : A -> proc (res B)) P Q :
  ensures c P ->
  (forall es a, P es (Ok a) -> ensures (k a) (fun es' b => Q (es ++ es') b)) ->
  (forall es e, P es (Err e) -> Q es (Err (f e))) ->
  ensures (try_with f c k) Q.
Proof.
  intros Hc Hk He. eapply ensures_seq; [exact Hc|]. intros es [a|e] Ha; [by apply Hk|].
  simpl. rewrite app_nil_r. by apply He.
Qed.
End ensures.

Section ensures_run.
Context {S : Type} {EN : Env} {ST : Store S}.

(** The effect of calls on the store. *)
Definition replay (l : list act) (s : S) : S :=
  foldl (fun s a => match a with
                    | Emitted _ => s
                    | Called o _ => w_store (handle o (init_world s)).2
                    end) s l.
(** The recorded answers are the ones the store gave. *)
Fixpoint legal (l : list act) (s : S) : Prop :=
  match l with
  | [] => True
  | Emitted _ :: l => legal l s
  | Called o x :: l => (handle o (init_world s)).1 = x /\ legal l (w_store (handle o (init_world s)).2)
  end.
(** The acts lead from one world to the other. *)
Definition recorded (es : list act) (w w' : World S) : Prop :=
  w_trace w' = w_trace w ++ emitted es /\ w_store w' = replay es (w_store w) /\
  legal es (w_store w).

Lemma emitted_app es1 es2 : emitted (es1 ++ es2) = emitted es1 ++ emitted es2.
Proof. apply omap_app. Qed.

Lemma replay_app es1 es2 s : replay (es1 ++ es2) s = replay es2 (replay es1 s).
Proof. apply foldl_app. Qed.

Lemma legal_app es1 es2 s : legal (es1 ++ es2) s <-> legal es1 s /\ legal es2 (replay es1 s).
Proof.
  revert s. induction es1 as [|[e|X o x] es1 IH]; intros s; cbn [app legal].
  - cbn. tauto.
  - apply IH.
  - cbn [replay foldl]. rewrite IH. unfold replay. tauto.
Qed.

Lemma recorded_refl w : recorded [] w w.
Proof. split_and!; [by rewrite app_nil_r|done..]. Qed.

Lemma recorded_trans es1 es2 w1 w2 w3 :
  recorded es1 w1 w2 -> recorded es2 w2 w3 -> recorded (es1 ++ es2) w1 w3.
Proof.
  intros (T1 & S1 & L1) (T2 & S2 & L2). split_and!.
  - by rewrite T2, T1, emitted_app, app_assoc.
  - by rewrite S2, S1, replay_app.
  - rewrite legal_app, <-S1. done.
Qed.

Lemma handle_recorded {A} (o : op A) (w : World S) :
  recorded (acts_of o (handle o w).1) w (handle o w).2.
Proof.
  destruct o; cbn [handle acts_of on_the_store];
    try (split_and!; cbn; rewrite ?app_nil_r; done).
  all: split_and!;
    [ unfold on_store; case_match; cbn; by rewrite app_nil_r
    | cbn [replay foldl handle]; by rewrite !on_store_state
    | cbn [legal handle]; by rewrite !on_store_result ].
Qed.

Lemma handle_clock {A} (o : op A) (w : World S) :
  (w_clock w <= w_clock (handle o w).2)%nat /\
  answer_ok (fun t => t = clock (w_clock w) /\ w_clock (handle o w).2 = 1 + w_clock w)%nat
    o (handle o w).1.
Proof. destruct o; simpl; unfold on_store; try case_match; simpl; split; (done || lia). Qed.

Lemma run_clock {A} (p : proc A) (w : World S) : (w_clock w <= w_clock (run p w).2)%nat.
Proof.
  revert w. induction p as [a|X o k IH]; intros w; simpl; [done|].
  pose proof (proj1 (handle_clock o w)). destruct (handle o w) as [x w']. simpl in *.
  specialize (IH x w'). lia.
Qed.

(** The time is read during a run. *)
Definition read_between (w w' : World S) (t : Time) : Prop :=
  exists n, (w_clock w <= n < w_clock w')%nat /\ t = clock n.

Lemma ensures_run_weak {A} (p : proc A) T Q (w : World S) :
  (forall t, read_between w (run p w).2 t -> T t) -> ensures T p Q ->
  exists es, recorded es w (run p w).2 /\ Q es (run p w).1.
Proof.
  revert Q w. induction p as [a|X o k IH]; intros Q w HT H; simpl in *.
  - exists []. split; [apply recorded_refl|done].
  - pose proof (handle_recorded o w) as Hr. pose proof (handle_clock o w) as [Hc Ha].
    assert (answer_ok T o (handle o w).1) as Hok.
    { destruct o; try done. apply HT. destruct Ha as [-> Hn]. exists (w_clock w).
      simpl in *. pose proof (run_clock (k (clock (w_clock w))) (handle ONow w).2) as Hm.
      simpl in Hm. split; [lia|done]. }
    destruct (handle o w) as [x w']. simpl in *.
    assert (forall t, read_between w' (run (k x) w').2 t -> T t) as HT'.
    { intros t (n & Hn & ->). apply HT. exists n. split; [lia|done]. }
    destruct (IH x _ w' HT' (H x Hok)) as (es & Hes & HQ).
    exists (acts_of o x ++ es). split; [|done]. by eapply recorded_trans.
Qed.

Lemma ensures_run {A} (p : proc A) Q (w : World S) :
  ensures (read_between w (run p w).2) p Q ->
  exists es, recorded es w (run p w).2 /\ Q es (run p w).1.
Proof. apply ensures_run_weak. done. Qed.
End ensures_run.
