(* ===== verification/Shared.v ===== *)
(** Goroutines that share state under a lock.

    An [sproc] is a program of [Effects] that also enters critical sections:
    [SLocked crit k] runs [crit] on the shared state with nobody in between
    (the section's clock readings and fresh ids included) and may start
    goroutines that each publish one event, which happens at some later time.
    A [Conf] is a pool of such programs; [play] runs a schedule, one operation
    or one section at a time, so that interleavings can be evaluated.

    [assures] is a logic in the manner of lock invariants: a section may
    assume the invariant [I] and has to make a labelled transition of [R],
    under which [I] is stable; [assures_play] shows that then, whatever the
    schedule, there is one legal history of all calls of the store and all
    effects, and one sequence of sections, in which every finished goroutine
    did what was claimed of it.  [spends] bounds what sections consume, and
    [within] the turns a goroutine needs. *)

From S2P Require Import Prelude GoTime Protocol Observability Store Effects.

Inductive sproc (G A : Type) : Type :=
| SRet (a : A)
| SDo {X : Type} (o : op X) (k : X -> sproc G A)
| SLocked {X : Type} (crit : G -> proc (X * list effect * G)) (k : X -> sproc G A).
Arguments SRet {G A} a.
Arguments SDo {G A X} o k.
Arguments SLocked {G A X} crit k.

#[export] Instance sproc_ret {G} : MRet (sproc G) := @SRet G.
Fixpoint sproc_bind_def {G A B} (f : A -> sproc G B) (p : sproc G A) : sproc G B :=
  match p with
  | SRet a => f a
  | SDo o k => SDo o (fun x => sproc_bind_def f (k x))
  | SLocked crit k => SLocked crit (fun x => sproc_bind_def f (k x))
  end.
#[export] Instance sproc_bind {G} : MBind (sproc G) := @sproc_bind_def G.

(** Code that does not touch the shared state. *)
Fixpoint lift {G A} (p : proc A) : sproc G A :=
  match p with
  | Ret a => SRet a
  | Atomic o k => SDo o (fun x => lift (k x))
  end.
(** A critical section. *)
Definition locked {G X} (crit : G -> proc (X * list effect * G)) : sproc G X := SLocked crit SRet.

(** ** Schedules *)

Record Conf (G S A : Type) := mkConf {
  cf_threads : list (sproc G A);
  (** events of goroutines that have not run yet *)
  cf_spawned : list effect;
  cf_shared : G;
  cf_world : World S
}.
Arguments mkConf {G S A}.
Arguments cf_threads {G S A}.
Arguments cf_spawned {G S A}.
Arguments cf_shared {G S A}.
Arguments cf_world {G S A}.

(** A thread proceeds, or one of the started goroutines runs. *)
Inductive turn : Type := Turn (i : nat) | Deliver (n : nat).

Section play.
Context {G S A : Type} {EN : Env} {ST : Store S}.

Definition take_turn (c : Conf G S A) (t : turn) : Conf G S A :=
  match t with
  | Turn i =>
      match cf_threads c !! i with
      | Some (SDo o k) =>
          let '(x, w) := handle o (cf_world c) in
          mkConf (<[i := k x]> (cf_threads c)) (cf_spawned c) (cf_shared c) w
      | Some (SLocked crit k) =>
          let '((x, sp, g), w) := run (crit (cf_shared c)) (cf_world c) in
          mkConf (<[i := k x]> (cf_threads c)) (cf_spawned c ++ sp) g w
      | _ => c
      end
  | Deliver n =>
      match cf_spawned c !! n with
      | Some e => mkConf (cf_threads c) (delete n (cf_spawned c)) (cf_shared c)
                    (handle (OEmit e) (cf_world c)).2
      | None => c
      end
  end.
Definition play (turns : list turn) (c : Conf G S A) : Conf G S A := foldl take_turn c turns.

(** A property of the store that every method preserves holds throughout. *)
Lemma play_preserves (P : S -> Prop) :
  (forall s s', store_step s s' -> P s -> P s') ->
  forall turns c, P (w_store (cf_world c)) -> P (w_store (cf_world (play turns c))).
Proof.
  intros HP turns. induction turns as [|t turns IH]; intros c Hc; [done|]. apply IH.
  destruct t as [i|n]; cbn [take_turn].
  - destruct (cf_threads c !! i) as [[a|X o k|X crit k]|]; [done| | |done].
    + pose proof (handle_preserves P HP o (cf_world c) Hc) as H. by destruct (handle o _).
    + pose proof (run_preserves P HP (crit (cf_shared c)) (cf_world c) Hc) as H.
      by destruct (run _ _) as [[[x sp] g] w].
  - destruct (cf_spawned c !! n); [|done]. by apply (handle_preserves P HP).
Qed.

Lemma take_turn_clock c t : (w_clock (cf_world c) <= w_clock (cf_world (take_turn c t)))%nat.
Proof.
  destruct t as [i|n]; cbn [take_turn].
  - destruct (cf_threads c !! i) as [[a|X o k|X crit k]|]; [done| | |done].
    + pose proof (proj1 (handle_clock o (cf_world c))). by destruct (handle o _).
    + pose proof (run_clock (crit (cf_shared c)) (cf_world c)). by destruct (run _ _) as [[[x sp] g] w].
  - by destruct (cf_spawned c !! n).
Qed.
Lemma play_clock turns c : (w_clock (cf_world c) <= w_clock (cf_world (play turns c)))%nat.
Proof.
  revert c. induction turns as [|t turns IH]; intros c; [done|].
  etransitivity; [apply take_turn_clock|apply IH].
Qed.
End play.

(** ** The logic *)

Section assures.
Context {G L : Type} (T : Time -> Prop) (I : G -> Prop).
(** A section is a transition with a label; the label tells which events the
    started goroutines will publish. *)
Context (R : G -> L -> G -> Prop) (spawn : L -> list effect).

(** Acts of the program, labels of its sections, and its result. *)
Fixpoint assures {A} (p : sproc G A) (Q : list act -> list L -> A -> Prop) : Prop :=
  match p with
  | SRet a => Q [] [] a
  | SDo o k => forall x, answer_ok T o x ->
      assures (k x) (fun es ls a => Q (acts_of o x ++ es) ls a)
  | SLocked crit k => forall g, I g -> ensures T (crit g) (fun es y =>
      exists l, y.1.2 = spawn l /\ R g l y.2 /\
        assures (k y.1.1) (fun es' ls a => Q (es ++ es') (l :: ls) a))
  end.

Lemma assures_mono {A} (p : sproc G A) (Q Q' : list act -> list L -> A -> Prop) :
  assures p Q -> (forall es ls a, Q es ls a -> Q' es ls a) -> assures p Q'.
Proof.
  revert Q Q'. induction p as [a|X o k IH|X crit k IH]; intros Q Q' H HQ; cbn in *; [auto| |].
  - intros x Hx. eapply IH; [by apply H|]. cbn. auto.
  - intros g Hg. eapply ensures_mono; [by apply H|]. intros es y (l & El & HR & Hk).
    exists l. split_and!; [done..|]. eapply IH; [exact Hk|]. cbn. auto.
Qed.

Lemma assures_bind {A B} (p : sproc G A) (f : A -> sproc G B) Q :
  assures p (fun es ls a => assures (f a) (fun es' ls' b => Q (es ++ es') (ls ++ ls') b)) ->
  assures (p ≫= f) Q.
Proof.
  unfold mbind, sproc_bind. revert Q.
  induction p as [a|X o k IH|X crit k IH]; intros Q H; cbn in *.
  - eapply assures_mono; [exact H|]. done.
  - intros x Hx. apply IH. eapply assures_mono; [by apply H|]. cbn. intros es ls a Ha.
    eapply assures_mono; [exact Ha|]. cbn. intros es' ls' b'. by rewrite <-app_assoc.
  - intros g Hg. eapply ensures_mono; [by apply H|]. intros es y (l & El & HR & Hk).
    exists l. split_and!; [done..|]. apply IH. eapply assures_mono; [exact Hk|]. cbn.
    intros es' ls' a Ha. eapply assures_mono; [exact Ha|]. cbn. intros es'' ls'' b'.
    by rewrite <-app_assoc.
Qed.

Lemma assures_seq {A B} (p : sproc G A) (f : A -> sproc G B) P Q :
  assures p P ->
  (forall es ls a, P es ls a -> assures (f a) (fun es' ls' b => Q (es ++ es') (ls ++ ls') b)) ->
  assures (p ≫= f) Q.
Proof. intros Hp Hf. apply assures_bind. by eapply assures_mono. Qed.

Lemma assures_lift {A} (p : proc A) P :
  ensures T p P -> assures (lift p) (fun es ls a => ls = [] /\ P es a).
Proof.
  revert P. induction p as [a|X o k IH]; intros P H; cbn in *; [done|].
  intros x Hx. apply (IH x _ (H x Hx)).
Qed.

(** Unshared code first. *)
Lemma assures_lift_seq {A B} (p : proc A) (f : A -> sproc G B) P Q :
  ensures T p P ->
  (forall es a, P es a -> assures (f a) (fun es' ls b => Q (es ++ es') ls b)) ->
  assures (lift p ≫= f) Q.
Proof.
  intros Hp Hf. eapply assures_seq; [by apply assures_lift|]. intros es ls a [-> Ha]. by apply Hf.
Qed.

Lemma assures_now {B} (f : Time -> sproc G B) Q :
  (forall t, T t -> assures (f t) Q) -> assures (lift now ≫= f) Q.
Proof. intros H t Ht. eapply assures_mono; [by apply H|]. done. Qed.
End assures.

(** ** Soundness for every schedule *)

(** Acts with the thread that did them; [None] for the started goroutines. *)
Abbreviation history := (list (option nat * act)).
Definition own {K X} `{!EqDecision K} (i : K) (h : list (K * X)) : list X :=
  (filter (fun x => x.1 = i) h).*2.

Definition tagged {K X} (i : K) (es : list X) : list (K * X) := (fun a => (i, a)) <$> es.

Section own.
Context {K X : Type} `{!EqDecision K}.
Implicit Types (i j : K) (h : list (K * X)) (es : list X).

Lemma own_app i h1 h2 : own i (h1 ++ h2) = own i h1 ++ own i h2.
Proof. unfold own. by rewrite filter_app, fmap_app. Qed.
Lemma own_self i es : own i (tagged i es) = es.
Proof.
  unfold own, tagged. induction es as [|e es IH]; [done|]. rewrite fmap_cons, filter_cons.
  rewrite decide_True by done. csimpl. by f_equal.
Qed.
Lemma own_other i j es : i <> j -> own i (tagged j es) = [].
Proof.
  intros Hn. unfold own, tagged. induction es as [|e es IH]; [done|].
  rewrite fmap_cons, filter_cons. rewrite decide_False by (cbn; congruence). done.
Qed.
Lemma own_subset i h a : a ∈ own i h -> a ∈ h.*2.
Proof.
  unfold own. intros (x & -> & [_ Hx]%list_elem_of_filter)%list_elem_of_fmap.
  by apply list_elem_of_fmap_2.
Qed.
Lemma history_acts i es : (tagged i es).*2 = es.
Proof. unfold tagged. rewrite <-list_fmap_compose. apply list_fmap_id. Qed.
End own.

(** The transitions of the sections, one after the other. *)
Inductive chain {G L} (R : G -> L -> G -> Prop) : G -> list L -> G -> Prop :=
| chain_nil g : chain R g [] g
| chain_cons g l g1 ls g2 : R g l g1 -> chain R g1 ls g2 -> chain R g (l :: ls) g2.

Section sound.
Context {G L S A : Type} {EN : Env} {ST : Store S}.
Context (T : Time -> Prop) (I : G -> Prop) (R : G -> L -> G -> Prop) (spawn : L -> list effect).
Hypothesis stable : forall g l g', I g -> R g l g' -> I g'.
Implicit Types (c : Conf G S A) (Qs : list (list act -> list L -> A -> Prop)).
Implicit Types (lh : list (nat * L)).

(** The events the sections started. *)
Definition spawned_by (ls : list L) : list effect := concat (map spawn ls).
Lemma spawned_by_app ls1 ls2 : spawned_by (ls1 ++ ls2) = spawned_by ls1 ++ spawned_by ls2.
Proof. unfold spawned_by. by rewrite map_app, concat_app. Qed.

Lemma chain_stable g ls g' : chain R g ls g' -> I g -> I g'.
Proof. induction 1; eauto. Qed.

(** The claims [Qs] of the threads of [c], as far as the remaining run to [c']
    with the acts [h] and the sections [lh] answers for them. *)
Definition answers_for c Qs c' (h : history) lh : Prop :=
  recorded h.*2 (cf_world c) (cf_world c') /\ chain R (cf_shared c) lh.*2 (cf_shared c') /\
  emitted (own None h) ++ cf_spawned c' ≡ₚ cf_spawned c ++ spawned_by lh.*2 /\
  length (cf_threads c') = length (cf_threads c) /\
  forall i a Q, cf_threads c' !! i = Some (SRet a) -> Qs !! i = Some Q ->
    Q (own (Some i) h) (own i lh) a.

(** One step of thread [i], the rest of which keeps the shifted claim. *)
Lemma answers_for_step c c1 c' Qs Q i p es ls h lh :
  Qs !! i = Some Q -> (i < length (cf_threads c))%nat ->
  cf_threads c1 = <[i := p]> (cf_threads c) -> cf_spawned c1 = cf_spawned c ++ spawned_by ls ->
  recorded es (cf_world c) (cf_world c1) -> (ls = [] /\ cf_shared c1 = cf_shared c \/
    exists l, ls = [l] /\ R (cf_shared c) l (cf_shared c1)) ->
  answers_for c1 (<[i := fun es' ls' a => Q (es ++ es') (ls ++ ls') a]> Qs) c' h lh ->
  answers_for c Qs c' (tagged (Some i) es ++ h) (tagged i ls ++ lh).
Proof.
  intros HQ Hi Ht Hsp Hr HR (A1 & A2 & A3 & A4 & A5). split_and!.
  - rewrite fmap_app, history_acts. by eapply recorded_trans.
  - rewrite fmap_app, history_acts.
    destruct HR as [[-> E]|(l & -> & HR)]; [by rewrite <-E|by eapply chain_cons].
  - rewrite own_app, own_other by done. cbn [app].
    rewrite A3, Hsp, fmap_app, history_acts, spawned_by_app. by rewrite app_assoc.
  - by rewrite A4, Ht, length_insert.
  - intros j a Q' Hj HQ'. rewrite !own_app. destruct (decide (j = i)) as [->|Hne].
    + rewrite HQ in HQ'. injection HQ' as <-. rewrite !own_self.
      apply (A5 i a (fun es' ls' a => Q (es ++ es') (ls ++ ls') a)); [done|].
      apply list_lookup_insert_eq. by eapply lookup_lt_Some.
    + rewrite !own_other by congruence. cbn [app].
      apply (A5 j a Q'); [done|by rewrite list_lookup_insert_ne].
Qed.

Lemma answers_for_delivery c c1 c' Qs n e h lh :
  cf_spawned c !! n = Some e -> cf_threads c1 = cf_threads c ->
  cf_spawned c1 = delete n (cf_spawned c) -> cf_shared c1 = cf_shared c ->
  cf_world c1 = (handle (OEmit e) (cf_world c)).2 ->
  answers_for c1 Qs c' h lh ->
  answers_for c Qs c' (tagged None [Emitted e] ++ h) lh.
Proof.
  intros Hn Ht Hs Hg Hw (A1 & A2 & A3 & A4 & A5). split_and!.
  - rewrite fmap_app, history_acts. eapply recorded_trans; [|exact A1].
    rewrite Hw. apply (handle_recorded (OEmit e)).
  - by rewrite <-Hg.
  - rewrite own_app, own_self, emitted_app. cbn [emitted omap list_omap app].
    rewrite A3, Hs, app_comm_cons. apply Permutation_app_tail. symmetry. by apply delete_Permutation.
  - by rewrite A4, Ht.
  - intros i a Q Hi HQ. rewrite own_app, own_other by done. by apply A5.
Qed.

Lemma answers_for_end c Qs :
  Forall2 (assures T I R spawn) (cf_threads c) Qs -> answers_for c Qs c [] [].
Proof.
  intros H. split_and!; [apply recorded_refl|constructor|by rewrite app_nil_r|done|].
  intros i a Q Hi HQ.
  destruct (Forall2_lookup_l _ _ _ _ _ H Hi) as (Q' & E & Ha). by rewrite HQ in E; simplify_eq.
Qed.

(** Whatever the schedule, one legal history accounts for every thread. *)
Lemma assures_play turns c Qs :
  I (cf_shared c) -> Forall2 (assures T I R spawn) (cf_threads c) Qs ->
  (forall t, read_between (cf_world c) (cf_world (play turns c)) t -> T t) ->
  exists h lh, answers_for c Qs (play turns c) h lh.
Proof.
  revert c Qs. induction turns as [|t turns IH]; intros c Qs HI HQ HT.
  { exists [], []. by apply answers_for_end. }
  cbn [play foldl] in *. fold (play turns (take_turn c t)) in *.
  pose proof (take_turn_clock c t) as Hm. pose proof (play_clock turns (take_turn c t)) as Hm2.
  assert (forall t', read_between (cf_world (take_turn c t)) (cf_world (play turns (take_turn c t))) t'
    -> T t') as HT1 by (intros t' (n & Hn & ->); apply HT; exists n; split; [lia|done]).
  destruct t as [i|n]; cbn [take_turn] in *.
  - destruct (cf_threads c !! i) as [[a|X o k|X crit k]|] eqn:Ei; [by apply IH| | |by apply IH].
    + destruct (Forall2_lookup_l _ _ _ _ _ HQ Ei) as (Q & EQ & HP).
      pose proof (handle_recorded o (cf_world c)) as Hr. pose proof (handle_clock o (cf_world c)) as [_ Ha].
      destruct (handle o (cf_world c)) as [x w] eqn:Eh. cbn [fst snd] in *.
      assert (answer_ok T o x) as Hx.
      { destruct o; try done. destruct Ha as [-> Hc]. apply HT. exists (w_clock (cf_world c)).
        split; [|done]. cbn in Hm2. lia. }
      destruct (IH (mkConf (<[i := k x]> (cf_threads c)) (cf_spawned c) (cf_shared c) w)
        (<[i := fun es ls a => Q (acts_of o x ++ es) ([] ++ ls) a]> Qs)) as (h & lh & H); [done| |done|].
      { cbn. apply Forall2_insert; [done|]. exact (HP x Hx). }
      exists (tagged (Some i) (acts_of o x) ++ h), (tagged i [] ++ lh).
      eapply answers_for_step; [exact EQ|by eapply lookup_lt_Some|..|exact H]; try done.
      * cbn. by rewrite app_nil_r.
      * by left.
    + destruct (Forall2_lookup_l _ _ _ _ _ HQ Ei) as (Q & EQ & HP).
      cbn [assures] in HP. specialize (HP (cf_shared c) HI).
      destruct (fun HT' => ensures_run_weak _ T _ (cf_world c) HT' HP) as (es & Hr & HR).
      { intros t (m & Hn & ->). apply HT. exists m. split; [|done].
        destruct (run (crit (cf_shared c)) (cf_world c)) as [[[x sp] g] w]. cbn in *. lia. }
      destruct (run (crit (cf_shared c)) (cf_world c)) as [[[x sp] g] w]. cbn [fst snd] in *.
      destruct HR as (l & -> & HR & Hk).
      destruct (IH (mkConf (<[i := k x]> (cf_threads c)) (cf_spawned c ++ spawn l) g w)
        (<[i := fun es' ls a => Q (es ++ es') ([l] ++ ls) a]> Qs)) as (h & lh & H);
        [cbn; eauto| |done|].
      { cbn. by apply Forall2_insert. }
      exists (tagged (Some i) es ++ h), (tagged i [l] ++ lh).
      eapply answers_for_step; [exact EQ|by eapply lookup_lt_Some|..|exact H]; try done.
      * cbn. by rewrite app_nil_r.
      * right. by exists l.
  - destruct (cf_spawned c !! n) as [e|] eqn:En; [|by apply IH].
    destruct (IH (mkConf (cf_threads c) (delete n (cf_spawned c)) (cf_shared c)
      (handle (OEmit e) (cf_world c)).2) Qs HI HQ HT1) as (h & lh & H). exists (tagged None [Emitted e] ++ h), lh.
    by eapply answers_for_delivery; [exact En|..|exact H].
Qed.
End sound.

(** ** Budgets *)

(** A resource the sections consume: [I m] bounds the shared state after [m]
    units were spent, and [spends n p] says that [p] spends at most [n]. *)
Section budget.
Context {G : Type} (I : nat -> G -> Prop).

Fixpoint spends {A} (n : nat) (p : sproc G A) : Prop :=
  match p with
  | SRet _ => True
  | SDo o k => forall x, spends n (k x)
  | SLocked crit k => forall m g, I m g -> ensures (fun _ => True) (crit g) (fun _ y =>
      exists j, (j <= n)%nat /\ I (m + j)%nat y.2 /\ spends (n - j) (k y.1.1))
  end.

Lemma spends_le {A} n n' (p : sproc G A) : (n <= n')%nat -> spends n p -> spends n' p.
Proof.
  revert n n'. induction p as [a|X o k IH|X crit k IH]; intros n n' Hn H; [done| |].
  - intros x. by eapply IH.
  - intros m g Hg. eapply ensures_mono; [by apply H|]. intros _ y (j & Hj & HI & Hk).
    exists j. split_and!; [lia|done|]. eapply IH; [|exact Hk]. lia.
Qed.

Lemma spends_bind {A B} n1 n2 (p : sproc G A) (f : A -> sproc G B) :
  spends n1 p -> (forall a, spends n2 (f a)) -> spends (n1 + n2) (p ≫= f).
Proof.
  unfold mbind, sproc_bind. intros Hp Hf. revert n1 Hp.
  induction p as [a|X o k IH|X crit k IH]; intros n1 H; cbn in *.
  - eapply spends_le; [|apply Hf]. lia.
  - auto.
  - intros m g Hg. eapply ensures_mono; [by apply H|]. intros _ y (j & Hj & HI & Hk).
    exists j. split_and!; [lia|done|]. eapply spends_le; [|by apply IH]. lia.
Qed.

Lemma spends_lift {A B} n (p : proc A) (f : A -> sproc G B) :
  (forall a, spends n (f a)) -> spends n (lift p ≫= f).
Proof.
  intros Hf. apply (spends_bind 0 n); [|done]. clear Hf f. by induction p.
Qed.

Lemma sum_list_insert (l : list nat) i n n' :
  l !! i = Some n -> (sum_list (<[i := n']> l) + n = sum_list l + n')%nat.
Proof.
  revert i. induction l as [|x l IH]; intros [|i] Hi; csimpl in *; simplify_eq; [lia|].
  specialize (IH i Hi). lia.
Qed.

(** All threads together spend no more than the sum of their budgets. *)
Lemma spends_play {S A} {EN : Env} {ST : Store S} turns (c : Conf G S A) ns m :
  I m (cf_shared c) -> Forall2 spends ns (cf_threads c) ->
  exists m', (m' <= m + sum_list ns)%nat /\ I m' (cf_shared (play turns c)).
Proof.
  revert c ns m. induction turns as [|t turns IH]; intros c ns m HI Hns.
  { exists m. split; [lia|done]. }
  cbn [play foldl]. fold (play turns (take_turn c t)). destruct t as [i|n]; cbn [take_turn].
  - destruct (cf_threads c !! i) as [[a|X o k|X crit k]|] eqn:Ei; [by apply IH| | |by apply IH];
      destruct (Forall2_lookup_r _ _ _ _ _ Hns Ei) as (n & En & Hn).
    + destruct (handle o _) as [x w]. apply IH; [done|]. cbn.
      rewrite <-(list_insert_id ns i n En). apply Forall2_insert; [done|]. apply Hn.
    + destruct (ensures_run_weak (crit (cf_shared c)) _ _ (cf_world c) (fun _ _ => Logic.I)
        (Hn m _ HI)) as (es & _ & j & Hj & HI' & Hk).
      destruct (run _ _) as [[[x sp] g] w]. cbn in *.
      destruct (IH (mkConf (<[i := k x]> (cf_threads c)) (cf_spawned c ++ sp) g w)
        (<[i := (n - j)%nat]> ns) (m + j)%nat) as (m' & Hm' & H'); [done|by apply Forall2_insert|].
      exists m'. split; [|done]. pose proof (sum_list_insert ns i n (n - j) En). lia.
  - destruct (cf_spawned c !! n); by apply IH.
Qed.
End budget.

(** ** Bounded waiting *)

(** The program ends after at most [n] of its own turns, whatever the answers. *)
Fixpoint within {G A} (n : nat) (p : sproc G A) {struct p} : Prop :=
  match p, n with
  | SRet _, _ => True
  | SDo o k, S n => forall x, within n (k x)
  | SLocked crit k, S n => forall x, within n (k x)
  | _, O => False
  end.
Fixpoint proc_within {A} (n : nat) (p : proc A) {struct p} : Prop :=
  match p, n with
  | Ret _, _ => True
  | Atomic o k, S n => forall x, proc_within n (k x)
  | _, O => False
  end.

Lemma within_le {G A} n n' (p : sproc G A) : (n <= n')%nat -> within n p -> within n' p.
Proof.
  revert n n'. induction p as [a|X o k IH|X crit k IH]; intros [|n] [|n'] Hn H; try done; try lia;
    cbn in *; intros x; (eapply IH; [|apply H]; lia).
Qed.
Lemma within_bind {G A B} n1 n2 (p : sproc G A) (f : A -> sproc G B) :
  within n1 p -> (forall a, within n2 (f a)) -> within (n1 + n2) (p ≫= f).
Proof.
  unfold mbind, sproc_bind. revert n1.
  induction p as [a|X o k IH|X crit k IH]; intros n1 H Hf; cbn.
  - eapply within_le; [|apply Hf]. lia.
  - destruct n1 as [|n1]; [done|]. cbn in *. auto.
  - destruct n1 as [|n1]; [done|]. cbn in *. auto.
Qed.
Lemma within_lift {G A B} n1 n2 (p : proc A) (f : A -> sproc G B) :
  proc_within n1 p -> (forall a, within n2 (f a)) -> within (n1 + n2) (lift p ≫= f).
Proof.
  intros Hp. apply within_bind. revert n1 Hp. induction p as [a|X o k IH]; intros [|n1] H; cbn in *;
    try done; auto.
Qed.
Lemma proc_within_lift {G A} n (p : proc A) : proc_within n p -> within (G := G) n (lift p).
Proof. revert n. induction p as [a|X o k IH]; intros [|n] H; cbn in *; try done; auto. Qed.

#[export] Instance turn_eq_dec : EqDecision turn.
Proof. solve_decision. Defined.
Definition own_turns (i : nat) (turns : list turn) : nat :=
  length (filter (fun t => t = Turn i) turns).

Section waiting.
Context {G S A : Type} {EN : Env} {ST : Store S}.

Lemma take_turn_other (c : Conf G S A) t i :
  t <> Turn i -> cf_threads (take_turn c t) !! i = cf_threads c !! i.
Proof.
  intros Hne. destruct t as [j|n]; cbn [take_turn]; [|by case_match].
  assert (j <> i) by congruence. destruct (cf_threads c !! j) as [[a|X o k|X crit k]|]; try done.
  - destruct (handle o _) as [x w]. cbn. by rewrite list_lookup_insert_ne.
  - destruct (run _ _) as [[[x sp] g] w]. cbn. by rewrite list_lookup_insert_ne.
Qed.

Lemma take_turn_own (c : Conf G S A) i p n :
  cf_threads c !! i = Some p -> within n p ->
  exists p', cf_threads (take_turn c (Turn i)) !! i = Some p' /\ within (n - 1) p'.
Proof.
  intros Hp Hn. cbn [take_turn]. rewrite Hp. pose proof (lookup_lt_Some _ _ _ Hp) as Hl.
  destruct p as [a|X o k|X crit k]; [exists (SRet a); split; [exact Hp|exact I]|..];
    (destruct n as [|n]; [done|]);
    replace (Datatypes.S n - 1)%nat with n by lia.
  - destruct (handle o _) as [x w]. exists (k x). cbn. by rewrite list_lookup_insert_eq.
  - destruct (run _ _) as [[[x sp] g] w]. exists (k x). cbn. by rewrite list_lookup_insert_eq.
Qed.

(** A thread that gets its turns finishes, whatever the others do. *)
Lemma within_play turns (c : Conf G S A) i p n :
  cf_threads c !! i = Some p -> within n p -> (n <= own_turns i turns)%nat ->
  exists a, cf_threads (play turns c) !! i = Some (SRet a).
Proof.
  revert c p n. induction turns as [|t turns IH]; intros c p n Hp Hn Ho.
  { cbn in Ho. replace n with 0%nat in Hn by lia. destruct p; [by eexists|done..]. }
  cbn [play foldl]. fold (play turns (take_turn c t)).
  unfold own_turns in *. rewrite filter_cons in Ho. destruct (decide (t = Turn i)) as [->|Hne].
  - destruct (take_turn_own c i p n Hp Hn) as (p' & Hp' & Hn').
    apply (IH _ p' (n - 1)%nat Hp' Hn'). cbn in Ho. lia.
  - apply (IH _ p n); [by rewrite take_turn_other|done..].
Qed.
End waiting.
