(* ===== verification/Crypto.v ===== *)
(** Ed25519 signing and verification over canonical JSON
    (crypto/ed25519.go: [GenerateKeyPair], [Sign], [Verify], [GenerateNonce]).

    The signature scheme is an interface, [Ed25519]; [Ed25519Laws] is what Go
    documents of [crypto/ed25519].  Nothing is assumed of forgeries. *)

From S2P Require Import Prelude GoTime GoBytes Protocol Json Canonical Sha256 Observability.
From S2P Require Import Effects.
Local Open Scope go_scope.

Definition PublicKeySize : nat := 32.
Definition PrivateKeySize : nat := 64.
Definition SignatureSize : nat := 64.
Definition SeedSize : nat := 32.

Class Ed25519 : Type := {
  (** [ed25519.NewKeyFromSeed] on a 32-byte seed. *)
  ed_new_key : bytes -> bytes;
  (** The signature by a 64-byte private key. *)
  ed_sign : bytes -> bytes -> bytes;
  (** Whether a 64-byte signature of the message checks under a 32-byte key. *)
  ed_check : bytes -> bytes -> bytes -> bool
}.

(** [priv.Public()] is the second half of the private key. *)
Definition ed_public (priv : bytes) : bytes := drop 32 priv.

Class Ed25519Laws `{!Ed25519} : Prop := {
  ed_new_key_length seed : length seed = SeedSize -> length (ed_new_key seed) = PrivateKeySize;
  ed_sign_length priv msg : length (ed_sign priv msg) = SignatureSize;
  ed_sign_check seed msg :
    length seed = SeedSize ->
    ed_check (ed_public (ed_new_key seed)) msg (ed_sign (ed_new_key seed) msg) = true
}.

(** A key pair as [GenerateKey] and [NewKeyFromSeed] return them. *)
Definition key_pair `{!Ed25519} (pub priv : bytes) : Prop :=
  exists seed, length seed = SeedSize /\ priv = ed_new_key seed /\ pub = ed_public priv.

Section crypto.
Context {ED : Ed25519}.

(** [ed25519.Sign] and [ed25519.Verify], which panic on a key of the wrong
    length; a signature of the wrong length is refused. *)
Definition ed25519_Sign (priv msg : bytes) : res bytes :=
  if decide (length priv = PrivateKeySize) then Ok (ed_sign priv msg)
  else Err (Panic "ed25519: bad private key length").
Definition ed25519_Verify (pub msg sig : bytes) : res bool :=
  if decide (length pub = PublicKeySize) then
    Ok (bool_decide (length sig = SignatureSize) && ed_check pub msg sig)
  else Err (Panic "ed25519: bad public key length").

(** [ed25519.GenerateKey(rand.Reader)]: a seed read from the random source. *)
Definition GenerateKeyPair : proc (res (bytes * bytes)) :=
  seed <~ rand_read SeedSize wrap Errorf_w "hanko/crypto: key generation failed: ";;
  let priv := ed_new_key seed in
  Ret (Ok (ed_public priv, priv)).

Definition Sign (body : json) (priv : bytes) : res bytes :=
  match CanonicalJSON body with
  | Err e => Err (Errorf_w "hanko/crypto: canonical JSON failed: " e)
  | Ok canonical => ed25519_Sign priv canonical
  end.

Definition Verify (body : json) (sig pub : bytes) : res unit :=
  match CanonicalJSON body with
  | Err e => Err (Errorf_w "hanko/crypto: canonical JSON failed: " e)
  | Ok canonical =>
      match ed25519_Verify pub canonical sig with
      | Err e => Err e
      | Ok false => Err (ErrStr "hanko/crypto: signature verification failed")
      | Ok true => Ok tt
      end
  end.

Definition GenerateNonce : proc (res bytes) :=
  b <~ rand_read 16 wrap Errorf_w "hanko/crypto: nonce generation failed: ";;
  Ret (Ok b).

Lemma Verify_Ok body sig pub :
  Verify body sig pub = Ok tt <->
  length pub = PublicKeySize /\ length sig = SignatureSize /\
  exists canonical, CanonicalJSON body = Ok canonical /\ ed_check pub canonical sig = true.
Proof.
  unfold Verify, ed25519_Verify. destruct (CanonicalJSON body) as [c|e].
  - case_decide as Hp; [|split; [done|by intros [? _]]].
    destruct (bool_decide _ && _) eqn:E; simpl.
    + apply andb_true_iff in E as [E1%bool_decide_eq_true E2]. split; [eauto|done].
    + split; [done|]. intros (_ & Hs & c' & [= <-] & Hc).
      rewrite bool_decide_eq_true_2, Hc in E by done. done.
  - split; [done|]. by intros (_ & _ & c & ? & _).
Qed.

(** The panics of [crypto/ed25519] are the only abnormal end of [Verify]. *)
Lemma Verify_no_panic body sig pub m :
  length pub = PublicKeySize -> Verify body sig pub <> Err (Panic m).
Proof.
  intros Hp. unfold Verify, ed25519_Verify, CanonicalJSON. rewrite decide_True by done.
  by destruct (_ && _).
Qed.

Lemma key_pair_lengths `{!Ed25519Laws} pub priv :
  key_pair pub priv -> length pub = PublicKeySize /\ length priv = PrivateKeySize.
Proof.
  intros (seed & Hs & -> & ->). unfold ed_public.
  rewrite length_drop, ed_new_key_length by done. done.
Qed.

(** A signature made with one half of a key pair verifies under the other. *)
Lemma Verify_Sign `{!Ed25519Laws} body pub priv sig :
  key_pair pub priv -> Sign body priv = Ok sig -> Verify body sig pub = Ok tt.
Proof.
  intros Hk Hs. destruct (key_pair_lengths _ _ Hk) as [Hpub Hpriv].
  unfold Sign, ed25519_Sign, CanonicalJSON in Hs. rewrite decide_True in Hs by done.
  injection Hs as <-. apply Verify_Ok. split_and!; [done|apply ed_sign_length|].
  eexists; split; [done|]. destruct Hk as (seed & Hs & -> & ->). by apply ed_sign_check.
Qed.

Lemma Sign_total `{!Ed25519Laws} body pub priv :
  key_pair pub priv -> exists sig, Sign body priv = Ok sig /\ length sig = SignatureSize.
Proof.
  intros [_ Hpriv]%key_pair_lengths. unfold Sign, ed25519_Sign, CanonicalJSON.
  rewrite decide_True by done. eauto using ed_sign_length.
Qed.
End crypto.

(** ** A concrete scheme for evaluation

    Not secure: the "signature" is a hash of the public half and the message.
    It satisfies the laws, and makes the definitions above executable. *)
Module ToyScheme.
Definition toy_sign (pub msg : bytes) : bytes := sha256 (pub ++ msg) ++ sha256 msg.

#[export] Instance toy : Ed25519 := {
  ed_new_key seed := seed ++ seed;
  ed_sign priv msg := toy_sign (drop 32 priv) msg;
  ed_check pub msg sig := bool_decide (sig = toy_sign pub msg)
}.

#[export] Instance toy_laws : Ed25519Laws.
Proof.
  split.
  - intros seed H. simpl. rewrite length_app, H. done.
  - intros priv msg. simpl. unfold toy_sign. rewrite length_app, !length_sha256. done.
  - intros seed msg _. simpl. by apply bool_decide_eq_true.
Qed.
End ToyScheme.
