(* ===== verification/Envelope.v ===== *)
(** The JSON form of the wire types (the field tags of protocol/types.go) and
    the body an envelope's signature covers ([envelopeBody], broker.go).

    Main fact: two envelopes with the same signed bytes agree on every field
    but [Signature] ([signed_bytes_determine]). *)

From S2P Require Import Prelude GoTime GoBytes Protocol Json Canonical.
Local Open Scope Z_scope.

(** ** Field encodings *)

(** A [[]byte] field: standard base64, [null] when nil. *)
Definition json_bytes (s : slice ascii) : json :=
  match s with None => JNull | Some b => JString (base64_std_encode b) end.
(** A [time.Time] field. *)
Definition json_time (t : Time) : res json :=
  match marshal_time t with
  | Some x => Ok (JString x)
  | None => Err (ErrStr ("json: error calling MarshalJSON for type time.Time: Time.MarshalJSON: "
      +:+ if (0 <=? year t) && (year t <=? 9999)
          then "timezone hour outside of range [0,23]" else "year outside of range [0,9999]"))
  end.
(** A [map[string]string] field: the keys in order. *)
Definition json_string_map (m : option (gmap string string)) : json :=
  match m with
  | None => JNull
  | Some m => JObject ((fun k => (k, JString (default "" (m !! k)))) <$>
                         sort_strings (fst <$> map_to_list m))
  end.

(** [json.Marshal] of the elements of a slice: the first error wins. *)
Fixpoint map_res {A B} (f : A -> res B) (l : list A) : res (list B) :=
  match l with
  | [] => Ok []
  | x :: l =>
      match f x with
      | Err e => Err e
      | Ok y => match map_res f l with Err e => Err e | Ok l' => Ok (y :: l') end
      end
  end.

Definition sigil_json (s : Sigil) : res json :=
  match json_time (sg_CreatedAt s) with
  | Err e => Err e
  | Ok created =>
      match (match sg_ExpiresAt s with
             | None => Ok []
             | Some t => match json_time t with
                         | Err e => Err e | Ok x => Ok [("expires_at", x)] end
             end) with
      | Err e => Err e
      | Ok expires =>
          Ok (JObject ([("id", JString (sg_ID s)); ("subject", JString (sg_Subject s));
                        ("public_key", json_bytes (sg_PublicKey s));
                        ("created_at", created)] ++ expires ++
                       [("metadata", json_string_map (sg_Metadata s))]))
      end
  end.

Definition cap_json (c : CapabilityToken) : res json :=
  match json_time (cap_IssuedAt c), json_time (cap_ExpiresAt c) with
  | Err e, _ | _, Err e => Err e
  | Ok issued, Ok expires =>
      Ok (JObject [("id", JString (cap_ID c)); ("sigil_id", JString (cap_SigilID c));
                   ("scope", JString (cap_Scope c)); ("issued_at", issued);
                   ("expires_at", expires); ("nonce", json_bytes (cap_Nonce c))])
  end.

Definition caps_json (cs : slice CapabilityToken) : res json :=
  match cs with
  | None => Ok JNull
  | Some cs => match map_res cap_json cs with Err e => Err e | Ok l => Ok (JArray l) end
  end.

Definition envelope_json (e : AttestationEnvelope) : res json :=
  match caps_json (env_Caps e) with
  | Err err => Err err
  | Ok caps =>
      match json_time (env_IssuedAt e), json_time (env_ExpiresAt e) with
      | Err err, _ | _, Err err => Err err
      | Ok issued, Ok expires =>
          Ok (JObject [("version", JString (env_Version e));
                       ("sigil_id", JString (env_SigilID e)); ("caps", caps);
                       ("issuer", JString (env_Issuer e)); ("issued_at", issued);
                       ("expires_at", expires);
                       ("signature", json_bytes (env_Signature e))])
      end
  end.

(** [delete(m, k)] *)
Definition delete_key {V} (k : string) (m : list (string * V)) : list (string * V) :=
  filter (fun kv => kv.1 <> k) m.

(** Marshal the envelope, unmarshal it into a generic map, drop the
    signature.  [Unmarshal] of what [Marshal] wrote cannot fail. *)
Definition envelopeBody (e : AttestationEnvelope) : res json :=
  match envelope_json e with
  | Err err => Err err
  | Ok raw =>
      match json_roundtrip raw with
      | JObject m => Ok (JObject (delete_key "signature" m))
      | v => Ok v
      end
  end.

(** The bytes that are signed and verified. *)
Definition signed_bytes (e : AttestationEnvelope) : res bytes :=
  match envelopeBody e with Err err => Err err | Ok b => CanonicalJSON b end.

(** ** What the text of a value keeps *)

Definition cap_wf (c : CapabilityToken) : Prop :=
  valid_utf8 (cap_ID c) = true /\ valid_utf8 (cap_SigilID c) = true /\
  valid_utf8 (cap_Scope c) = true /\
  whole_minute_zone (cap_IssuedAt c) /\ whole_minute_zone (cap_ExpiresAt c).
Definition env_wf (e : AttestationEnvelope) : Prop :=
  valid_utf8 (env_Version e) = true /\ valid_utf8 (env_SigilID e) = true /\
  valid_utf8 (env_Issuer e) = true /\
  whole_minute_zone (env_IssuedAt e) /\ whole_minute_zone (env_ExpiresAt e) /\
  Forall cap_wf (elems (env_Caps e)).

(** Everything but the signature. *)
Definition same_content (e1 e2 : AttestationEnvelope) : Prop :=
  mkEnvelope (env_Version e1) (env_SigilID e1) (env_Caps e1) (env_Issuer e1)
    (env_IssuedAt e1) (env_ExpiresAt e1) None =
  mkEnvelope (env_Version e2) (env_SigilID e2) (env_Caps e2) (env_Issuer e2)
    (env_IssuedAt e2) (env_ExpiresAt e2) None.

(** ** ASCII text is valid UTF-8 *)

Definition ascii_char (a : ascii) : Prop := byte_val a < 128.

Lemma valid_utf8_ascii l : Forall ascii_char l -> valid_utf8 (of_bytes l) = true.
Proof.
  unfold valid_utf8. rewrite to_of_bytes. induction 1 as [|a l Ha Hl IH]; [done|].
  simpl. destruct (Z.ltb_spec (byte_val a) 128); [exact IH|]. unfold ascii_char in Ha. lia.
Qed.

Lemma sym_ascii i : 0 <= i < 64 -> ascii_char (sym b64_std i).
Proof.
  intros Hi. assert (forallb (fun i => byte_val (sym b64_std i) <? 128)
                       (Z.of_nat <$> seq 0 64) = true) as H by (vm_compute; done).
  pose proof (Z_range_forall _ 64 H i Hi) as H'. cbv beta in H'. unfold ascii_char. lia.
Qed.

Lemma base64_std_valid b : valid_utf8 (base64_std_encode b) = true.
Proof.
  apply valid_utf8_ascii. destruct (b64_encode_vals b64_std ["="%char] b) as [k ->].
  apply Forall_app. split.
  - apply Forall_fmap. eapply Forall_impl; [apply b64_vals_range|]. apply sym_ascii.
  - induction k as [|k IH]; simpl; [constructor|]. by constructor.
Qed.

Lemma digit_ascii d : 0 <= d < 10 -> ascii_char (digit d).
Proof. intros H. unfold ascii_char, digit. rewrite byte_val_of; lia. Qed.

Lemma dec_digits_ascii w z : Forall ascii_char (dec_digits w z).
Proof.
  revert z. induction w as [|w IH]; intros z; simpl; [constructor|].
  apply Forall_app. split; [apply IH|]. constructor; [|constructor].
  apply digit_ascii. by apply Z.mod_pos_bound.
Qed.

(** A text made of fixed-width numbers and punctuation. *)
Ltac ascii_text :=
  repeat first [apply dec_digits_ascii | apply Forall_app; split
               | apply Forall_cons; split; [done|] | apply Forall_nil_2].

Lemma fraction_ascii ns : Forall ascii_char (fraction ns).
Proof.
  unfold fraction. destruct (ns =? 0); [constructor|]. constructor; [done|].
  apply Forall_reverse.
  destruct (drop_zeros_spec (reverse (dec_digits 9 ns))) as [k Hk].
  pose proof (dec_digits_ascii 9 ns) as H. apply Forall_reverse in H. rewrite Hk in H.
  by apply Forall_app in H as [_ H].
Qed.

Lemma zone_ascii off : Forall ascii_char (zone off).
Proof.
  unfold zone. destruct (off =? 0); [by constructor|].
  constructor; [by destruct (_ <? _)|].
  ascii_text.
Qed.

Lemma marshal_time_valid t x : marshal_time t = Some x -> valid_utf8 x = true.
Proof.
  intros [Hy ->]%marshal_time_Some. apply valid_utf8_ascii. unfold rfc3339_bytes.
  unfold year in Hy. destruct (civil_of_days _) as [[y m] d]. simpl in Hy.
  rewrite append_year by lia.
  ascii_text; auto using fraction_ascii, zone_ascii.
Qed.

(** ** Well-formedness of the encodings *)

Lemma json_bytes_wf s : json_wf (json_bytes s) = true.
Proof. destruct s; simpl; [apply base64_std_valid|done]. Qed.

Lemma json_bytes_inj s1 s2 : json_bytes s1 = json_bytes s2 -> s1 = s2.
Proof.
  destruct s1, s2; simpl; try done. intros [= E]. by apply base64_std_encode_inj in E as ->.
Qed.

Lemma json_time_Ok t x :
  json_time t = Ok x -> exists s, x = JString s /\ marshal_time t = Some s.
Proof. unfold json_time. destruct (marshal_time t); intros [= <-]; eauto. Qed.

Lemma json_time_wf t x : json_time t = Ok x -> json_wf x = true.
Proof. intros (s & -> & H)%json_time_Ok. simpl. by eapply marshal_time_valid. Qed.

Lemma json_time_inj t u x :
  whole_minute_zone t -> whole_minute_zone u ->
  json_time t = Ok x -> json_time u = Ok x -> t = u.
Proof.
  intros Zt Zu (s & -> & H1)%json_time_Ok (s' & [= <-] & H2)%json_time_Ok.
  by eapply marshal_time_inj.
Qed.

Lemma map_res_Ok {A B} (f : A -> res B) l l' :
  map_res f l = Ok l' <-> Forall2 (fun x y => f x = Ok y) l l'.
Proof.
  revert l'. induction l as [|x l IH]; intros l'; simpl.
  - split; [by intros [= <-]|]. by intros ->%Forall2_nil_inv_l.
  - destruct (f x) as [y|e] eqn:E.
    + destruct (map_res f l) as [k|e] eqn:Ek.
      * split; [intros [= <-]; constructor; [done|by apply IH]|].
        intros (y' & k' & Hy & Hk & ->)%Forall2_cons_inv_l. apply IH in Hk. congruence.
      * split; [done|]. intros (y' & k' & Hy & Hk & ->)%Forall2_cons_inv_l.
        apply IH in Hk. congruence.
    + split; [done|]. intros (y' & k' & Hy & Hk & ->)%Forall2_cons_inv_l. congruence.
Qed.

(** What the fields of a canonical object determine. *)
Lemma canon_fields m k :
  NoDup (map fst m) ->
  match canon (JObject m) with
  | JObject m' => assoc_get m' k = canon <$> assoc_get m k
  | _ => False
  end.
Proof.
  intros Hnd. cbn [canon]. destruct (decide (k ∈ map fst m)) as [Hk|Hk].
  - rewrite (assoc_get_keys (fun k => default JNull (assoc_get
      (map (fun kv => (kv.1, canon kv.2)) m) k))) by (by rewrite sort_strings_perm).
    rewrite assoc_get_map. by destruct (assoc_get_is_Some m k Hk) as [v ->].
  - destruct (assoc_get m k) as [v|] eqn:E.
    { apply assoc_get_Some_In in E. destruct Hk. apply list_elem_of_fmap. by exists (k, v). }
    destruct (assoc_get (map _ (sort_strings _)) k) as [v|] eqn:E'; [|done].
    apply assoc_get_Some_In in E'. rewrite list_elem_of_In in E'.
    apply in_map_iff in E' as (k' & [= -> _] & Hin).
    rewrite <-list_elem_of_In, sort_strings_perm in Hin. done.
Qed.

Lemma canon_eq_fields m1 m2 k :
  NoDup (map fst m1) -> NoDup (map fst m2) -> canon (JObject m1) = canon (JObject m2) ->
  canon <$> assoc_get m1 k = canon <$> assoc_get m2 k.
Proof.
  intros H1 H2 E. pose proof (canon_fields m1 k H1) as F1.
  pose proof (canon_fields m2 k H2) as F2. rewrite E in F1.
  destruct (canon (JObject m2)); try done. congruence.
Qed.

Lemma assoc_get_delete_key {V} k k' (m : list (string * V)) :
  k' <> k -> assoc_get (delete_key k m) k' = assoc_get m k'.
Proof.
  intros Hk. unfold delete_key. induction m as [|[j v] m IH]; [done|].
  rewrite filter_cons. simpl. destruct (decide (j <> k)) as [E|E].
  - simpl. by rewrite IH.
  - apply dec_stable in E as ->. by rewrite decide_False, IH by done.
Qed.

Lemma delete_key_sub {V} k (m : list (string * V)) x : x ∈ delete_key k m -> x ∈ m.
Proof. intros H. by apply list_elem_of_filter in H as [_ ?]. Qed.

Lemma delete_key_NoDup {V} k (m : list (string * V)) :
  NoDup (map fst m) -> NoDup (map fst (delete_key k m)).
Proof.
  induction m as [|[j v] m IH]; simpl; [done|]. intros [Hj Hm]%NoDup_cons.
  unfold delete_key. rewrite filter_cons. case_decide; simpl; [|by apply IH].
  constructor; [|by apply IH]. intros Hin. apply Hj.
  apply list_elem_of_fmap in Hin as (x & -> & Hx%delete_key_sub).
  apply list_elem_of_fmap. by exists x.
Qed.

Lemma delete_key_wf k m :
  json_wf (JObject m) = true -> json_wf (JObject (delete_key k m)) = true.
Proof.
  cbn [json_wf]. intros [Hnd%bool_decide_eq_true H]%andb_true_iff.
  rewrite bool_decide_eq_true_2 by (by apply delete_key_NoDup). simpl.
  rewrite forallb_forall in H |- *. intros x Hx%list_elem_of_In%delete_key_sub.
  by apply H, list_elem_of_In.
Qed.

Lemma json_wf_NoDup m : json_wf (JObject m) = true -> NoDup (map fst m).
Proof. cbn [json_wf]. by intros [?%bool_decide_eq_true _]%andb_true_iff. Qed.

(** ** Capabilities *)

Lemma cap_json_Ok c v :
  cap_json c = Ok v ->
  exists issued expires,
    json_time (cap_IssuedAt c) = Ok issued /\ json_time (cap_ExpiresAt c) = Ok expires /\
    v = JObject [("id", JString (cap_ID c)); ("sigil_id", JString (cap_SigilID c));
                 ("scope", JString (cap_Scope c)); ("issued_at", issued);
                 ("expires_at", expires); ("nonce", json_bytes (cap_Nonce c))].
Proof.
  unfold cap_json. destruct (json_time (cap_IssuedAt c)); [|done].
  destruct (json_time (cap_ExpiresAt c)); [|done]. intros [= <-]. eauto 10.
Qed.

(** The well-formedness of an object with the given distinct keys. *)
Ltac object_wf :=
  cbn [json_wf forallb map fst snd];
  match goal with |- context [bool_decide (NoDup ?l)] =>
    replace (bool_decide (NoDup l)) with true by (vm_compute; reflexivity) end;
  rewrite !andb_true_iff; split_and!;
  lazymatch goal with
  | |- json_wf (json_bytes _) = _ => apply json_bytes_wf
  | H : json_time _ = Ok ?x |- json_wf ?x = _ => exact (json_time_wf _ _ H)
  | H : ?P |- ?P => exact H
  | _ => vm_compute; reflexivity
  end.

Lemma cap_json_wf c v : cap_wf c -> cap_json c = Ok v -> json_wf v = true.
Proof.
  intros (H1 & H2 & H3 & _) (i & x & Hi & Hx & ->)%cap_json_Ok. object_wf.
Qed.

Lemma canon_field_eq m1 m2 k v1 v2 :
  json_wf (JObject m1) = true -> json_wf (JObject m2) = true ->
  canon (JObject m1) = canon (JObject m2) ->
  assoc_get m1 k = Some v1 -> assoc_get m2 k = Some v2 -> canon v1 = canon v2.
Proof.
  intros W1%json_wf_NoDup W2%json_wf_NoDup E H1 H2.
  pose proof (canon_eq_fields m1 m2 k W1 W2 E) as H. rewrite H1, H2 in H.
  simpl in H. by injection H.
Qed.

(** The encodings of fields are already canonical. *)
Lemma canon_json_bytes s : canon (json_bytes s) = json_bytes s.
Proof. by destruct s. Qed.
Lemma canon_json_time t x : json_time t = Ok x -> canon x = x.
Proof. by intros (s & -> & _)%json_time_Ok. Qed.

Lemma cap_json_inj c1 c2 v1 v2 :
  cap_wf c1 -> cap_wf c2 -> cap_json c1 = Ok v1 -> cap_json c2 = Ok v2 ->
  canon v1 = canon v2 -> c1 = c2.
Proof.
  intros W1 W2 J1 J2 E.
  pose proof (cap_json_wf _ _ W1 J1) as V1. pose proof (cap_json_wf _ _ W2 J2) as V2.
  apply cap_json_Ok in J1 as (i1 & x1 & Hi1 & Hx1 & ->).
  apply cap_json_Ok in J2 as (i2 & x2 & Hi2 & Hx2 & ->).
  pose proof (canon_field_eq _ _ "id" _ _ V1 V2 E eq_refl eq_refl) as Eid.
  pose proof (canon_field_eq _ _ "sigil_id" _ _ V1 V2 E eq_refl eq_refl) as Esig.
  pose proof (canon_field_eq _ _ "scope" _ _ V1 V2 E eq_refl eq_refl) as Esc.
  pose proof (canon_field_eq _ _ "issued_at" _ _ V1 V2 E eq_refl eq_refl) as Ei.
  pose proof (canon_field_eq _ _ "expires_at" _ _ V1 V2 E eq_refl eq_refl) as Ex.
  pose proof (canon_field_eq _ _ "nonce" _ _ V1 V2 E eq_refl eq_refl) as En.
  rewrite !canon_json_bytes in En. apply json_bytes_inj in En.
  rewrite (canon_json_time _ _ Hi1), (canon_json_time _ _ Hi2) in Ei. subst i2.
  rewrite (canon_json_time _ _ Hx1), (canon_json_time _ _ Hx2) in Ex. subst x2.
  destruct W1 as (_ & _ & _ & Zi1 & Zx1), W2 as (_ & _ & _ & Zi2 & Zx2).
  pose proof (json_time_inj _ _ _ Zi1 Zi2 Hi1 Hi2).
  pose proof (json_time_inj _ _ _ Zx1 Zx2 Hx1 Hx2).
  destruct c1, c2; simpl in *. congruence.
Qed.

(** ** Envelopes *)

Lemma caps_json_wf cs v :
  Forall cap_wf (elems cs) -> caps_json cs = Ok v -> json_wf v = true.
Proof.
  destruct cs as [cs|]; simpl; [|by intros _ [= <-]]. intros W.
  destruct (map_res cap_json cs) as [l|] eqn:E; [|done]. intros [= <-].
  apply map_res_Ok in E. cbn [json_wf]. apply forallb_forall.
  induction E as [|c v cs l Hc E IH]; [done|]. apply Forall_cons in W as [Wc W].
  intros x [<-|Hx]; [by eapply cap_json_wf|auto].
Qed.

Lemma caps_json_inj cs1 cs2 v1 v2 :
  Forall cap_wf (elems cs1) -> Forall cap_wf (elems cs2) ->
  caps_json cs1 = Ok v1 -> caps_json cs2 = Ok v2 -> canon v1 = canon v2 -> cs1 = cs2.
Proof.
  destruct cs1 as [cs1|], cs2 as [cs2|]; simpl.
  - intros W1 W2. destruct (map_res cap_json cs1) as [l1|] eqn:E1; [|done].
    destruct (map_res cap_json cs2) as [l2|] eqn:E2; [|done]. intros [= <-] [= <-].
    cbn [canon]. intros [= E]. apply map_res_Ok in E1, E2. f_equal.
    revert cs2 l2 W2 E2 E. induction E1 as [|c v cs1 l1 Hc E1 IH]; intros cs2 l2 W2 E2 E.
    + destruct E2; [done|]. done.
    + destruct E2 as [|c2 v2 cs2 l2 Hc2 E2]; [done|].
      apply Forall_cons in W1 as [Wc1 W1]. apply Forall_cons in W2 as [Wc2 W2].
      injection E as E E'. f_equal; [by eapply cap_json_inj|by eapply IH].
  - destruct (map_res cap_json cs1); [|done]. by intros _ _ [= <-] [= <-].
  - destruct (map_res cap_json cs2); [|done]. by intros _ _ [= <-] [= <-].
  - done.
Qed.

Definition envelope_fields (e : AttestationEnvelope) (caps issued expires : json) :
    list (string * json) :=
  [("version", JString (env_Version e)); ("sigil_id", JString (env_SigilID e));
   ("caps", caps); ("issuer", JString (env_Issuer e)); ("issued_at", issued);
   ("expires_at", expires); ("signature", json_bytes (env_Signature e))].

Lemma envelope_json_Ok e v :
  envelope_json e = Ok v ->
  exists caps issued expires,
    caps_json (env_Caps e) = Ok caps /\ json_time (env_IssuedAt e) = Ok issued /\
    json_time (env_ExpiresAt e) = Ok expires /\ v = JObject (envelope_fields e caps issued expires).
Proof.
  unfold envelope_json. destruct (caps_json _); [|done].
  destruct (json_time (env_IssuedAt e)); [|done].
  destruct (json_time (env_ExpiresAt e)); [|done]. intros [= <-]. eauto 10.
Qed.

Lemma envelope_json_wf e v : env_wf e -> envelope_json e = Ok v -> json_wf v = true.
Proof.
  intros (H1 & H2 & H3 & _ & _ & Hc) (cs & i & x & Hcs & Hi & Hx & ->)%envelope_json_Ok.
  pose proof (caps_json_wf _ _ Hc Hcs). unfold envelope_fields. object_wf.
Qed.

(** The body of a well-formed envelope: its canonical object, less the signature. *)
Lemma envelopeBody_Ok e b :
  env_wf e -> envelopeBody e = Ok b ->
  exists m m', envelope_json e = Ok (JObject m) /\ json_wf (JObject m) = true /\
    canon (JObject m) = JObject m' /\ b = JObject (delete_key "signature" m') /\
    json_wf b = true.
Proof.
  intros W. unfold envelopeBody. destruct (envelope_json e) as [v|] eqn:E; [|done].
  pose proof (envelope_json_wf _ _ W E) as V. rewrite json_roundtrip_canon by done.
  apply envelope_json_Ok in E as (cs & i & x & _ & _ & _ & ->).
  pose proof (canon_wf _ V) as Vc.
  destruct (canon _) as [| | | | |m'] eqn:Ec; try (cbn [canon] in Ec; discriminate Ec).
  intros [= <-]. eexists _, m'. split_and!; eauto using delete_key_wf.
Qed.

(** Equal signed bytes give equal fields, the signature excepted. *)
Lemma body_field_eq e1 e2 b1 b2 m1 m2 k v1 v2 :
  env_wf e1 -> env_wf e2 -> envelopeBody e1 = Ok b1 -> envelopeBody e2 = Ok b2 ->
  CanonicalJSON b1 = CanonicalJSON b2 ->
  envelope_json e1 = Ok (JObject m1) -> envelope_json e2 = Ok (JObject m2) ->
  k <> "signature" -> assoc_get m1 k = Some v1 -> assoc_get m2 k = Some v2 ->
  canon v1 = canon v2.
Proof.
  intros W1 W2 B1 B2 E J1 J2 Hk F1 F2.
  apply envelopeBody_Ok in B1 as (m1' & n1 & J1' & V1 & C1 & -> & Vb1); [|done].
  apply envelopeBody_Ok in B2 as (m2' & n2 & J2' & V2 & C2 & -> & Vb2); [|done].
  assert (m1' = m1) as -> by congruence. assert (m2' = m2) as -> by congruence.
  apply CanonicalJSON_inj in E; [|done..].
  pose proof (canon_eq_fields _ _ k (json_wf_NoDup _ Vb1) (json_wf_NoDup _ Vb2) E) as H.
  rewrite !assoc_get_delete_key in H by done.
  pose proof (canon_fields m1 k (json_wf_NoDup _ V1)) as G1. rewrite C1 in G1.
  pose proof (canon_fields m2 k (json_wf_NoDup _ V2)) as G2. rewrite C2 in G2.
  rewrite G1, G2, F1, F2 in H. simpl in H. rewrite !canon_idemp in H. by injection H.
Qed.

Lemma signed_bytes_Ok e bs :
  signed_bytes e = Ok bs -> exists b, envelopeBody e = Ok b /\ CanonicalJSON b = Ok bs.
Proof. unfold signed_bytes. destruct (envelopeBody e); eauto. done. Qed.

Lemma signed_bytes_determine e1 e2 bs :
  env_wf e1 -> env_wf e2 -> signed_bytes e1 = Ok bs -> signed_bytes e2 = Ok bs ->
  same_content e1 e2.
Proof.
  intros W1 W2 (b1 & B1 & K1)%signed_bytes_Ok (b2 & B2 & K2)%signed_bytes_Ok.
  assert (CanonicalJSON b1 = CanonicalJSON b2) as E by congruence.
  destruct (envelopeBody_Ok _ _ W1 B1) as (m1 & _ & J1 & _).
  destruct (envelopeBody_Ok _ _ W2 B2) as (m2 & _ & J2 & _).
  destruct (envelope_json_Ok _ _ J1) as (cs1 & i1 & x1 & Hc1 & Hi1 & Hx1 & [= ->]).
  destruct (envelope_json_Ok _ _ J2) as (cs2 & i2 & x2 & Hc2 & Hi2 & Hx2 & [= ->]).
  pose proof (fun k v1 v2 => body_field_eq _ _ _ _ _ _ k v1 v2 W1 W2 B1 B2 E J1 J2) as F.
  pose proof (F "version" _ _ ltac:(done) eq_refl eq_refl) as Ev.
  pose proof (F "sigil_id" _ _ ltac:(done) eq_refl eq_refl) as Es.
  pose proof (F "caps" _ _ ltac:(done) eq_refl eq_refl) as Ec.
  pose proof (F "issuer" _ _ ltac:(done) eq_refl eq_refl) as Eu.
  pose proof (F "issued_at" _ _ ltac:(done) eq_refl eq_refl) as Ei.
  pose proof (F "expires_at" _ _ ltac:(done) eq_refl eq_refl) as Ex.
  rewrite (canon_json_time _ _ Hi1), (canon_json_time _ _ Hi2) in Ei. subst i2.
  rewrite (canon_json_time _ _ Hx1), (canon_json_time _ _ Hx2) in Ex. subst x2.
  destruct W1 as (_ & _ & _ & Zi1 & Zx1 & Wc1), W2 as (_ & _ & _ & Zi2 & Zx2 & Wc2).
  unfold same_content. rewrite (json_time_inj _ _ _ Zi1 Zi2 Hi1 Hi2).
  rewrite (json_time_inj _ _ _ Zx1 Zx2 Hx1 Hx2).
  rewrite (caps_json_inj _ _ _ _ Wc1 Wc2 Hc1 Hc2 Ec). cbn [canon] in *. congruence.
Qed.

(** The signed object, with its six keys in order: the signature is gone. *)
Lemma body_of_fields version sigil caps issuer issued expires sig :
  match json_roundtrip (JObject
    [("version", version); ("sigil_id", sigil); ("caps", caps); ("issuer", issuer);
     ("issued_at", issued); ("expires_at", expires); ("signature", sig)]) with
  | JObject m => delete_key "signature" m
  | _ => []
  end =
  [("caps", json_roundtrip caps); ("expires_at", json_roundtrip expires);
   ("issued_at", json_roundtrip issued); ("issuer", json_roundtrip issuer);
   ("sigil_id", json_roundtrip sigil); ("version", json_roundtrip version)].
Proof.
  cbn [json_roundtrip map fst snd].
  generalize (json_roundtrip version) (json_roundtrip sigil) (json_roundtrip caps)
    (json_roundtrip issuer) (json_roundtrip issued) (json_roundtrip expires)
    (json_roundtrip sig). intros. vm_compute. reflexivity.
Qed.

Lemma envelopeBody_fields e :
  envelopeBody e =
  match caps_json (env_Caps e), json_time (env_IssuedAt e), json_time (env_ExpiresAt e) with
  | Err err, _, _ | Ok _, Err err, _ | Ok _, Ok _, Err err => Err err
  | Ok caps, Ok issued, Ok expires =>
      Ok (JObject
        [("caps", json_roundtrip caps); ("expires_at", json_roundtrip expires);
         ("issued_at", json_roundtrip issued);
         ("issuer", JString (to_valid_utf8 (env_Issuer e)));
         ("sigil_id", JString (to_valid_utf8 (env_SigilID e)));
         ("version", JString (to_valid_utf8 (env_Version e)))])
  end.
Proof.
  unfold envelopeBody, envelope_json.
  destruct (caps_json (env_Caps e)) as [caps|]; [|done].
  destruct (json_time (env_IssuedAt e)) as [issued|]; [|done].
  destruct (json_time (env_ExpiresAt e)) as [expires|]; [|done].
  pose proof (body_of_fields (JString (env_Version e)) (JString (env_SigilID e)) caps
    (JString (env_Issuer e)) issued expires (json_bytes (env_Signature e))) as H.
  destruct (json_roundtrip _) as [| | | | |m] eqn:E; try discriminate H.
  by rewrite H.
Qed.

(** The signature does not take part in what is signed. *)
Lemma envelopeBody_same_content e1 e2 :
  same_content e1 e2 -> envelopeBody e1 = envelopeBody e2.
Proof.
  unfold same_content. intros [= E1 E2 E3 E4 E5 E6]. rewrite !envelopeBody_fields.
  by rewrite E1, E2, E3, E4, E5, E6.
Qed.

(** ** Times that have a wire form *)

Definition wire_time (t : Time) : Prop := 0 <= year t <= 9999 /\ whole_minute_zone t.
Definition cap_wire (c : CapabilityToken) : Prop :=
  wire_time (cap_IssuedAt c) /\ wire_time (cap_ExpiresAt c).

Lemma json_time_total t :
  wire_time t -> json_time t = Ok (JString (format_rfc3339nano t)).
Proof. intros [Hy Hz]. unfold json_time. by rewrite marshal_time_total. Qed.

Lemma caps_json_total cs :
  Forall cap_wire (elems cs) -> exists v, caps_json cs = Ok v.
Proof.
  destruct cs as [cs|]; simpl; [|eauto]. intros H.
  assert (exists l, map_res cap_json cs = Ok l) as [l ->]; [|eauto].
  induction H as [|c cs [Hi Hx] H [l IH]]; simpl; [eauto|].
  rewrite IH. unfold cap_json. rewrite !json_time_total by done. eauto.
Qed.

Lemma envelopeBody_total e :
  Forall cap_wire (elems (env_Caps e)) -> wire_time (env_IssuedAt e) ->
  wire_time (env_ExpiresAt e) -> exists b, envelopeBody e = Ok b.
Proof.
  intros [v Hc]%caps_json_total Hi Hx. rewrite envelopeBody_fields, Hc.
  rewrite !json_time_total by done. eauto.
Qed.

Lemma envelopeBody_no_panic e m : envelopeBody e <> Err (Panic m).
Proof.
  assert (forall t m, json_time t <> Err (Panic m)) as Ht
    by (intros t n; unfold json_time; by destruct (marshal_time t)).
  assert (forall c m, cap_json c <> Err (Panic m)) as Hcap.
  { intros c n. unfold cap_json. pose proof (Ht (cap_IssuedAt c) n).
    pose proof (Ht (cap_ExpiresAt c) n).
    destruct (json_time (cap_IssuedAt c)), (json_time (cap_ExpiresAt c)); congruence. }
  assert (forall cs m, caps_json cs <> Err (Panic m)) as Hcs.
  { intros [cs|] n; [|done]. simpl. assert (map_res cap_json cs <> Err (Panic n)) as H.
    { induction cs as [|c cs IH]; simpl; [done|]. pose proof (Hcap c n).
      destruct (cap_json c), (map_res cap_json cs); congruence. }
    destruct (map_res cap_json cs); congruence. }
  rewrite envelopeBody_fields. pose proof (Hcs (env_Caps e) m).
  pose proof (Ht (env_IssuedAt e) m). pose proof (Ht (env_ExpiresAt e) m).
  destruct (caps_json (env_Caps e)), (json_time (env_IssuedAt e)),
    (json_time (env_ExpiresAt e)); congruence.
Qed.
