(* ===== verification/MemStore.v ===== *)
(** The in-memory store (store/mem.go, and [MemStoreCloser] of
    store/interface.go).

    Nonces are keyed by their hexadecimal text.  [MemStore] refines an
    abstract store whose nonces are a set of byte strings and whose
    revocations are the log itself: the O(1) index is redundant. *)

From S2P Require Import Prelude GoBytes GoTime Protocol Store.

Record MemStore := mkMemStore {
  ms_sigils : gmap string Sigil;
  ms_caps : gmap string CapabilityToken;
  ms_revs : RevocationList;
  ms_revokedIDs : gset string;
  ms_nonces : gset string
}.

Definition NewMemStore : MemStore := mkMemStore ∅ ∅ [] ∅ ∅.

Definition hexEncodeNonce (nonce : slice ascii) : string := hex_encode (elems nonce).

Module Mem.
Definition SaveSigil (x : Sigil) : M MemStore (res unit) := fun m =>
  (Ok tt, mkMemStore (<[sg_ID x := x]> (ms_sigils m)) (ms_caps m) (ms_revs m)
            (ms_revokedIDs m) (ms_nonces m)).
Definition GetSigil (id : string) : M MemStore (res Sigil) := fun m =>
  match ms_sigils m !! id with
  | None => (Err (ErrStr ("store: sigil " +:+ id +:+ " not found")), m)
  | Some s => (Ok s, m)
  end.
Definition SaveCap (x : CapabilityToken) : M MemStore (res unit) := fun m =>
  (Ok tt, mkMemStore (ms_sigils m) (<[cap_ID x := x]> (ms_caps m)) (ms_revs m)
            (ms_revokedIDs m) (ms_nonces m)).
Definition GetCap (id : string) : M MemStore (res CapabilityToken) := fun m =>
  match ms_caps m !! id with
  | None => (Err (ErrStr ("store: cap " +:+ id +:+ " not found")), m)
  | Some c => (Ok c, m)
  end.
Definition NonceUsed (nonce : slice ascii) : M MemStore bool := fun m =>
  (bool_decide (hexEncodeNonce nonce ∈ ms_nonces m), m).
Definition RecordNonce (nonce : slice ascii) : M MemStore unit := fun m =>
  (tt, mkMemStore (ms_sigils m) (ms_caps m) (ms_revs m) (ms_revokedIDs m)
         ({[hexEncodeNonce nonce]} ∪ ms_nonces m)).
Definition TryRecordNonce (nonce : slice ascii) : M MemStore bool := fun m =>
  let key := hexEncodeNonce nonce in
  if decide (key ∈ ms_nonces m) then (false, m)
  else (true, mkMemStore (ms_sigils m) (ms_caps m) (ms_revs m) (ms_revokedIDs m)
                ({[key]} ∪ ms_nonces m)).
Definition IsRevoked (id : string) : M MemStore bool := fun m =>
  (bool_decide (id ∈ ms_revokedIDs m), m).
Definition RevocationList : M MemStore RevocationList := fun m => (ms_revs m, m).
Definition Revoke (entry : RevocationEntry) : M MemStore (res unit) := fun m =>
  (Ok tt, mkMemStore (ms_sigils m) (ms_caps m) (ms_revs m ++ [entry])
            ({[rev_ID entry]} ∪ ms_revokedIDs m) (ms_nonces m)).
(** [MemStoreCloser.RecordNonceStrict] *)
Definition RecordNonceStrict (nonce : slice ascii) : M MemStore (res bool) := fun m =>
  let key := hexEncodeNonce nonce in
  if decide (key ∈ ms_nonces m) then (Ok false, m)
  else (Ok true, mkMemStore (ms_sigils m) (ms_caps m) (ms_revs m) (ms_revokedIDs m)
                   ({[key]} ∪ ms_nonces m)).
End Mem.

#[export] Instance mem_store : Store MemStore := {
  SaveSigil := Mem.SaveSigil; GetSigil := Mem.GetSigil;
  SaveCap := Mem.SaveCap; GetCap := Mem.GetCap;
  NonceUsed := Mem.NonceUsed; RecordNonce := Mem.RecordNonce;
  TryRecordNonce := Mem.TryRecordNonce; IsRevoked := Mem.IsRevoked;
  GetRevocationList := Mem.RevocationList; Revoke := Mem.Revoke
}.
(** [MemStoreCloser]: closing does nothing. *)
Definition NewMemStoreCloser : MemStore := NewMemStore.
Definition MemStoreCloser_Close : M MemStore unit := fun m => (tt, m).
#[export] Instance MemStoreCloser : StoreCloser MemStore := {
  RecordNonceStrict := Mem.RecordNonceStrict; CloseStore := MemStoreCloser_Close
}.

(** ** The replay and revocation contracts *)

Lemma hexEncodeNonce_inj n m : hexEncodeNonce n = hexEncodeNonce m -> elems n = elems m.
Proof. apply hex_encode_inj. Qed.

(** What each method leaves of the nonces and of the revocation index. *)
Lemma mem_step_mono s s' :
  store_step s s' -> ms_nonces s ⊆ ms_nonces s' /\ ms_revokedIDs s ⊆ ms_revokedIDs s'.
Proof.
  destruct 1; simpl; unfold Mem.GetSigil, Mem.GetCap, Mem.TryRecordNonce;
    repeat case_match; simpl; set_solver.
Qed.

#[export] Instance mem_safe : StoreSafe MemStore.
Proof.
  refine {| consumed s n := hexEncodeNonce n ∈ ms_nonces s |}.
  - done.
  - intros s s' n [Hn _]%mem_step_mono. set_solver.
  - intros s n. simpl. unfold Mem.TryRecordNonce. case_decide; [done|]. set_solver.
Defined.

#[export] Instance mem_exact : StoreExact MemStore.
Proof.
  refine {| revoked s id := bool_decide (id ∈ ms_revokedIDs s) |}.
  - done.
  - intros s s' id [_ Hr]%mem_step_mono. rewrite !bool_decide_eq_true. set_solver.
  - intros e s _. simpl. apply bool_decide_eq_true. set_solver.
  - intros n s. simpl. unfold Mem.TryRecordNonce. case_decide as E; simpl.
    + split_and!; [naive_solver|done|]. naive_solver.
    + split_and!; [done|done|]. intros m. rewrite elem_of_union, elem_of_singleton.
      split; [intros [?%hexEncodeNonce_inj|?]; auto|]. intros [?|[_ Em]]; [auto|].
      left. unfold hexEncodeNonce. by rewrite Em.
Defined.

(** ** Refinement of an abstract store *)

(** What the store is for: sigils and capabilities by id, the append-only
    revocation log, and the set of consumed nonces. *)
Record AbsStore := mkAbs {
  abs_sigils : gmap string Sigil;
  abs_caps : gmap string CapabilityToken;
  abs_revs : RevocationList;
  abs_nonces : gset bytes
}.

Module Abs.
Definition is_revoked (a : AbsStore) (id : string) : bool :=
  bool_decide (id ∈ rev_ID <$> abs_revs a).
Definition spend (n : bytes) (a : AbsStore) : AbsStore :=
  mkAbs (abs_sigils a) (abs_caps a) (abs_revs a) ({[n]} ∪ abs_nonces a).

Definition missing (what id : string) : error :=
  ErrStr ("store: " +:+ what +:+ " " +:+ id +:+ " not found").

#[local] Instance abs_store : Store AbsStore := {
  SaveSigil x a := (Ok tt, mkAbs (<[sg_ID x := x]> (abs_sigils a)) (abs_caps a)
                             (abs_revs a) (abs_nonces a));
  GetSigil id a := (match abs_sigils a !! id with
                    | Some x => Ok x | None => Err (missing "sigil" id) end, a);
  SaveCap x a := (Ok tt, mkAbs (abs_sigils a) (<[cap_ID x := x]> (abs_caps a))
                           (abs_revs a) (abs_nonces a));
  GetCap id a := (match abs_caps a !! id with
                  | Some x => Ok x | None => Err (missing "cap" id) end, a);
  NonceUsed n a := (bool_decide (elems n ∈ abs_nonces a), a);
  RecordNonce n a := (tt, spend (elems n) a);
  TryRecordNonce n a := (bool_decide (elems n ∉ abs_nonces a), spend (elems n) a);
  IsRevoked id a := (is_revoked a id, a);
  GetRevocationList a := (abs_revs a, a);
  Revoke e a := (Ok tt, mkAbs (abs_sigils a) (abs_caps a) (abs_revs a ++ [e]) (abs_nonces a))
}.
End Abs.

(** The implementation relation: the index holds exactly the ids of the log,
    the key set exactly the hexadecimal texts of the nonces. *)
Record mem_refines (m : MemStore) (a : AbsStore) : Prop := {
  mr_sigils : ms_sigils m = abs_sigils a;
  mr_caps : ms_caps m = abs_caps a;
  mr_revs : ms_revs m = abs_revs a;
  mr_index id : id ∈ ms_revokedIDs m <-> id ∈ rev_ID <$> ms_revs m;
  mr_nonces n : hex_encode n ∈ ms_nonces m <-> n ∈ abs_nonces a;
  mr_keys k : k ∈ ms_nonces m -> exists n, k = hex_encode n
}.

(** A method implements its specification: same result, related states. *)
Definition implements {A} (c : M MemStore A) (d : M AbsStore A) : Prop :=
  forall m a, mem_refines m a -> (c m).1 = (d a).1 /\ mem_refines (c m).2 (d a).2.

Lemma mem_refines_init : mem_refines NewMemStore (mkAbs ∅ ∅ [] ∅).
Proof. split; simpl; try done; set_solver. Qed.

Lemma mem_refines_spend m a n :
  mem_refines m a ->
  mem_refines (mkMemStore (ms_sigils m) (ms_caps m) (ms_revs m) (ms_revokedIDs m)
                 ({[hex_encode n]} ∪ ms_nonces m)) (Abs.spend n a).
Proof.
  intros [H1 H2 H3 H4 H5 H6]. split; simpl; [done..| |].
  - intros k. rewrite !elem_of_union, !elem_of_singleton, H5.
    split; intros [E|E]; auto; left; [by apply hex_encode_inj|by rewrite E].
  - intros k [->%elem_of_singleton|Hk]%elem_of_union; eauto.
Qed.

(** Spending a nonce twice is spending it once. *)
Lemma spend_again a n : n ∈ abs_nonces a -> Abs.spend n a = a.
Proof.
  intros H. unfold Abs.spend. destruct a as [s c r ns]; simpl in *. f_equal.
  apply leibniz_equiv. set_solver.
Qed.

Section refinement.
Local Existing Instance Abs.abs_store.

Lemma nonce_known m a n :
  mem_refines m a -> hexEncodeNonce n ∈ ms_nonces m <-> elems n ∈ abs_nonces a.
Proof. intros H. apply (mr_nonces _ _ H). Qed.

Lemma SaveSigil_refines x : implements (Mem.SaveSigil x) (SaveSigil x).
Proof.
  intros m a H. split; [done|]. destruct H as [H1 H2 H3 H4 H5 H6].
  split; simpl; auto. by rewrite H1.
Qed.

Lemma SaveCap_refines x : implements (Mem.SaveCap x) (SaveCap x).
Proof.
  intros m a H. split; [done|]. destruct H as [H1 H2 H3 H4 H5 H6].
  split; simpl; auto. by rewrite H2.
Qed.

Lemma GetSigil_refines id : implements (Mem.GetSigil id) (GetSigil id).
Proof.
  intros m a H. simpl. unfold Mem.GetSigil. rewrite (mr_sigils _ _ H).
  by destruct (abs_sigils a !! id).
Qed.

Lemma GetCap_refines id : implements (Mem.GetCap id) (GetCap id).
Proof.
  intros m a H. simpl. unfold Mem.GetCap. rewrite (mr_caps _ _ H).
  by destruct (abs_caps a !! id).
Qed.

Lemma Revoke_refines e : implements (Mem.Revoke e) (Revoke e).
Proof.
  intros m a H. split; [done|]. destruct H as [H1 H2 H3 H4 H5 H6].
  split; simpl; auto.
  - by rewrite H3.
  - intros id. rewrite fmap_app, elem_of_app, <-H4. set_solver.
Qed.

Lemma TryRecordNonce_refines n : implements (Mem.TryRecordNonce n) (TryRecordNonce n).
Proof.
  intros m a H. simpl. unfold Mem.TryRecordNonce. case_decide as E.
  - apply (nonce_known _ _ _ H) in E. rewrite spend_again by done.
    by rewrite bool_decide_eq_false_2 by (by intros ?).
  - rewrite (nonce_known _ _ _ H) in E. rewrite bool_decide_eq_true_2 by done.
    split; [done|]. by apply mem_refines_spend.
Qed.

(** C4: [MemStore] implements the abstract store, method by method: sigils and
    capabilities are maps by id, the revocation index answers exactly whether
    the id is in the append-only log, the nonce table is a set of byte
    strings (hexadecimal keys lose nothing), [TryRecordNonce] reports whether
    the nonce was new, and [RecordNonceStrict] is the same operation. *)
Theorem mem_store_refines :
  mem_refines NewMemStore (mkAbs ∅ ∅ [] ∅) /\
  (forall x, implements (Mem.SaveSigil x) (SaveSigil x)) /\
  (forall id, implements (Mem.GetSigil id) (GetSigil id)) /\
  (forall x, implements (Mem.SaveCap x) (SaveCap x)) /\
  (forall id, implements (Mem.GetCap id) (GetCap id)) /\
  (forall n, implements (Mem.NonceUsed n) (NonceUsed n)) /\
  (forall n, implements (Mem.RecordNonce n) (RecordNonce n)) /\
  (forall n, implements (Mem.TryRecordNonce n) (TryRecordNonce n)) /\
  (forall id, implements (Mem.IsRevoked id) (IsRevoked id)) /\
  implements Mem.RevocationList GetRevocationList /\
  (forall e, implements (Mem.Revoke e) (Revoke e)) /\
  (forall n m, Mem.RecordNonceStrict n m =
               ((fun b => Ok b) (Mem.TryRecordNonce n m).1, (Mem.TryRecordNonce n m).2)).
Proof.
  split_and!; auto using mem_refines_init, SaveSigil_refines, GetSigil_refines,
    SaveCap_refines, GetCap_refines, TryRecordNonce_refines, Revoke_refines.
  - intros n m a H. split; [|done]. simpl. apply bool_decide_ext. by apply nonce_known.
  - intros n m a H. split; [done|]. by apply mem_refines_spend.
  - intros id m a H. split; [|done]. simpl. unfold Abs.is_revoked. apply bool_decide_ext.
    by rewrite (mr_index _ _ H), (mr_revs _ _ H).
  - intros m a H. split; [|done]. apply (mr_revs _ _ H).
  - intros n m. unfold Mem.RecordNonceStrict, Mem.TryRecordNonce. by case_decide.
Qed.
End refinement.
