(* ===== verification/Broker.v ===== *)
(** The broker (broker/broker.go): issuing sigils, capabilities and signed
    attestations, verifying attestations, revoking.

    Every operation is a [proc], the tree of its atomic steps, so that the
    same definition is run alone here and interleaved in [Concurrency]. *)

From S2P Require Import Prelude GoBytes GoTime Protocol Json Canonical Sha256 Observability Store.
From S2P Require Import Effects Crypto Envelope.
Local Open Scope go_scope.

Definition IssuerName : string := "hanko-broker@obyw.one".

(** The fields of [Broker] that are fixed at construction; its store and its
    atomic counters are part of the [World]. *)
Record Broker := mkBroker {
  br_signerPriv : bytes;
  br_signerPub : bytes;
  br_workspaceID : string;
  (** whether [WithMetrics] injected a metrics surface *)
  br_metrics : bool
}.

(** [New], and the fluent setters. *)
Definition New (signerPub signerPriv : bytes) : Broker :=
  mkBroker signerPriv signerPub "" false.
Definition WithPublisher (b : Broker) (workspaceID : string) : Broker :=
  mkBroker (br_signerPriv b) (br_signerPub b) workspaceID (br_metrics b).
Definition WithMetrics (b : Broker) (m : bool) : Broker :=
  mkBroker (br_signerPriv b) (br_signerPub b) (br_workspaceID b) m.

Record BrokerMetrics := mkBrokerMetrics { RevocationAllowed : Z; RevocationDenied : Z }.
Definition MetricsSnapshot {S} (w : World S) : BrokerMetrics :=
  mkBrokerMetrics (w_allowed w) (w_denied w).

(** [meta[k]] on a possibly nil map. *)
Definition meta_get (meta : option (gmap string string)) (k : string) : string :=
  default "" (default ∅ meta !! k).

Definition capabilitySetHash (meta : option (gmap string string)) : string :=
  let scopes := meta_get meta "scopes" in
  if decide (scopes = "") then "none"
  else hex_encode (take 8 (sha256 (to_bytes scopes))).

(** Returning a sentinel. *)
Definition fail {A} (e : VerifyError) : proc (res A) := Ret (Err (ErrVerify e)).

Section broker.
Context {ED : Ed25519}.
Implicit Types b : Broker.

Definition IssueSigil b (subject : string) (pubKey : slice ascii) (expiresAt : option Time)
    (meta : option (gmap string string)) : proc (res Sigil) :=
  let meta := Some (default ∅ meta) in
  id ← new_uuid;
  t ← now;
  let s := mkSigil id subject pubKey (UTC t) expiresAt meta in
  _ <~ perform (OSaveSigil s) wrap Errorf_w "broker.IssueSigil: ";;
  corrID ← new_uuid;
  t2 ← now;
  _ ← Publish (SigilSubject (br_workspaceID b) ActionSigilIssued corrID)
        (PSigilIssued (mkSigilIssuedEvent (format_rfc3339nano (UTC t2)) corrID
           (br_workspaceID b) subject [] expiresAt "success"));
  _ ← (if br_metrics b then IncSigilIssued (capabilitySetHash meta) (meta_get meta "client_id")
       else Ret tt);
  Ret (Ok s).

Definition IssueCap b (sigilID scope : string) (expiresAt : Time) :
    proc (res CapabilityToken) :=
  _ <~ perform (OGetSigil sigilID) wrap Errorf_w "broker.IssueCap: sigil not found: ";;
  nonce <~ GenerateNonce wrap (fun e => e);;
  id ← new_uuid;
  t ← now;
  let c := mkCap id sigilID scope (UTC t) expiresAt (Some nonce) in
  _ <~ perform (OSaveCap c) wrap Errorf_w "broker.IssueCap: ";;
  Ret (Ok c).

Definition IssueAttestation b (sigilID : string) (caps : slice CapabilityToken)
    (expiresAt : Time) : proc (res AttestationEnvelope) :=
  t ← now;
  let env := mkEnvelope Version sigilID caps IssuerName (UTC t) expiresAt None in
  body <~ Ret (envelopeBody env) wrap Errorf_w "broker.IssueAttestation: ";;
  sig <~ Ret (Sign body (br_signerPriv b)) wrap Errorf_w "broker.IssueAttestation: ";;
  Ret (Ok (mkEnvelope Version sigilID caps IssuerName (UTC t) expiresAt (Some sig))).

(** Steps 4 to 6 of [VerifyAttestation], for the remaining capabilities. *)
Fixpoint verify_caps (caps : list CapabilityToken) : proc (res unit) :=
  match caps with
  | [] => Ret (Ok tt)
  | cap :: caps =>
      rev ← perform (OIsRevoked (cap_ID cap));
      if rev : bool then
        _ ← perform OAddDenied; fail ErrCapRevoked
      else
        t ← now;
        if After t (cap_ExpiresAt cap) then fail ErrCapExpired
        else
          ok ← perform (OTryRecordNonce (cap_Nonce cap));
          if ok : bool then verify_caps caps else fail ErrReplayAttack
  end.

Definition VerifyAttestation b (env : AttestationEnvelope) : proc (res unit) :=
  body <~ Ret (envelopeBody env) wrap Errorf_w "broker.VerifyAttestation: ";;
  _ <~ Ret (Verify body (elems (env_Signature env)) (br_signerPub b))
       wrap replace_err (ErrVerify ErrSignatureInvalid);;
  rev ← perform (OIsRevoked (env_SigilID env));
  if rev : bool then
    _ ← perform OAddDenied; fail ErrSigilRevoked
  else
    t ← now;
    if After t (env_ExpiresAt env) then fail ErrCapExpired
    else
      _ <~ verify_caps (elems (env_Caps env)) wrap (fun e => e);;
      _ ← perform OAddAllowed;
      Ret (Ok tt).

Definition VerifyCapScope (cap : CapabilityToken) (requestedAction : string) : res unit :=
  if decide (cap_Scope cap <> requestedAction) then Err (ErrVerify ErrScopeMismatch)
  else Ok tt.

Definition RevokeSigil b (sigilID reason revokedBy : string) : proc (res unit) :=
  t ← now;
  let entry := mkRevocation sigilID "sigil" reason (UTC t) revokedBy in
  _ <~ perform (ORevoke entry) wrap (fun e => e);;
  corrID ← new_uuid;
  t2 ← now;
  _ ← Publish (SigilSubject (br_workspaceID b) ActionSigilRevoked corrID)
        (PSigilRevoked (mkSigilRevokedEvent (format_rfc3339nano (UTC t2)) corrID
           (br_workspaceID b) sigilID reason "success"));
  Ret (Ok tt).

Definition RevokeCap b (capID reason revokedBy : string) : proc (res unit) :=
  t ← now;
  perform (ORevoke (mkRevocation capID "cap" reason (UTC t) revokedBy)).

Definition Broker_GetCap b (id : string) : proc (res CapabilityToken) :=
  perform (OGetCap id).
End broker.
