(* ===== verification/BrokerProofs.v ===== *)
(** Sequential correctness of the broker: what each operation returns and
    does, on every branch, over any store that meets [StoreExact]. *)

From S2P Require Import Prelude GoBytes GoTime Protocol Json Canonical Sha256 Observability Store.
From S2P Require Import Effects Crypto Envelope Broker.
Local Open Scope go_scope.

Section verify.
Context {ED : Ed25519} {S : Type} {EN : Env} {ST : Store S} {SF : StoreSafe S} {SE : StoreExact S}.
Implicit Types (w : World S) (b : Broker).

(** The bytes of the capabilities' nonces. *)
Definition nonces (caps : list CapabilityToken) : list bytes :=
  (fun c => elems (cap_Nonce c)) <$> caps.

(** The capability at position [j] passes its three checks: [earlier] are the
    nonces of the capabilities before it, [tick] the clock reading it gets. *)
Definition cap_passes w (tick : nat) (earlier : list bytes) (cap : CapabilityToken) : Prop :=
  revoked (w_store w) (cap_ID cap) = false /\
  After (clock tick) (cap_ExpiresAt cap) = false /\
  ~ consumed (w_store w) (cap_Nonce cap) /\
  elems (cap_Nonce cap) ∉ earlier.

(** It is refused with [e], the first check that fails. *)
Definition cap_refused w (tick : nat) (earlier : list bytes) (cap : CapabilityToken)
    (e : VerifyError) : Prop :=
  (e = ErrCapRevoked /\ revoked (w_store w) (cap_ID cap) = true) \/
  (revoked (w_store w) (cap_ID cap) = false /\
   ((e = ErrCapExpired /\ After (clock tick) (cap_ExpiresAt cap) = true) \/
    (After (clock tick) (cap_ExpiresAt cap) = false /\ e = ErrReplayAttack /\
     (consumed (w_store w) (cap_Nonce cap) \/ elems (cap_Nonce cap) ∈ earlier)))).

(** The first [k] capabilities pass; then the list ends, or the next one is
    refused. *)
Definition caps_verdict w (tick : nat) (caps : list CapabilityToken) (k : nat)
    (r : res unit) : Prop :=
  (forall j cap, (j < k)%nat -> caps !! j = Some cap ->
     cap_passes w (tick + j) (take j (nonces caps)) cap) /\
  match caps !! k with
  | None => r = Ok tt /\ k = length caps
  | Some cap => exists e, r = Err (ErrVerify e) /\
                  cap_refused w (tick + k) (take k (nonces caps)) cap e
  end.

(** The effect of a verification that won the nonces [ns]. *)
Record verify_effect w w' (ns : list bytes) (allowed denied : Z) : Prop := {
  ve_revoked id : revoked (w_store w') id = revoked (w_store w) id;
  ve_consumed n : consumed (w_store w') n <-> consumed (w_store w) n \/ elems n ∈ ns;
  ve_allowed : w_allowed w' = allowed;
  ve_denied : w_denied w' = denied;
  ve_trace : w_trace w' = w_trace w
}.

(** The revocation counter of a denial. *)
Definition denied_after w (r : res unit) : Z :=
  if decide (r = Err (ErrVerify ErrCapRevoked) \/ r = Err (ErrVerify ErrSigilRevoked))
  then uint64_wrap (w_denied w + 1) else w_denied w.

(** A step that changes nothing a verification looks at. *)
Abbreviation quiet w w' := (verify_effect w w' [] (w_allowed w) (w_denied w)).

Lemma run_IsRevoked id w :
  exists w', handle (OIsRevoked id) w = (revoked (w_store w) id, w') /\ quiet w w' /\
    w_clock w' = w_clock w.
Proof.
  destruct (IsRevoked_exact id (w_store w)) as (H1 & H2 & H3).
  cbn [handle]. unfold on_store. destruct (IsRevoked id (w_store w)) as [a s]. simpl in *.
  subst a. eexists. split_and!; [done| |done]. split; simpl; try done. set_solver.
Qed.

Lemma quiet_now w : quiet w (handle ONow w).2.
Proof. split; simpl; try done. set_solver. Qed.

(** A capability that passes in the state after the first was accepted,
    passed in the state before. *)
Lemma cap_passes_shift w w' tick cap0 earlier cap :
  verify_effect w w' [elems (cap_Nonce cap0)] (w_allowed w) (w_denied w) ->
  cap_passes w' tick earlier cap <->
  cap_passes w tick (elems (cap_Nonce cap0) :: earlier) cap.
Proof.
  intros [Hr Hc _ _ _]. unfold cap_passes. rewrite Hr, Hc. set_solver.
Qed.

Lemma cap_refused_shift w w' tick cap0 earlier cap e :
  verify_effect w w' [elems (cap_Nonce cap0)] (w_allowed w) (w_denied w) ->
  cap_refused w' tick earlier cap e <->
  cap_refused w tick (elems (cap_Nonce cap0) :: earlier) cap e.
Proof.
  intros [Hr Hc _ _ _]. unfold cap_refused. rewrite Hr, Hc. set_solver.
Qed.

Lemma caps_verdict_cons w w' tick cap caps k r :
  verify_effect w w' [elems (cap_Nonce cap)] (w_allowed w) (w_denied w) ->
  cap_passes w tick [] cap ->
  caps_verdict w' (1 + tick) caps k r -> caps_verdict w tick (cap :: caps) (1 + k) r.
Proof.
  intros He Hp [H1 H2]. split.
  - intros [|j] c Hj; simpl; [intros [= <-]; by rewrite Nat.add_0_r|]. intros Hc.
    apply (cap_passes_shift _ _ _ _ _ _ He).
    replace (tick + Datatypes.S j)%nat with (1 + tick + j)%nat by lia. apply H1; [lia|done].
  - simpl. destruct (caps !! k) as [c|]; [|destruct H2 as [-> ->]; done].
    destruct H2 as (e & -> & He'). exists e. split; [done|].
    apply (cap_refused_shift _ _ _ _ _ _ _ He).
    by replace (tick + Datatypes.S k)%nat with (1 + tick + k)%nat by lia.
Qed.

Lemma verify_effect_refl w : verify_effect w w [] (w_allowed w) (w_denied w).
Proof. split; try done. set_solver. Qed.

Lemma verify_effect_trans w1 w2 w3 n ns al de :
  verify_effect w1 w2 [n] (w_allowed w1) (w_denied w1) -> verify_effect w2 w3 ns al de ->
  verify_effect w1 w3 (n :: ns) al de.
Proof.
  intros [Hr Hc _ _ Ht] [Hr' Hc' Ha' Hd' Ht']. split; try done.
  - intros id. by rewrite Hr', Hr.
  - intros m. rewrite Hc', Hc. set_solver.
  - by rewrite Ht', Ht.
Qed.

Lemma quiet_trans w1 w2 w3 ns al de :
  quiet w1 w2 -> verify_effect w2 w3 ns al de -> verify_effect w1 w3 ns al de.
Proof.
  intros [Hr Hc _ _ Ht] [Hr' Hc' Ha' Hd' Ht']. split; try done.
  - intros id. by rewrite Hr', Hr.
  - intros m. rewrite Hc', Hc. set_solver.
  - by rewrite Ht', Ht.
Qed.

Lemma caps_verdict_quiet w w' tick caps k r :
  quiet w w' -> caps_verdict w' tick caps k r -> caps_verdict w tick caps k r.
Proof.
  intros [Hr Hc _ _ _] [H1 H2]. split.
  - intros j cap Hj Hl. specialize (H1 j cap Hj Hl). unfold cap_passes in *.
    rewrite Hr, Hc in H1. set_solver.
  - destruct (caps !! k); [|done]. destruct H2 as (e & He & H2). exists e. split; [done|].
    unfold cap_refused in *. rewrite Hr, Hc in H2. set_solver.
Qed.

Lemma denied_after_quiet w w' r : quiet w w' -> denied_after w' r = denied_after w r.
Proof. intros [_ _ _ Hd _]. unfold denied_after. by rewrite Hd. Qed.

(** Winning a nonce. *)
Lemma win_effect n w :
  let '(ok, w') := handle (OTryRecordNonce n) w in
  (ok = true -> ~ consumed (w_store w) n /\
     verify_effect w w' [elems n] (w_allowed w) (w_denied w)) /\
  (ok = false -> consumed (w_store w) n /\
     verify_effect w w' [] (w_allowed w) (w_denied w)) /\
  w_clock w' = w_clock w.
Proof.
  cbn [handle]. unfold on_store.
  destruct (TryRecordNonce_exact n (w_store w)) as (H1 & H2 & H3).
  destruct (TryRecordNonce n (w_store w)) as [[] s]; simpl in *;
    (split_and!; [try done| try done|done]); intros _; (split; [done|]);
    split; try done; intros m; rewrite H3; simpl; set_solver.
Qed.

Lemma denied_after_ok w : denied_after w (Ok tt) = w_denied w.
Proof. unfold denied_after. rewrite decide_False; naive_solver. Qed.

(** The loop over the capabilities. *)
Lemma verify_caps_spec caps w :
  let '(r, w') := run (verify_caps caps) w in
  exists k, caps_verdict w (w_clock w) caps k r /\
    verify_effect w w' (take k (nonces caps)) (w_allowed w) (denied_after w r).
Proof.
  revert w. induction caps as [|cap caps IH]; intros w.
  { cbn. exists 0%nat. rewrite denied_after_ok. split; [|apply verify_effect_refl].
    split; [intros; lia|done]. }
  cbn [verify_caps]. rewrite run_bind, run_perform.
  destruct (run_IsRevoked (cap_ID cap) w) as (w0 & -> & Hq0 & Hc0).
  destruct (revoked (w_store w) (cap_ID cap)) eqn:Er.
  { exists 0%nat. split.
    - split; [intros; lia|]. simpl. eexists; split; [done|]. by left.
    - rewrite <-(denied_after_quiet _ _ _ Hq0). destruct Hq0. split; simpl; try done. }
  rewrite run_bind. cbn [now perform run]. pose proof (quiet_now w0) as Hq1.
  assert ((handle ONow w0).1 = clock (w_clock w)) as Hclk by (simpl; by rewrite Hc0).
  destruct (handle ONow w0) as [t w1] eqn:E1. cbn [fst snd] in *. subst t.
  assert (w_clock w1 = (1 + w_clock w)%nat) as Hc1 by (injection E1 as _ <-; simpl; by rewrite Hc0).
  assert (quiet w w1) as He1 by (destruct Hq0 as [? ? Ha Hd ?]; rewrite Ha, Hd in Hq1;
    eapply quiet_trans; [|exact Hq1]; by split).
  clear E1 Hq0 Hq1 Hc0 w0.
  destruct (After _ _) eqn:Ea.
  { exists 0%nat. split; [|exact He1].
    split; [intros; lia|]. simpl. eexists; split; [done|]. right. split; [done|].
    left. by rewrite Nat.add_0_r. }
  rewrite run_bind, run_perform. pose proof (win_effect (cap_Nonce cap) w1) as Hw.
  destruct (handle _ w1) as [[] w2]; destruct Hw as (Ht & Hf & Hk).
  - destruct (Ht eq_refl) as [Hn He2]. clear Ht Hf.
    assert (verify_effect w w2 [elems (cap_Nonce cap)] (w_allowed w) (w_denied w)) as He.
    { rewrite (ve_allowed _ _ _ _ _ He1), (ve_denied _ _ _ _ _ He1) in He2.
      exact (quiet_trans _ _ _ _ _ _ He1 He2). }
    specialize (IH w2). destruct (run (verify_caps caps) w2) as [r w'].
    destruct IH as (k & Hv & Hee). exists (1 + k)%nat. split.
    + apply (caps_verdict_cons w w2); [done| |].
      * unfold cap_passes. destruct He1 as [_ Hcon _ _ _]. rewrite Hcon in Hn. set_solver.
      * by rewrite Hk, Hc1 in Hv.
    + simpl. destruct He as [? ? Ha Hd ?]. unfold denied_after in *. rewrite Ha, Hd in Hee.
      eapply verify_effect_trans; [|exact Hee]. by split.
  - destruct (Hf eq_refl) as [Hn He2]. clear Ht Hf. exists 0%nat. split.
    + split; [intros; lia|]. simpl. eexists; split; [done|]. right. split; [done|].
      right. rewrite Nat.add_0_r. destruct He1 as [_ Hcon _ _ _]. rewrite Hcon in Hn. set_solver.
    + rewrite (ve_allowed _ _ _ _ _ He1), (ve_denied _ _ _ _ _ He1) in He2.
      exact (quiet_trans _ _ _ _ _ _ He1 He2).
Qed.

(** The whole decision: [k] is the number of nonces it consumes. *)
Definition attestation_verdict w b (env : AttestationEnvelope) (k : nat) (r : res unit) : Prop :=
  match envelopeBody env with
  | Err e => k = 0%nat /\ r = Err (Errorf_w "broker.VerifyAttestation: " e)
  | Ok body =>
      match Verify body (elems (env_Signature env)) (br_signerPub b) with
      | Err _ => k = 0%nat /\ r = Err (ErrVerify ErrSignatureInvalid)
      | Ok _ =>
          if revoked (w_store w) (env_SigilID env) then
            k = 0%nat /\ r = Err (ErrVerify ErrSigilRevoked)
          else if After (clock (w_clock w)) (env_ExpiresAt env) then
            k = 0%nat /\ r = Err (ErrVerify ErrCapExpired)
          else caps_verdict w (1 + w_clock w) (elems (env_Caps env)) k r
      end
  end.

Definition allowed_after w (r : res unit) : Z :=
  if is_ok r then uint64_wrap (w_allowed w + 1) else w_allowed w.

Lemma verify_attestation_run b env w :
  length (br_signerPub b) = PublicKeySize ->
  let '(r, w') := run (VerifyAttestation b env) w in
  exists k, attestation_verdict w b env k r /\
    verify_effect w w' (take k (nonces (elems (env_Caps env)))) (allowed_after w r)
      (denied_after w r).
Proof.
  intros Hpub. unfold VerifyAttestation, attestation_verdict.
  rewrite run_try_with. cbn [run]. pose proof (envelopeBody_no_panic env) as Hnp.
  assert (forall e, (forall m, e <> Panic m) -> denied_after w (Err (Errorf_w
    "broker.VerifyAttestation: " e)) = w_denied w) as Hwrap.
  { intros e He. unfold denied_after. rewrite decide_False; [done|].
    destruct e; naive_solver. }
  destruct (envelopeBody env) as [body|e].
  2:{ exists 0%nat. split; [done|]. rewrite Hwrap by (intros m ->; by apply (Hnp m)).
      apply verify_effect_refl. }
  rewrite run_try_with. cbn [run].
  pose proof (Verify_no_panic body (elems (env_Signature env)) (br_signerPub b)) as Hvp.
  destruct (Verify _ _ _) as [[]|e].
  2:{ assert (replace_err (ErrVerify ErrSignatureInvalid) e = ErrVerify ErrSignatureInvalid) as ->
        by (destruct e as [| | |m]; try done; by destruct (Hvp m Hpub)).
      exists 0%nat. split; [done|apply verify_effect_refl]. }
  rewrite run_bind, run_perform.
  destruct (run_IsRevoked (env_SigilID env) w) as (w0 & -> & Hq0 & Hc0).
  destruct (revoked (w_store w) (env_SigilID env)).
  { exists 0%nat. split; [done|]. rewrite <-(denied_after_quiet _ _ _ Hq0).
    destruct Hq0. by split. }
  rewrite run_bind. cbn [now perform run]. pose proof (quiet_now w0) as Hq1.
  assert ((handle ONow w0).1 = clock (w_clock w)) as Hclk by (simpl; by rewrite Hc0).
  destruct (handle ONow w0) as [t w1] eqn:E1. cbn [fst snd] in *. subst t.
  assert (w_clock w1 = (1 + w_clock w)%nat) as Hc1 by (injection E1 as _ <-; simpl; by rewrite Hc0).
  assert (quiet w w1) as He1 by (destruct Hq0 as [? ? Ha Hd ?]; rewrite Ha, Hd in Hq1;
    eapply quiet_trans; [|exact Hq1]; by split).
  clear E1 Hq0 Hq1 Hc0 w0.
  destruct (After _ _).
  { exists 0%nat. split; [done|exact He1]. }
  rewrite run_try_with. pose proof (verify_caps_spec (elems (env_Caps env)) w1) as H.
  destruct (run (verify_caps _) w1) as [[[]|e] w2]; destruct H as (k & Hv & He);
    rewrite Hc1 in Hv; apply (caps_verdict_quiet _ _ _ _ _ _ He1) in Hv;
    rewrite (denied_after_quiet _ _ _ He1) in He; apply (quiet_trans _ _ _ _ _ _ He1) in He;
    pose proof (ve_allowed _ _ _ _ _ He1) as Hal; exists k; (split; [done|]).
  - destruct He as [Hr Hc Ha Hd Ht]. split; try done. cbn. by rewrite Ha, Hal.
  - destruct He as [Hr Hc Ha Hd Ht]. split; try done. by rewrite Ha, Hal.
Qed.

Definition signature_valid b (env : AttestationEnvelope) : Prop :=
  exists body, envelopeBody env = Ok body /\
    Verify body (elems (env_Signature env)) (br_signerPub b) = Ok tt.

(** Nothing in the envelope is revoked or expired when it is looked at, and
    its nonces are new and different from each other. *)
Record usable w (env : AttestationEnvelope) : Prop := {
  us_sigil : revoked (w_store w) (env_SigilID env) = false;
  us_time : After (clock (w_clock w)) (env_ExpiresAt env) = false;
  us_caps j cap : elems (env_Caps env) !! j = Some cap ->
    revoked (w_store w) (cap_ID cap) = false /\
    After (clock (1 + w_clock w + j)) (cap_ExpiresAt cap) = false /\
    ~ consumed (w_store w) (cap_Nonce cap);
  us_distinct : NoDup (nonces (elems (env_Caps env)))
}.

Lemma nodup_prefixes {A} `{EqDecision A} (l : list A) :
  NoDup l <-> forall j x, l !! j = Some x -> x ∉ take j l.
Proof.
  rewrite NoDup_alt. split.
  - intros H j x Hj Hx. apply list_elem_of_lookup in Hx as [i Hi].
    apply lookup_take_Some in Hi as [Hi Hlt]. specialize (H _ _ _ Hi Hj). lia.
  - intros H i j x Hi Hj. destruct (Nat.lt_trichotomy i j) as [L|[->|L]]; [|done|]; exfalso.
    + apply (H j x Hj). apply list_elem_of_lookup. exists i. by apply lookup_take_Some.
    + apply (H i x Hi). apply list_elem_of_lookup. exists j. by apply lookup_take_Some.
Qed.

Lemma nonces_lookup caps j n :
  nonces caps !! j = Some n <-> exists cap, caps !! j = Some cap /\ n = elems (cap_Nonce cap).
Proof. unfold nonces. rewrite list_lookup_fmap_Some. naive_solver. Qed.

Lemma caps_verdict_ok w tick caps k :
  caps_verdict w tick caps k (Ok tt) <->
  k = length caps /\
  (forall j cap, caps !! j = Some cap ->
     revoked (w_store w) (cap_ID cap) = false /\
     After (clock (tick + j)) (cap_ExpiresAt cap) = false /\
     ~ consumed (w_store w) (cap_Nonce cap)) /\
  NoDup (nonces caps).
Proof.
  rewrite nodup_prefixes. unfold caps_verdict. split.
  - intros [H1 H2]. destruct (caps !! k) eqn:Ek; [by destruct H2 as (? & ? & _)|].
    destruct H2 as [_ ->]. split; [done|]. split.
    + intros j cap Hj. destruct (H1 j cap) as (? & ? & ? & _); [by eapply lookup_lt_Some|done|].
      done.
    + intros j n (cap & Hj & ->)%nonces_lookup.
      destruct (H1 j cap) as (_ & _ & _ & ?); [by eapply lookup_lt_Some|done|]. done.
  - intros (-> & H1 & H2). rewrite lookup_ge_None_2 by lia. split; [|done].
    intros j cap _ Hj. destruct (H1 j cap Hj) as (? & ? & ?). split_and!; try done.
    apply H2. apply nonces_lookup. eauto.
Qed.

(** A refused list has no verdict [Ok]. *)
Lemma caps_verdict_det w tick caps k r k' :
  caps_verdict w tick caps k r -> caps_verdict w tick caps k' (Ok tt) -> r = Ok tt.
Proof.
  intros [H1 H2] (-> & H1' & Hnd)%caps_verdict_ok. destruct (caps !! k) as [cap|] eqn:Ek.
  - destruct H2 as (e & -> & Hr). destruct (H1' k cap Ek) as (Hrv & Ha & Hc).
    exfalso. destruct Hr as [[_ ?]|[_ [[_ ?]|(_ & _ & [?|Hin])]]]; try congruence.
    rewrite nodup_prefixes in Hnd. apply (Hnd k (elems (cap_Nonce cap))); [|done].
    apply nonces_lookup. eauto.
  - by destruct H2 as [-> _].
Qed.

Lemma verify_attestation_accepts b env w :
  length (br_signerPub b) = PublicKeySize ->
  (run (VerifyAttestation b env) w).1 = Ok tt <-> signature_valid b env /\ usable w env.
Proof.
  intros Hpub. pose proof (verify_attestation_run b env w Hpub) as H.
  destruct (run _ w) as [r w']. destruct H as (k & Hv & _). unfold attestation_verdict in Hv.
  unfold signature_valid. destruct (envelopeBody env) as [body|e] eqn:Eb.
  2:{ split; [|intros [(? & ? & _) _]; congruence]. destruct Hv as [_ ->]. done. }
  destruct (Verify _ _ _) as [[]|e] eqn:Ev.
  2:{ split; [|intros [(? & ? & ?) _]; congruence]. destruct Hv as [_ ->]. done. }
  destruct (revoked _ _) eqn:Er.
  { split; [|intros [_ []]; congruence]. destruct Hv as [_ ->]. done. }
  destruct (After _ _) eqn:Ea.
  { split; [|intros [_ []]; congruence]. destruct Hv as [_ ->]. done. }
  cbn [fst]. split.
  - intros ->. apply caps_verdict_ok in Hv as (_ & H1 & H2). split; [eauto|by split].
  - intros [_ [_ _ Hc Hd]]. eapply caps_verdict_det; [done|]. by apply caps_verdict_ok.
Qed.
End verify.

(** ** Issuing *)

Section issue.
Context {ED : Ed25519} {S : Type} {EN : Env} {ST : Store S}.
Implicit Types (w : World S) (b : Broker).

(** [IssueAttestation] returns the envelope it describes, signed, when the
    times have a wire form. *)
Lemma IssueAttestation_run `{!Ed25519Laws} b sigilID caps expiresAt w :
  key_pair (br_signerPub b) (br_signerPriv b) ->
  Forall cap_wire (elems caps) -> wire_time (UTC (clock (w_clock w))) -> wire_time expiresAt ->
  exists sig w', run (IssueAttestation b sigilID caps expiresAt) w =
    (Ok (mkEnvelope Version sigilID caps IssuerName (UTC (clock (w_clock w))) expiresAt (Some sig)),
     w') /\
    signature_valid b
      (mkEnvelope Version sigilID caps IssuerName (UTC (clock (w_clock w))) expiresAt (Some sig)).
Proof.
  intros Hk Hcaps Ht Hx. unfold IssueAttestation. rewrite run_bind. cbn [now perform run handle].
  set (t := UTC _) in *. set (env := mkEnvelope _ _ _ _ _ _ None).
  destruct (envelopeBody_total env) as [body Hb]; [done..|]. rewrite run_try_with. cbn [run].
  rewrite Hb. destruct (Sign_total body _ _ Hk) as (sig & Hs & _).
  rewrite run_try_with. cbn [run]. rewrite Hs. eexists sig, _. split; [done|].
  exists body. split; [by rewrite <-Hb; apply envelopeBody_same_content|].
  by eapply Verify_Sign.
Qed.
End issue.
