(* ===== verification/Concurrency.v ===== *)
(** The broker under concurrent requests (broker/broker.go, the "safe for
    concurrent callers" contract of [TryRecordNonce] and the revocation
    contract in the package comment).

    Requests run as the threads of a pool; a step is one atomic operation of
    one thread ([pool_step]).  Facts about all interleavings rest on
    obligations of the remaining program of a thread ([oblige]): it cannot
    succeed without an operation that wins a nonce, that sees an id not
    revoked, or that revokes an id. *)

From S2P Require Import Prelude GoBytes GoTime Protocol Json Canonical Observability Store.
From S2P Require Import Effects Crypto Envelope Broker.

Inductive request : Type :=
| RVerify (env : AttestationEnvelope)
| RIssueSigil (subject : string) (pubKey : slice ascii) (expiresAt : option Time)
    (meta : option (gmap string string))
| RIssueCap (sigilID scope : string) (expiresAt : Time)
| RIssueAttestation (sigilID : string) (caps : slice CapabilityToken) (expiresAt : Time)
| RRevokeSigil (sigilID reason revokedBy : string)
| RRevokeCap (capID reason revokedBy : string).

(** Only whether the call succeeded. *)
Definition outcome {A} (p : proc (res A)) : proc (res unit) :=
  r ← p; Ret (match r with Ok _ => Ok tt | Err e => Err e end).

Definition start `{!Ed25519} (b : Broker) (r : request) : proc (res unit) :=
  match r with
  | RVerify env => VerifyAttestation b env
  | RIssueSigil s k e m => outcome (IssueSigil b s k e m)
  | RIssueCap s sc e => outcome (IssueCap b s sc e)
  | RIssueAttestation s cs e => outcome (IssueAttestation b s cs e)
  | RRevokeSigil i r by_ => RevokeSigil b i r by_
  | RRevokeCap i r by_ => RevokeCap b i r by_
  end.

(** The envelope carries a capability with nonce [n]. *)
Definition uses_nonce (env : AttestationEnvelope) (n : bytes) : Prop :=
  exists cap, cap ∈ elems (env_Caps env) /\ elems (cap_Nonce cap) = n.
(** The envelope depends on the sigil or capability [id]. *)
Definition uses_id (env : AttestationEnvelope) (id : string) : Prop :=
  env_SigilID env = id \/ exists cap, cap ∈ elems (env_Caps env) /\ cap_ID cap = id.

(** ** Obligations of a remaining program *)

(** [oblige q p]: along every path of [p] that ends in success some operation
    satisfies the condition [q], whatever the results of the others are. *)
Definition condition : Type := forall X, op X -> X -> Prop.
Fixpoint oblige (q : condition) (p : proc (res unit)) : Prop :=
  match p with
  | Ret (Ok _) => False
  | Ret (Err _) => True
  | Atomic o k => forall x, q _ o x \/ oblige q (k x)
  end.

Definition wins (n : bytes) : condition := fun X o =>
  match o in op X return X -> Prop with
  | OTryRecordNonce m => fun ok => ok = true /\ elems m = n
  | _ => fun _ => False
  end.
Definition sees_clear (id : string) : condition := fun X o =>
  match o in op X return X -> Prop with
  | OIsRevoked i => fun r => r = false /\ i = id
  | _ => fun _ => False
  end.
Definition revokes (id : string) : condition := fun X o =>
  match o in op X return X -> Prop with
  | ORevoke e => fun r => is_ok r = true /\ rev_ID e = id
  | _ => fun _ => False
  end.

Lemma oblige_bind q (p : proc (res unit)) (f : res unit -> proc (res unit)) :
  oblige q p -> (forall e, oblige q (f (Err e))) -> oblige q (p ≫= f).
Proof.
  intros Hp Hf. unfold mbind, proc_bind. induction p as [[a|e]|X o k IH]; simpl in *; [done..|].
  intros x. destruct (Hp x) as [?|Hk]; auto.
Qed.

(** The condition may also be met after a prefix. *)
Lemma oblige_after {A} q (p : proc A) (f : A -> proc (res unit)) :
  (forall a, oblige q (f a)) -> oblige q (p ≫= f).
Proof.
  intros Hf. unfold mbind, proc_bind. induction p as [a|X o k IH]; simpl; [done|].
  intros x. right. apply IH.
Qed.

Lemma oblige_try_with {A} q f (c : proc (res A)) (k : A -> proc (res unit)) :
  (forall a, oblige q (k a)) -> oblige q (try_with f c k).
Proof. intros Hk. unfold try_with. apply oblige_after. by intros [a|e]. Qed.

Lemma verify_caps_wins cap caps :
  cap ∈ caps -> oblige (wins (elems (cap_Nonce cap))) (verify_caps caps).
Proof.
  induction caps as [|c caps IH]; [by intros ?%elem_of_nil|].
  intros Hc x. right. destruct x; [intros ?; by right|].
  intros t. right. simpl. destruct (After _ _); [done|].
  intros [].
  - apply elem_of_cons in Hc as [->|Hc]; [by left|]. right. auto.
  - right. done.
Qed.

Lemma verify_caps_sees cap caps :
  cap ∈ caps -> oblige (sees_clear (cap_ID cap)) (verify_caps caps).
Proof.
  induction caps as [|c caps IH]; [by intros ?%elem_of_nil|].
  intros Hc []; [right; intros ?; by right|].
  apply elem_of_cons in Hc as [->|Hc]; [by left|]. right.
  intros t. right. simpl. destruct (After _ _); [done|]. intros []; right; [auto|done].
Qed.

Section obligations.
Context {ED : Ed25519}.
Implicit Types b : Broker.

(** A verification cannot succeed without winning each of its nonces. *)
Lemma VerifyAttestation_wins b env n :
  uses_nonce env n -> oblige (wins n) (VerifyAttestation b env).
Proof.
  intros (cap & Hc & <-). do 2 (apply oblige_try_with; intros ?).
  apply oblige_after. intros []; [intros ?; by right|].
  apply oblige_after. intros t. simpl. destruct (After _ _); [done|].
  apply oblige_bind; [by apply verify_caps_wins|done].
Qed.

(** Nor without finding its sigil and its capabilities not revoked. *)
Lemma VerifyAttestation_sees b env id :
  uses_id env id -> oblige (sees_clear id) (VerifyAttestation b env).
Proof.
  intros Hid. do 2 (apply oblige_try_with; intros ?).
  intros []; [right; intros ?; by right|].
  destruct Hid as [<-|(cap & Hc & <-)]; [by left|]. right.
  intros t. right. simpl. destruct (After _ _); [done|].
  apply oblige_bind; [by apply verify_caps_sees|done].
Qed.

Lemma RevokeSigil_revokes b id reason by_ : oblige (revokes id) (RevokeSigil b id reason by_).
Proof. intros t. right. intros [[]|e]; [by left|by right]. Qed.

Lemma RevokeCap_revokes b id reason by_ : oblige (revokes id) (RevokeCap b id reason by_).
Proof. intros t. right. intros [[]|e]; [by left|by right]. Qed.
End obligations.

(** ** Interleavings *)

Section pool.
Context {ED : Ed25519} {S : Type} {EN : Env} {ST : Store S}.
Implicit Types (w : World S) (ps : list (proc (res unit))) (b : Broker).

(** A thread keeps its obligation, or meets it in this step. *)
Lemma pool_step_oblige q ps w ps' w' i p :
  pool_step (ps, w) (ps', w') -> ps !! i = Some p -> oblige q p ->
  exists p', ps' !! i = Some p' /\
    (oblige q p' \/
     exists X (o : op X) k, p = Atomic o k /\ q X o (handle o w).1 /\ w' = (handle o w).2).
Proof.
  intros Hs Hi Hq. inversion Hs as [j ? ? X o k Hj]; subst.
  destruct (decide (i = j)) as [->|Hne].
  - rewrite Hi in Hj. injection Hj as ->. exists (k (handle o w).1). split.
    + apply list_lookup_insert_eq. by eapply lookup_lt_Some.
    + destruct (Hq (handle o w).1) as [?|?]; [right|by left]. eauto 10.
  - exists p. rewrite list_lookup_insert_ne by done. auto.
Qed.

(** Only the thread that steps changes. *)
Lemma pool_step_others ps w ps' w' :
  pool_step (ps, w) (ps', w') ->
  exists j, (exists X (o : op X) k, ps !! j = Some (Atomic o k) /\ w' = (handle o w).2 /\
              ps' !! j = Some (k (handle o w).1)) /\
    forall i, i <> j -> ps' !! i = ps !! i.
Proof.
  intros Hs. inversion Hs as [j ? ? X o k Hj]; subst. exists j. split.
  - exists X, o, k. rewrite list_lookup_insert_eq by (by eapply lookup_lt_Some). done.
  - intros i Hi. by rewrite list_lookup_insert_ne.
Qed.

(** A thread that has finished stays finished. *)
Lemma pool_finished ps w ps' w' i r :
  rtc pool_step (ps, w) (ps', w') -> ps !! i = Some (Ret r) -> ps' !! i = Some (Ret r).
Proof.
  intros H. remember (ps, w) as c. remember (ps', w') as c'. revert ps w Heqc.
  induction H as [c|c1 [ps1 w1] c2 Hs H IH]; intros ps w ->.
  - by injection Heqc' as -> ->.
  - intros Hi. apply (IH Heqc' ps1 w1 eq_refl).
    apply pool_step_others in Hs as (j & (X & o & k & Hj & _) & Ho).
    rewrite Ho; [done|]. intros ->. congruence.
Qed.

Section nonces.
Context {SF : StoreSafe S}.

Lemma wins_effect n X (o : op X) w :
  wins n X o (handle o w).1 ->
  ~ consumed (w_store w) (Some n) /\ consumed (w_store (handle o w).2) (Some n).
Proof.
  intros Hw. destruct o; try done. cbn [handle] in *.
  rewrite on_store_result in Hw. rewrite on_store_state. destruct Hw as [Ht <-].
  destruct (TryRecordNonce_won _ _ Ht) as [H1 H2]. split; [|exact H2].
  intros H. by apply H1, consumed_bytes.
Qed.

(** At most one of the threads obliged to win [n] has met its obligation,
    none while the nonce is not consumed. *)
Definition nonce_inv (n : bytes) (threads : gset nat) (c : pool (S:=S) (res unit)) : Prop :=
  exists winner : option nat,
    (forall i p, i ∈ threads -> winner <> Some i -> c.1 !! i = Some p -> oblige (wins n) p) /\
    (is_Some winner -> consumed (w_store c.2) (Some n)).

Lemma nonce_inv_step n threads c c' :
  nonce_inv n threads c -> pool_step c c' -> nonce_inv n threads c'.
Proof.
  destruct c as [ps w], c' as [ps' w']. intros (winner & Ho & Hc) Hs. simpl in *.
  pose proof (pool_step_preserves (fun s => consumed s (Some n))
    (fun s s' => consumed_mono s s' (Some n)) _ _ Hs) as Hmono. simpl in Hmono.
  apply pool_step_others in Hs as (j & (X & o & k & Hj & -> & Hj') & Hoth).
  assert (forall i p, i <> j -> ps' !! i = Some p -> i ∈ threads -> winner <> Some i ->
    oblige (wins n) p) as Hothers.
  { intros i p Hne Hp Hi Hw. apply (Ho i p Hi Hw). by rewrite <-Hoth. }
  destruct (decide (j ∈ threads /\ winner <> Some j)) as [[Hjt Hjw]|Hj0].
  - destruct (Ho j _ Hjt Hjw Hj (handle o w).1) as [Hwin|Hob].
    + destruct (wins_effect _ _ _ _ Hwin) as [Hfresh Hcons].
      assert (winner = None) as -> by (destruct winner; [destruct Hfresh; eauto|done]).
      exists (Some j). split; [|done]. intros i p Hi Hij Hp. apply (Hothers i p); [congruence|done..].
    + exists winner. split; [|auto]. intros i p Hi Hij Hp.
      destruct (decide (i = j)) as [->|Hne]; [|by eapply Hothers].
      cbn [fst] in Hp. rewrite Hj' in Hp. by injection Hp as <-.
  - exists winner. split; [|auto]. intros i p Hi Hij Hp.
    destruct (decide (i = j)) as [->|Hne]; [by destruct Hj0|by eapply Hothers].
Qed.

Lemma nonce_inv_rtc n threads c c' :
  nonce_inv n threads c -> rtc pool_step c c' -> nonce_inv n threads c'.
Proof. intros Hi H. induction H; eauto using nonce_inv_step. Qed.

(** Threads that start obliged to win [n]. *)
Lemma nonce_inv_start n threads ps w :
  (forall i p, i ∈ threads -> ps !! i = Some p -> oblige (wins n) p) ->
  nonce_inv n threads (ps, w).
Proof. intros H. exists None. split; [eauto|by intros [? ?]]. Qed.

(** Of two different threads obliged to win [n], one does not succeed. *)
Lemma two_winners n ps0 w0 ps w i j pi pj :
  rtc pool_step (ps0, w0) (ps, w) -> i <> j ->
  ps0 !! i = Some pi -> oblige (wins n) pi -> ps0 !! j = Some pj -> oblige (wins n) pj ->
  ps !! i = Some (Ret (Ok tt)) -> ps !! j = Some (Ret (Ok tt)) -> False.
Proof.
  intros H Hij Hi0 Hi Hj0 Hj Hri Hrj.
  assert (nonce_inv n {[i; j]} (ps, w)) as (winner & Ho & _).
  { eapply nonce_inv_rtc; [|done]. apply nonce_inv_start. intros x p Hx Hp.
    assert (x = i \/ x = j) as [->| ->] by set_solver; congruence. }
  destruct (decide (winner = Some i)) as [->|Hw].
  - apply (Ho j (Ret (Ok tt))); [set_solver|congruence|done].
  - apply (Ho i (Ret (Ok tt))); [set_solver|done|done].
Qed.

(** A thread obliged to win a nonce that is already consumed never does. *)
Lemma consumed_never_won n ps0 w0 ps w i p p0 :
  consumed (w_store w0) (Some n) -> rtc pool_step (ps0, w0) (ps, w) ->
  ps0 !! i = Some p0 -> oblige (wins n) p0 -> ps !! i = Some p -> oblige (wins n) p.
Proof.
  intros Hc H. remember (ps0, w0) as c0. remember (ps, w) as c1. revert ps0 w0 p0 Hc Heqc0.
  induction H as [c|c [ps2 w2] c' Hs H IH]; intros ps0 w0 p0 Hc -> Hi0 Hob Hi.
  - injection Heqc1 as -> ->. congruence.
  - pose proof (pool_step_preserves (fun s => consumed s (Some n))
      (fun s s' => consumed_mono s s' (Some n)) _ _ Hs Hc) as Hc2. simpl in Hc2.
    destruct (pool_step_oblige _ _ _ _ _ _ _ Hs Hi0 Hob) as (p2 & Hi2 & [Hob2|Hwon]).
    + eapply IH; eauto.
    + destruct Hwon as (X & o & k & _ & Hw & _).
      by destruct (wins_effect _ _ _ _ Hw) as [? _].
Qed.
End nonces.

Section revocation.
Context {SF : StoreSafe S} {SE : StoreExact S}.

Lemma sees_effect id X (o : op X) w :
  sees_clear id X o (handle o w).1 -> revoked (w_store w) id = false.
Proof.
  intros H. destruct o; try done. cbn [handle] in H. rewrite on_store_result in H.
  destruct (IsRevoked_exact id0 (w_store w)) as [E _]. rewrite E in H. by destruct H as [? <-].
Qed.

Lemma revokes_effect id X (o : op X) w :
  revokes id X o (handle o w).1 -> revoked (w_store (handle o w).2) id = true.
Proof.
  intros H. destruct o; try done. cbn [handle] in *. rewrite on_store_result in H.
  rewrite on_store_state. destruct H as [Hok <-].
  destruct (Revoke e (w_store w)).1 as [[]|] eqn:E; [|done].
  by apply Revoke_revokes.
Qed.

(** A thread obliged to see [id] clear keeps the obligation for ever once the
    id is revoked. *)
Lemma revoked_never_clear id ps0 w0 ps w i p p0 :
  revoked (w_store w0) id = true -> rtc pool_step (ps0, w0) (ps, w) ->
  ps0 !! i = Some p0 -> oblige (sees_clear id) p0 -> ps !! i = Some p ->
  oblige (sees_clear id) p.
Proof.
  intros Hc H. remember (ps0, w0) as c0. remember (ps, w) as c1. revert ps0 w0 p0 Hc Heqc0.
  induction H as [c|c [ps2 w2] c' Hs H IH]; intros ps0 w0 p0 Hc -> Hi0 Hob Hi.
  - injection Heqc1 as -> ->. congruence.
  - pose proof (pool_step_preserves (fun s => revoked s id = true)
      (fun s s' => revoked_mono s s' id) _ _ Hs Hc) as Hc2. simpl in Hc2.
    destruct (pool_step_oblige _ _ _ _ _ _ _ Hs Hi0 Hob) as (p2 & Hi2 & [Hob2|Hwon]).
    + eapply IH; eauto.
    + destruct Hwon as (X & o & k & _ & Hw & _). apply sees_effect in Hw. congruence.
Qed.

(** When a thread obliged to revoke [id] has succeeded, [id] is revoked. *)
Lemma revoked_after id ps0 w0 ps w j p0 :
  rtc pool_step (ps0, w0) (ps, w) -> ps0 !! j = Some p0 -> oblige (revokes id) p0 ->
  ps !! j = Some (Ret (Ok tt)) -> revoked (w_store w) id = true.
Proof.
  intros H. remember (ps0, w0) as c0. remember (ps, w) as c1. revert ps0 w0 p0 Heqc0.
  induction H as [c|c [ps2 w2] c' Hs H IH]; intros ps0 w0 p0 -> Hi0 Hob Hi.
  - injection Heqc1 as -> ->. rewrite Hi0 in Hi. injection Hi as ->. done.
  - destruct (pool_step_oblige _ _ _ _ _ _ _ Hs Hi0 Hob) as (p2 & Hi2 & [Hob2|Hwon]).
    + eapply IH; eauto.
    + destruct Hwon as (X & o & k & _ & Hr & Hw2). apply revokes_effect in Hr.
      rewrite <-Hw2 in Hr. subst c'.
      assert (forall c c' : pool (S:=S) (res unit), rtc pool_step c c' -> revoked (w_store c.2) id = true ->
        revoked (w_store c'.2) id = true) as Hmono.
      { induction 1 as [|x y z Hxy _ IHr]; [done|]. intros Hx. apply IHr.
        by apply (pool_step_preserves (fun s => revoked s id = true)
          (fun s s' => revoked_mono s s' id) _ _ Hxy). }
      by apply (Hmono (ps2, w2) (ps, w)).
Qed.
End revocation.

(** ** Termination *)

(** The same steps without the world: any result may come back. *)
Definition child (p : proc (res unit)) : proc (res unit) -> Prop :=
  match p with Ret _ => fun _ => False | Atomic o k => fun q => exists x, q = k x end.
Inductive progress : list (proc (res unit)) -> list (proc (res unit)) -> Prop :=
| progress_head p q ps : child p q -> progress (p :: ps) (q :: ps)
| progress_tail p ps ps' : progress ps ps' -> progress (p :: ps) (p :: ps').

Lemma pool_step_progress c c' : pool_step c c' -> progress c.1 c'.1.
Proof.
  intros [i ps w X o k Hi]. simpl. revert i Hi.
  induction ps as [|p ps IH]; intros [|i]; simpl; try done.
  - intros [= ->]. constructor. simpl. eauto.
  - intros Hi. constructor. by apply IH.
Qed.

Lemma progress_cons_wf p ps : Acc (flip progress) ps -> Acc (flip progress) (p :: ps).
Proof.
  revert ps. induction p as [r|X o k IHp]; intros ps Hps; induction Hps as [ps Hps IH];
    constructor; intros ps' Hs; inversion Hs as [? q ? Hc|? ? ps2 Hs2]; subst;
    try (by apply IH).
  - done.
  - destruct Hc as [x ->]. by apply IHp; constructor.
Qed.

(** Every interleaving of every set of programs ends. *)
Lemma pool_terminates ps w : Acc (flip pool_step) (ps, w).
Proof.
  assert (Acc (flip progress) ps) as H.
  { induction ps as [|p ps IH]; [|by apply progress_cons_wf].
    constructor. intros ps' Hs. inversion Hs. }
  revert w. induction H as [ps _ IH]. intros w. constructor. intros [ps' w'] Hs.
  apply IH. apply (pool_step_progress _ _ Hs).
Qed.
End pool.
