(* ===== verification/Fixtures.v ===== *)
(** Concrete surroundings in which the definitions are evaluated: a clock
    that advances one second per reading, numbered UUIDs, a fixed random
    source, the toy signature scheme, and a small issued envelope. *)

From stdpp Require Import pretty.
From S2P Require Import Prelude GoBytes GoTime Protocol Json Canonical Sha256 Observability Store.
From S2P Require Import Effects Crypto Envelope MemStore Broker.

Export ToyScheme.

#[export] Instance demo_env : Env := {
  clock n := mkTime ((1780000000 + Z.of_nat n) * Second) 0;
  uuid_supply n := "00000000-0000-4000-8000-00000000000" +:+ pretty n;
  entropy n k := Ok (replicate k (byte_of (Z.of_nat n)))
}.

(** Maps are visited in the order of [map_to_list]. *)
#[export] Instance demo_range : MapRange := {
  map_range V _ m := map_to_list m;
  map_range_perm V _ m := reflexivity _ }.

Definition demo_seed : bytes := replicate 32 "s"%char.
Definition demo_priv : bytes := ed_new_key demo_seed.
Definition demo_pub : bytes := ed_public demo_priv.
Definition demo_broker : Broker := WithPublisher (New demo_pub demo_priv) "shi-qa".

Lemma demo_keys : key_pair demo_pub demo_priv.
Proof. by exists demo_seed. Qed.

(** Valid for an hour after the fixture clock starts. *)
Definition demo_expiry : Time := mkTime (1780003600 * Second) 0.
Definition demo_cap (id : string) (n : ascii) : CapabilityToken :=
  mkCap id "sigil-1" "shi-secrets:read" (clock 0) demo_expiry (Some (replicate 16 n)).
Definition demo_caps : slice CapabilityToken :=
  Some [demo_cap "cap-1" "a"; demo_cap "cap-2" "b"].

Definition demo_world : World MemStore := init_world NewMemStore.

(** The envelope the broker issues for [demo_caps]. *)
Definition demo_unsigned : AttestationEnvelope :=
  mkEnvelope Version "sigil-1" demo_caps IssuerName (UTC (clock 0)) demo_expiry None.
Definition demo_env_signed : AttestationEnvelope :=
  match (run (IssueAttestation demo_broker "sigil-1" demo_caps demo_expiry) demo_world).1 with
  | Ok e => e
  | Err _ => demo_unsigned
  end.

Lemma demo_times : wire_time (UTC (clock 0)) /\ wire_time demo_expiry.
Proof. by vm_compute. Qed.

Lemma demo_cap_wf id n : valid_utf8 id = true -> cap_wf (demo_cap id n).
Proof.
  intros H. split_and!; [exact H|vm_compute; reflexivity..| |];
    (split; [vm_compute; reflexivity|vm_compute; reflexivity]).
Qed.

Lemma demo_caps_wire : Forall cap_wire (elems demo_caps).
Proof.
  assert (forall id n, cap_wire (demo_cap id n)) as H.
  { intros id n. split; [exact (proj1 demo_times)|exact (proj2 demo_times)]. }
  apply Forall_cons_2; [apply H|]. apply Forall_cons_2; [apply H|]. apply Forall_nil_2.
Qed.

(** The fixture with any signature is well formed. *)
Lemma demo_content_wf sig :
  env_wf (mkEnvelope Version "sigil-1" demo_caps IssuerName (UTC (clock 0)) demo_expiry sig).
Proof.
  split_and!; [vm_compute; reflexivity..| | |].
  - split; vm_compute; reflexivity.
  - split; vm_compute; reflexivity.
  - apply Forall_cons_2; [apply demo_cap_wf; vm_compute; reflexivity|].
    apply Forall_cons_2; [apply demo_cap_wf; vm_compute; reflexivity|]. apply Forall_nil_2.
Qed.

Lemma demo_unsigned_wf : env_wf demo_unsigned.
Proof. apply demo_content_wf. Qed.

Lemma demo_env_signed_eq :
  demo_env_signed = mkEnvelope Version "sigil-1" demo_caps IssuerName (UTC (clock 0)) demo_expiry
                      (env_Signature demo_env_signed).
Proof. vm_compute. reflexivity. Qed.

Lemma demo_signed_wf : env_wf demo_env_signed.
Proof. rewrite demo_env_signed_eq. apply demo_content_wf. Qed.

Example demo_issue_verify :
  (run (VerifyAttestation demo_broker demo_env_signed) demo_world).1 = Ok tt.
Proof. vm_compute. reflexivity. Qed.
