(* ===== verification/BrokerTheorems.v ===== *)
(** The broker's guarantees: issuing and verifying alone, and under every
    interleaving of concurrent requests. *)

From S2P Require Import Prelude GoBytes GoTime Protocol Json Canonical Sha256 Observability Store.
From S2P Require Import Effects Crypto Envelope MemStore Broker BrokerProofs Concurrency Fixtures.

(** ** What a signature covers *)

(** C3: two well-formed envelopes have the same signed bytes exactly when they
    agree on every field but the signature: the canonical JSON body that
    [IssueAttestation] signs and [VerifyAttestation] checks determines the
    version, sigil, capabilities (ids, scopes, times, nonces), issuer and
    times, and ignores the signature. *)
Theorem signature_covers_content e1 e2 bs :
  env_wf e1 -> env_wf e2 -> signed_bytes e1 = Ok bs ->
  signed_bytes e2 = Ok bs <-> same_content e1 e2.
Proof.
  intros W1 W2 H1. split; [by apply (signed_bytes_determine e1 e2 bs)|].
  intros Hs. rewrite <-H1. unfold signed_bytes. by rewrite (envelopeBody_same_content e1 e2 Hs).
Qed.

Lemma signature_covers_content_witness :
  exists bs, signed_bytes demo_env_signed = Ok bs /\ signed_bytes demo_unsigned = Ok bs.
Proof.
  destruct (signed_bytes demo_env_signed) as [bs|] eqn:E; [|vm_compute in E; discriminate E].
  exists bs. split; [reflexivity|].
  apply (signature_covers_content demo_env_signed demo_unsigned bs);
    [exact demo_signed_wf|exact demo_unsigned_wf|exact E|]. vm_compute. reflexivity.
Defined.

Section sequential.
Context {ED : Ed25519} {S : Type} {EN : Env} {ST : Store S} {SF : StoreSafe S} {SE : StoreExact S}.
Implicit Types (w : World S) (b : Broker).


(** C6: an envelope is accepted if and only if its signature verifies over
    its canonical body, its sigil and capabilities are not revoked, it and
    each capability are unexpired at the clock reading of their check, and
    its nonces are unconsumed and pairwise different. *)
Theorem verify_accepts_iff b env w :
  length (br_signerPub b) = PublicKeySize ->
  (run (VerifyAttestation b env) w).1 = Ok tt <-> signature_valid b env /\ usable w env.
Proof. apply verify_attestation_accepts. Qed.

(** C7: what the broker issues it accepts.  With a key pair and times that
    have a wire form, [IssueAttestation] succeeds, the envelope carries the
    given sigil, capabilities and expiry, and verifying it in any later
    state succeeds exactly when it is still usable there. *)
Theorem issue_then_verify `{!Ed25519Laws} b sigilID caps expiresAt w :
  key_pair (br_signerPub b) (br_signerPriv b) ->
  Forall cap_wire (elems caps) -> wire_time (UTC (clock (w_clock w))) -> wire_time expiresAt ->
  exists env w1, run (IssueAttestation b sigilID caps expiresAt) w = (Ok env, w1) /\
    env_SigilID env = sigilID /\ env_Caps env = caps /\ env_ExpiresAt env = expiresAt /\
    forall w2, (run (VerifyAttestation b env) w2).1 = Ok tt <-> usable w2 env.
Proof.
  intros Hk Hc Ht Hx. destruct (IssueAttestation_run b sigilID caps expiresAt w Hk Hc Ht Hx)
    as (sig & w1 & Hr & Hs).
  eexists _, w1. split_and!; [exact Hr|done..|]. intros w2.
  destruct (key_pair_lengths _ _ Hk) as [Hp _].
  rewrite verify_attestation_accepts by done. naive_solver.
Qed.

End sequential.


Lemma verify_accepts_iff_witness :
  signature_valid demo_broker demo_env_signed /\ usable demo_world demo_env_signed.
Proof.
  apply (verify_accepts_iff demo_broker demo_env_signed demo_world); [reflexivity|].
  vm_compute. reflexivity.
Defined.

Lemma issue_then_verify_witness :
  exists env w1,
    run (IssueAttestation demo_broker "sigil-1" demo_caps demo_expiry) demo_world = (Ok env, w1) /\
    env_SigilID env = "sigil-1" /\ env_Caps env = demo_caps /\ env_ExpiresAt env = demo_expiry /\
    forall w2 : World MemStore,
      (run (VerifyAttestation demo_broker env) w2).1 = Ok tt <-> usable w2 env.
Proof.
  apply (issue_then_verify demo_broker "sigil-1" demo_caps demo_expiry demo_world).
  - apply demo_keys.
  - apply demo_caps_wire.
  - apply demo_times.
  - apply demo_times.
Defined.


(** ** Concurrent requests *)

Section concurrent.
Context {ED : Ed25519} {S : Type} {EN : Env} {ST : Store S} {SF : StoreSafe S}.
Implicit Types (w : World S) (b : Broker).

(** C1: exactly-one-winner.  However any number of broker requests (verify,
    issue, revoke) are interleaved, over any store that meets the replay
    contract, two different verifications of envelopes that carry the same
    nonce never both succeed, and none succeeds if the nonce was already
    consumed when the requests arrived. *)
Theorem nonce_accepted_once b reqs w0 ps w i j ei ej n :
  rtc pool_step (start b <$> reqs, w0) (ps, w) ->
  reqs !! i = Some (RVerify ei) -> reqs !! j = Some (RVerify ej) ->
  uses_nonce ei n -> uses_nonce ej n -> ps !! i = Some (Ret (Ok tt)) ->
  ~ consumed (w_store w0) (Some n) /\ (i <> j -> ps !! j <> Some (Ret (Ok tt))).
Proof.
  intros H Hi Hj Ui Uj Ri.
  assert ((start b <$> reqs) !! i = Some (VerifyAttestation b ei)) as Si
    by (by rewrite list_lookup_fmap, Hi).
  assert ((start b <$> reqs) !! j = Some (VerifyAttestation b ej)) as Sj
    by (by rewrite list_lookup_fmap, Hj).
  split.
  - intros Hc. by apply (consumed_never_won n _ _ _ _ _ _ _ Hc H Si
      (VerifyAttestation_wins b ei n Ui) Ri).
  - intros Hne Rj. by apply (two_winners n _ _ _ _ i j _ _ H Hne Si
      (VerifyAttestation_wins b ei n Ui) Sj (VerifyAttestation_wins b ej n Uj)).
Qed.

End concurrent.

Section concurrent_revocation.
Context {ED : Ed25519} {S : Type} {EN : Env} {ST : Store S} {SF : StoreSafe S} {SE : StoreExact S}.
Implicit Types (w : World S) (b : Broker).

(** C8: revocation takes effect on the next verify call.  Once a
    [RevokeSigil] or [RevokeCap] request has returned success, a
    verification that had not started yet and whose envelope names that
    sigil, or carries that capability, never succeeds, whatever else runs. *)
Theorem revocation_takes_effect b reqs w0 ps1 w1 ps2 w2 i j env id r :
  (exists reason by_, r = RRevokeSigil id reason by_ \/ r = RRevokeCap id reason by_) ->
  reqs !! j = Some r -> rtc pool_step (start b <$> reqs, w0) (ps1, w1) ->
  ps1 !! j = Some (Ret (Ok tt)) ->
  uses_id env id -> ps1 !! i = Some (VerifyAttestation b env) ->
  rtc pool_step (ps1, w1) (ps2, w2) ->
  ps2 !! i <> Some (Ret (Ok tt)).
Proof.
  intros Hr Hj H1 Rj Uid Si H2 Ri.
  assert (oblige (revokes id) (start b r)) as Ho.
  { destruct Hr as (reason & by_ & [->| ->]);
      [apply RevokeSigil_revokes|apply RevokeCap_revokes]. }
  assert (revoked (w_store w1) id = true) as Hrev.
  { eapply (revoked_after id _ _ _ _ j); [exact H1| |exact Ho|exact Rj].
    by rewrite list_lookup_fmap, Hj. }
  apply (revoked_never_clear id _ _ _ _ _ _ _ Hrev H2 Si (VerifyAttestation_sees b env id Uid) Ri).
Qed.
End concurrent_revocation.

(** Two verifications of the same envelope racing each other, the first
    running first. *)
Definition demo_race : list request := [RVerify demo_env_signed; RVerify demo_env_signed].
Definition demo_race_threads : list (proc (res unit)) :=
  <[0%nat := Ret (Ok tt)]> (start demo_broker <$> demo_race).
Definition demo_race_world : World MemStore :=
  (run (VerifyAttestation demo_broker demo_env_signed) demo_world).2.

Lemma demo_race_runs :
  rtc pool_step (start demo_broker <$> demo_race, demo_world)
    (demo_race_threads, demo_race_world).
Proof.
  unfold demo_race_threads, demo_race_world. rewrite <-demo_issue_verify at 1.
  apply pool_run. by rewrite list_lookup_fmap.
Qed.

Lemma demo_uses_nonce : uses_nonce demo_env_signed (replicate 16 "a"%char).
Proof.
  exists (demo_cap "cap-1" "a"). rewrite demo_env_signed_eq. split; [by left|reflexivity].
Qed.

Lemma nonce_accepted_once_witness :
  ~ consumed (w_store demo_world) (Some (replicate 16 "a"%char)) /\
  (0%nat <> 1%nat -> demo_race_threads !! 1%nat <> Some (Ret (Ok tt))).
Proof.
  exact (nonce_accepted_once demo_broker demo_race demo_world demo_race_threads demo_race_world
    0 1 demo_env_signed demo_env_signed (replicate 16 "a"%char) demo_race_runs
    eq_refl eq_refl demo_uses_nonce demo_uses_nonce eq_refl).
Defined.

(** A revocation followed by a verification of an envelope of that sigil. *)
Definition demo_revoke : list request :=
  [RRevokeSigil "sigil-1" "leaked" "operator"; RVerify demo_env_signed].
Definition demo_revoke_mid : list (proc (res unit)) * World MemStore :=
  (<[0%nat := Ret (Ok tt)]> (start demo_broker <$> demo_revoke),
   (run (RevokeSigil demo_broker "sigil-1" "leaked" "operator") demo_world).2).

Lemma demo_revoke_runs :
  rtc pool_step (start demo_broker <$> demo_revoke, demo_world) demo_revoke_mid.
Proof.
  pose proof (pool_run (RevokeSigil demo_broker "sigil-1" "leaked" "operator") 0
    (start demo_broker <$> demo_revoke) demo_world eq_refl) as H. exact H.
Qed.

Lemma revocation_takes_effect_witness :
  rtc pool_step demo_revoke_mid
    (<[1%nat := Ret (Err (ErrVerify ErrSigilRevoked))]> demo_revoke_mid.1,
     (run (VerifyAttestation demo_broker demo_env_signed) demo_revoke_mid.2).2) /\
  (<[1%nat := Ret (Err (ErrVerify ErrSigilRevoked))]> demo_revoke_mid.1) !! 1%nat
    <> Some (Ret (Ok tt)).
Proof.
  assert (rtc pool_step demo_revoke_mid
    (<[1%nat := Ret (Err (ErrVerify ErrSigilRevoked))]> demo_revoke_mid.1,
     (run (VerifyAttestation demo_broker demo_env_signed) demo_revoke_mid.2).2)) as H.
  { assert ((run (VerifyAttestation demo_broker demo_env_signed) demo_revoke_mid.2).1 =
      Err (ErrVerify ErrSigilRevoked)) as E by (vm_compute; reflexivity).
    rewrite <-E. apply pool_run. reflexivity. }
  split; [exact H|].
  apply (revocation_takes_effect demo_broker demo_revoke demo_world demo_revoke_mid.1
    demo_revoke_mid.2 _ (run (VerifyAttestation demo_broker demo_env_signed) demo_revoke_mid.2).2
    1 0 demo_env_signed "sigil-1" (RRevokeSigil "sigil-1" "leaked" "operator")).
  - exists "leaked", "operator". by left.
  - reflexivity.
  - exact demo_revoke_runs.
  - reflexivity.
  - left. by rewrite demo_env_signed_eq.
  - reflexivity.
  - exact H.
Defined.
