(* ===== verification/ScopeRegistry.v ===== *)
(** The consumer-side scope allow-list (broker/scope_registry.go): an unknown
    scope is refused and audited, a nil registry knows nothing. *)

From S2P Require Import Prelude GoTime Protocol Json Canonical Observability Store Effects Crypto.
From S2P Require Import Envelope MemStore Broker Fixtures.

(** A [*ScopeRegistry]; [None] is the nil pointer. *)
Definition ScopeRegistry : Type := option (gset string).

Definition NewScopeRegistry (scopes : list string) : ScopeRegistry :=
  Some (foldl (fun known s => {[s]} ∪ known) ∅ scopes).

Definition Knows (r : ScopeRegistry) (scope : string) : bool :=
  match r with
  | None => false
  | Some known => bool_decide (scope ∈ known)
  end.

(** The order is unspecified in Go; here it is that of [elements]. *)
Definition Scopes (r : ScopeRegistry) : slice string :=
  match r with
  | None => None
  | Some known => Some (elements known)
  end.

(** The audit event of a rejection. *)
Definition scope_rejected (b : Broker) (corrID : string) (t : Time) (cap : CapabilityToken)
    (requestedAction : string) : effect :=
  EPublish (ScopeSubject (br_workspaceID b) ActionUnknownScopeRejected corrID)
    (PScopeRejected (mkScopeRejectedEvent (format_rfc3339nano (UTC t)) corrID (br_workspaceID b)
       ActionUnknownScopeRejected (cap_ID cap) (cap_SigilID cap) (cap_Scope cap)
       requestedAction "rejected")).

Definition emitUnknownScopeRejected (b : Broker) (cap : CapabilityToken)
    (requestedAction : string) : proc unit :=
  corrID ← new_uuid;
  t ← now;
  perform (OEmit (scope_rejected b corrID t cap requestedAction)).

Definition VerifyCapScopeWithRegistry (b : Broker) (cap : CapabilityToken)
    (requestedAction : string) (registry : ScopeRegistry) : proc (res unit) :=
  if negb (Knows registry (cap_Scope cap)) then
    _ ← emitUnknownScopeRejected b cap requestedAction;
    fail ErrScopeUnknown
  else if decide (cap_Scope cap <> requestedAction) then fail ErrScopeMismatch
  else Ret (Ok tt).

Lemma elem_of_foldl_known (scopes : list string) (known : gset string) x :
  x ∈ foldl (fun known s => {[s]} ∪ known) known scopes <-> x ∈ known \/ x ∈ scopes.
Proof.
  revert known. induction scopes as [|s l IH]; intros known; simpl; [set_solver|].
  rewrite IH. set_solver.
Qed.

Lemma Knows_NewScopeRegistry scopes x : Knows (NewScopeRegistry scopes) x = true <-> x ∈ scopes.
Proof. simpl. rewrite bool_decide_eq_true, elem_of_foldl_known. set_solver. Qed.

Section scope.
Context {S : Type} {EN : Env} {ST : Store S}.

(** C36: the NF-4 policy.  A request is authorized exactly when the
    capability's scope was registered and equals the requested action; an
    unregistered scope (any scope, for a nil registry) is refused with
    [ErrScopeUnknown] and exactly one audit event carrying the token, sigil,
    scope and action is emitted; a registered but different scope is refused
    with [ErrScopeMismatch] and nothing is emitted.  The store and the
    counters are never touched. *)
Theorem scope_policy b cap action (scopes : option (list string)) (w : World S) :
  let registry := scopes ≫= NewScopeRegistry in
  let '(r, w') := run (VerifyCapScopeWithRegistry b cap action registry) w in
  let known := cap_Scope cap ∈ default [] scopes in
  (r = Ok tt <-> known /\ cap_Scope cap = action) /\
  (r = Err (ErrVerify ErrScopeUnknown) <-> ~ known) /\
  (r = Err (ErrVerify ErrScopeMismatch) <-> known /\ cap_Scope cap <> action) /\
  w_store w' = w_store w /\ MetricsSnapshot w' = MetricsSnapshot w /\
  w_trace w' = w_trace w ++
    if decide (r = Err (ErrVerify ErrScopeUnknown))
    then [scope_rejected b (uuid_supply (w_uuid w)) (clock (w_clock w)) cap action] else [].
Proof.
  cbv zeta. unfold VerifyCapScopeWithRegistry.
  assert (Knows (scopes ≫= NewScopeRegistry) (cap_Scope cap) = true <->
          cap_Scope cap ∈ default [] scopes) as Hk.
  { destruct scopes as [l|]; [apply Knows_NewScopeRegistry|]. simpl. split; [done|set_solver]. }
  destruct (Knows _ _); cbn [negb].
  - assert (cap_Scope cap ∈ default [] scopes) as Hin by (by apply Hk). clear Hk.
    destruct (decide (cap_Scope cap = action)) as [E|E].
    + rewrite decide_False by (by intros ?). cbn [run w_trace].
      rewrite (decide_False (P := Ok () = _)), app_nil_r by done. naive_solver.
    + rewrite decide_True by done. cbn [run fail w_trace].
      rewrite (decide_False (P := Err _ = _)), app_nil_r by done. naive_solver.
  - assert (cap_Scope cap ∉ default [] scopes) as Hin by (intros H; by apply Hk in H). clear Hk.
    cbn. rewrite decide_True by done. naive_solver.
Qed.
End scope.

Example scope_demo :
  (run (VerifyCapScopeWithRegistry demo_broker (demo_cap "cap-1" "a") "shi-secrets:read"
          (NewScopeRegistry ["shi-secrets:read"])) demo_world).1 = Ok tt /\
  (run (VerifyCapScopeWithRegistry demo_broker (demo_cap "cap-1" "a") "shi-secrets:read"
          None) demo_world).1 = Err (ErrVerify ErrScopeUnknown).
Proof. split; vm_compute; reflexivity. Qed.
