(* ===== verification/BruteForce.v ===== *)
(** The sliding-window brute-force detector
    (internal/observability/brute_force.go).

    [recordFailureAt] holds the detector's mutex throughout, so a run is a
    sequence of calls.  The detector keeps, per client, exactly the failures
    of the last window ([window_contents]), and alerts once per bucket. *)

From stdpp Require Import pretty.
From S2P Require Import Prelude GoStrings GoTime Protocol Observability.
Local Open Scope Z_scope.

Definition DefaultBruteForceThreshold : Z := 10.
Definition DefaultBruteForceWindowSec : Z := 60.

Record BruteForceDetector := mkDetector {
  bfd_workspaceID : string;
  bfd_threshold : Z;
  bfd_windowSec : Z;
  bfd_failures : gmap string (list Time);
  bfd_alerted : gset string
}.

(** A positive integer in an environment variable, else the default. *)
Definition env_positive (v : string) (dflt : Z) : Z :=
  match Atoi v with
  | Some n => if 0 <? n then n else dflt
  | None => dflt
  end.

Definition NewBruteForceDetector (getenv : string -> string) (workspaceID : string) :
    BruteForceDetector :=
  mkDetector workspaceID
    (env_positive (getenv "SHIKKI_BRUTE_FORCE_THRESHOLD") DefaultBruteForceThreshold)
    (env_positive (getenv "SHIKKI_BRUTE_FORCE_WINDOW_SEC") DefaultBruteForceWindowSec)
    ∅ ∅.

(** [-time.Duration(d.windowSec) * time.Second] *)
Definition minus_window (windowSec : Z) : Z :=
  int64_wrap (int64_wrap (- windowSec) * Second).

(** The failures of one client after one more at [at_]. *)
Definition prune (windowSec : Z) (old : list Time) (at_ : Time) : list Time :=
  let cutoff := Add at_ (minus_window windowSec) in
  filter (fun t => Before t cutoff = false) old ++ [at_].

Definition bucketKey (clientID : string) (first : Time) (windowSec : Z) : string :=
  clientID +:+ "|" +:+ pretty (Z.quot (Unix first) windowSec).

(** One failure at an explicit time.  The event, if any, gets the
    correlation id [corrID]; it is published in a goroutine of its own. *)
Definition recordFailureAt (corrID clientID : string) (at_ : Time) (d : BruteForceDetector) :
    option event * BruteForceDetector :=
  let old := default [] (bfd_failures d !! clientID) in
  let fresh := prune (bfd_windowSec d) old at_ in
  let d1 := mkDetector (bfd_workspaceID d) (bfd_threshold d) (bfd_windowSec d)
              (<[clientID := fresh]> (bfd_failures d)) (bfd_alerted d) in
  if Z.of_nat (length fresh) <? bfd_threshold d then (None, d1) else
  let first := default at_ (head fresh) in
  let key := bucketKey clientID first (bfd_windowSec d) in
  if decide (key ∈ bfd_alerted d) then (None, d1) else
  (Some (SecuritySubject (bfd_workspaceID d) ActionBruteForceDetected corrID,
         PBruteForce (mkBruteForceEvent (format_rfc3339milli (UTC at_)) corrID
           (bfd_workspaceID d) clientID (Z.of_nat (length fresh)) (bfd_windowSec d) first at_)),
   mkDetector (bfd_workspaceID d1) (bfd_threshold d1) (bfd_windowSec d1) (bfd_failures d1)
     ({[key]} ∪ bfd_alerted d1)).

Definition RecordFailureAtForTest : string -> string -> Time -> BruteForceDetector ->
    option event * BruteForceDetector := recordFailureAt.

(** ** Runs *)

(** A call: the correlation id it would use, the client, the time. *)
Definition call : Type := string * string * Time.
(** The events of a sequence of calls, each with the call that caused it. *)
Fixpoint detect (calls : list call) (d : BruteForceDetector) :
    list (call * event) * BruteForceDetector :=
  match calls with
  | [] => ([], d)
  | c :: calls =>
      let '(e, d1) := recordFailureAt c.1.1 c.1.2 c.2 d in
      let '(es, d2) := detect calls d1 in
      (match e with Some e => (c, e) :: es | None => es end, d2)
  end.

(** The failure times of a client in a sequence of calls. *)
Definition times_of (clientID : string) (calls : list call) : list Time :=
  (fun c => c.2) <$> filter (fun c => c.1.2 = clientID) calls.

(** Time does not run backwards. *)
Definition chronological (l : list Time) : Prop := StronglySorted Z.le (t_ns <$> l).

(** The reference: the failures of [h] within the window that ends at [t]. *)
Definition in_window (windowSec : Z) (t u : Time) : Prop := t_ns t - windowSec * Second <= t_ns u.
#[export] Instance in_window_dec n t u : Decision (in_window n t u).
Proof. unfold in_window. apply _. Defined.
Definition last_window (windowSec : Z) (h : list Time) : list Time :=
  match last h with
  | None => []
  | Some t => filter (fun u => in_window windowSec t u) h
  end.

(** A window that fits an [int64] duration: about 292 years. *)
Definition window_ok (windowSec : Z) : Prop := 0 < windowSec /\ windowSec * Second <= int64_max.

Lemma minus_window_eq n : window_ok n -> minus_window n = - (n * Second).
Proof.
  intros [Hp Hm]. unfold minus_window. unfold Second in *.
  rewrite (int64_wrap_id (- n)) by (unfold is_int64, int64_min, int64_max in *; lia).
  rewrite int64_wrap_id by (unfold is_int64, int64_min, int64_max in *; lia). lia.
Qed.

Lemma prune_spec n old t :
  window_ok n ->
  prune n old t = filter (fun u => in_window n t u) (old ++ [t]).
Proof.
  intros Hw. unfold prune. rewrite filter_app. f_equal.
  - apply list_filter_iff. intros u. unfold Before, Add, in_window. simpl.
    rewrite minus_window_eq by done. rewrite Z.ltb_ge. lia.
  - rewrite filter_cons_True; [by rewrite filter_nil|]. unfold in_window.
    destruct Hw. unfold Second. lia.
Qed.

(** Pruning what was already pruned loses nothing while time advances. *)
Lemma filter_window_again n h t :
  (forall u, last h = Some u -> t_ns u <= t_ns t) ->
  filter (fun u => in_window n t u) (last_window n h) = filter (fun u => in_window n t u) h.
Proof.
  intros Hl. unfold last_window. destruct (last h) as [v|] eqn:E.
  - rewrite list_filter_filter. apply list_filter_iff. intros u. unfold in_window.
    specialize (Hl v eq_refl). lia.
  - apply last_None in E as ->. done.
Qed.

Lemma last_window_snoc n h t :
  window_ok n -> (forall u, last h = Some u -> t_ns u <= t_ns t) ->
  prune n (last_window n h) t = last_window n (h ++ [t]).
Proof.
  intros Hw Hl. rewrite prune_spec, filter_app, filter_window_again by done.
  unfold last_window. rewrite last_snoc. by rewrite filter_app.
Qed.

Lemma recordFailureAt_failures corrID c t d :
  bfd_failures (recordFailureAt corrID c t d).2 =
  <[c := prune (bfd_windowSec d) (default [] (bfd_failures d !! c)) t]> (bfd_failures d) /\
  bfd_windowSec (recordFailureAt corrID c t d).2 = bfd_windowSec d /\
  bfd_threshold (recordFailureAt corrID c t d).2 = bfd_threshold d.
Proof. unfold recordFailureAt. cbv zeta. by repeat case_match. Qed.

(** The detector's state after the calls [calls]. *)
Definition tracks (d : BruteForceDetector) (calls : list call) : Prop :=
  forall c, default [] (bfd_failures d !! c) = last_window (bfd_windowSec d) (times_of c calls).

Lemma times_of_snoc c calls x :
  times_of c (calls ++ [x]) =
  times_of c calls ++ (if decide (x.1.2 = c) then [x.2] else []).
Proof.
  unfold times_of. rewrite filter_app, fmap_app. f_equal.
  rewrite filter_cons. by destruct (decide _).
Qed.

Lemma chronological_snoc h t :
  chronological (h ++ [t]) -> forall u, last h = Some u -> t_ns u <= t_ns t.
Proof.
  intros Hs u Hl. apply last_Some in Hl as [l ->]. unfold chronological in Hs.
  rewrite <-app_assoc, fmap_app in Hs. apply StronglySorted_app in Hs as (_ & _ & Hs).
  simpl in Hs. apply StronglySorted_inv in Hs as [_ Hs]. by apply Forall_inv in Hs.
Qed.

Lemma chronological_app h k : chronological (h ++ k) -> chronological h.
Proof.
  unfold chronological. rewrite fmap_app. by intros (? & ? & ?)%StronglySorted_app.
Qed.

Lemma tracks_step d calls x :
  window_ok (bfd_windowSec d) -> tracks d calls ->
  (forall c, chronological (times_of c (calls ++ [x]))) ->
  tracks (recordFailureAt x.1.1 x.1.2 x.2 d).2 (calls ++ [x]).
Proof.
  intros Hw Ht Hc c. destruct (recordFailureAt_failures x.1.1 x.1.2 x.2 d) as (-> & -> & _).
  specialize (Hc c). rewrite times_of_snoc in *. destruct (decide (x.1.2 = c)) as [<-|Hne].
  - rewrite lookup_insert_eq. simpl. rewrite Ht. apply last_window_snoc; [done|].
    by apply chronological_snoc.
  - rewrite lookup_insert_ne by done. by rewrite app_nil_r, Ht.
Qed.

(** ** Alerts *)

Lemma pretty_N_go_lacks c x s :
  (forall y, pretty_N_char y <> c) -> lacks c s -> lacks c (pretty_N_go x s).
Proof.
  intros Hc. revert s. induction (N.lt_wf_0 x) as [x _ IH]; intros s Hs.
  destruct (decide (0 < x)%N) as [Hx|Hx].
  - rewrite pretty_N_go_step by done. apply IH; [by apply N.div_lt|].
    unfold lacks. change (to_bytes (String ?a s)) with (a :: to_bytes s).
    cbn. intros [E|E]%elem_of_cons; [by apply (Hc (x `mod` 10)%N)|done].
  - replace x with 0%N by lia. by rewrite pretty_N_go_0.
Qed.

Lemma pretty_Z_lacks (z : Z) : lacks "|" (pretty z).
Proof.
  assert (forall x : N, lacks "|" (pretty x)) as HN.
  { intros x. unfold pretty, pretty_N. case_decide; [vm_compute; set_solver|].
    apply pretty_N_go_lacks; [|vm_compute; set_solver]. intros y.
    unfold pretty_N_char. by repeat case_match. }
  destruct z as [|p|p]; [vm_compute; set_solver|apply (HN (Npos p))|].
  unfold lacks. change (pretty (Z.neg p)) with ("-" +:+ pretty (Npos p)).
  rewrite to_bytes_app, elem_of_app. intros [E|E]; [vm_compute in E; set_solver|].
  by apply (HN (Npos p)).
Qed.

(** The dedup key is unambiguous, whatever the client id contains. *)
Lemma bucketKey_inj c1 c2 f1 f2 n :
  bucketKey c1 f1 n = bucketKey c2 f2 n ->
  c1 = c2 /\ Z.quot (Unix f1) n = Z.quot (Unix f2) n.
Proof.
  unfold bucketKey. intros E. apply (f_equal (fun s => CutLast s "|")) in E.
  change ("|" +:+ ?s) with (String "|" s) in E.
  rewrite !CutLast_app in E by apply pretty_Z_lacks. injection E as -> E.
  split; [done|]. by apply (inj pretty) in E.
Qed.

(** The client and bucket of an alert. *)
Definition alert_bucket (e : event) : string * Z :=
  match e.2 with
  | PBruteForce b => (bf_ClientID b, Z.quot (Unix (bf_FirstSeen b)) (bf_WindowSeconds b))
  | _ => ("", 0)
  end.
Definition alert_key (e : event) : string :=
  match e.2 with
  | PBruteForce b => bucketKey (bf_ClientID b) (bf_FirstSeen b) (bf_WindowSeconds b)
  | _ => ""
  end.

(** One call alerts only for a key not alerted before, and records it. *)
Lemma recordFailureAt_alert corrID c t d e :
  (recordFailureAt corrID c t d).1 = Some e ->
  (alert_key e ∉ bfd_alerted d) /\
  bfd_alerted (recordFailureAt corrID c t d).2 = {[alert_key e]} ∪ bfd_alerted d /\
  exists b, e.2 = PBruteForce b /\ bf_WindowSeconds b = bfd_windowSec d /\ bf_ClientID b = c /\
    bf_LastSeen b = t /\ bfd_threshold d <= bf_AttemptCount b.
Proof.
  unfold recordFailureAt. cbv zeta. destruct (Z.ltb_spec (Z.of_nat (length
    (prune (bfd_windowSec d) (default [] (bfd_failures d !! c)) t))) (bfd_threshold d)); [done|].
  case_decide; [done|]. intros [= <-]. simpl. split_and!; eauto.
  eexists. split_and!; try done.
Qed.

Lemma recordFailureAt_quiet corrID c t d :
  (recordFailureAt corrID c t d).1 = None ->
  bfd_alerted (recordFailureAt corrID c t d).2 = bfd_alerted d.
Proof. unfold recordFailureAt. cbv zeta. by repeat case_match. Qed.

Lemma detect_cons x calls d :
  detect (x :: calls) d =
  (match (recordFailureAt x.1.1 x.1.2 x.2 d).1 with
   | Some e => (x, e) :: (detect calls (recordFailureAt x.1.1 x.1.2 x.2 d).2).1
   | None => (detect calls (recordFailureAt x.1.1 x.1.2 x.2 d).2).1
   end, (detect calls (recordFailureAt x.1.1 x.1.2 x.2 d).2).2).
Proof.
  simpl. destruct (recordFailureAt _ _ _ d) as [e d1]. simpl. by destruct (detect calls d1).
Qed.

Lemma detect_alerts calls d :
  NoDup (alert_key <$> (snd <$> (detect calls d).1)) /\
  Forall (fun e => (alert_key e ∉ bfd_alerted d) /\
                   exists b, e.2 = PBruteForce b /\ bf_WindowSeconds b = bfd_windowSec d)
    (snd <$> (detect calls d).1).
Proof.
  revert d. induction calls as [|x calls IH]; intros d; [split; constructor|].
  rewrite detect_cons. set (r := recordFailureAt x.1.1 x.1.2 x.2 d).
  destruct (IH r.2) as [Hnd Hall].
  destruct (recordFailureAt_failures x.1.1 x.1.2 x.2 d) as (_ & Hwin & _). fold r in Hwin.
  rewrite Hwin in Hall. destruct r.1 as [e|] eqn:E.
  - destruct (recordFailureAt_alert _ _ _ _ _ E) as (Hnew & Hal & b & Hb & Hw & _).
    fold r in Hal. rewrite Hal in Hall. simpl. split.
    + constructor; [|done]. rewrite list_elem_of_fmap. intros (e' & He' & Hin).
      rewrite Forall_forall in Hall. destruct (Hall e' Hin) as [Hni _]. set_solver.
    + constructor; [eauto|]. eapply Forall_impl; [exact Hall|]. simpl. set_solver.
  - pose proof (recordFailureAt_quiet _ _ _ _ E) as Hal. fold r in Hal.
    rewrite Hal in Hall. by split.
Qed.

(** One alert per client and bucket.  In any sequence of recorded
    failures, no two alerts are for the same client and the same bucket (the
    first failure's time divided by the window), whatever characters the
    client id contains. *)
Lemma brute_force_deduplicated calls d :
  NoDup (alert_bucket <$> (snd <$> (detect calls d).1)).
Proof.
  destruct (detect_alerts calls d) as [Hnd Hall].
  induction (snd <$> (detect calls d).1) as [|e es IH]; [constructor|].
  apply NoDup_cons in Hnd as [Hni Hnd]. apply Forall_cons in Hall as [(_ & b & He & Hw) Hall].
  rewrite fmap_cons. constructor; [|by apply IH]. rewrite list_elem_of_fmap.
  intros (e' & Heq & Hin). apply Hni. apply list_elem_of_fmap. exists e'. split; [|done].
  rewrite Forall_forall in Hall. destruct (Hall e' Hin) as (_ & b' & He' & Hw').
  unfold alert_bucket, alert_key in *. rewrite He, He' in *. injection Heq as -> Hq.
  unfold bucketKey. by rewrite Hq.
Qed.

Lemma detect_snoc calls x d :
  detect (calls ++ [x]) d =
  ((detect calls d).1 ++ match (recordFailureAt x.1.1 x.1.2 x.2 (detect calls d).2).1 with
                         | Some e => [(x, e)] | None => [] end,
   (recordFailureAt x.1.1 x.1.2 x.2 (detect calls d).2).2).
Proof.
  revert d. induction calls as [|y calls IH]; intros d.
  { change ([] ++ [x]) with [x]. rewrite detect_cons. simpl. by case_match. }
  rewrite <-app_comm_cons, !detect_cons, IH. simpl. by destruct (recordFailureAt _ _ _ d).1.
Qed.

Lemma detect_config calls d :
  bfd_windowSec (detect calls d).2 = bfd_windowSec d /\
  bfd_threshold (detect calls d).2 = bfd_threshold d.
Proof.
  revert d. induction calls as [|y calls IH]; intros d; [done|]. rewrite detect_cons. cbn [snd].
  destruct (IH (recordFailureAt y.1.1 y.1.2 y.2 d).2) as [-> ->].
  destruct (recordFailureAt_failures y.1.1 y.1.2 y.2 d) as (_ & -> & ->). done.
Qed.

Lemma detect_tracks calls d :
  window_ok (bfd_windowSec d) -> bfd_failures d = ∅ ->
  (forall c, chronological (times_of c calls)) -> tracks (detect calls d).2 calls.
Proof.
  intros Hw H0 Hc. induction calls as [|x calls IH] using rev_ind.
  - intros c. simpl. by rewrite H0.
  - rewrite detect_snoc. cbn [snd]. apply tracks_step.
    + by destruct (detect_config calls d) as [-> _].
    + apply IH. intros c. specialize (Hc c). rewrite times_of_snoc in Hc.
      by apply chronological_app in Hc.
    + done.
Qed.

(** C27: detection is exact.  On a fresh detector, after failures recorded in
    chronological order, one more failure of a client raises an alert if and
    only if the client's failures within the window that ends now reach the
    threshold and its bucket has not been alerted; the alert carries their
    number. *)
Theorem brute_force_exact calls corrID c t d :
  window_ok (bfd_windowSec d) -> bfd_failures d = ∅ ->
  (forall c', chronological (times_of c' (calls ++ [(corrID, c, t)]))) ->
  let recent := last_window (bfd_windowSec d) (times_of c calls ++ [t]) in
  let key := bucketKey c (default t (head recent)) (bfd_windowSec d) in
  let d1 := (detect calls d).2 in
  (is_Some (recordFailureAt corrID c t d1).1 <->
   bfd_threshold d <= Z.of_nat (length recent) /\ key ∉ bfd_alerted d1) /\
  forall e, (recordFailureAt corrID c t d1).1 = Some e ->
    exists b, e.2 = PBruteForce b /\ bf_ClientID b = c /\
              bf_AttemptCount b = Z.of_nat (length recent).
Proof.
  intros Hw H0 Hc. cbv zeta. set (d1 := (detect calls d).2).
  assert (tracks d1 calls) as Ht.
  { apply detect_tracks; [done..|]. intros c'. specialize (Hc c'). rewrite times_of_snoc in Hc.
    by apply chronological_app in Hc. }
  destruct (detect_config calls d) as [Ewin Eth]. fold d1 in Ewin, Eth.
  assert (prune (bfd_windowSec d1) (default [] (bfd_failures d1 !! c)) t =
          last_window (bfd_windowSec d) (times_of c calls ++ [t])) as Ep.
  { rewrite Ht, Ewin. apply last_window_snoc; [done|]. apply chronological_snoc.
    specialize (Hc c). rewrite times_of_snoc in Hc. simpl in Hc. by rewrite decide_True in Hc. }
  unfold recordFailureAt. cbv zeta. rewrite Ep, Ewin, Eth.
  destruct (Z.ltb_spec (Z.of_nat (length (last_window (bfd_windowSec d)
    (times_of c calls ++ [t])))) (bfd_threshold d)) as [Hlt|Hge]; simpl.
  { split; [|done]. split; [by intros [? ?]|lia]. }
  case_decide as Hin; simpl.
  - split; [|done]. split; [by intros [? ?]|naive_solver].
  - split; [split; [done|eauto]|]. intros e [= <-]. simpl. eauto.
Qed.

(** Nine failures a second apart, then a tenth. *)
Definition demo_detector : BruteForceDetector := NewBruteForceDetector (fun _ => "") "shi-qa".
Definition demo_failures : list call :=
  (fun i => ("corr", "client-1", mkTime (1780000000 * Second + Z.of_nat i * Second) 0)) <$> seq 0 9.

Lemma brute_force_exact_witness :
  is_Some (recordFailureAt "c10" "client-1" (mkTime (1780000009 * Second) 0)
             (detect demo_failures demo_detector).2).1.
Proof.
  apply (brute_force_exact demo_failures "c10" "client-1" (mkTime (1780000009 * Second) 0)
    demo_detector).
  - split; vm_compute; congruence.
  - reflexivity.
  - intros c. unfold times_of. destruct (decide (c = "client-1")) as [->|Hne].
    + vm_compute. repeat constructor; discriminate.
    + replace (filter _ _) with (@nil call); [constructor|]. symmetry.
      apply elem_of_nil_inv. intros x [Hc Hx]%list_elem_of_filter. apply Hne. rewrite <-Hc.
      clear Hc. vm_compute in Hx. set_unfold in Hx. naive_solver.
  - vm_compute. split; [discriminate|set_solver].
Defined.
