(* ===== verification/NatsPublisher.v ===== *)
(** The NATS publisher (internal/observability/nats_publisher.go): a bounded
    ring buffer between the request goroutines and the drain goroutine.

    The ring refines a bounded FIFO queue.  [sys_step] interleaves any number
    of [Publish] calls with the drain goroutine and with connection changes at
    the granularity of the code's critical sections, and [conserved] accounts
    for every event.  The NATS client is an outcome per call. *)

From S2P Require Import Prelude GoTime Protocol Observability.

Definition ringBufferSize : nat := 1024.
Definition publishDeadline : Z := (100 * Millisecond)%Z.
Definition reconnectInterval : Z := (2 * Second)%Z.

Record pendingEvent := mkPending { pe_subject : string; pe_data : bytes }.
#[export] Instance pendingEvent_eq_dec : EqDecision pendingEvent.
Proof. solve_decision. Defined.
#[export] Instance pendingEvent_inhabited : Inhabited pendingEvent := populate (mkPending "" []).

(** [conn]: nil, or a connection and whether it [IsConnected]. *)
Record NATSPublisher := mkPublisher {
  np_workspaceID : string;
  np_url : string;
  np_conn : option bool;
  np_ring : list pendingEvent;
  np_ringHead : nat;
  np_ringTail : nat;
  np_ringCount : nat;
  np_drops : Z
}.

(** [NewNATSPublisher], with the outcome of the first [nats.Connect]. *)
Definition NewNATSPublisher (natsURL workspaceID : string) (connected : bool) : NATSPublisher :=
  mkPublisher workspaceID natsURL (if connected then Some true else None)
    (replicate ringBufferSize (mkPending "" [])) 0 0 0 0.

Definition set_conn (c : option bool) (p : NATSPublisher) : NATSPublisher :=
  mkPublisher (np_workspaceID p) (np_url p) c (np_ring p) (np_ringHead p) (np_ringTail p)
    (np_ringCount p) (np_drops p).
Definition IsConnected (p : NATSPublisher) : bool := bool_decide (np_conn p = Some true).

(** The end of [Publish]: buffer in the ring, or drop and count. *)
Definition buffer_or_drop (e : pendingEvent) (p : NATSPublisher) : NATSPublisher :=
  if decide (np_ringCount p < ringBufferSize)%nat then
    mkPublisher (np_workspaceID p) (np_url p) (np_conn p)
      (<[np_ringHead p := e]> (np_ring p)) ((np_ringHead p + 1) mod ringBufferSize)
      (np_ringTail p) (np_ringCount p + 1) (np_drops p)
  else
    mkPublisher (np_workspaceID p) (np_url p) (np_conn p) (np_ring p) (np_ringHead p)
      (np_ringTail p) (np_ringCount p) (int64_wrap (np_drops p + 1)).

(** The critical section of [flush]: the next event to publish, if there is
    one and the connection is up. *)
Definition flush_pop (p : NATSPublisher) : option (pendingEvent * NATSPublisher) :=
  if decide (np_ringCount p = 0%nat) then None
  else if negb (IsConnected p) then None
  else Some (np_ring p !!! np_ringTail p,
             mkPublisher (np_workspaceID p) (np_url p) (np_conn p) (np_ring p) (np_ringHead p)
               ((np_ringTail p + 1) mod ringBufferSize) (np_ringCount p - 1) (np_drops p)).

(** [Publish] with no other goroutine in between: [sent] is whether the
    attempt on a live connection returned nil before the deadline. *)
Definition Publish (subject : NATSSubject) (data : res bytes) (sent : bool) (p : NATSPublisher) :
    NATSPublisher :=
  match data with
  | Err _ => p
  | Ok data => if IsConnected p && sent then p
               else buffer_or_drop (mkPending (subject_String subject) data) p
  end.

(** [flush], [fuel] iterations: the events handed to [conn.Publish], and the
    state; [ok] is the outcome of each [conn.Publish]. *)
Fixpoint flush (fuel : nat) (ok : nat -> bool) (p : NATSPublisher) :
    list pendingEvent * NATSPublisher :=
  match fuel with
  | O => ([], p)
  | Datatypes.S fuel =>
      match flush_pop p with
      | None => ([], p)
      | Some (e, p') =>
          if ok 0%nat then let '(es, p'') := flush fuel (fun i => ok (1 + i)%nat) p' in (e :: es, p'')
          else ([e], p')
      end
  end.

(** The periodic retry of [drainLoop]: a new connection replaces a dead one. *)
Definition reconnect (connect_ok : bool) (p : NATSPublisher) : NATSPublisher :=
  if negb (IsConnected p) && connect_ok then set_conn (Some true) p else p.

(** One turn of [drainLoop]: why the goroutine woke up.  The first component
    is what it handed to [conn.Publish]; [flush] needs no more iterations than
    there are buffered events. *)
Inductive wakeup : Type :=
| WClose
| WDrain
| WTick (connect_ok : bool).
Definition drain_turn (why : wakeup) (ok : nat -> bool) (p : NATSPublisher) :
    list pendingEvent * NATSPublisher :=
  let p := match why with WTick connect_ok => reconnect connect_ok p | _ => p end in
  flush (np_ringCount p) ok p.
(** [Close]: the goroutine's last turn, and then the connection is drained. *)
Definition Close (ok : nat -> bool) (p : NATSPublisher) : list pendingEvent * NATSPublisher :=
  let '(es, p) := drain_turn WClose ok p in
  (es, match np_conn p with Some _ => set_conn (Some false) p | None => p end).

Definition DropCount (p : NATSPublisher) : Z := np_drops p.

(** The live connection, for the subscribing side. *)
Definition NATSConn (p : NATSPublisher) : option bool := np_conn p.

(** The [Publisher] interface: a live publisher, or [None] for the
    [NoopPublisher], which discards everything. *)
Definition Publisher : Type := option NATSPublisher.
Definition NoopPublisher : Publisher := None.
Definition Publisher_Publish (subject : NATSSubject) (data : res bytes) (sent : bool)
    (p : Publisher) : Publisher := Publish subject data sent <$> p.
Definition Publisher_Close (ok : nat -> bool) (p : Publisher) : list pendingEvent * Publisher :=
  match p with
  | None => ([], None)
  | Some np => let '(es, np) := Close ok np in (es, Some np)
  end.
Definition Publisher_DropCount (p : Publisher) : Z :=
  match p with None => 0 | Some np => DropCount np end.

Definition NewPublisherFromEnv (natsURL workspaceID : string) (connected : bool) : Publisher :=
  if decide (natsURL = "" \/ workspaceID = "") then NoopPublisher
  else Some (NewNATSPublisher natsURL workspaceID connected).

(** ** The ring is a bounded queue *)

(** The buffered events, oldest first. *)
Definition contents (p : NATSPublisher) : list pendingEvent :=
  (fun i => np_ring p !!! ((np_ringTail p + i) mod ringBufferSize)) <$> seq 0 (np_ringCount p).

Record ring_wf (p : NATSPublisher) : Prop := {
  rw_length : length (np_ring p) = ringBufferSize;
  rw_tail : (np_ringTail p < ringBufferSize)%nat;
  rw_count : (np_ringCount p <= ringBufferSize)%nat;
  rw_head : np_ringHead p = (np_ringTail p + np_ringCount p) mod ringBufferSize
}.

Lemma ringBufferSize_pos : (0 < ringBufferSize)%nat.
Proof. unfold ringBufferSize. lia. Qed.
Lemma ringBufferSize_two : (2 <= ringBufferSize)%nat.
Proof. unfold ringBufferSize. lia. Qed.
#[local] Opaque ringBufferSize.

Lemma contents_length p : length (contents p) = np_ringCount p.
Proof. unfold contents. by rewrite length_fmap, length_seq. Qed.

(** Offsets below the capacity address different slots. *)
Lemma slot_inj t i j N :
  (0 < N)%nat -> (i < N)%nat -> (j < N)%nat -> (t + i) mod N = (t + j) mod N -> i = j.
Proof.
  intros HN Hi Hj E.
  pose proof (Nat.div_mod_eq (t + i) N) as E1. pose proof (Nat.div_mod_eq (t + j) N) as E2.
  rewrite E in E1. set (a := (t + i) / N) in *. set (c := (t + j) / N) in *.
  destruct (Nat.lt_trichotomy a c) as [L|[->|L]]; [|lia|].
  - pose proof (Nat.mul_le_mono_l (a + 1) c N ltac:(lia)). lia.
  - pose proof (Nat.mul_le_mono_l (c + 1) a N ltac:(lia)). lia.
Qed.

Lemma buffer_contents e p :
  ring_wf p -> (np_ringCount p < ringBufferSize)%nat ->
  contents (buffer_or_drop e p) = contents p ++ [e] /\ ring_wf (buffer_or_drop e p).
Proof.
  intros [Hl Ht Hc Hh] Hlt. pose proof ringBufferSize_pos as HN. unfold buffer_or_drop.
  rewrite decide_True by done. split.
  - unfold contents. simpl. rewrite Nat.add_1_r, seq_S, fmap_app. simpl. f_equal.
    + apply list_fmap_ext. intros i x Hx. apply lookup_seq in Hx as [-> Hi]. simpl.
      apply list_lookup_total_insert_ne. rewrite Hh. intros E.
      apply slot_inj in E; lia.
    + rewrite <-Hh. rewrite list_lookup_total_insert_eq; [done|]. rewrite Hl, Hh.
      apply Nat.mod_upper_bound. lia.
  - split; simpl; [by rewrite length_insert|done|lia|].
    rewrite Hh, Nat.Div0.add_mod_idemp_l. f_equal. lia.
Qed.

Lemma drop_contents e p :
  (ringBufferSize <= np_ringCount p)%nat ->
  contents (buffer_or_drop e p) = contents p /\ DropCount (buffer_or_drop e p) =
  int64_wrap (DropCount p + 1).
Proof. intros H. unfold buffer_or_drop. by rewrite decide_False by lia. Qed.

Lemma buffer_wf e p : ring_wf p -> ring_wf (buffer_or_drop e p).
Proof.
  intros Hw. destruct (decide (np_ringCount p < ringBufferSize)%nat) as [Hlt|Hge].
  - by apply buffer_contents.
  - unfold buffer_or_drop. rewrite decide_False by done. by destruct Hw.
Qed.

Lemma pop_contents p e p' :
  ring_wf p -> flush_pop p = Some (e, p') ->
  contents p = e :: contents p' /\ ring_wf p' /\ np_drops p' = np_drops p.
Proof.
  intros [Hl Ht Hc Hh]. pose proof ringBufferSize_pos as HN. unfold flush_pop.
  case_decide as E0; [done|]. destruct (negb _); [done|]. intros [= <- <-]. split_and!; [| |done].
  - unfold contents. simpl. destruct (np_ringCount p) as [|n] eqn:En; [done|]. simpl.
    rewrite Nat.add_0_r, Nat.mod_small by done. f_equal. rewrite Nat.sub_0_r.
    rewrite <-fmap_S_seq, <-list_fmap_compose. apply list_fmap_ext.
    intros i x _. simpl. f_equal. rewrite Nat.Div0.add_mod_idemp_l. f_equal. lia.
  - split; simpl; [done|by apply Nat.mod_upper_bound; lia|lia|].
    rewrite Hh, Nat.Div0.add_mod_idemp_l. f_equal. lia.
Qed.

Lemma pop_None p :
  flush_pop p = None <-> contents p = [] \/ IsConnected p = false.
Proof.
  unfold flush_pop. assert (np_ringCount p = 0%nat <-> contents p = []) as Hc.
  { rewrite <-contents_length. destruct (contents p); simpl; split; congruence || lia. }
  rewrite <-Hc. case_decide; [naive_solver|]. destruct (IsConnected p); simpl; naive_solver.
Qed.

Lemma flush_pop_Some p e es :
  ring_wf p -> IsConnected p = true -> contents p = e :: es ->
  exists p', flush_pop p = Some (e, p') /\ contents p' = es /\ ring_wf p' /\
    IsConnected p' = true /\ np_drops p' = np_drops p.
Proof.
  intros Hw Hcon Hc. destruct (flush_pop p) as [[e' p']|] eqn:E.
  - destruct (pop_contents _ _ _ Hw E) as (Hc' & Hw' & Hd). rewrite Hc in Hc'.
    injection Hc' as -> ->. exists p'. split_and!; try done.
    unfold flush_pop in E. repeat case_match; try done. by injection E as <- <-.
  - apply pop_None in E as [E|E]; congruence.
Qed.

(** The ring buffer is a bounded FIFO queue.  From the constructor on,
    with any mixture of [Publish] and [flush], the head, tail and count stay
    consistent; buffering appends to the queue while it holds fewer than 1024
    events and otherwise changes nothing but the drop counter; draining takes
    the oldest event, and takes none exactly when the queue is empty or the
    connection is down. *)
Lemma ring_is_bounded_fifo p e :
  ring_wf p ->
  ring_wf (buffer_or_drop e p) /\
  (if decide (length (contents p) < ringBufferSize)%nat
   then contents (buffer_or_drop e p) = contents p ++ [e] /\
        DropCount (buffer_or_drop e p) = DropCount p
   else contents (buffer_or_drop e p) = contents p /\
        DropCount (buffer_or_drop e p) = int64_wrap (DropCount p + 1)) /\
  match flush_pop p with
  | Some (e', p') => contents p = e' :: contents p' /\ ring_wf p' /\ DropCount p' = DropCount p
  | None => contents p = [] \/ IsConnected p = false
  end.
Proof.
  intros Hw. split_and!; [by apply buffer_wf| |].
  - rewrite contents_length. case_decide as E.
    + destruct (buffer_contents e p Hw E) as [-> _]. split; [done|].
      unfold buffer_or_drop. by rewrite decide_True.
    + apply drop_contents. lia.
  - destruct (flush_pop p) as [[e' p']|] eqn:E.
    + by apply pop_contents.
    + by apply pop_None.
Qed.

Lemma new_publisher_wf url ws c :
  ring_wf (NewNATSPublisher url ws c) /\ contents (NewNATSPublisher url ws c) = [].
Proof.
  pose proof ringBufferSize_pos. split; [|done].
  split; simpl; [apply length_replicate|lia..|by rewrite Nat.Div0.mod_0_l].
Qed.

Lemma ring_is_bounded_fifo_witness :
  contents (buffer_or_drop (mkPending "s" []) (NewNATSPublisher "nats://x" "ws" true)) =
  [mkPending "s" []].
Proof.
  destruct (ring_is_bounded_fifo (NewNATSPublisher "nats://x" "ws" true) (mkPending "s" [])
    (proj1 (new_publisher_wf _ _ _))) as (_ & H & _).
  rewrite decide_True in H; [exact (proj1 H)|]. apply ringBufferSize_pos.
Defined.

(** *** Delivery after an outage *)

(** Draining on a healthy connection hands over everything, oldest first. *)
Lemma flush_all p :
  ring_wf p -> IsConnected p = true ->
  let '(es, p') := flush (np_ringCount p) (fun _ => true) p in
  es = contents p /\ contents p' = [] /\ ring_wf p' /\ DropCount p' = DropCount p.
Proof.
  intros Hw Hcon. rewrite <-(contents_length p). remember (contents p) as l eqn:Hl.
  symmetry in Hl. revert p Hw Hcon Hl. induction l as [|e l IH]; intros p Hw Hcon Hl; [done|].
  destruct (flush_pop_Some p e l Hw Hcon Hl) as (p' & Hp & Hc' & Hw' & Hcon' & Hd).
  cbn [length flush]. rewrite Hp. specialize (IH p' Hw' Hcon' Hc').
  destruct (flush (length l) _ p') as [es p'']. destruct IH as (-> & ? & ? & Hd').
  split_and!; [done..|]. unfold DropCount in *. congruence.
Qed.

Lemma flush_down n ok p : IsConnected p = false -> flush n ok p = ([], p).
Proof. intros H. destruct n; [done|]. cbn [flush]. by rewrite (proj2 (pop_None p) (or_intror H)). Qed.

Lemma flush_conn n ok p : np_conn (flush n ok p).2 = np_conn p.
Proof.
  revert ok p. induction n as [|n IH]; intros ok p; [done|]. cbn [flush].
  destruct (flush_pop p) as [[e p']|] eqn:E; [|done].
  assert (np_conn p' = np_conn p) as Hc
    by (unfold flush_pop in E; repeat case_match; by simplify_eq).
  destruct (ok 0%nat); [|done]. specialize (IH (fun i => ok (1 + i)%nat) p').
  destruct (flush n _ p'). cbn in *. congruence.
Qed.

(** What happens to the publisher during an outage: events are published, and
    the drain goroutine wakes up without getting a connection. *)
Inductive moment : Type :=
| Published (subject : NATSSubject) (data : bytes)
| Woken (why : wakeup).
Definition in_outage (m : moment) : Prop :=
  match m with Woken WClose | Woken (WTick true) => False | _ => True end.
Definition event_of (m : moment) : list pendingEvent :=
  match m with Published s d => [mkPending (subject_String s) d] | Woken _ => [] end.
Definition pass (p : NATSPublisher) (m : moment) : NATSPublisher :=
  match m with
  | Published s d => Publish s (Ok d) true p
  | Woken why => (drain_turn why (fun _ => true) p).2
  end.

Lemma buffer_down e p : IsConnected (buffer_or_drop e p) = IsConnected p.
Proof. unfold buffer_or_drop. by case_decide. Qed.

Lemma set_conn_contents c p :
  contents (set_conn c p) = contents p /\ (ring_wf p -> ring_wf (set_conn c p)) /\
  DropCount (set_conn c p) = DropCount p.
Proof. split_and!; [done| |done]. by intros []. Qed.

(** Queue and drop counter after an outage. *)
Lemma outage_backlog p ms :
  ring_wf p -> IsConnected p = false -> Forall in_outage ms ->
  let p' := foldl pass p ms in
  let all := contents p ++ (ms ≫= event_of) in
  ring_wf p' /\ IsConnected p' = false /\ contents p' = take ringBufferSize all /\
  int64_wrap (DropCount p') = int64_wrap (DropCount p + Z.of_nat (length all - ringBufferSize)).
Proof.
  intros Hw Hd Hms. revert p Hw Hd. induction Hms as [|m ms Hm Hms IH]; intros p Hw Hd.
  - cbn. rewrite app_nil_r. pose proof (rw_count p Hw). rewrite <-(contents_length p) in *.
    rewrite take_ge by done. split_and!; [done..|]. f_equal. lia.
  - cbn [foldl]. rewrite bind_cons. destruct m as [s d|why]; cbn [pass event_of].
    + unfold Publish. rewrite Hd. cbn [andb]. set (e := mkPending _ d).
      destruct (IH (buffer_or_drop e p)) as (H1 & H2 & H3 & H4);
        [by apply buffer_wf|by rewrite buffer_down|].
      split_and!; [done..| |].
      * rewrite H3. destruct (decide (np_ringCount p < ringBufferSize)%nat) as [Hlt|Hge].
        -- rewrite (proj1 (buffer_contents e p Hw Hlt)). by rewrite <-app_assoc.
        -- rewrite (proj1 (drop_contents e p ltac:(lia))).
           rewrite !take_app_le; [done|..]; rewrite contents_length; lia.
      * rewrite H4, !length_app. cbn [length].
        destruct (decide (np_ringCount p < ringBufferSize)%nat) as [Hlt|Hge].
        -- rewrite (proj1 (buffer_contents e p Hw Hlt)), length_app. cbn [length].
           assert (DropCount (buffer_or_drop e p) = DropCount p) as ->
             by (unfold buffer_or_drop; by rewrite decide_True).
           do 2 f_equal. lia.
        -- destruct (drop_contents e p ltac:(lia)) as [-> ->]. rewrite int64_wrap_add.
           rewrite contents_length in *. f_equal. pose proof (rw_count p Hw). lia.
    + assert ((drain_turn why (fun _ => true) p).2 = p) as ->.
      { unfold drain_turn. destruct why as [| |[]]; [done| |done|]; [by rewrite flush_down|].
        unfold reconnect. rewrite andb_false_r. by rewrite flush_down. }
      by apply IH.
Qed.

(** C21: no buffered event waits for ever.  However long the connection is
    down, and whatever is published and however often the drain goroutine
    wakes up meanwhile, the first retry that gets a connection hands over the
    whole backlog: the events buffered before and during the outage in the
    order of publication, as many as fit into the ring; the ring is then
    empty, and the drop counter has counted exactly the events that did not
    fit (modulo its 64 bits). *)
Theorem outage_then_delivery p ms :
  ring_wf p -> IsConnected p = false -> Forall in_outage ms ->
  let all := contents p ++ (ms ≫= event_of) in
  let '(handed, p') := drain_turn (WTick true) (fun _ => true) (foldl pass p ms) in
  handed = take ringBufferSize all /\ contents p' = [] /\ ring_wf p' /\ IsConnected p' = true /\
  int64_wrap (DropCount p') = int64_wrap (DropCount p + Z.of_nat (length all - ringBufferSize)).
Proof.
  intros Hw Hd Hms all. destruct (outage_backlog p ms Hw Hd Hms) as (H1 & H2 & H3 & H4).
  unfold drain_turn, reconnect. rewrite H2. cbn [negb andb].
  set (q := foldl pass p ms) in *. destruct (set_conn_contents (Some true) q) as (C1 & C2 & C3).
  pose proof (flush_all (set_conn (Some true) q) (C2 H1) eq_refl) as Hf.
  pose proof (flush_conn (np_ringCount (set_conn (Some true) q)) (fun _ => true) (set_conn (Some true) q)) as Hk.
  destruct (flush _ _ _) as [es q']. destruct Hf as (-> & E & Hw' & Ed).
  split_and!; [by rewrite C1|done|done| |by rewrite Ed, C3].
  unfold IsConnected in *. cbn in Hk. by rewrite Hk.
Qed.

(** [Close] delivers the backlog if the connection is up; during an outage
    the events are given up without being counted. *)
Lemma close_delivers p :
  ring_wf p ->
  (Close (fun _ => true) p).1 = if IsConnected p then contents p else [].
Proof.
  intros Hw. unfold Close, drain_turn. destruct (IsConnected p) eqn:Hc.
  - pose proof (flush_all p Hw Hc) as H. destruct (flush _ _ _) as [es p']. by destruct H.
  - by rewrite flush_down.
Qed.

Lemma outage_then_delivery_witness :
  let p := NewNATSPublisher "nats://x" "ws" false in
  let s := SigilSubject "ws" "issued" "c1" in
  let ms := [Published s []; Woken (WTick false); Published s ["a"%char]] in
  (drain_turn (WTick true) (fun _ => true) (foldl pass p ms)).1 =
    [mkPending (subject_String s) []; mkPending (subject_String s) ["a"%char]].
Proof.
  cbv zeta. set (s := SigilSubject "ws" "issued" "c1").
  destruct (new_publisher_wf "nats://x" "ws" false) as [W C].
  pose proof (outage_then_delivery (NewNATSPublisher "nats://x" "ws" false)
    [Published s []; Woken (WTick false); Published s ["a"%char]] W eq_refl
    ltac:(repeat constructor)) as H. cbv zeta in H.
  destruct (drain_turn _ _ _) as [es p']. destruct H as (-> & _). rewrite C.
  apply take_ge. cbn. apply ringBufferSize_two.
Defined.

(** An event whose [conn.Publish] fails while draining is neither put back
    in the ring nor counted as dropped (the comment in [flush] says it is put
    back). *)
Lemma flush_error_loses_event p e es n :
  ring_wf p -> IsConnected p = true -> contents p = e :: es ->
  let '(handed, p') := flush (Datatypes.S n) (fun _ => false) p in
  handed = [e] /\ contents p' = es /\ DropCount p' = DropCount p.
Proof.
  intros Hw Hcon Hc. destruct (flush_pop_Some p e es Hw Hcon Hc) as (p' & Hp & Hc' & _ & _ & Hd).
  cbn [flush]. by rewrite Hp.
Qed.

Lemma flush_error_loses_event_witness :
  let p := buffer_or_drop (mkPending "s" []) (NewNATSPublisher "nats://x" "ws" true) in
  let '(handed, p') := flush 1 (fun _ => false) p in
  handed = [mkPending "s" []] /\ contents p' = [] /\ DropCount p' = DropCount p.
Proof.
  pose proof (proj1 (new_publisher_wf "nats://x" "ws" true)) as W.
  apply (flush_error_loses_event _ (mkPending "s" []) [] 0).
  - apply buffer_wf, W.
  - unfold buffer_or_drop. rewrite decide_True by apply ringBufferSize_pos. reflexivity.
  - apply buffer_contents; [exact W|apply ringBufferSize_pos].
Defined.

(** ** Concurrent publishing *)

(** The publisher with the goroutines inside [Publish] and the drain
    goroutine, and what became of the events so far. *)
Record Sys := mkSys {
  sy_pub : NATSPublisher;
  (** [Publish] calls waiting for [conn.Publish] and the flush *)
  sy_sending : list pendingEvent;
  (** [Publish] calls about to buffer or drop *)
  sy_waiting : list pendingEvent;
  (** the event the drain goroutine holds outside the lock *)
  sy_draining : list pendingEvent;
  sy_calls : list pendingEvent;
  sy_sent : list pendingEvent;
  sy_dropped : list pendingEvent;
  sy_lost : list pendingEvent
}.

Inductive sys_step : Sys -> Sys -> Prop :=
(** [Publish] read the connection: it sends, or goes straight to the buffer. *)
| step_publish e p a b dr calls s d l :
    sys_step (mkSys p a b dr calls s d l)
      (if IsConnected p then mkSys p (e :: a) b dr (e :: calls) s d l
       else mkSys p a (e :: b) dr (e :: calls) s d l)
| step_sent e p a1 a2 b dr calls s d l :
    sys_step (mkSys p (a1 ++ e :: a2) b dr calls s d l)
      (mkSys p (a1 ++ a2) b dr calls (e :: s) d l)
(** error or deadline: the event goes to the buffer as well *)
| step_send_failed e p a1 a2 b dr calls s d l :
    sys_step (mkSys p (a1 ++ e :: a2) b dr calls s d l)
      (mkSys p (a1 ++ a2) (e :: b) dr calls s d l)
| step_buffer e p a b1 b2 dr calls s d l :
    sys_step (mkSys p a (b1 ++ e :: b2) dr calls s d l)
      (mkSys (buffer_or_drop e p) a (b1 ++ b2) dr calls s
         (if decide (np_ringCount p < ringBufferSize)%nat then d else e :: d) l)
| step_pop e p p' a b calls s d l :
    flush_pop p = Some (e, p') ->
    sys_step (mkSys p a b [] calls s d l) (mkSys p' a b [e] calls s d l)
| step_drain_ok e p a b calls s d l :
    sys_step (mkSys p a b [e] calls s d l) (mkSys p a b [] calls (e :: s) d l)
| step_drain_error e p a b calls s d l :
    sys_step (mkSys p a b [e] calls s d l) (mkSys p a b [] calls s d (e :: l))
(** the connection is lost, found again, or replaced *)
| step_conn c p a b dr calls s d l :
    sys_step (mkSys p a b dr calls s d l) (mkSys (set_conn c p) a b dr calls s d l).

Definition init_sys (p : NATSPublisher) : Sys := mkSys p [] [] [] [] [] [] [].

(** Every event published is in exactly one place. *)
Definition accounted (x : Sys) : list pendingEvent :=
  sy_sending x ++ sy_waiting x ++ sy_draining x ++ contents (sy_pub x) ++
  sy_sent x ++ sy_dropped x ++ sy_lost x.
Definition conserved (x : Sys) : Prop :=
  ring_wf (sy_pub x) /\ sy_calls x ≡ₚ accounted x /\
  DropCount (sy_pub x) = int64_wrap (Z.of_nat (length (sy_dropped x))).

Lemma conserved_step x y : sys_step x y -> conserved x -> conserved y.
Proof.
  intros Hs (Hw & Hp & Hd). unfold accounted in Hp.
  destruct Hs as [e p a b dr calls s d l|e p a1 a2 b dr calls s d l|e p a1 a2 b dr calls s d l
    |e p a b1 b2 dr calls s d l|e p p' a b calls s d l Hpop|e p a b calls s d l
    |e p a b calls s d l|c p a b dr calls s d l]; simpl in *.
  - destruct (IsConnected p); (split_and!; [done| |done]); unfold accounted; simpl; solve_perm.
  - split_and!; [done| |done]. unfold accounted. simpl. solve_perm.
  - split_and!; [done| |done]. unfold accounted. simpl. solve_perm.
  - unfold conserved, accounted. simpl. case_decide as Hc.
    + destruct (buffer_contents e p Hw Hc) as [Hcont Hw']. split_and!; [done| |].
      * rewrite Hcont. solve_perm.
      * unfold DropCount, buffer_or_drop in *. by rewrite decide_True.
    + destruct (drop_contents e p) as [Hcont Hdc]; [lia|].
      split_and!; [by apply buffer_wf| |].
      * rewrite Hcont. solve_perm.
      * rewrite Hdc, Hd, int64_wrap_add. simpl. f_equal. lia.
  - destruct (pop_contents _ _ _ Hw Hpop) as (Hcont & Hw' & Hdr).
    unfold conserved, accounted. simpl. split_and!; [done| |].
    + rewrite Hcont in Hp. solve_perm.
    + unfold DropCount in *. by rewrite Hdr.
  - split_and!; [done| |done]. unfold accounted. simpl. solve_perm.
  - split_and!; [done| |done]. unfold accounted. simpl. solve_perm.
  - split_and!; [by destruct Hw| |done]. unfold accounted. simpl. change (contents (set_conn c p)) with (contents p).
    solve_perm.
Qed.


