(* ===== verification/EventJson.v ===== *)
(** Events on the wire (internal/observability/events.go and the marshalling
    of nats_publisher.go): every payload as the JSON object of its struct tags,
    and what a subscriber reads back. *)

From stdpp Require Import pretty.
From S2P Require Import Prelude GoBytes GoTime Protocol Json Canonical JsonText JsonRoundtrip.
From S2P Require Import Observability Store Effects Envelope NatsPublisher.
Local Open Scope Z_scope.

(** ** Encoding *)

Definition json_int (z : Z) : json := JNumber (pretty z).
Definition json_strings (l : list string) : json := JArray (JString <$> l).
(** [omitempty] on strings and slices. *)
Definition omit_string (k s : string) : list (string * json) :=
  if decide (s = "") then [] else [(k, JString s)].
Definition omit_strings (k : string) (l : list string) : list (string * json) :=
  if decide (l = []) then [] else [(k, json_strings l)].

Definition oidc_event_json (e : OIDCEvent) : json :=
  JObject ([("ts", JString (oe_TS e)); ("corr_id", JString (oe_CorrID e));
            ("workspace_id", JString (oe_WorkspaceID e)); ("client_id", JString (oe_ClientID e))] ++
           omit_string "subject_id" (oe_SubjectID e) ++ omit_strings "scopes" (oe_Scopes e) ++
           omit_string "endpoint" (oe_Endpoint e) ++
           [("duration_ms", json_int (oe_DurationMS e)); ("outcome", JString (oe_Outcome e))] ++
           omit_string "failure_reason" (oe_FailureReason e)).
Definition sigil_issued_json (e : SigilIssuedEvent) : res json :=
  match (match si_ExpiresAt e with
         | None => Ok []
         | Some t => match json_time t with Ok x => Ok [("expires_at", x)] | Err e => Err e end
         end) with
  | Err e => Err e
  | Ok expires =>
      Ok (JObject ([("ts", JString (si_TS e)); ("corr_id", JString (si_CorrID e));
                    ("workspace_id", JString (si_WorkspaceID e));
                    ("subject_id", JString (si_SubjectID e))] ++
                   omit_strings "capability_set" (si_CapabilitySet e) ++ expires ++
                   [("outcome", JString (si_Outcome e))]))
  end.
Definition sigil_revoked_json (e : SigilRevokedEvent) : json :=
  JObject [("ts", JString (sr_TS e)); ("corr_id", JString (sr_CorrID e));
           ("workspace_id", JString (sr_WorkspaceID e)); ("subject_id", JString (sr_SubjectID e));
           ("reason", JString (sr_Reason e)); ("outcome", JString (sr_Outcome e))].
Definition jwks_rotated_json (e : JWKSRotatedEvent) : json :=
  JObject [("ts", JString (jr_TS e)); ("corr_id", JString (jr_CorrID e));
           ("workspace_id", JString (jr_WorkspaceID e)); ("kid_old", JString (jr_KidOld e));
           ("kid_new", JString (jr_KidNew e)); ("rotation_reason", JString (jr_RotationReason e))].
Definition brute_force_json (e : BruteForceEvent) : res json :=
  match json_time (bf_FirstSeen e), json_time (bf_LastSeen e) with
  | Err e, _ | Ok _, Err e => Err e
  | Ok first, Ok last =>
      Ok (JObject [("ts", JString (bf_TS e)); ("corr_id", JString (bf_CorrID e));
                   ("workspace_id", JString (bf_WorkspaceID e)); ("client_id", JString (bf_ClientID e));
                   ("attempt_count", json_int (bf_AttemptCount e));
                   ("window_seconds", json_int (bf_WindowSeconds e));
                   ("first_seen", first); ("last_seen", last)])
  end.
Definition cdc_event_json (e : CDCEvent) : json :=
  JObject ([("ts", JString (ce_TS e)); ("corr_id", JString (ce_CorrID e));
            ("workspace_id", JString (ce_WorkspaceID e)); ("table", JString (ce_Table e));
            ("row_id", JString (ce_RowID e)); ("op", JString (ce_Op e))] ++
           (if decide (default ∅ (ce_FieldsHashed e) = ∅) then []
            else [("fields_hashed", json_string_map (ce_FieldsHashed e))]) ++
           omit_strings "diff_summary" (ce_DiffSummary e) ++
           omit_string "tombstone_reason" (ce_TombstoneReason e)).
Definition config_reloaded_json (e : ConfigReloadedEvent) : json :=
  JObject [("ts", JString (cr_TS e)); ("corr_id", JString (cr_CorrID e));
           ("workspace_id", JString (cr_WorkspaceID e));
           ("keys_applied", json_strings (cr_KeysApplied e));
           ("duration_ms", json_int (cr_DurationMS e));
           ("hanko_kid_in_use", JString (cr_HankoKidInUse e))].
Definition config_reload_failed_json (e : ConfigReloadFailedEvent) : json :=
  JObject [("ts", JString (cf_TS e)); ("corr_id", JString (cf_CorrID e));
           ("workspace_id", JString (cf_WorkspaceID e));
           ("keys_attempted", json_strings (cf_KeysAttempted e));
           ("failure_reason", JString (cf_FailureReason e));
           ("rollback_applied", JBool (cf_RollbackApplied e))].
Definition scope_rejected_json (e : ScopeRejectedEvent) : json :=
  JObject [("ts", JString (se_TS e)); ("corr_id", JString (se_CorrID e));
           ("workspace_id", JString (se_WorkspaceID e)); ("event", JString (se_Event e));
           ("token_id", JString (se_TokenID e)); ("sigil_id", JString (se_SigilID e));
           ("scope", JString (se_Scope e)); ("requested_action", JString (se_RequestedAction e));
           ("outcome", JString (se_Outcome e))].

Definition payload_json (p : payload) : res json :=
  match p with
  | POIDC e => Ok (oidc_event_json e)
  | PSigilIssued e => sigil_issued_json e
  | PSigilRevoked e => Ok (sigil_revoked_json e)
  | PJWKSRotated e => Ok (jwks_rotated_json e)
  | PBruteForce e => brute_force_json e
  | PCDC e => Ok (cdc_event_json e)
  | PConfigReloaded e => Ok (config_reloaded_json e)
  | PConfigReloadFailed e => Ok (config_reload_failed_json e)
  | PScopeRejected e => Ok (scope_rejected_json e)
  end.

(** The bytes [Publish] sends for a payload. *)
Definition payload_data (p : payload) : res bytes :=
  match payload_json p with Ok v => Ok (render v) | Err e => Err e end.
(** What a call of [Publish] hands to NATS or to the ring; a payload that does
    not marshal is logged and given up. *)
Definition message (e : event) : option pendingEvent :=
  match payload_data e.2 with
  | Ok data => Some (mkPending (subject_String e.1) data)
  | Err _ => None
  end.
Definition publish_payload (e : event) (sent : bool) : Publisher -> Publisher :=
  Publisher_Publish e.1 (payload_data e.2) sent.

(** The correlation id and the workspace inside a payload. *)
Definition payload_ids (p : payload) : string * string :=
  match p with
  | POIDC e => (oe_CorrID e, oe_WorkspaceID e)
  | PSigilIssued e => (si_CorrID e, si_WorkspaceID e)
  | PSigilRevoked e => (sr_CorrID e, sr_WorkspaceID e)
  | PJWKSRotated e => (jr_CorrID e, jr_WorkspaceID e)
  | PBruteForce e => (bf_CorrID e, bf_WorkspaceID e)
  | PCDC e => (ce_CorrID e, ce_WorkspaceID e)
  | PConfigReloaded e => (cr_CorrID e, cr_WorkspaceID e)
  | PConfigReloadFailed e => (cf_CorrID e, cf_WorkspaceID e)
  | PScopeRejected e => (se_CorrID e, se_WorkspaceID e)
  end.

(** ** Reading back *)

(** *** Integers are numbers of the grammar *)

Lemma pretty_char_digit n : (n < 10)%N ->
  is_digit (pretty_N_char n) = true /\ ((0 < n)%N -> pretty_N_char n <> "0"%char).
Proof.
  intros Hn.
  destruct n as [|[[[[| |]|[| |]|]|[[| |]|[| |]|]|]|[[[| |]|[| |]|]|[[| |]|[| |]|]|]|]]; done || lia.
Qed.

Lemma pretty_go_digits x s :
  exists l, to_bytes (pretty_N_go x s) = l ++ to_bytes s /\ Forall (fun a => is_digit a = true) l /\
    ((0 < x)%N -> exists a l', l = a :: l' /\ a <> "0"%char).
Proof.
  revert s. induction (N.lt_wf_0 x) as [x _ IH]; intros s.
  destruct (decide (0 < x)%N) as [Hx|Hx].
  2:{ replace x with 0%N by lia. rewrite pretty_N_go_0. exists []. split_and!; [done..|lia]. }
  rewrite pretty_N_go_step by done.
  destruct (IH (x `div` 10)%N (N.div_lt x 10 Hx ltac:(done)) (String (pretty_N_char (x `mod` 10)) s))
    as (l & E & Hd & Hh).
  assert (x `mod` 10 < 10)%N as Hm by (by apply N.mod_lt).
  destruct (pretty_char_digit _ Hm) as [Hdig Hz].
  exists (l ++ [pretty_N_char (x `mod` 10)]). split_and!.
  - rewrite E, <-app_assoc. done.
  - apply Forall_app_2; [done|]. by constructor.
  - intros _. destruct (decide (0 < x `div` 10)%N) as [Hq|Hq].
    + destruct (Hh Hq) as (a & l' & -> & Ha). by eexists _, _.
    + assert (x `div` 10 = 0)%N as H0 by (apply N.le_0_r, N.nlt_ge; exact Hq).
      rewrite H0, pretty_N_go_0 in E.
      change (?x = l ++ ?x) with ([] ++ x = l ++ x) in E. apply app_inv_tail in E. subst l.
      eexists _, []. split; [done|]. apply Hz. pose proof (N.div_mod x 10 ltac:(done)) as Hdm.
      rewrite H0, N.mul_0_r, N.add_0_l in Hdm. by rewrite <-Hdm.
Qed.

Lemma span_all_digits l : Forall (fun a => is_digit a = true) l -> span_digits l = (l, []).
Proof. induction 1 as [|a l Ha _ IH]; [done|]. cbn. by rewrite Ha, IH. Qed.

Lemma scan_N (x : N) : scan_integer (to_bytes (pretty x)) = Some (to_bytes (pretty x), []).
Proof.
  unfold pretty, pretty_N. case_decide as Hx; [done|].
  destruct (pretty_go_digits x "") as (l & E & Hd & Hh). rewrite E, app_nil_r.
  destruct Hh as (a & l' & -> & Ha); [lia|]. cbn [scan_integer]. rewrite decide_False by done.
  unfold scan_digits. by rewrite span_all_digits.
Qed.

Lemma int_number_ok (z : Z) : number_ok (pretty z) = true.
Proof.
  assert (forall (x : N) (pre : bytes), pre = [] \/ pre = ["-"%char] ->
    match scan_number (pre ++ to_bytes (pretty x)) with Some (_, []) => true | _ => false end = true)
    as H.
  { intros x pre Hp. unfold scan_number. pose proof (scan_N x) as Hs.
    destruct Hp as [-> | ->]; cbn [app]; [|by rewrite decide_True, Hs by done].
    destruct (to_bytes (pretty x)) as [|a l] eqn:E; [by cbn in Hs|].
    rewrite decide_False; [by rewrite Hs|]. intros ->. by vm_compute in Hs. }
  unfold number_ok. destruct z as [|q|q]; [done|apply (H (Npos q) []); auto|].
  change (to_bytes (pretty (Z.neg q))) with (["-"%char] ++ to_bytes (pretty (Npos q))).
  apply H. auto.
Qed.

(** *** Payloads *)

(** A flat object: scalars, arrays of strings and a map of strings. *)
Definition flat (v : json) : Prop := numbers_ok v = true /\ depth v <= 1.

Lemma strings_flat l : flat (json_strings l).
Proof.
  unfold flat, json_strings. cbn. split; [by induction l|].
  assert (foldr Z.max 0 (map depth (JString <$> l)) = 0) as ->; [|lia].
  induction l as [|x l IH]; [done|]. cbn in *. by rewrite IH.
Qed.
Lemma string_map_flat m : flat (json_string_map m).
Proof.
  destruct m as [m|]; [|done]. cbn. generalize (sort_strings (map_to_list m).*1). intros l.
  split; cbn; [by induction l|].
  match goal with |- 1 + foldr Z.max 0 (map ?f ?x) <= 1 =>
    assert (foldr Z.max 0 (map f x) = 0) as ->; [|lia] end.
  induction l as [|x l IH]; [done|]. cbn in *. by rewrite IH.
Qed.
Lemma time_flat t x : json_time t = Ok x -> flat x.
Proof. intros (s & -> & _)%json_time_Ok. done. Qed.

(** One member of a payload: an ASCII name and a flat value. *)
Definition flat_member (kv : string * json) : Prop := valid_utf8 kv.1 = true /\ flat kv.2.
Lemma omit_string_flat k x : valid_utf8 k = true -> Forall flat_member (omit_string k x).
Proof. intros Hk. unfold omit_string. case_decide; repeat constructor; done. Qed.
Lemma omit_strings_flat k l : valid_utf8 k = true -> Forall flat_member (omit_strings k l).
Proof.
  intros Hk. unfold omit_strings. case_decide; repeat constructor; [done|apply strings_flat..].
Qed.
Lemma int_flat z : flat (json_int z).
Proof. split; [apply int_number_ok|done]. Qed.

Lemma string_flat x : flat (JString x).
Proof. done. Qed.
Lemma bool_flat b : flat (JBool b).
Proof. done. Qed.
Lemma member_flat k v : valid_utf8 k = true -> flat v -> flat_member (k, v).
Proof. done. Qed.

Ltac flat_members :=
  repeat first
    [ apply Forall_app_2 | apply omit_string_flat; reflexivity | apply omit_strings_flat; reflexivity
    | apply Forall_cons_2 | apply Forall_nil_2
    | apply member_flat; [reflexivity|]
    | apply string_flat | apply bool_flat | apply int_flat | apply strings_flat
    | apply string_map_flat | by eapply time_flat ].

(** Every payload is an object of flat members that names its ids. *)
Lemma payload_json_object p v :
  payload_json p = Ok v ->
  exists m, v = JObject m /\ Forall flat_member m /\
    assoc_get m "corr_id" = Some (JString (payload_ids p).1) /\
    assoc_get m "workspace_id" = Some (JString (payload_ids p).2).
Proof.
  destruct p as [e|e|e|e|e|e|e|e|e]; cbn [payload_json payload_ids fst snd].
  - intros [= <-]. eexists. split; [reflexivity|]. split; [flat_members|done].
  - unfold sigil_issued_json. destruct (si_ExpiresAt e) as [t|].
    + destruct (json_time t) as [x|] eqn:Et; [|done]. intros [= <-].
      eexists. split; [reflexivity|]. split; [flat_members|done].
    + intros [= <-]. eexists. split; [reflexivity|]. split; [flat_members|done].
  - intros [= <-]. eexists. split; [reflexivity|]. split; [flat_members|done].
  - intros [= <-]. eexists. split; [reflexivity|]. split; [flat_members|done].
  - unfold brute_force_json. destruct (json_time (bf_FirstSeen e)) as [x|] eqn:E1; [|done].
    destruct (json_time (bf_LastSeen e)) as [y|] eqn:E2; [|done]. intros [= <-].
    eexists. split; [reflexivity|]. split; [flat_members|done].
  - intros [= <-]. eexists. split; [reflexivity|]. split; [|done].
    apply Forall_app_2; [flat_members|]. case_decide; flat_members.
  - intros [= <-]. eexists. split; [reflexivity|]. split; [flat_members|done].
  - intros [= <-]. eexists. split; [reflexivity|]. split; [flat_members|done].
  - intros [= <-]. eexists. split; [reflexivity|]. split; [flat_members|done].
Qed.

Lemma flat_members_object m :
  Forall flat_member m -> numbers_ok (JObject m) = true /\ depth (JObject m) <= 2.
Proof.
  intros H. cbn. split.
  - apply forallb_forall. intros kv Hkv. apply list_elem_of_In in Hkv. rewrite Forall_forall in H.
    by apply H.
  - assert (foldr Z.max 0 (map (fun kv => depth kv.2) m) <= 1); [|lia].
    induction H as [|kv m [_ [_ Hd]] _ IH]; cbn; lia.
Qed.

Lemma assoc_get_sanitize m k :
  Forall flat_member m ->
  assoc_get (map (fun kv => (to_valid_utf8 kv.1, sanitize kv.2)) m) k = sanitize <$> assoc_get m k.
Proof.
  induction 1 as [|[k' v] m [Hk _] _ IH]; [done|]. cbn [map assoc_get fst snd] in *. rewrite to_valid_utf8_id by done.
  by case_decide.
Qed.

(** What a subscriber reads: an object whose ids are those of the payload, up
    to the replacement of bytes that are not UTF-8. *)
Lemma message_reads e msg :
  message e = Some msg ->
  pe_subject msg = subject_String e.1 /\
  exists m, unmarshal_json (pe_data msg) = Some (JObject m) /\
    assoc_get m "corr_id" = Some (JString (to_valid_utf8 (payload_ids e.2).1)) /\
    assoc_get m "workspace_id" = Some (JString (to_valid_utf8 (payload_ids e.2).2)).
Proof.
  unfold message, payload_data. destruct (payload_json e.2) as [v|] eqn:E; [|done].
  intros [= <-]. split; [done|]. destruct (payload_json_object _ _ E) as (m & -> & Hf & Hc & Hw).
  destruct (flat_members_object m Hf) as [Hn Hd].
  exists (map (fun kv => (to_valid_utf8 kv.1, sanitize kv.2)) m). cbn [pe_data].
  unfold unmarshal_json. rewrite parse_marshal; [|done|unfold max_depth; lia].
  rewrite !assoc_get_sanitize, Hc, Hw by done. split_and!; [|done..].
  change (Some ?x) with (Some x). cbn [fmap option_fmap option_map]. by rewrite cook_as_read.
Qed.
