(* ===== verification/Postgres.v ===== *)
(** The database behind the Postgres stores: what one SQL statement of the
    stores does to the tables, and how it can fail.

    [PgEnv] is the database server as the code meets it: every statement
    may fail (connection, timeout) with its effect applied or not, UUID
    literals are parsed, timestamps come back at the column's precision. *)

From S2P Require Import Prelude GoTime Protocol Json Store.

Class PgEnv : Type := {
  (** The outcome of the n-th statement: [None] when the server executes it
      and answers; otherwise the error, and whether it was applied. *)
  pg_fault : nat -> option (string * bool);
  (** The message when the server refuses the n-th statement. *)
  pg_refusal : nat -> string;
  (** A UUID literal's canonical text; [None] for invalid syntax. *)
  pg_uuid : string -> option string;
  (** A [TIMESTAMPTZ] written and read back. *)
  pg_time : Time -> Time;
  (** The server's [now()] and [gen_random_uuid()] at the n-th statement. *)
  pg_now : nat -> Time;
  pg_gen_uuid : nat -> string;
  (** [text LIKE pattern] *)
  pg_like : string -> string -> bool
}.

(** A server that never fails. *)
Definition pg_healthy `{!PgEnv} : Prop := forall k, pg_fault k = None.

(** Tables, and the number of statements executed so far. *)
Record Db (T : Type) := mkDb { db_tables : T; db_calls : nat }.
Arguments mkDb {T}.
Arguments db_tables {T}.
Arguments db_calls {T}.

Section statement.
Context {PE : PgEnv} {T : Type}.

(** One statement: [q] is its meaning on the tables, [None] when a type or a
    constraint is violated. *)
Definition statement {A} (q : T -> option (A * T)) : M (Db T) (res A) := fun db =>
  let k := db_calls db in
  match pg_fault k, q (db_tables db) with
  | None, Some (a, t) => (Ok a, mkDb t (1 + k))
  | None, None => (Err (ErrStr (pg_refusal k)), mkDb (db_tables db) (1 + k))
  | Some (msg, true), Some (_, t) => (Err (ErrStr msg), mkDb t (1 + k))
  | Some (msg, _), _ => (Err (ErrStr msg), mkDb (db_tables db) (1 + k))
  end.

(** A statement that only reads. *)
Definition query {A} (q : T -> option A) : M (Db T) (res A) :=
  statement (fun t => a ← q t; Some (a, t)).

(** A method that answers from the result of its statement. *)
Definition answer {A B} (f : res A -> B) (c : M (Db T) (res A)) : M (Db T) B := fun db =>
  let '(r, db) := c db in (f r, db).

Lemma answer_state {A B} (f : res A -> B) c db : (answer f c db).2 = (c db).2.
Proof. unfold answer. by destruct (c db). Qed.

Lemma answer_result {A B} (f : res A -> B) c db : (answer f c db).1 = f (c db).1.
Proof. unfold answer. by destruct (c db). Qed.

(** What a statement can do to the tables. *)
Lemma statement_tables {A} (q : T -> option (A * T)) db :
  db_tables (statement q db).2 = db_tables db \/
  exists a, q (db_tables db) = Some (a, db_tables (statement q db).2).
Proof.
  unfold statement. destruct (pg_fault _) as [[msg []]|], (q (db_tables db)) as [[a t]|];
    simpl; eauto.
Qed.

Lemma query_tables {A} (q : T -> option A) db : db_tables (query q db).2 = db_tables db.
Proof.
  unfold query. destruct (statement_tables (fun t => a ← q t; Some (a, t)) db) as [->|[a Ha]]; [done|].
  destruct (q (db_tables db)); simplify_eq/=. done.
Qed.

(** When a statement reports success it was applied. *)
Lemma statement_Ok {A} (q : T -> option (A * T)) db a :
  (statement q db).1 = Ok a -> q (db_tables db) = Some (a, db_tables (statement q db).2).
Proof.
  unfold statement. destruct (pg_fault _) as [[msg []]|], (q (db_tables db)) as [[a' t]|];
    simpl; try done. by intros [= ->].
Qed.

Lemma statement_healthy {A} (q : T -> option (A * T)) db :
  pg_healthy ->
  statement q db =
  match q (db_tables db) with
  | Some (a, t) => (Ok a, mkDb t (1 + db_calls db))
  | None => (Err (ErrStr (pg_refusal (db_calls db))), mkDb (db_tables db) (1 + db_calls db))
  end.
Proof. intros H. unfold statement. rewrite H. by destruct (q _) as [[? ?]|]. Qed.
End statement.

(** ** Column values *)

(** [TEXT] refuses NUL bytes and invalid UTF-8. *)
Definition text_ok (s : string) : bool :=
  valid_utf8 s && negb (bool_decide (Ascii.zero ∈ to_bytes s)).

(** [json.Marshal] of a [map[string]string] stored as [JSONB] and read back:
    invalid bytes are replaced, NUL is refused. *)
Definition jsonb_map (m : option (gmap string string)) : option (option (gmap string string)) :=
  match m with
  | None => Some None
  | Some m =>
      let entries := (fun kv => (to_valid_utf8 kv.1, to_valid_utf8 kv.2)) <$> map_to_list m in
      if forallb (fun kv => text_ok kv.1 && text_ok kv.2) entries
      then Some (Some (list_to_map entries)) else None
  end.

(** A JSON document as [JSONB]: NUL in a string is refused. *)
Fixpoint jsonb_ok (v : json) : bool :=
  match v with
  | JString s => text_ok (to_valid_utf8 s)
  | JArray l => forallb jsonb_ok l
  | JObject m => forallb (fun kv => text_ok (to_valid_utf8 kv.1) && jsonb_ok kv.2) m
  | _ => true
  end.

(** LIMIT, when positive. *)
Definition limit_rows {A} (limit : Z) (l : list A) : list A :=
  if (0 <? limit)%Z then take (Z.to_nat limit) l else l.

(** The text of an error, or of the absence of a row. *)
Definition not_found (what id : string) : error :=
  ErrStr (what +:+ " " +:+ id +:+ " not found").

(** ** Tables with nonces and revocations *)

(** Where a schema keeps the consumed nonces and the revoked ids. *)
Class PgViews (T : Type) : Type := {
  view_nonces : T -> gset bytes;
  view_revoked : T -> list string
}.

Section views.
Context {PE : PgEnv} {T : Type} {PV : PgViews T}.

(** Neither is ever taken back. *)
Definition tables_grow (t t' : T) : Prop :=
  view_nonces t ⊆ view_nonces t' /\
  (forall id, id ∈ view_revoked t -> id ∈ view_revoked t').

Lemma grow_refl t : tables_grow t t.
Proof. by split. Qed.
Lemma grow_trans t1 t2 t3 : tables_grow t1 t2 -> tables_grow t2 t3 -> tables_grow t1 t3.
Proof. intros [H1 H2] [H3 H4]. split; [by etrans|auto]. Qed.

Lemma statement_grows {A} (q : T -> option (A * T)) db :
  (forall a t', q (db_tables db) = Some (a, t') -> tables_grow (db_tables db) t') ->
  tables_grow (db_tables db) (db_tables (statement q db).2).
Proof. intros H. destruct (statement_tables q db) as [->|[a Ha]]; [done|eauto]. Qed.

Lemma query_grows {A} (q : T -> option A) db :
  tables_grow (db_tables db) (db_tables (query q db).2).
Proof. by rewrite query_tables. Qed.

(** The meaning of INSERT INTO consumed_nonces ... ON CONFLICT DO NOTHING. *)
Definition inserts_nonce (q : slice ascii -> T -> option (bool * T)) : Prop :=
  forall n t, match q n t with
  | Some (true, t') => exists l, n = Some l /\ (l ∉ view_nonces t) /\
      view_nonces t' = {[l]} ∪ view_nonces t /\ view_revoked t' = view_revoked t
  | Some (false, t') => exists l, n = Some l /\ (l ∈ view_nonces t) /\ t' = t
  | None => n = None
  end.

Lemma inserts_nonce_grows q n t b t' :
  inserts_nonce q -> q n t = Some (b, t') -> tables_grow t t'.
Proof.
  intros Hq E. specialize (Hq n t). rewrite E in Hq. destruct b.
  - destruct Hq as (l & _ & _ & Hn & Hr). split; [set_solver|by rewrite Hr].
  - by destruct Hq as (l & _ & _ & ->).
Qed.

(** A caller told that its row was inserted is the first to consume the
    nonce, whatever failures other statements meet. *)
Lemma inserts_nonce_won q n db :
  inserts_nonce q -> (statement (q n) db).1 = Ok true ->
  exists l, n = Some l /\ (l ∉ view_nonces (db_tables db)) /\
    l ∈ view_nonces (db_tables (statement (q n) db).2).
Proof.
  intros Hq E%statement_Ok. specialize (Hq n (db_tables db)). rewrite E in Hq.
  destruct Hq as (l & -> & Hl & Hn & _). exists l. split_and!; [done..|]. rewrite Hn. set_solver.
Qed.

(** The nonces a Postgres store no longer accepts: NULL never. *)
Definition pg_consumed (s : Db T) (n : slice ascii) : Prop :=
  match n with Some l => l ∈ view_nonces (db_tables s) | None => True end.

(** The revocations an unfailing [IsRevoked] reports. *)
Definition pg_revoked (s : Db T) (id : string) : bool :=
  match pg_uuid id with
  | Some u => bool_decide (u ∈ view_revoked (db_tables s))
  | None => false
  end.

Lemma pg_revoked_grows s s' id :
  tables_grow (db_tables s) (db_tables s') -> pg_revoked s id = true -> pg_revoked s' id = true.
Proof.
  intros [_ H]. unfold pg_revoked. destruct (pg_uuid id); [|done].
  rewrite !bool_decide_eq_true. apply H.
Qed.

(** The exact behaviour of the insertion on a server that does not fail. *)
Lemma inserts_nonce_exact q n s (won := fun r : res bool => match r with Ok b => b | Err _ => false end) :
  inserts_nonce q -> pg_healthy ->
  let r := won (statement (q n) s).1 in let s' := (statement (q n) s).2 in
  (if r then ~ pg_consumed s n else pg_consumed s n) /\
  (forall id, pg_revoked s' id = pg_revoked s id) /\
  (forall m, pg_consumed s' m <-> pg_consumed s m \/ (r = true /\ elems m = elems n)).
Proof.
  intros Hq Hh. rewrite statement_healthy by done. unfold pg_consumed, pg_revoked.
  specialize (Hq n (db_tables s)). destruct (q n (db_tables s)) as [[[] t']|]; simpl.
  - destruct Hq as (l & -> & Hl & Hn & Hr). split_and!; [done|by rewrite Hr|].
    intros [m|]; simpl; [|naive_solver]. rewrite Hn. set_solver.
  - destruct Hq as (l & -> & Hl & ->). split_and!; [done|done|]. intros m. naive_solver.
  - subst n. split_and!; [done|done|]. intros m. naive_solver.
Qed.
End views.
