(* ===== verification/PgStore.v ===== *)
(** The Postgres store of store/postgres.go ([PgStore]).

    Every method is one statement.  The replay contract holds whatever the
    database does; the full contract when it does not fail. *)

From S2P Require Import Prelude GoTime Protocol Json Store Postgres.

(** The tables of migrations_sql/001_initial.sql; UUID columns hold canonical
    texts.  [revocation_entries] is in insertion order. *)
Record PgTables := mkPgTables {
  pt_sigils : gmap string Sigil;
  pt_capability_tokens : gmap string CapabilityToken;
  pt_revocation_entries : list RevocationEntry;
  pt_consumed_nonces : gset bytes
}.

Definition empty_tables : PgTables := mkPgTables ∅ ∅ [] ∅.

Abbreviation PgDb := (Db PgTables).

Module Pg.
Section pg.
Context {PE : PgEnv}.

(** INSERT ... ON CONFLICT (id) DO UPDATE: the conflicting row keeps its
    [created_at]. *)
Definition SaveSigil (s : Sigil) : M PgDb (res unit) := answer
  (fun r => match r with
   | Ok _ => Ok tt
   | Err e => Err (Errorf_w ("store: SaveSigil " +:+ sg_ID s +:+ ": ") e)
   end)
  (statement (fun t =>
    id ← pg_uuid (sg_ID s);
    meta ← jsonb_map (sg_Metadata s);
    key ← sg_PublicKey s;
    if negb (text_ok (sg_Subject s)) then None else
    let created := match pt_sigils t !! id with
                   | Some old => sg_CreatedAt old
                   | None => pg_time (sg_CreatedAt s)
                   end in
    let row := mkSigil id (sg_Subject s) (Some key) created (pg_time <$> sg_ExpiresAt s) meta in
    Some (tt, mkPgTables (<[id := row]> (pt_sigils t)) (pt_capability_tokens t)
                (pt_revocation_entries t) (pt_consumed_nonces t)))).

Definition GetSigil (id : string) : M PgDb (res Sigil) := answer
  (fun r => match r with
   | Ok (Some s) => Ok s
   | Ok None => Err (not_found "store: sigil" id)
   | Err e => Err (Errorf_w ("store: GetSigil " +:+ id +:+ ": ") e)
   end)
  (query (fun t => u ← pg_uuid id; Some (pt_sigils t !! u))).

(** ORDER BY created_at DESC. *)
Definition newest_first (s1 s2 : Sigil) : Prop :=
  (t_ns (sg_CreatedAt s2) <= t_ns (sg_CreatedAt s1))%Z.
#[global] Instance newest_first_dec : RelDecision newest_first.
Proof. intros s1 s2. unfold newest_first. apply _. Defined.
Definition ListSigils : M PgDb (res (list Sigil)) := answer
  (fun r => match r with Ok l => Ok l | Err e => Err (Errorf_w "store: ListSigils: " e) end)
  (query (fun t =>
    Some (merge_sort newest_first (snd <$> map_to_list (pt_sigils t))))).

(** A foreign key binds the capability to an existing sigil. *)
Definition SaveCap (c : CapabilityToken) : M PgDb (res unit) := answer
  (fun r => match r with
   | Ok _ => Ok tt
   | Err e => Err (Errorf_w ("store: SaveCap " +:+ cap_ID c +:+ ": ") e)
   end)
  (statement (fun t =>
    id ← pg_uuid (cap_ID c);
    sid ← pg_uuid (cap_SigilID c);
    nonce ← cap_Nonce c;
    if negb (text_ok (cap_Scope c)) then None else
    match pt_capability_tokens t !! id with
    | Some old =>
        let row := mkCap id (cap_SigilID old) (cap_Scope c) (cap_IssuedAt old)
                     (pg_time (cap_ExpiresAt c)) (Some nonce) in
        Some (tt, mkPgTables (pt_sigils t) (<[id := row]> (pt_capability_tokens t))
                    (pt_revocation_entries t) (pt_consumed_nonces t))
    | None =>
        _ ← pt_sigils t !! sid;
        let row := mkCap id sid (cap_Scope c) (pg_time (cap_IssuedAt c))
                     (pg_time (cap_ExpiresAt c)) (Some nonce) in
        Some (tt, mkPgTables (pt_sigils t) (<[id := row]> (pt_capability_tokens t))
                    (pt_revocation_entries t) (pt_consumed_nonces t))
    end)).

Definition GetCap (id : string) : M PgDb (res CapabilityToken) := answer
  (fun r => match r with
   | Ok (Some c) => Ok c
   | Ok None => Err (not_found "store: cap" id)
   | Err e => Err (Errorf_w ("store: GetCap " +:+ id +:+ ": ") e)
   end)
  (query (fun t => u ← pg_uuid id; Some (pt_capability_tokens t !! u))).

(** SELECT EXISTS(... WHERE nonce = $1): NULL equals nothing; a query error
    counts as not used. *)
Definition NonceUsed (nonce : slice ascii) : M PgDb bool := answer
  (fun r => match r with Ok b => b | Err _ => false end)
  (query (fun t => Some (match nonce with
    | Some n => bool_decide (n ∈ pt_consumed_nonces t) | None => false end))).

(** INSERT INTO consumed_nonces ... ON CONFLICT DO NOTHING: whether a row was
    inserted; the primary key is NOT NULL. *)
Definition insert_nonce (nonce : slice ascii) (t : PgTables) : option (bool * PgTables) :=
  n ← nonce;
  if decide (n ∈ pt_consumed_nonces t) then Some (false, t)
  else Some (true, mkPgTables (pt_sigils t) (pt_capability_tokens t) (pt_revocation_entries t)
                     ({[n]} ∪ pt_consumed_nonces t)).

Definition RecordNonce (nonce : slice ascii) : M PgDb unit := fun db =>
  (tt, (statement (insert_nonce nonce) db).2).

Definition RecordNonceStrict (nonce : slice ascii) : M PgDb (res bool) := answer
  (fun r => match r with
   | Ok inserted => Ok inserted
   | Err e => Err (Errorf_w "store: RecordNonceStrict: " e)
   end)
  (statement (insert_nonce nonce)).

(** [ok, _ := p.RecordNonceStrict(...)]: an error is a replay. *)
Definition TryRecordNonce (nonce : slice ascii) : M PgDb bool := answer
  (fun r => match r with Ok b => b | Err _ => false end)
  (RecordNonceStrict nonce).

(** ORDER BY revoked_at; an unreadable list is empty. *)
Definition by_time (e1 e2 : RevocationEntry) : Prop :=
  (t_ns (rev_RevokedAt e1) <= t_ns (rev_RevokedAt e2))%Z.
#[global] Instance by_time_dec : RelDecision by_time.
Proof. intros e1 e2. unfold by_time. apply _. Defined.
Definition RevocationList : M PgDb RevocationList := answer
  (fun r => match r with Ok l => l | Err _ => [] end)
  (query (fun t => Some (merge_sort by_time (pt_revocation_entries t)))).

(** SELECT EXISTS(... WHERE id = $1): a query error means not revoked. *)
Definition IsRevoked (id : string) : M PgDb bool := answer
  (fun r => match r with Ok b => b | Err _ => false end)
  (query (fun t => u ← pg_uuid id;
    Some (bool_decide (u ∈ rev_ID <$> pt_revocation_entries t)))).

Definition target_types : list string := ["sigil"; "cap"; "attestation"].

(** INSERT ... ON CONFLICT (id) DO NOTHING. *)
Definition Revoke (entry : RevocationEntry) : M PgDb (res unit) := answer
  (fun r => match r with
   | Ok _ => Ok tt
   | Err e => Err (Errorf_w ("store: Revoke " +:+ rev_ID entry +:+ ": ") e)
   end)
  (statement (fun t =>
    id ← pg_uuid (rev_ID entry);
    if negb (bool_decide (rev_TargetType entry ∈ target_types) && text_ok (rev_Reason entry)
             && text_ok (rev_RevokedBy entry)) then None else
    if decide (id ∈ rev_ID <$> pt_revocation_entries t) then Some (tt, t) else
    let row := mkRevocation id (rev_TargetType entry) (rev_Reason entry)
                 (pg_time (rev_RevokedAt entry)) (rev_RevokedBy entry) in
    Some (tt, mkPgTables (pt_sigils t) (pt_capability_tokens t)
                (pt_revocation_entries t ++ [row]) (pt_consumed_nonces t)))).
End pg.
End Pg.

#[export] Instance pg_store {PE : PgEnv} : Store PgDb := {
  SaveSigil := Pg.SaveSigil; GetSigil := Pg.GetSigil;
  SaveCap := Pg.SaveCap; GetCap := Pg.GetCap;
  NonceUsed := Pg.NonceUsed; RecordNonce := Pg.RecordNonce;
  TryRecordNonce := Pg.TryRecordNonce; IsRevoked := Pg.IsRevoked;
  GetRevocationList := Pg.RevocationList; Revoke := Pg.Revoke
}.
(** Closing the pool leaves the tables alone. *)
Definition PgStore_Close : M PgDb unit := fun db => (tt, db).
#[export] Instance pg_closer {PE : PgEnv} : StoreCloser PgDb := {
  RecordNonceStrict := Pg.RecordNonceStrict; CloseStore := PgStore_Close
}.

(** ** The contracts *)

#[export] Instance pg_views : PgViews PgTables := {
  view_nonces := pt_consumed_nonces;
  view_revoked t := rev_ID <$> pt_revocation_entries t
}.

Section contracts.
Context {PE : PgEnv}.

Lemma pg_inserts_nonce : inserts_nonce Pg.insert_nonce.
Proof.
  intros [l|] t; simpl; [|done]. unfold Pg.insert_nonce. simpl. case_decide; eauto 10.
Qed.

Lemma pg_step_grows s s' : store_step s s' -> tables_grow (db_tables s) (db_tables s').
Proof.
  destruct 1 as [x s|x s|x s|x s|x s|x s|x s|x s|s|x s]; simpl;
    unfold Pg.SaveSigil, Pg.GetSigil, Pg.SaveCap, Pg.GetCap, Pg.NonceUsed, Pg.RecordNonce,
      Pg.TryRecordNonce, Pg.RecordNonceStrict, Pg.IsRevoked, Pg.RevocationList, Pg.Revoke;
    cbn [snd]; rewrite ?answer_state;
    try apply query_grows; apply statement_grows; intros a t'.
  - intros H. repeat (simplify_option_eq || case_match); split; simpl; set_solver.
  - intros H. repeat (simplify_option_eq || case_match); split; simpl; set_solver.
  - apply inserts_nonce_grows, pg_inserts_nonce.
  - apply inserts_nonce_grows, pg_inserts_nonce.
  - intros H. repeat (simplify_option_eq || case_match); split; simpl; try done.
    intros i Hi. rewrite fmap_app. set_solver.
Qed.

#[export] Instance pg_safe : StoreSafe PgDb.
Proof.
  refine {| consumed := pg_consumed |}.
  - by intros s [n|].
  - intros s s' [n|] [Hn _]%pg_step_grows; [|done]. apply Hn.
  - intros s n. simpl. unfold Pg.TryRecordNonce, Pg.RecordNonceStrict.
    rewrite !answer_result, !answer_state.
    destruct (statement (Pg.insert_nonce n) s).1 as [[]|e] eqn:E; try done. intros _.
    destruct (inserts_nonce_won _ _ _ pg_inserts_nonce E) as (l & -> & Hl & Hl'). done.
Defined.

Lemma pg_Revoke_revokes e s :
  (Pg.Revoke e s).1 = Ok tt -> pg_revoked (Pg.Revoke e s).2 (rev_ID e) = true.
Proof.
  unfold Pg.Revoke. rewrite answer_result, answer_state.
  match goal with |- context [statement ?q s] => set (st := q) end.
  destruct (statement st s).1 as [[]|] eqn:E; [|done]. intros _.
  apply statement_Ok in E. unfold pg_revoked.
  generalize dependent (db_tables (statement st s).2). intros t' E. subst st. cbv beta in E.
  destruct (pg_uuid (rev_ID e)) as [u|]; [|done]. simpl in E.
  destruct (negb _); [done|]. apply bool_decide_eq_true.
  case_decide; injection E as <-; [done|]. simpl. rewrite fmap_app. set_solver.
Qed.

(** The full contract of a server that does not fail. *)
Definition pg_exact (Hh : pg_healthy) : StoreExact PgDb.
Proof.
  refine {| revoked := pg_revoked |}.
  - intros id s. simpl. unfold Pg.IsRevoked. rewrite answer_result, answer_state.
    split_and!.
    + unfold query. rewrite statement_healthy by done. unfold pg_revoked.
      by destruct (pg_uuid id).
    + intros i. unfold pg_revoked. by rewrite query_tables.
    + intros [n|]; [|done]. unfold consumed, pg_safe, pg_consumed. by rewrite query_tables.
  - intros s s' id Hs. apply pg_revoked_grows. by apply pg_step_grows.
  - apply pg_Revoke_revokes.
  - intros n s. simpl. unfold Pg.TryRecordNonce, Pg.RecordNonceStrict.
    rewrite !answer_result, !answer_state.
    pose proof (inserts_nonce_exact _ n s pg_inserts_nonce Hh) as H.
    by destruct (statement (Pg.insert_nonce n) s).1.
Defined.
End contracts.
