(* ===== verification/PgxStore.v ===== *)
(** The Postgres store of store/pgstore/pgstore.go ([PGStore]): the broker's
    interface, the audit log, and the listing methods of the command line.

    Every method is one statement.  The replay contract holds whatever the
    database does.  [NonceUsed] and [RecordNonce] use the audit log, not the
    table [TryRecordNonce] uses, and [IsRevoked] answers false on an error. *)

From S2P Require Import Prelude GoBytes GoTime Protocol Json Canonical Envelope Store Postgres.

Record AuditRow := mkAudit {
  au_action : string;
  au_actor_sigil : option string;
  au_target_type : option string;
  au_target_id : option string;
  au_outcome : string;
  au_detail : json
}.

Record AttestationRow := mkAttRow {
  at_id : string;
  at_sigil_id : string;
  at_envelope : json;
  at_signature : bytes;
  at_issued_at : Time;
  at_expires_at : Time;
  at_issuer : string
}.

(** The tables of [migrationSQL]; UUID columns hold canonical texts, the
    append-only tables are in insertion order. *)
Record PgxTables := mkPgxTables {
  px_sigils : gmap string Sigil;
  px_caps : gmap string CapabilityToken;
  px_attestations : list AttestationRow;
  px_revocations : list RevocationEntry;
  px_audit : list AuditRow;
  px_consumed_nonces : gset bytes
}.

Definition empty_pgx : PgxTables := mkPgxTables ∅ ∅ [] [] [] ∅.

Abbreviation PgxDb := (Db PgxTables).

(** [detail->>'nonce']: a string's contents, another scalar's text. *)
Definition json_text (v : json) : option string :=
  match v with
  | JNull => None
  | JString s => Some s
  | v => Some (of_bytes (marshalCanonical v))
  end.
Definition detail_text (k : string) (v : json) : option string :=
  match v with
  | JObject m => x ← assoc_get m k; json_text x
  | _ => None
  end.

Definition later_first {A} (f : A -> Time) (x y : A) : Prop := (t_ns (f y) <= t_ns (f x))%Z.
#[export] Instance later_first_dec {A} (f : A -> Time) : RelDecision (later_first f).
Proof. intros x y. unfold later_first. apply _. Defined.

Module Pgx.
Section pgx.
Context {PE : PgEnv}.

(** The error of a failed statement, wrapped. *)
Definition wrapped {A} (prefix : string) (r : res A) : res A :=
  match r with Ok a => Ok a | Err e => Err (Errorf_w prefix e) end.

(** [New]: [pool] is the outcome of [pgxpool.New] on the DSN; the migration is
    one statement that leaves existing tables as they are. *)
Definition New (pool : string -> res unit) (dsn : string) : M PgxDb (res unit) := fun db =>
  match pool dsn with
  | Err e => (Err (Errorf_w "pgstore: connect failed: " e), db)
  | Ok _ => answer (wrapped "pgstore: migrate failed: ") (statement (fun t => Some (tt, t))) db
  end.

Definition SaveSigil (sig : Sigil) : M PgxDb (res unit) := answer (wrapped "pgstore.SaveSigil: ")
  (statement (fun t =>
    id ← pg_uuid (sg_ID sig);
    meta ← jsonb_map (sg_Metadata sig);
    key ← sg_PublicKey sig;
    if negb (text_ok (sg_Subject sig)) then None else
    let created := match px_sigils t !! id with
                   | Some old => sg_CreatedAt old
                   | None => pg_time (sg_CreatedAt sig)
                   end in
    let row := mkSigil id (sg_Subject sig) (Some key) created (pg_time <$> sg_ExpiresAt sig) meta in
    Some (tt, mkPgxTables (<[id := row]> (px_sigils t)) (px_caps t) (px_attestations t)
                (px_revocations t) (px_audit t) (px_consumed_nonces t)))).

Definition GetSigil (id : string) : M PgxDb (res Sigil) := answer
  (fun r => match r with
            | Ok (Some s) => Ok s
            | Ok None => Err (not_found "pgstore: sigil" id)
            | Err e => Err (Errorf_w "pgstore.GetSigil: " e)
            end)
  (query (fun t => u ← pg_uuid id; Some (px_sigils t !! u))).

Definition ListSigils (subjectPattern : string) (limit : Z) : M PgxDb (res (list Sigil)) :=
  answer (wrapped "pgstore.ListSigils: ")
  (query (fun t =>
    let rows := snd <$> map_to_list (px_sigils t) in
    let rows := if decide (subjectPattern = "") then rows
                else filter (fun s => pg_like subjectPattern (sg_Subject s) = true) rows in
    Some (limit_rows limit (merge_sort (later_first sg_CreatedAt) rows)))).

Definition SaveCap (c : CapabilityToken) : M PgxDb (res unit) := answer (wrapped "pgstore.SaveCap: ")
  (statement (fun t =>
    id ← pg_uuid (cap_ID c);
    sid ← pg_uuid (cap_SigilID c);
    nonce ← cap_Nonce c;
    if negb (text_ok (cap_Scope c)) then None else
    row ← match px_caps t !! id with
          | Some old => Some (mkCap id (cap_SigilID old) (cap_Scope c) (cap_IssuedAt old)
                                (pg_time (cap_ExpiresAt c)) (Some nonce))
          | None => _ ← px_sigils t !! sid;
                    Some (mkCap id sid (cap_Scope c) (pg_time (cap_IssuedAt c))
                            (pg_time (cap_ExpiresAt c)) (Some nonce))
          end;
    Some (tt, mkPgxTables (px_sigils t) (<[id := row]> (px_caps t)) (px_attestations t)
                (px_revocations t) (px_audit t) (px_consumed_nonces t)))).

Definition GetCap (id : string) : M PgxDb (res CapabilityToken) := answer
  (fun r => match r with
            | Ok (Some c) => Ok c
            | Ok None => Err (not_found "pgstore: cap" id)
            | Err e => Err (Errorf_w "pgstore.GetCap: " e)
            end)
  (query (fun t => u ← pg_uuid id; Some (px_caps t !! u))).

Definition ListCaps (sigilID : string) (limit : Z) : M PgxDb (res (list CapabilityToken)) :=
  answer (wrapped "pgstore.ListCaps: ")
  (query (fun t =>
    let rows := snd <$> map_to_list (px_caps t) in
    rows ← (if decide (sigilID = "") then Some rows
            else u ← pg_uuid sigilID; Some (filter (fun c => cap_SigilID c = u) rows));
    Some (limit_rows limit (merge_sort (later_first cap_IssuedAt) rows)))).

Definition SaveAttestation (env : AttestationEnvelope) : M PgxDb (res unit) :=
  match envelope_json env with
  | Err e => fun db => (Err (Errorf_w "pgstore.SaveAttestation: marshal envelope: " e), db)
  | Ok envJSON => fun db => answer (wrapped "pgstore.SaveAttestation: ")
      (statement (fun t =>
        sid ← pg_uuid (env_SigilID env);
        _ ← px_sigils t !! sid;
        sig ← env_Signature env;
        if negb (jsonb_ok envJSON && text_ok (env_Issuer env)) then None else
        let row := mkAttRow (pg_gen_uuid (db_calls db)) sid (json_roundtrip envJSON) sig
                     (pg_time (env_IssuedAt env)) (pg_time (env_ExpiresAt env)) (env_Issuer env) in
        Some (tt, mkPgxTables (px_sigils t) (px_caps t) (px_attestations t ++ [row])
                    (px_revocations t) (px_audit t) (px_consumed_nonces t)))) db
  end.

(** The essential fields: id, sigil, issuer and the two times. *)
Definition ListAttestations (limit : Z) :
    M PgxDb (res (list (string * string * string * Time * Time))) :=
  answer (wrapped "pgstore.ListAttestations: ")
  (query (fun t => Some ((fun r => (at_id r, at_sigil_id r, at_issuer r, at_issued_at r,
                                    at_expires_at r)) <$>
    limit_rows limit (merge_sort (later_first at_issued_at) (px_attestations t))))).

(** An audit row with action verify, outcome ok and this nonce. *)
Definition audits_nonce (hexNonce : string) (a : AuditRow) : Prop :=
  au_action a = "verify" /\ au_outcome a = "ok" /\ detail_text "nonce" (au_detail a) = Some hexNonce.
#[global] Instance audits_nonce_dec h a : Decision (audits_nonce h a).
Proof. unfold audits_nonce. apply _. Defined.

Definition NonceUsed (nonce : slice ascii) : M PgxDb bool := answer
  (fun r => match r with Ok b => b | Err _ => false end)
  (query (fun t => Some (bool_decide
    (Exists (audits_nonce (hex_encode (elems nonce))) (px_audit t))))).

Definition add_audit (a : AuditRow) (t : PgxTables) : PgxTables :=
  mkPgxTables (px_sigils t) (px_caps t) (px_attestations t) (px_revocations t)
    (px_audit t ++ [a]) (px_consumed_nonces t).

Definition RecordNonce (nonce : slice ascii) : M PgxDb unit := answer (fun _ => tt)
  (statement (fun t => Some (tt, add_audit
    (mkAudit "verify" None None None "ok" (JObject [("nonce", JString (hex_encode (elems nonce)))]))
    t))).

(** INSERT ... ON CONFLICT (nonce) DO NOTHING: whether a row was inserted. *)
Definition insert_nonce (nonce : slice ascii) (t : PgxTables) : option (bool * PgxTables) :=
  n ← nonce;
  if decide (n ∈ px_consumed_nonces t) then Some (false, t)
  else Some (true, mkPgxTables (px_sigils t) (px_caps t) (px_attestations t) (px_revocations t)
                     (px_audit t) ({[n]} ∪ px_consumed_nonces t)).

(** Any error is treated as a replay. *)
Definition TryRecordNonce (nonce : slice ascii) : M PgxDb bool := answer
  (fun r => match r with Ok inserted => inserted | Err _ => false end)
  (statement (insert_nonce nonce)).

Definition RevocationList : M PgxDb RevocationList := answer
  (fun r => match r with Ok l => l | Err _ => [] end)
  (query (fun t => Some (merge_sort (later_first rev_RevokedAt) (px_revocations t)))).

Definition target_types : list string := ["sigil"; "cap"; "attestation"].

(** The time is the server's, not the entry's; [revoked_by] must be a sigil. *)
Definition Revoke (entry : RevocationEntry) : M PgxDb (res unit) := fun db =>
  answer (wrapped "pgstore.Revoke: ")
  (statement (fun t =>
    target ← pg_uuid (rev_ID entry);
    by_ ← pg_uuid (rev_RevokedBy entry);
    _ ← px_sigils t !! by_;
    if negb (bool_decide (rev_TargetType entry ∈ target_types) && text_ok (rev_Reason entry))
    then None else
    let row := mkRevocation target (rev_TargetType entry) (rev_Reason entry)
                 (pg_time (pg_now (db_calls db))) by_ in
    Some (tt, mkPgxTables (px_sigils t) (px_caps t) (px_attestations t)
                (px_revocations t ++ [row]) (px_audit t) (px_consumed_nonces t)))) db.

(** On query failure: false (fail-open). *)
Definition IsRevoked (id : string) : M PgxDb bool := answer
  (fun r => match r with Ok b => b | Err _ => false end)
  (query (fun t => u ← pg_uuid id; Some (bool_decide (u ∈ rev_ID <$> px_revocations t)))).

Definition ListRevocations (limit : Z) : M PgxDb (res (list RevocationEntry)) :=
  answer (wrapped "pgstore.ListRevocations: ")
  (query (fun t => Some (limit_rows limit
    (merge_sort (later_first rev_RevokedAt) (px_revocations t))))).

(** An optional UUID parameter. *)
Definition opt_uuid (o : option string) : option (option string) :=
  match o with None => Some None | Some s => u ← pg_uuid s; Some (Some u) end.

Definition WriteAudit (action outcome : string) (actorSigilID targetType targetID : option string)
    (detail : res json) : M PgxDb (res unit) :=
  let detailJSON := match detail with Ok v => v | Err _ => JObject [] end in
  statement (fun t =>
    actor ← opt_uuid actorSigilID;
    target ← opt_uuid targetID;
    _ ← (match actor with None => Some tt | Some a => _ ← px_sigils t !! a; Some tt end);
    if negb (bool_decide (outcome ∈ ["ok"; "denied"; "error"]) && text_ok action
             && text_ok (default "" targetType) && jsonb_ok detailJSON) then None else
    Some (tt, add_audit (mkAudit action actor targetType target outcome
                           (json_roundtrip detailJSON)) t)).
End pgx.
End Pgx.

#[export] Instance pgx_store {PE : PgEnv} : Store PgxDb := {
  SaveSigil := Pgx.SaveSigil; GetSigil := Pgx.GetSigil;
  SaveCap := Pgx.SaveCap; GetCap := Pgx.GetCap;
  NonceUsed := Pgx.NonceUsed; RecordNonce := Pgx.RecordNonce;
  TryRecordNonce := Pgx.TryRecordNonce; IsRevoked := Pgx.IsRevoked;
  GetRevocationList := Pgx.RevocationList; Revoke := Pgx.Revoke
}.

(** ** The contracts *)

#[export] Instance pgx_views : PgViews PgxTables := {
  view_nonces := px_consumed_nonces;
  view_revoked t := rev_ID <$> px_revocations t
}.

Section contracts.
Context {PE : PgEnv}.

Lemma pgx_inserts_nonce : inserts_nonce Pgx.insert_nonce.
Proof.
  intros [l|] t; simpl; [|done]. unfold Pgx.insert_nonce. simpl. case_decide; eauto 10.
Qed.

Lemma pgx_step_grows s s' : store_step s s' -> tables_grow (db_tables s) (db_tables s').
Proof.
  destruct 1 as [x s|x s|x s|x s|x s|x s|x s|x s|s|x s]; simpl;
    unfold Pgx.SaveSigil, Pgx.GetSigil, Pgx.SaveCap, Pgx.GetCap, Pgx.NonceUsed, Pgx.RecordNonce,
      Pgx.TryRecordNonce, Pgx.IsRevoked, Pgx.RevocationList, Pgx.Revoke;
    cbn [snd]; rewrite ?answer_state;
    try apply query_grows; apply statement_grows; intros a t'.
  - intros H. repeat (simplify_option_eq || case_match); split; simpl; set_solver.
  - intros H. repeat (simplify_option_eq || case_match); split; simpl; set_solver.
  - intros [= _ <-]. done.
  - apply inserts_nonce_grows, pgx_inserts_nonce.
  - intros H. repeat (simplify_option_eq || case_match); split; simpl; try done.
    intros i Hi. rewrite fmap_app. set_solver.
Qed.

#[export] Instance pgx_safe : StoreSafe PgxDb.
Proof.
  refine {| consumed := pg_consumed |}.
  - by intros s [n|].
  - intros s s' [n|] [Hn _]%pgx_step_grows; [|done]. apply Hn.
  - intros s n. simpl. unfold Pgx.TryRecordNonce. rewrite !answer_result, !answer_state.
    destruct (statement (Pgx.insert_nonce n) s).1 as [[]|e] eqn:E; try done. intros _.
    destruct (inserts_nonce_won _ _ _ pgx_inserts_nonce E) as (l & -> & Hl & Hl'). done.
Defined.

Lemma pgx_Revoke_revokes e s :
  (Pgx.Revoke e s).1 = Ok tt -> pg_revoked (Pgx.Revoke e s).2 (rev_ID e) = true.
Proof.
  unfold Pgx.Revoke. rewrite answer_result, answer_state.
  match goal with |- context [statement ?q s] => set (st := q) end.
  destruct (statement st s).1 as [[]|] eqn:E; [|done]. intros _.
  apply statement_Ok in E. unfold pg_revoked.
  generalize dependent (db_tables (statement st s).2). intros t' E. subst st. cbv beta in E.
  destruct (pg_uuid (rev_ID e)) as [u|]; [|done]. simpl in E.
  destruct (pg_uuid (rev_RevokedBy e)) as [v|]; [|done]. simpl in E.
  destruct (px_sigils (db_tables s) !! v); [|done]. simpl in E.
  destruct (negb _); [done|]. apply bool_decide_eq_true.
  injection E as <-. simpl. rewrite fmap_app. set_solver.
Qed.

(** The full contract of a server that does not fail. *)
Definition pgx_exact (Hh : pg_healthy) : StoreExact PgxDb.
Proof.
  refine {| revoked := pg_revoked |}.
  - intros id s. simpl. unfold Pgx.IsRevoked. rewrite answer_result, answer_state.
    split_and!.
    + unfold query. rewrite statement_healthy by done. unfold pg_revoked.
      by destruct (pg_uuid id).
    + intros i. unfold pg_revoked. by rewrite query_tables.
    + intros [n|]; [|done]. unfold consumed, pgx_safe, pg_consumed. by rewrite query_tables.
  - intros s s' id Hs. apply pg_revoked_grows. by apply pgx_step_grows.
  - apply pgx_Revoke_revokes.
  - intros n s. simpl. unfold Pgx.TryRecordNonce. rewrite !answer_result, !answer_state.
    pose proof (inserts_nonce_exact _ n s pgx_inserts_nonce Hh) as H.
    by destruct (statement (Pgx.insert_nonce n) s).1.
Defined.
End contracts.
