(* ===== verification/PostgresTheorems.v ===== *)
(** Guarantees of the broker over the two Postgres stores, with and without
    database failures. *)

From S2P Require Import Prelude GoBytes GoTime Protocol Json Canonical Observability Store.
From S2P Require Import Effects Crypto Envelope MemStore Broker Concurrency Fixtures Postgres.
From S2P Require Import PgStore PgxStore.

Section race.
Context {ED : Ed25519} {EN : Env}.

(** In every interleaving of broker requests over the store, two different
    verifications that share a nonce do not both succeed. *)
Definition replay_safe (S : Type) `{!Store S} : Prop :=
  forall (b : Broker) reqs (w0 : World S) ps w i j ei ej n,
    rtc pool_step (start b <$> reqs, w0) (ps, w) -> i <> j ->
    reqs !! i = Some (RVerify ei) -> reqs !! j = Some (RVerify ej) ->
    uses_nonce ei n -> uses_nonce ej n ->
    ps !! i = Some (Ret (Ok tt)) -> ps !! j <> Some (Ret (Ok tt)).

Lemma store_safe_replay {S} {ST : Store S} {SF : StoreSafe S} : replay_safe S.
Proof.
  intros b reqs w0 ps w i j ei ej n H Hij Hi Hj Ui Uj Ri Rj.
  eapply (two_winners n _ _ _ _ i j); [exact H|exact Hij| | | | |exact Ri|exact Rj].
  - by rewrite list_lookup_fmap, Hi.
  - by apply VerifyAttestation_wins.
  - by rewrite list_lookup_fmap, Hj.
  - by apply VerifyAttestation_wins.
Qed.

(** C15: replay protection survives database failures.  Over either Postgres
    store, whatever statements fail (with or without having been applied), no
    interleaving of requests lets two verifications that share a nonce both
    succeed. *)
Theorem postgres_replay_safe {PE : PgEnv} : replay_safe PgDb /\ replay_safe PgxDb.
Proof. split; apply store_safe_replay. Qed.

(** Once a revocation request has returned success, no verification that had
    not started yet and depends on that id succeeds. *)
Definition revocation_effective (S : Type) `{!Store S} : Prop :=
  forall (b : Broker) reqs (w0 : World S) ps1 w1 ps2 w2 i j env id r,
    (exists reason by_, r = RRevokeSigil id reason by_ \/ r = RRevokeCap id reason by_) ->
    reqs !! j = Some r -> rtc pool_step (start b <$> reqs, w0) (ps1, w1) ->
    ps1 !! j = Some (Ret (Ok tt)) -> uses_id env id ->
    ps1 !! i = Some (VerifyAttestation b env) -> rtc pool_step (ps1, w1) (ps2, w2) ->
    ps2 !! i <> Some (Ret (Ok tt)).

Lemma store_exact_revocation {S} {ST : Store S} {SF : StoreSafe S} {SE : StoreExact S} :
  revocation_effective S.
Proof.
  intros b reqs w0 ps1 w1 ps2 w2 i j env id r Hr Hj H1 Rj Uid Si H2 Ri.
  assert (revoked (w_store w1) id = true) as Hrev.
  { eapply (revoked_after id _ _ _ _ j); [exact H1| | |exact Rj].
    - by rewrite list_lookup_fmap, Hj.
    - destruct Hr as (reason & by_ & [->| ->]); [apply RevokeSigil_revokes|apply RevokeCap_revokes]. }
  apply (revoked_never_clear id _ _ _ _ _ _ _ Hrev H2 Si (VerifyAttestation_sees b env id Uid) Ri).
Qed.

(** C16: on a database that does not fail, both Postgres stores make revocation
    take effect on the next verify call. *)
Theorem postgres_revocation_effective {PE : PgEnv} :
  pg_healthy -> revocation_effective PgDb /\ revocation_effective PgxDb.
Proof.
  intros Hh. split.
  - apply (store_exact_revocation (SE := pg_exact Hh)).
  - apply (store_exact_revocation (SE := pgx_exact Hh)).
Qed.
End race.

Section failures.
Context {PE : PgEnv}.

(** [IsRevoked] of both Postgres stores is fail-open.  It answers true if
    and only if the statement ran without error, the id is a UUID, and the
    id is in the revocation table; in particular a failed query, or an id
    that is not a UUID, reads as not revoked. *)
Lemma postgres_is_revoked_iff (db : PgDb) (dbx : PgxDb) id :
  ((Pg.IsRevoked id db).1 = true <->
   pg_fault (db_calls db) = None /\
   exists u, pg_uuid id = Some u /\ u ∈ rev_ID <$> pt_revocation_entries (db_tables db)) /\
  ((Pgx.IsRevoked id dbx).1 = true <->
   pg_fault (db_calls dbx) = None /\
   exists u, pg_uuid id = Some u /\ u ∈ rev_ID <$> px_revocations (db_tables dbx)).
Proof.
  unfold Pg.IsRevoked, Pgx.IsRevoked. rewrite !answer_result. unfold query, statement.
  split.
  - destruct (pg_fault (db_calls db)) as [[msg []]|], (pg_uuid id) as [u|]; simpl;
      rewrite ?bool_decide_eq_true; naive_solver.
  - destruct (pg_fault (db_calls dbx)) as [[msg []]|], (pg_uuid id) as [u|]; simpl;
      rewrite ?bool_decide_eq_true; naive_solver.
Qed.

(** In the pgstore package, consuming a nonce with [TryRecordNonce] does
    not make [NonceUsed] report it: the one writes consumed_nonces, the other
    reads the audit log, so the answer is what it was before; in the store
    package the two agree. *)
Lemma nonce_used_after_try (db : PgDb) (dbx : PgxDb) n :
  pg_healthy -> (Pg.TryRecordNonce n db).1 = true -> (Pgx.TryRecordNonce n dbx).1 = true ->
  (Pg.NonceUsed n (Pg.TryRecordNonce n db).2).1 = true /\
  (Pgx.NonceUsed n (Pgx.TryRecordNonce n dbx).2).1 = (Pgx.NonceUsed n dbx).1.
Proof.
  intros Hh. unfold Pg.TryRecordNonce, Pg.RecordNonceStrict, Pgx.TryRecordNonce, Pg.NonceUsed,
    Pgx.NonceUsed, query. rewrite !answer_result, !answer_state, !statement_healthy by done.
  pose proof (pg_inserts_nonce n (db_tables db)) as H1.
  destruct (Pg.insert_nonce n (db_tables db)) as [[[] t]|]; try done.
  destruct H1 as (l & -> & _ & Hn & _). simpl in Hn. intros _. simpl.
  unfold Pgx.insert_nonce. simpl. case_decide; simpl; [done|]. intros _.
  split; [|done]. rewrite Hn. apply bool_decide_eq_true. set_solver.
Qed.

End failures.

(** ** A server for evaluation *)

(** UUIDs are any texts, timestamps keep microseconds, nothing fails. *)
#[export] Instance demo_pg : PgEnv := {
  pg_fault _ := None;
  pg_refusal _ := "refused";
  pg_uuid s := Some s;
  pg_time t := mkTime (t_ns t - t_ns t mod 1000) (t_off t);
  pg_now k := mkTime (1780000000 * Second + Z.of_nat k) 0;
  pg_gen_uuid _ := "11111111-1111-4111-8111-111111111111";
  pg_like _ _ := true
}.

Lemma postgres_revocation_effective_witness :
  pg_healthy /\ revocation_effective PgDb /\ revocation_effective PgxDb.
Proof. split; [intros k; reflexivity|]. apply postgres_revocation_effective. intros k. reflexivity. Defined.

Lemma nonce_used_after_try_witness :
  (Pg.NonceUsed (Some ["a"%char]) (Pg.TryRecordNonce (Some ["a"%char]) (mkDb empty_tables 0)).2).1 = true /\
  (Pgx.NonceUsed (Some ["a"%char]) (Pgx.TryRecordNonce (Some ["a"%char]) (mkDb empty_pgx 0)).2).1 =
  (Pgx.NonceUsed (Some ["a"%char]) (mkDb empty_pgx 0)).1.
Proof.
  apply (nonce_used_after_try (mkDb empty_tables 0) (mkDb empty_pgx 0) (Some ["a"%char]));
    [intros k; reflexivity|vm_compute; reflexivity..].
Defined.

Definition demo_sigil : Sigil :=
  mkSigil "sigil-1" "operator:shikki@obyw.one" (Some demo_pub) (clock 0) None (Some ∅).

