(* ===== verification/Decode.v ===== *)
(** [encoding/json] decoding into structs, as the HTTP handlers use it: a
    generic value (the first JSON value of the body) against a table of
    fields. *)

From S2P Require Import Prelude GoBytes GoStrings GoTime Protocol Json Canonical.
Local Open Scope Z_scope.

(** Key matching: Go's [foldName] upper-cases ASCII letters and maps the two
    other runes that fold to ASCII (U+017F to S, U+212A to K). *)
Definition fold_rune (r : rune) : bytes :=
  match r with
  | RAscii a => if in_range a 97 122 then [byte_of (byte_val a - 32)] else [a]
  | RMulti l =>
      if decide (l = [byte_of 197; byte_of 191]) then ["S"%char]
      else if decide (l = [byte_of 226; byte_of 132; byte_of 170]) then ["K"%char] else l
  | RInvalid a => replacement
  end.
Definition fold_name (s : string) : string :=
  of_bytes (decode_runes (to_bytes s) ≫= fold_rune).

(** [strings.TrimSpace] on UTF-8 text: Unicode white space at both ends. *)
Definition is_space_rune (r : rune) : bool :=
  match r with
  | RAscii a => is_space a
  | RMulti [a; b] => bool_decide (byte_val a = 194) && (bool_decide (byte_val b = 133)
                       || bool_decide (byte_val b = 160))
  | RMulti [a; b; c] =>
      let '(x, y, z) := (byte_val a, byte_val b, byte_val c) in
      ((x =? 225) && (y =? 154) && (z =? 128)) ||
      ((x =? 226) && (y =? 128) && (((128 <=? z) && (z <=? 138)) || (z =? 168) || (z =? 169)
                                    || (z =? 175))) ||
      ((x =? 226) && (y =? 129) && (z =? 159)) ||
      ((x =? 227) && (y =? 128) && (z =? 128))
  | _ => false
  end.
Definition raw_bytes (r : rune) : bytes :=
  match r with RAscii a => [a] | RMulti l => l | RInvalid a => [a] end.
Fixpoint drop_spaces (l : list rune) : list rune :=
  match l with
  | [] => []
  | r :: l => if is_space_rune r then drop_spaces l else r :: l
  end.
Definition trim_space_utf8 (s : string) : string :=
  of_bytes (reverse (drop_spaces (reverse (drop_spaces (decode_runes (to_bytes s))))) ≫= raw_bytes).

(** On ASCII text without white space there is nothing to trim. *)
Definition solid (a : ascii) : Prop := (byte_val a < 128)%Z /\ is_space a = false.

Lemma decode_runes_ascii l :
  Forall (fun a => byte_val a < 128) l -> decode_runes l = map RAscii l.
Proof.
  induction 1 as [|a l Ha Hl IH]; [done|]. cbn [decode_runes map].
  by rewrite (proj2 (Z.ltb_lt _ _)), IH.
Qed.

Lemma solid_ascii l : Forall solid l -> Forall (fun a => byte_val a < 128) l.
Proof. intros H. eapply Forall_impl; [exact H|]. by intros a [? _]. Qed.

Lemma drop_spaces_solid l : Forall solid l -> drop_spaces (map RAscii l) = map RAscii l.
Proof. destruct 1 as [|a l [_ Ha] Hl]; [done|]. cbn. by rewrite Ha. Qed.

Lemma raw_bytes_ascii l : map RAscii l ≫= raw_bytes = l.
Proof. induction l as [|a l IH]; [done|]. cbn [map]. by rewrite bind_cons, IH. Qed.

Lemma drop_spaces_pad p l :
  forallb is_space p = true -> drop_spaces (map RAscii p ++ l) = drop_spaces l.
Proof.
  induction p as [|a p IH]; [done|]. cbn [forallb map app drop_spaces is_space_rune].
  intros [-> Hp]%andb_true_iff. auto.
Qed.

Lemma map_reverse {A B} (f : A -> B) l : reverse (map f l) = map f (reverse l).
Proof. symmetry. apply (fmap_reverse f l). Qed.

(** White space around a text that neither starts nor ends with it is removed. *)
Definition trimmed (l : bytes) : Prop :=
  Forall (fun a => byte_val a < 128) l /\ drop_spaces (map RAscii l) = map RAscii l /\
  drop_spaces (map RAscii (reverse l)) = map RAscii (reverse l).

Lemma space_ascii s : forallb is_space s = true -> Forall (fun a => byte_val a < 128) s.
Proof.
  intros H. apply Forall_forall. intros a Ha. pose proof (forallb_elem _ _ _ H Ha) as Hsp.
  destruct a as [[] [] [] [] [] [] [] []]; vm_compute in Hsp |- *; congruence.
Qed.

Lemma forallb_reverse {A} (f : A -> bool) l : forallb f l = true -> forallb f (reverse l) = true.
Proof.
  rewrite !forallb_forall. intros H x Hx. apply H.
  by apply list_elem_of_In, elem_of_reverse, list_elem_of_In.
Qed.

Lemma trim_space_padded p l q :
  forallb is_space p = true -> forallb is_space q = true -> trimmed l ->
  trim_space_utf8 (of_bytes (p ++ l ++ q)) = of_bytes l.
Proof.
  intros Hp Hq (Ha & Hl & Hr). unfold trim_space_utf8. f_equal. rewrite to_of_bytes.
  rewrite decode_runes_ascii by (rewrite !Forall_app; auto using space_ascii).
  rewrite !map_app, drop_spaces_pad by done.
  destruct l as [|a l].
  - cbn [map app]. rewrite <-(app_nil_r (map RAscii q)), drop_spaces_pad by done. done.
  - assert (is_space a = false) as Ea.
    { cbn [map drop_spaces is_space_rune] in Hl. destruct (is_space a); [|done].
      apply (f_equal length) in Hl. assert (forall l, length (drop_spaces l) <= length l)%nat as Hd.
      { intros k. induction k as [|r k IH]; cbn; [done|]. destruct (is_space_rune r); cbn; lia. }
      pose proof (Hd (map RAscii l)). cbn in Hl. lia. }
    replace (drop_spaces (map RAscii (a :: l) ++ map RAscii q))
      with (map RAscii (a :: l) ++ map RAscii q) by (cbn; by rewrite Ea).
    rewrite reverse_app, !map_reverse, drop_spaces_pad, Hr by (by apply forallb_reverse).
    rewrite map_reverse, reverse_involutive. apply raw_bytes_ascii.
Qed.

(** Solid text is trimmed, and so is anything between two solid texts. *)
Lemma solid_trimmed l : Forall solid l -> trimmed l.
Proof.
  intros H. split_and!; [by apply solid_ascii|by apply drop_spaces_solid|].
  apply drop_spaces_solid. by apply Forall_reverse.
Qed.

Lemma trimmed_between l m r :
  l <> [] -> r <> [] -> Forall solid l -> Forall solid r ->
  Forall (fun a => byte_val a < 128) m -> trimmed (l ++ m ++ r).
Proof.
  intros Hl Hr Sl Sr Hm. split_and!.
  - rewrite !Forall_app. auto using solid_ascii.
  - destruct Sl as [|a l [_ Ha] _]; [done|]. cbn. by rewrite Ha.
  - apply Forall_reverse in Sr. rewrite !reverse_app.
    destruct (reverse r) as [|a r'] eqn:E.
    { apply (f_equal reverse) in E. by rewrite reverse_involutive in E. }
    apply Forall_cons in Sr as [[_ Ha] _]. cbn. by rewrite Ha.
Qed.

(** A field: its tag and how a value is stored; [None] is a type error. *)
Definition field (R : Type) : Type := string * (json -> R -> option R).

Definition find_field {R} (fields : list (field R)) (k : string) : option (json -> R -> option R) :=
  match assoc_get fields k with
  | Some set => Some set
  | None => assoc_get ((fun f => (fold_name f.1, f.2)) <$> fields) (fold_name k)
  end.

(** Decoding into a struct whose value is [zero]: entries in order, unknown
    keys skipped unless [strict] ([DisallowUnknownFields]); [null] stores
    nothing; any other kind of value is an error. *)
Definition decode_struct {R} (strict : bool) (fields : list (field R)) (zero : R) (v : json) :
    option R :=
  match v with
  | JNull => Some zero
  | JObject m =>
      foldl (fun acc kv =>
        r ← acc;
        match find_field fields kv.1 with
        | Some set => set kv.2 r
        | None => if strict then None else Some r
        end) (Some zero) m
  | _ => None
  end.

(** Stores for the field types. *)
Definition set_string {R} (f : string -> R -> R) (v : json) (r : R) : option R :=
  match v with JString s => Some (f s r) | JNull => Some r | _ => None end.
Definition set_bool {R} (f : bool -> R -> R) (v : json) (r : R) : option R :=
  match v with JBool b => Some (f b r) | JNull => Some r | _ => None end.
(** An [int]: an integer literal in range. *)
Definition set_int {R} (f : Z -> R -> R) (v : json) (r : R) : option R :=
  match v with JNumber lit => n ← Atoi lit; Some (f n r) | JNull => Some r | _ => None end.
(** Elements of a [[]string]: [null] leaves the zero value. *)
Definition json_string_elem (v : json) : option string :=
  match v with JString s => Some s | JNull => Some "" | _ => None end.
Definition set_strings {R} (f : slice string -> R -> R) (v : json) (r : R) : option R :=
  match v with
  | JArray l => ss ← mapM json_string_elem l; Some (f (Some ss) r)
  | JNull => Some (f None r)
  | _ => None
  end.

(** ** Slices under construction *)

(** The length ([None] for nil) and the elements of the backing array, those
    past the length included; unused capacity holds zero values. *)
Record buffer (A : Type) := Buf { buf_len : option nat; buf_mem : list A }.
Arguments Buf {A}.
Arguments buf_len {A}.
Arguments buf_mem {A}.

Definition empty_buffer {A} : buffer A := Buf None [].
Definition full_buffer {A} (l : list A) : buffer A := Buf (Some (length l)) l.
Definition view {A} (b : buffer A) : slice A := (fun n => take n (buf_mem b)) <$> buf_len b.

(** Elements decoded one after the other over those already there. *)
Fixpoint decode_over {A} (dec : json -> A -> option A) (zero : A) (l : list json) (mem : list A) :
    option (list A) :=
  match l with
  | [] => Some mem
  | v :: l =>
      x ← dec v (default zero (head mem));
      rest ← decode_over dec zero l (tail mem);
      Some (x :: rest)
  end.
(** [decodeState.array] on a slice. *)
Definition decode_slice {A} (dec : json -> A -> option A) (zero : A) (v : json) (b : buffer A) :
    option (buffer A) :=
  match v with
  | JNull => Some empty_buffer
  | JArray [] => Some (Buf (Some 0%nat) [])
  | JArray l => mem ← decode_over dec zero l (buf_mem b); Some (Buf (Some (length l)) mem)
  | _ => None
  end.

Example fold_ex : fold_name "Oidc_Token" = "OIDC_TOKEN".
Proof. vm_compute. reflexivity. Qed.
