(* ===== verification/Wire.v ===== *)
(** Envelopes from their JSON text: [json.Unmarshal] into an
    [AttestationEnvelope] (protocol/types.go), as [runVerify] reads its input.

    A slice field keeps its backing array while the text is decoded: a key
    that occurs twice is decoded over the elements of its first occurrence,
    and elements cut off by a shorter array come back under a longer one.  The
    theorem: what [Marshal] or [MarshalIndent] wrote is read back exactly. *)

From S2P Require Import Prelude GoTime GoBytes GoStrings Protocol Json Canonical Envelope.
From S2P Require Import Decode JsonText JsonRoundtrip GoTimeParse.
Local Open Scope Z_scope.

(** ** Fields *)

(** A [uint8]. *)
Definition decode_byte (v : json) (a : ascii) : option ascii :=
  match v with
  | JNumber lit => n ← parse_digits (to_bytes lit) 0; if n <=? 255 then Some (byte_of n) else None
  | JNull => Some a
  | _ => None
  end.
(** A [[]byte]: base64 text, or an array of numbers. *)
Definition decode_bytes (v : json) (b : buffer ascii) : option (buffer ascii) :=
  match v with
  | JString raw => bs ← base64_std_decode (unquote_literal raw); Some (full_buffer bs)
  | v => decode_slice decode_byte (byte_of 0) v b
  end.
(** [Time.UnmarshalJSON] sees the literal as it stands, escapes unresolved. *)
Definition decode_time (v : json) (t : Time) : option Time :=
  match v with
  | JNull => Some t
  | JString raw => parse_rfc3339 (to_bytes raw)
  | _ => None
  end.
Definition decode_string (v : json) (s : string) : option string :=
  match v with
  | JNull => Some s
  | JString raw => Some (unquote_literal raw)
  | _ => None
  end.

(** ** Structs *)

Record cap_cell := mkCapCell {
  cc_ID : string; cc_SigilID : string; cc_Scope : string;
  cc_IssuedAt : Time; cc_ExpiresAt : Time; cc_Nonce : buffer ascii
}.
Definition zero_cap : cap_cell := mkCapCell "" "" "" zero_time zero_time empty_buffer.
Definition cap_of (c : cap_cell) : CapabilityToken :=
  mkCap (cc_ID c) (cc_SigilID c) (cc_Scope c) (cc_IssuedAt c) (cc_ExpiresAt c) (view (cc_Nonce c)).

Definition cap_fields : list (field cap_cell) :=
  [("id", fun v '(mkCapCell id sg sc ia ea n) =>
      x ← decode_string v id; Some (mkCapCell x sg sc ia ea n));
   ("sigil_id", fun v '(mkCapCell id sg sc ia ea n) =>
      x ← decode_string v sg; Some (mkCapCell id x sc ia ea n));
   ("scope", fun v '(mkCapCell id sg sc ia ea n) =>
      x ← decode_string v sc; Some (mkCapCell id sg x ia ea n));
   ("issued_at", fun v '(mkCapCell id sg sc ia ea n) =>
      x ← decode_time v ia; Some (mkCapCell id sg sc x ea n));
   ("expires_at", fun v '(mkCapCell id sg sc ia ea n) =>
      x ← decode_time v ea; Some (mkCapCell id sg sc ia x n));
   ("nonce", fun v '(mkCapCell id sg sc ia ea n) =>
      x ← decode_bytes v n; Some (mkCapCell id sg sc ia ea x))].
Definition decode_cap (v : json) (c : cap_cell) : option cap_cell :=
  decode_struct false cap_fields c v.

Record env_cell := mkEnvCell {
  ec_Version : string; ec_SigilID : string; ec_Caps : buffer cap_cell; ec_Issuer : string;
  ec_IssuedAt : Time; ec_ExpiresAt : Time; ec_Signature : buffer ascii
}.
Definition zero_env : env_cell :=
  mkEnvCell "" "" empty_buffer "" zero_time zero_time empty_buffer.
Definition env_of (c : env_cell) : AttestationEnvelope :=
  mkEnvelope (ec_Version c) (ec_SigilID c) (option_map (map cap_of) (view (ec_Caps c))) (ec_Issuer c)
    (ec_IssuedAt c) (ec_ExpiresAt c) (view (ec_Signature c)).

Definition env_fields : list (field env_cell) :=
  [("version", fun v '(mkEnvCell ve sg cs iu ia ea si) =>
      x ← decode_string v ve; Some (mkEnvCell x sg cs iu ia ea si));
   ("sigil_id", fun v '(mkEnvCell ve sg cs iu ia ea si) =>
      x ← decode_string v sg; Some (mkEnvCell ve x cs iu ia ea si));
   ("caps", fun v '(mkEnvCell ve sg cs iu ia ea si) =>
      x ← decode_slice decode_cap zero_cap v cs; Some (mkEnvCell ve sg x iu ia ea si));
   ("issuer", fun v '(mkEnvCell ve sg cs iu ia ea si) =>
      x ← decode_string v iu; Some (mkEnvCell ve sg cs x ia ea si));
   ("issued_at", fun v '(mkEnvCell ve sg cs iu ia ea si) =>
      x ← decode_time v ia; Some (mkEnvCell ve sg cs iu x ea si));
   ("expires_at", fun v '(mkEnvCell ve sg cs iu ia ea si) =>
      x ← decode_time v ea; Some (mkEnvCell ve sg cs iu ia x si));
   ("signature", fun v '(mkEnvCell ve sg cs iu ia ea si) =>
      x ← decode_bytes v si; Some (mkEnvCell ve sg cs iu ia ea x))].

(** [json.Unmarshal(input, &env)]; [None] is an error of any kind. *)
Definition unmarshal_envelope (input : bytes) : option AttestationEnvelope :=
  v ← parse_text input; c ← decode_struct false env_fields zero_env v; Some (env_of c).

(** ** Reading back what was written *)

Definition buffer_of {A} (s : slice A) : buffer A :=
  match s with Some l => full_buffer l | None => empty_buffer end.
Lemma view_buffer_of {A} (s : slice A) : view (buffer_of s) = s.
Proof. destruct s as [l|]; [|done]. cbn. by rewrite take_ge. Qed.

(** Text that the encoder leaves as it is. *)
Definition plain_char (a : ascii) : Prop := byte_val a < 128 /\ escape_ascii a = [a].

Lemma escaped_plain l : Forall plain_char l -> escaped (of_bytes l) = l.
Proof.
  unfold escaped. rewrite to_of_bytes. induction 1 as [|a l [Ha Hp] Hl IH]; [done|].
  cbn [decode_runes]. rewrite (proj2 (Z.ltb_lt _ _)) by done. rewrite bind_cons, IH.
  cbn [escape_rune]. by rewrite Hp.
Qed.

Lemma fraction_char_plain a : fraction_char a -> plain_char a.
Proof.
  intros [->|H]; [by split|]. unfold plain_char.
  destruct a as [[] [] [] [] [] [] [] []]; vm_compute in H |- *; try (split; [done|reflexivity]);
    exfalso; destruct H; congruence.
Qed.

Lemma plain_sep (a : ascii) : a ∈ to_bytes "-T:Z+." -> plain_char a.
Proof. intros H. cbn in H. set_unfold in H. by destruct_or! H; subst. Qed.

Lemma rfc3339_plain t : 0 <= year t <= 9999 -> Forall plain_char (rfc3339_bytes t).
Proof.
  intros Hy. unfold year, rfc3339_bytes in *.
  destruct (civil_of_days (local_seconds t / 86400)) as [[y m] d]. cbn [fst snd] in Hy.
  rewrite append_year by done.
  assert (forall w z, Forall plain_char (dec_digits w z)) as Hdec.
  { intros w z. eapply Forall_impl; [apply dec_digits_chars|]. apply fraction_char_plain. }
  assert (Forall plain_char (zone (t_off t))) as Hz.
  { unfold zone. destruct (_ =? 0); [by constructor; [apply plain_sep; set_solver|]|].
    constructor; [destruct (_ <? 0); apply plain_sep; set_solver|].
    apply Forall_app. split; [apply Hdec|]. constructor; [apply plain_sep; set_solver|apply Hdec]. }
  assert (Forall plain_char (fraction (t_ns t mod Second))) as Hf.
  { eapply Forall_impl; [apply fraction_chars|]. apply fraction_char_plain. }
  repeat first [apply Hdec | exact Hz | exact Hf | apply Forall_app; split
    | constructor; [by apply plain_sep; set_solver|]].
Qed.

Lemma decode_time_read t x :
  whole_minute_zone t -> json_time t = Ok x -> decode_time (as_read x) zero_time = Some t.
Proof.
  intros Hz (y & -> & Hy)%json_time_Ok. apply marshal_time_Some in Hy as (Hy & ->).
  cbn [as_read decode_time].
  by rewrite to_of_bytes, escaped_plain, parse_rfc3339_bytes by eauto using rfc3339_plain.
Qed.

Lemma decode_string_read s : valid_utf8 s = true -> decode_string (as_read (JString s)) "" = Some s.
Proof.
  intros H. cbn [as_read decode_string]. by rewrite unquote_literal_escaped, to_valid_utf8_id.
Qed.

Lemma decode_bytes_read s : decode_bytes (as_read (json_bytes s)) empty_buffer = Some (buffer_of s).
Proof.
  destruct s as [bs|]; [|done]. cbn [json_bytes as_read decode_bytes].
  rewrite unquote_literal_escaped, to_valid_utf8_id by apply base64_std_valid.
  by rewrite base64_std_decode_encode.
Qed.

Definition cell_of_cap (c : CapabilityToken) : cap_cell :=
  mkCapCell (cap_ID c) (cap_SigilID c) (cap_Scope c) (cap_IssuedAt c) (cap_ExpiresAt c)
    (buffer_of (cap_Nonce c)).
Lemma cap_of_cell c : cap_of (cell_of_cap c) = c.
Proof. destruct c. unfold cap_of. cbn. by rewrite view_buffer_of. Qed.

(** Decoding an object whose keys are the given ones, field by field. *)
Lemma decode_struct_cons {R} (fs : list (field R)) (r : R) k v m set :
  to_valid_utf8 k = k -> assoc_get fs k = Some set ->
  decode_struct false fs r (as_read (JObject ((k, v) :: m))) =
  r' ← set (as_read v) r; decode_struct false fs r' (as_read (JObject m)).
Proof.
  intros Hk H. assert (find_field fs k = Some set) as Hf by (unfold find_field; by rewrite H).
  cbn [as_read map fst snd decode_struct foldl mbind option_bind]. rewrite Hk, Hf.
  destruct (set (as_read v) r) as [r'|]; [done|]. cbn [mbind option_bind].
  induction m as [|kv m IH]; [done|]. cbn [map foldl mbind option_bind]. done.
Qed.

(** Stores the next field of an object with literal keys. *)
Ltac store_field :=
  erewrite decode_struct_cons by reflexivity;
  cbv beta iota; rewrite ?decode_string_read, ?decode_bytes_read by done;
  try match goal with
  | Hz : whole_minute_zone ?t, H : json_time ?t = Ok ?x |- context [decode_time (as_read ?x) _] =>
      rewrite (decode_time_read t x Hz H)
  end;
  cbn [mbind option_bind].

Lemma decode_cap_read c v :
  cap_wf c -> cap_json c = Ok v -> decode_cap (as_read v) zero_cap = Some (cell_of_cap c).
Proof.
  intros (V1 & V2 & V3 & Zi & Zx) (i & x & Hi & Hx & ->)%cap_json_Ok. unfold decode_cap, zero_cap.
  by repeat store_field.
Qed.

Lemma decode_over_read {A B} (dec : json -> A -> option A) zero (enc : B -> res json)
    (cell : B -> A) bs vs :
  Forall2 (fun b v => enc b = Ok v) bs vs ->
  (forall b v, b ∈ bs -> enc b = Ok v -> dec (as_read v) zero = Some (cell b)) ->
  decode_over dec zero (map as_read vs) [] = Some (map cell bs).
Proof.
  induction 1 as [|b v bs vs Hb H IH]; intros Hd; [done|]. cbn [map decode_over head default tail].
  rewrite (Hd b v) by (by left || done). cbn [mbind option_bind].
  rewrite IH; [done|]. intros ???. apply Hd. by right.
Qed.

Lemma decode_caps_read cs v :
  Forall cap_wf (elems cs) -> caps_json cs = Ok v ->
  decode_slice decode_cap zero_cap (as_read v) empty_buffer =
  Some (buffer_of (option_map (map cell_of_cap) cs)).
Proof.
  destruct cs as [cs|]; cbn [caps_json elems default]; [|by intros _ [= <-]].
  intros W. destruct (map_res cap_json cs) as [l|] eqn:E; [|done]. intros [= <-].
  apply map_res_Ok in E. rewrite Forall_forall in W.
  pose proof (decode_over_read decode_cap zero_cap cap_json cell_of_cap cs l E
    (fun c w Hc Hw => decode_cap_read c w (W c Hc) Hw)) as Hd.
  apply Forall2_length in E as Hl. destruct l as [|w l].
  - apply Forall2_nil_inv_r in E as ->. done.
  - cbn [as_read decode_slice map]. cbn [map buf_mem empty_buffer] in *. rewrite Hd.
    cbn [mbind option_bind option_map buffer_of]. unfold full_buffer.
    rewrite length_map. cbn [length]. rewrite length_map. by rewrite Hl.
Qed.

Definition cell_of_env (e : AttestationEnvelope) : env_cell :=
  mkEnvCell (env_Version e) (env_SigilID e)
    (buffer_of (option_map (map cell_of_cap) (env_Caps e))) (env_Issuer e)
    (env_IssuedAt e) (env_ExpiresAt e) (buffer_of (env_Signature e)).
Lemma env_of_cell e : env_of (cell_of_env e) = e.
Proof.
  destruct e as [? ? cs ? ? ? ?]. unfold env_of. cbn. rewrite !view_buffer_of.
  destruct cs as [cs|]; [|done]. cbn. rewrite map_map. do 2 f_equal.
  rewrite <-(map_id cs) at 2. apply map_ext, cap_of_cell.
Qed.

Lemma decode_envelope_read e v :
  env_wf e -> envelope_json e = Ok v ->
  decode_struct false env_fields zero_env (as_read v) = Some (cell_of_env e).
Proof.
  intros (V1 & V2 & V3 & Zi & Zx & Wc) (cs & i & x & Hc & Hi & Hx & ->)%envelope_json_Ok.
  unfold zero_env, envelope_fields. do 2 store_field.
  erewrite decode_struct_cons by reflexivity. cbv beta iota.
  rewrite (decode_caps_read _ _ Wc Hc). cbn [mbind option_bind].
  by repeat store_field.
Qed.

(** The values of the wire types are shallow and contain no numbers. *)
Lemma cap_json_text c v : cap_json c = Ok v -> numbers_ok v = true /\ depth v = 1.
Proof.
  intros (i & x & (? & -> & _)%json_time_Ok & (? & -> & _)%json_time_Ok & ->)%cap_json_Ok.
  by destruct (cap_Nonce c).
Qed.

Lemma caps_json_text cs v : caps_json cs = Ok v -> numbers_ok v = true /\ depth v <= 2.
Proof.
  destruct cs as [cs|]; cbn [caps_json]; [|by intros [= <-]].
  destruct (map_res cap_json cs) as [l|] eqn:E; [|done]. intros [= <-]. apply map_res_Ok in E.
  cbn [numbers_ok depth].
  assert (forall w, w ∈ l -> numbers_ok w = true /\ depth w = 1) as Hl.
  { intros w (i & Hi)%list_elem_of_lookup_1.
    destruct (Forall2_lookup_r _ _ _ _ _ E Hi) as (c & _ & Hc). by eapply cap_json_text. }
  split.
  - apply forallb_forall. intros w Hw%list_elem_of_In. by apply Hl.
  - enough (foldr Z.max 0 (map depth l) <= 1) by lia. apply max_le; [lia|].
    intros w Hw. by rewrite (proj2 (Hl w Hw)).
Qed.

Lemma envelope_json_text e v :
  envelope_json e = Ok v -> numbers_ok v = true /\ depth v <= 3.
Proof.
  intros (cs & i & x & Hc & (? & -> & _)%json_time_Ok & (? & -> & _)%json_time_Ok & ->)%envelope_json_Ok.
  apply caps_json_text in Hc as [Ht Hd]. cbn [numbers_ok envelope_fields depth map foldr forallb snd].
  rewrite Ht. pose proof (depth_nonneg cs). destruct (env_Signature e); cbn; split; (done || lia).
Qed.

Lemma unmarshal_layout nl sp e v trailing :
  (forall k, forallb is_ws (nl k) = true) -> forallb is_ws sp = true ->
  env_wf e -> envelope_json e = Ok v -> forallb is_ws trailing = true ->
  unmarshal_envelope (render_with nl sp 0 v ++ trailing) = Some e.
Proof.
  intros Hnl Hsp W J Ht. destruct (envelope_json_text e v J) as [Hok Hd].
  unfold unmarshal_envelope. rewrite parse_render by (done || (unfold max_depth; lia)).
  cbn [mbind option_bind]. rewrite (decode_envelope_read e v W J). cbn [mbind option_bind].
  by rewrite env_of_cell.
Qed.

Lemma unmarshal_indent e v trailing :
  env_wf e -> envelope_json e = Ok v -> forallb is_ws trailing = true ->
  unmarshal_envelope (marshal_indent v ++ trailing) = Some e.
Proof. apply unmarshal_layout; [apply indent_ws|done]. Qed.

(** C9: An envelope survives its text: what [json.Marshal] or
    [json.MarshalIndent] (followed by any white space, such as the line break
    of [Println]) writes for an envelope with valid strings and times that
    have a wire form is decoded by [json.Unmarshal] to the same envelope -
    nil and empty slices, fractional seconds and zones included. *)
Theorem envelope_text_roundtrip e v trailing :
  env_wf e -> envelope_json e = Ok v -> forallb is_ws trailing = true ->
  unmarshal_envelope (render v ++ trailing) = Some e /\
  unmarshal_envelope (marshal_indent v ++ trailing) = Some e.
Proof.
  intros W J Ht. split; [|by apply unmarshal_indent].
  rewrite <-(render_plain v 0). by apply unmarshal_layout.
Qed.

Definition sample_env : AttestationEnvelope :=
  mkEnvelope Version "s-1"
    (Some [mkCap "c-1" "s-1" "a<b>:read" (mkTime 1780747200120000000 7200)
             (mkTime 1780750800000000000 0) (Some (to_bytes "0123456789abcdef"))])
    "hanko-broker@obyw.one" (mkTime 1780747200000000001 0) (mkTime 1780750800000000000 (-19800))
    None.
Definition sample_json : json :=
  match envelope_json sample_env with Ok v => v | Err _ => JNull end.
Lemma sample_env_wf : env_wf sample_env.
Proof.
  unfold env_wf, whole_minute_zone.
  split_and!; lazymatch goal with |- Forall _ _ => idtac | _ => vm_compute; reflexivity end.
  constructor; [|constructor]. unfold cap_wf, whole_minute_zone.
  split_and!; vm_compute; reflexivity.
Qed.
Lemma envelope_text_roundtrip_witness :
  unmarshal_envelope (marshal_indent sample_json ++ [newline]) = Some sample_env.
Proof.
  apply (envelope_text_roundtrip sample_env sample_json [newline]).
  - exact sample_env_wf.
  - vm_compute. reflexivity.
  - vm_compute. reflexivity.
Defined.

(** A repeated key is decoded over the elements of its first occurrence. *)
Example caps_merge :
  (fun e => (fun c => (cap_ID c, cap_Scope c)) <$> elems (env_Caps e)) <$>
  unmarshal_envelope (to_bytes "{" ++ quote "caps" ++ to_bytes ":[{" ++ quote "id" ++ to_bytes ":" ++
    quote "a" ++ to_bytes "}]," ++ quote "Caps" ++ to_bytes ":[{" ++ quote "scope" ++ to_bytes ":" ++
    quote "b" ++ to_bytes "}]}") = Some [("a", "b")].
Proof. vm_compute. reflexivity. Qed.

