(* ===== verification/Http.v ===== *)
(** The HTTP surface of the broker (broker/http.go and broker/http_admin.go):
    the JWKS document, the health probe, and the admin revocation endpoint
    behind its shared secret. *)

From S2P Require Import Prelude GoBytes GoStrings GoTime Protocol Json Canonical Sha256.
From S2P Require Import Observability Store Effects Crypto Envelope Broker Decode JsonText.

(** ** Requests and responses *)

Record Request := mkRequest {
  rq_Method : string;
  rq_Path : string;
  (** [r.Header.Get] *)
  rq_Header : string -> string;
  rq_RemoteAddr : string;
  (** the bytes of the body *)
  rq_Body : bytes
}.

Inductive Body : Type :=
| NoBody
| Text (s : string)
| Raw (b : bytes)
| Json (v : json).

Record Response := mkResponse {
  rs_Status : Z;
  rs_Header : gmap string string;
  rs_Body : Body
}.

Definition StatusOK : Z := 200.
Definition StatusNoContent : Z := 204.
Definition StatusBadRequest : Z := 400.
Definition StatusUnauthorized : Z := 401.
Definition StatusForbidden : Z := 403.
Definition StatusNotFound : Z := 404.
Definition StatusMethodNotAllowed : Z := 405.
Definition StatusInternalServerError : Z := 500.

(** [http.Error] *)
Definition http_Error (h : gmap string string) (msg : string) (code : Z) : Response :=
  mkResponse code
    (<["X-Content-Type-Options" := "nosniff"]>
      (<["Content-Type" := "text/plain; charset=utf-8"]> h))
    (Text (msg +:+ String "010" "")).

(** ** The server *)

Record HTTPServer := mkServer {
  hs_broker : Broker;
  hs_jwksDocument : bytes;
  hs_jwksKid : string;
  hs_adminSecret : bytes
}.

Definition brokerKid (pub : bytes) : string := base64_rawurl_encode (sha256 pub).

(** [jwkOKPKey] with its tags. *)
Definition jwkOKPKey (kid : string) (pub : bytes) : json :=
  JObject [("kty", JString "OKP"); ("crv", JString "Ed25519"); ("alg", JString "EdDSA");
           ("kid", JString kid); ("x", JString (base64_rawurl_encode pub)); ("use", JString "sig")].

(** The serialized document and the key id. *)
Definition buildJWKS (b : Broker) : bytes * string :=
  let kid := brokerKid (br_signerPub b) in
  (render (JObject [("keys", JArray [jwkOKPKey kid (br_signerPub b)])]), kid).

(** [NewHTTPServer]; a nil broker is [None]. *)
Definition NewHTTPServer (getenv : string -> string) (broker : option Broker) : res HTTPServer :=
  match broker with
  | None => Err (ErrStr "hanko: NewHTTPServer: broker must not be nil")
  | Some b =>
      if decide (length (br_signerPub b) <> PublicKeySize) then
        Err (ErrStr "hanko: NewHTTPServer: broker signer public key has the wrong length")
      else
        let adminSecret := to_bytes (getenv "HANKO_ADMIN_SECRET") in
        let '(doc, kid) := buildJWKS b in
        Ok (mkServer b doc kid adminSecret)
  end.

Definition JWKSDocument (s : HTTPServer) : bytes := hs_jwksDocument s.
Definition JWKSKid (s : HTTPServer) : string := hs_jwksKid s.

Definition handleHealthz (r : Request) : Response :=
  if decide (rq_Method r <> "GET") then
    http_Error {["Allow" := "GET"]} "method not allowed" StatusMethodNotAllowed
  else mkResponse StatusOK {["Content-Type" := "text/plain; charset=utf-8"]}
         (Text ("ok" +:+ String "010" "")).

Definition handleJWKS (s : HTTPServer) (r : Request) : Response :=
  if decide (rq_Method r <> "GET") then
    http_Error {["Allow" := "GET"]} "method not allowed" StatusMethodNotAllowed
  else mkResponse StatusOK
         (<["Content-Type" := "application/jwk-set+json; charset=utf-8"]>
           (<["Cache-Control" := "public, max-age=3600"]> {["X-Hanko-Kid" := hs_jwksKid s]}))
         (Raw (hs_jwksDocument s)).

(** ** The admin endpoint *)

Record revokeRequest := mkRevokeRequest {
  rr_SigilID : string; rr_Reason : string; rr_RevokedBy : string }.
Definition revokeRequest_fields : list (field revokeRequest) :=
  [("sigil_id", set_string (fun x r => mkRevokeRequest x (rr_Reason r) (rr_RevokedBy r)));
   ("reason", set_string (fun x r => mkRevokeRequest (rr_SigilID r) x (rr_RevokedBy r)));
   ("revoked_by", set_string (fun x r => mkRevokeRequest (rr_SigilID r) (rr_Reason r) x))].

Definition decode_revokeRequest (body : bytes) : option revokeRequest :=
  v ← decode_json body;
  decode_struct false revokeRequest_fields (mkRevokeRequest "" "" "") v.

(** [subtle.ConstantTimeCompare]: unequal lengths give 0, else every byte is
    looked at. *)
Definition ConstantTimeCompare (x y : bytes) : Z :=
  if decide (length x <> length y) then 0%Z
  else if forallb (fun p => bool_decide (p.1 = p.2)) (zip x y) then 1%Z else 0%Z.

Definition requireAdminSecret (s : HTTPServer) (next : Request -> proc (res Response))
    (r : Request) : proc (res Response) :=
  let provided := to_bytes (rq_Header r "X-Admin-Secret") in
  if decide (length (hs_adminSecret s) = 0%nat \/
             ConstantTimeCompare provided (hs_adminSecret s) <> 1%Z) then
    Ret (Ok (http_Error ∅ "unauthorized" StatusUnauthorized))
  else next r.

Section handlers.
Context {ED : Ed25519}.

Definition handleAdminRevoke (s : HTTPServer) (r : Request) : proc (res Response) :=
  if decide (rq_Method r <> "POST") then
    Ret (Ok (http_Error {["Allow" := "POST"]} "method not allowed" StatusMethodNotAllowed))
  else match decode_revokeRequest (rq_Body r) with
  | None => Ret (Ok (http_Error ∅ "malformed json body" StatusBadRequest))
  | Some req =>
      if decide (rr_SigilID req = "") then
        Ret (Ok (http_Error ∅ "sigil_id is required" StatusBadRequest))
      else if decide (rr_RevokedBy req = "") then
        Ret (Ok (http_Error ∅ "revoked_by is required" StatusBadRequest))
      else
        e ← RevokeSigil (hs_broker s) (rr_SigilID req) (rr_Reason req) (rr_RevokedBy req);
        match e with
        | Err (Panic m) => Ret (Err (Panic m))
        | Err _ => Ret (Ok (http_Error ∅ "internal server error" StatusInternalServerError))
        | Ok _ => Ret (Ok (mkResponse StatusNoContent ∅ NoBody))
        end
  end.

(** The mux on cleaned paths: [oidc] is the handler [AttachOIDC] registered. *)
Definition ServeHTTP (s : HTTPServer) (oidc : option (Request -> proc (res Response)))
    (r : Request) : proc (res Response) :=
  if decide (rq_Path r = "/healthz") then Ret (Ok (handleHealthz r))
  else if decide (rq_Path r = "/api/v1/jwks" \/ rq_Path r = "/.well-known/jwks.json") then
    Ret (Ok (handleJWKS s r))
  else if decide (rq_Path r = "/admin/revoke") then
    requireAdminSecret s (handleAdminRevoke s) r
  else if decide (rq_Path r = "/api/v1/sigils/bootstrap-oidc") then
    match oidc with
    | Some h => h r
    | None => Ret (Ok (http_Error ∅ "404 page not found" StatusNotFound))
    end
  else Ret (Ok (http_Error ∅ "404 page not found" StatusNotFound)).
End handlers.

(** [BuildHTTPServer]: the configured timeouts. *)
Record ServerTimeouts := mkTimeouts {
  ReadHeaderTimeout : Z; ReadTimeout : Z; WriteTimeout : Z; IdleTimeout : Z }.
Definition BuildHTTPServer : ServerTimeouts :=
  mkTimeouts (5 * Second) (10 * Second) (10 * Second) (30 * Second).
(** [HTTPServer.Serve]: [ListenAndServe] of that server, until it returns. *)
Definition HTTPServer_Serve (ListenAndServe : ServerTimeouts -> string -> error) (addr : string) :
    error := ListenAndServe BuildHTTPServer addr.

(** ** Facts *)

Lemma ConstantTimeCompare_eq x y : ConstantTimeCompare x y = 1%Z <-> x = y.
Proof.
  unfold ConstantTimeCompare. destruct (decide (length x = length y)) as [E|E].
  - rewrite decide_False by (by intros ?). revert y E.
    induction x as [|a x IH]; intros [|b y] E; simpl in *; try done.
    injection E as E. specialize (IH y E). destruct (decide (a = b)) as [->|Hab].
    + rewrite bool_decide_eq_true_2 by done. simpl. destruct (forallb _ (zip x y)).
      * split; [intros _; f_equal; by apply IH|done].
      * split; [done|]. intros [= ->]. by apply IH.
    + rewrite bool_decide_eq_false_2 by done. simpl. split; [done|]. congruence.
  - rewrite decide_True by done. split; [done|]. intros ->. done.
Qed.

Section admin.
Context {ED : Ed25519} {S : Type} {EN : Env} {ST : Store S}.
Implicit Types (w : World S) (s : HTTPServer).

(** Whether the request carries the configured secret. *)
Definition authorized s (r : Request) : Prop :=
  hs_adminSecret s <> [] /\ to_bytes (rq_Header r "X-Admin-Secret") = hs_adminSecret s.

Lemma requireAdminSecret_run s next r w :
  run (requireAdminSecret s next r) w =
  if decide (authorized s r) then run (next r) w
  else (Ok (http_Error ∅ "unauthorized" StatusUnauthorized), w).
Proof.
  unfold requireAdminSecret, authorized. case_decide as D1; case_decide as D2; try done.
  - destruct D2 as [Hne Heq]. apply ConstantTimeCompare_eq in Heq.
    destruct D1 as [Hl|Hc]; [|done]. by destruct (hs_adminSecret s).
  - destruct D2. split; [intros E; apply D1; left; by rewrite E|].
    apply ConstantTimeCompare_eq, dec_stable. naive_solver.
Qed.

(** What an accepted body asks for. *)
Definition revocation_asked (r : Request) (req : revokeRequest) : Prop :=
  rq_Method r = "POST" /\ decode_revokeRequest (rq_Body r) = Some req /\
  rr_SigilID req <> "" /\ rr_RevokedBy req <> "".

Lemma handleAdminRevoke_run s r req w :
  revocation_asked r req ->
  run (handleAdminRevoke s r) w =
  let '(e, w') := run (RevokeSigil (hs_broker s) (rr_SigilID req) (rr_Reason req)
                         (rr_RevokedBy req)) w in
  (match e with
   | Err (Panic m) => Err (Panic m)
   | Err _ => Ok (http_Error ∅ "internal server error" StatusInternalServerError)
   | Ok _ => Ok (mkResponse StatusNoContent ∅ NoBody)
   end, w').
Proof.
  intros (Hm & Hd & Hi & Hb). unfold handleAdminRevoke.
  rewrite decide_False by (by intros ?). rewrite Hd, !decide_False by done.
  rewrite run_bind. destruct (run (RevokeSigil _ _ _ _) w) as [[[]|[]] w']; done.
Qed.

(** Any other request changes nothing and is refused with 400 or 405. *)
Lemma handleAdminRevoke_refuses s r w :
  (forall req, ~ revocation_asked r req) ->
  exists resp, run (handleAdminRevoke s r) w = (Ok resp, w) /\
    (rs_Status resp = StatusBadRequest \/ rs_Status resp = StatusMethodNotAllowed).
Proof.
  intros Hno. unfold handleAdminRevoke. case_decide as Hm; [simpl; eauto|].
  destruct (decode_revokeRequest (rq_Body r)) as [req|] eqn:Ed; [|simpl; eauto].
  case_decide as Hi; [simpl; eauto|]. case_decide as Hb; [simpl; eauto|].
  destruct (Hno req). by split_and!.
Qed.
End admin.
