(* ===== verification/HttpTheorems.v ===== *)
(** Guarantees of the HTTP surface. *)

From S2P Require Import Prelude GoBytes GoStrings GoTime Protocol Json Canonical Sha256.
From S2P Require Import Observability Store Effects Crypto Envelope MemStore Broker Fixtures.
From S2P Require Import Decode Http.

Section admin.
Context {ED : Ed25519} {S : Type} {EN : Env} {ST : Store S} {SF : StoreSafe S} {SE : StoreExact S}.

Lemma RevokeSigil_Ok b id reason by_ (w w' : World S) :
  run (RevokeSigil b id reason by_) w = (Ok tt, w') -> revoked (w_store w') id = true.
Proof.
  unfold RevokeSigil. rewrite run_bind. cbn [now perform run handle]. rewrite run_try_with.
  rewrite run_perform. cbn [handle]. unfold on_store. cbn [w_store].
  set (entry := mkRevocation _ _ _ _ _). pose proof (Revoke_revokes entry (w_store w)) as H.
  destruct (Revoke entry (w_store w)) as [[[]|e] st]; [|done]. intros [= <-]. simpl in *.
  by apply H.
Qed.

(** C14: the admin endpoint.  A request to /admin/revoke that does not carry
    the configured secret (or any request, when no secret is configured) is
    answered 401 and changes nothing; with the secret, a malformed or
    incomplete request is answered 400 or 405 and changes nothing; and an
    answer 204 means that the request was authorized and well-formed and that
    the sigil it names is now revoked. *)
Theorem admin_revoke_guarded (s : HTTPServer) oidc r (w : World S) :
  rq_Path r = "/admin/revoke" ->
  let '(resp, w') := run (ServeHTTP s oidc r) w in
  (~ authorized s r -> w' = w /\
     resp = Ok (http_Error ∅ "unauthorized" StatusUnauthorized)) /\
  (authorized s r -> (forall req, ~ revocation_asked r req) -> w' = w /\
     exists x, resp = Ok x /\
       (rs_Status x = StatusBadRequest \/ rs_Status x = StatusMethodNotAllowed)) /\
  (forall x, resp = Ok x -> rs_Status x = StatusNoContent ->
     authorized s r /\ exists req, revocation_asked r req /\
       revoked (w_store w') (rr_SigilID req) = true).
Proof.
  intros Hp. unfold ServeHTTP. rewrite Hp, decide_False, decide_False, decide_True by naive_solver.
  rewrite requireAdminSecret_run. destruct (decide (authorized s r)) as [Ha|Ha].
  2:{ split_and!; [done|done|]. by intros x [= <-]. }
  assert ((exists req, revocation_asked r req) \/ (forall req, ~ revocation_asked r req))
    as [[req Hreq]|Hno].
  { unfold revocation_asked. destruct (decide (rq_Method r = "POST")) as [Hm|Hm]; [|naive_solver].
    destruct (decode_revokeRequest (rq_Body r)) as [req|]; [|naive_solver].
    destruct (decide (rr_SigilID req = "")); [naive_solver|].
    destruct (decide (rr_RevokedBy req = "")); naive_solver. }
  - rewrite (handleAdminRevoke_run s r req w Hreq).
    destruct (run (RevokeSigil _ _ _ _) w) as [e w'] eqn:Er. split_and!; [done|naive_solver|].
    intros x Hx Hs. split; [done|]. exists req. split; [done|].
    destruct e as [[]|[]]; simplify_eq/=. by apply (RevokeSigil_Ok _ _ _ _ _ _ Er).
  - destruct (handleAdminRevoke_refuses s r w Hno) as (resp & -> & Hst).
    split_and!; [done|eauto|]. intros x [= <-] Hs. rewrite Hs in Hst. by destruct Hst.
Qed.
End admin.

Definition demo_server : HTTPServer :=
  mkServer demo_broker (buildJWKS demo_broker).1 (buildJWKS demo_broker).2 (to_bytes "s3cret").
Definition demo_revoke_request (secret : string) : Request :=
  mkRequest "POST" "/admin/revoke" (fun h => if decide (h = "X-Admin-Secret") then secret else "")
    "127.0.0.1:4000"
    (render (JObject [("sigil_id", JString "sigil-1"); ("reason", JString "leaked");
                  ("revoked_by", JString "operator")])).

Lemma admin_revoke_guarded_witness :
  revoked (w_store (run (ServeHTTP demo_server None (demo_revoke_request "s3cret")) demo_world).2)
    "sigil-1" = true.
Proof.
  pose proof (admin_revoke_guarded demo_server None (demo_revoke_request "s3cret") demo_world
    eq_refl) as H.
  assert ((run (ServeHTTP demo_server None (demo_revoke_request "s3cret")) demo_world).1 =
    Ok (mkResponse StatusNoContent ∅ NoBody)) as E by (vm_compute; reflexivity).
  destruct (run _ demo_world) as [resp w']. simpl in E. destruct H as (_ & _ & H).
  destruct (H _ E eq_refl) as (_ & req & (_ & Hd & _) & Hr). vm_compute in Hd.
  injection Hd as <-. exact Hr.
Defined.

(** The published key is the signing key.  A server is built only when the
    broker's public key has 32 bytes; GET serves a one-key set whose "x"
    member decodes to the signer's public key and whose key id, also sent in
    the X-Hanko-Kid header, decodes to the SHA-256 of that key. *)
Lemma jwks_publishes_signer getenv b s :
  NewHTTPServer getenv (Some b) = Ok s ->
  length (br_signerPub b) = PublicKeySize /\
  (exists x, JWKSDocument s = render (JObject [("keys", JArray [JObject
      [("kty", JString "OKP"); ("crv", JString "Ed25519"); ("alg", JString "EdDSA");
       ("kid", JString (JWKSKid s)); ("x", JString x); ("use", JString "sig")]])]) /\
     base64_rawurl_decode x = Some (br_signerPub b)) /\
  base64_rawurl_decode (JWKSKid s) = Some (sha256 (br_signerPub b)) /\
  (forall r, rq_Method r = "GET" ->
     rs_Body (handleJWKS s r) = Raw (JWKSDocument s) /\
     rs_Header (handleJWKS s r) !! "X-Hanko-Kid" = Some (brokerKid (br_signerPub b))).
Proof.
  unfold NewHTTPServer. case_decide as Hl; [done|].
  unfold buildJWKS. intros [= <-]. split_and!; [done| | |].
  - exists (base64_rawurl_encode (br_signerPub b)). split; [done|].
    apply base64_rawurl_decode_encode.
  - apply base64_rawurl_decode_encode.
  - intros r Hr. unfold handleJWKS. rewrite decide_False by (by intros ?). done.
Qed.

Lemma jwks_publishes_signer_witness :
  exists s, NewHTTPServer (fun _ => "") (Some demo_broker) = Ok s /\
    base64_rawurl_decode (JWKSKid s) = Some (sha256 demo_pub).
Proof.
  eexists. split; [reflexivity|].
  exact (proj1 (proj2 (proj2 (jwks_publishes_signer (fun _ => "") demo_broker _ eq_refl)))).
Defined.
