(* ===== verification/Metrics.v ===== *)
(** The metrics endpoint (internal/observability/metrics.go): the loopback
    server that exposes what the recording methods of [Effects] recorded.

    [Prom] stands for the Prometheus client library: the response of
    [promhttp]'s handler to a scrape of a registry with the given families
    after the given calls. *)

From S2P Require Import Prelude GoTime Protocol Store Effects Http.

Class Prom : Type := {
  promhttp_HandlerFor : list (string * list string) -> list prom_call -> Request -> Response
}.

Definition MetricsAddr : string := "127.0.0.1:9091".

(** The calls of the recording methods among what left the process. *)
Definition recorded_calls (tr : list effect) : list prom_call :=
  omap (fun e => match e with EMetric c => Some c | EPublish _ _ => None end) tr.

(** [MetricsServer]: the bound address; the [http.Server] sets no timeouts. *)
Record MetricsServer := mkMetricsServer { ms_addr : string; ms_timeouts : ServerTimeouts }.
(** [ServeMetrics], with the outcome of [net.Listen]. *)
Definition ServeMetrics (listen : string -> res string) (addr : string) : res MetricsServer :=
  match listen addr with
  | Err e => Err e
  | Ok bound => Ok (mkMetricsServer bound (mkTimeouts 0 0 0 0))
  end.
Definition Addr (s : MetricsServer) : string := ms_addr s.

(** [Metrics.Handler] over the registry of [NewMetrics]. *)
Definition Metrics_Handler {PR : Prom} (tr : list effect) (r : Request) : Response :=
  promhttp_HandlerFor NewMetrics (recorded_calls tr) r.
(** The mux: [/metrics] and nothing else. *)
Definition metrics_mux {PR : Prom} (tr : list effect) (r : Request) : Response :=
  if decide (rq_Path r = "/metrics") then Metrics_Handler tr r
  else http_Error ∅ "404 page not found" StatusNotFound.
