(* ===== verification/Oidc.v ===== *)
(** OIDC bootstrap (broker/oidc.go): the policy table, the JWKS cache, the
    token-exchange handler and its helpers.

    The identity provider and the JWT library are not part of the program:
    [Idp] is the answer of the n-th HTTP fetch, [JwtLib] the library calls.
    What a request leaves behind outside the store (JWKS cache, brute-force
    detector, audit file) is [OIDCState].  Error texts that only reach the
    server's log are abridged. *)

From stdpp Require pretty.
From S2P Require Import Prelude GoBytes GoStrings GoTime Protocol Json Canonical Sha256.
From S2P Require Import Observability Store Effects Crypto Envelope Broker BruteForce Decode Http.
From S2P Require Import JsonText Shared.
Local Open Scope Z_scope.

Definition MaxOIDCTTL : Z := 5 * Minute.
Definition DefaultOIDCTTL : Z := 30 * Second.

(** ** Policy *)

Record OIDCPolicyRow := mkRow {
  pr_Issuer : string;
  pr_Sub : string;
  pr_MappedSigil : string;
  pr_AllowedScopes : slice string;
  pr_MaxTTLSec : Z;
  pr_Enabled : bool
}.
Definition zero_row : OIDCPolicyRow := mkRow "" "" "" None 0 false.
Definition OIDCPolicyRow_fields : list (field OIDCPolicyRow) :=
  [("issuer", set_string (fun x r => mkRow x (pr_Sub r) (pr_MappedSigil r) (pr_AllowedScopes r)
                                       (pr_MaxTTLSec r) (pr_Enabled r)));
   ("sub", set_string (fun x r => mkRow (pr_Issuer r) x (pr_MappedSigil r) (pr_AllowedScopes r)
                                    (pr_MaxTTLSec r) (pr_Enabled r)));
   ("mapped_sigil", set_string (fun x r => mkRow (pr_Issuer r) (pr_Sub r) x (pr_AllowedScopes r)
                                             (pr_MaxTTLSec r) (pr_Enabled r)));
   ("allowed_scopes", set_strings (fun x r => mkRow (pr_Issuer r) (pr_Sub r) (pr_MappedSigil r) x
                                                (pr_MaxTTLSec r) (pr_Enabled r)));
   ("max_ttl_sec", set_int (fun x r => mkRow (pr_Issuer r) (pr_Sub r) (pr_MappedSigil r)
                                         (pr_AllowedScopes r) x (pr_Enabled r)));
   ("enabled", set_bool (fun x r => mkRow (pr_Issuer r) (pr_Sub r) (pr_MappedSigil r)
                                      (pr_AllowedScopes r) (pr_MaxTTLSec r) x))].

Definition OIDCPolicy : Type := gmap string OIDCPolicyRow.

Definition policyKey (issuer sub : string) : string := issuer +:+ "|" +:+ sub.

(** What reading the policy file gives. *)
Inductive file_read : Type :=
| NotExist
| ReadError (msg : string)
| Contents (raw : bytes).

(** A JSON array of rows; [null] is no rows. *)
Definition decode_rows (v : json) : option (list OIDCPolicyRow) :=
  match v with
  | JArray l => mapM (decode_struct false OIDCPolicyRow_fields zero_row) l
  | JNull => Some []
  | _ => None
  end.

Definition LoadOIDCPolicy (path : string) (file : file_read) : res OIDCPolicy :=
  if decide (path = "") then Ok ∅ else
  match file with
  | NotExist => Ok ∅
  | ReadError m => Err (Errorf_w "oidc policy: " (ErrStr m))
  | Contents raw =>
      match v ← unmarshal_json raw; decode_rows v with
      | None => Err (Errorf_w "oidc policy: parse: " (ErrStr "json: cannot unmarshal"))
      | Some rows => Ok (foldl (fun idx r => <[policyKey (pr_Issuer r) (pr_Sub r) := r]> idx) ∅ rows)
      end
  end.

Definition Len (p : OIDCPolicy) : Z := Z.of_nat (size p).
Definition Lookup (p : OIDCPolicy) (issuer sub : string) : option OIDCPolicyRow :=
  p !! policyKey issuer sub.

Definition scopesSubset (requested allowed : list string) : bool :=
  let allow : gset string := foldl (fun s x => {[x]} ∪ s) ∅ allowed in
  forallb (fun s => bool_decide (s ∈ allow)) requested.

(** The lifetime of a minted token. *)
Definition mint_ttl (row : OIDCPolicyRow) (requestedTTL : Z) : Z :=
  let ttl := if 0 <? pr_MaxTTLSec row then seconds (pr_MaxTTLSec row) else DefaultOIDCTTL in
  let ttl := if (0 <? requestedTTL) && (seconds requestedTTL <? ttl)
             then seconds requestedTTL else ttl in
  if MaxOIDCTTL <? ttl then MaxOIDCTTL else ttl.

(** ** The identity provider's keys *)

Record idpJWKSKey := mkIdpKey {
  ik_Kty : string; ik_Kid : string; ik_Alg : string; ik_Use : string;
  ik_N : string; ik_E : string }.
(** [rsa.PublicKey] *)
Record rsaKey := mkRsa { rsa_N : Z; rsa_E : Z }.

Record idpJWKSEntry := mkEntry { je_doc : list idpJWKSKey; je_fetched : Time }.

(** [big.Int.SetBytes], and the same digits shifted into an [int]. *)
Definition big_endian (l : bytes) : Z := foldl (fun acc a => acc * 256 + byte_val a) 0 l.
Definition big_endian_int (l : bytes) : Z :=
  foldl (fun e a => int64_wrap (Z.lor (int64_wrap (Z.shiftl e 8)) (byte_val a))) 0 l.

Definition rsaFromJWK (k : idpJWKSKey) : res rsaKey :=
  match base64_rawurl_decode (ik_N k) with
  | None => Err (Errorf_w "oidc: rsa n: " (ErrStr "illegal base64 data"))
  | Some nBytes =>
      match base64_rawurl_decode (ik_E k) with
      | None => Err (Errorf_w "oidc: rsa e: " (ErrStr "illegal base64 data"))
      | Some eBytes => Ok (mkRsa (big_endian nBytes) (big_endian_int eBytes))
      end
  end.

Definition idpJWKSKey_fields : list (field idpJWKSKey) :=
  [("kty", set_string (fun x k => mkIdpKey x (ik_Kid k) (ik_Alg k) (ik_Use k) (ik_N k) (ik_E k)));
   ("kid", set_string (fun x k => mkIdpKey (ik_Kty k) x (ik_Alg k) (ik_Use k) (ik_N k) (ik_E k)));
   ("alg", set_string (fun x k => mkIdpKey (ik_Kty k) (ik_Kid k) x (ik_Use k) (ik_N k) (ik_E k)));
   ("use", set_string (fun x k => mkIdpKey (ik_Kty k) (ik_Kid k) (ik_Alg k) x (ik_N k) (ik_E k)));
   ("n", set_string (fun x k => mkIdpKey (ik_Kty k) (ik_Kid k) (ik_Alg k) (ik_Use k) x (ik_E k)));
   ("e", set_string (fun x k => mkIdpKey (ik_Kty k) (ik_Kid k) (ik_Alg k) (ik_Use k) (ik_N k) x))].
Definition set_keys : json -> buffer idpJWKSKey -> option (buffer idpJWKSKey) :=
  decode_slice (fun v k => decode_struct false idpJWKSKey_fields k v)
    (mkIdpKey "" "" "" "" "" "").
Definition decode_jwks (v : json) : option (list idpJWKSKey) :=
  b ← decode_struct false [("keys", set_keys)] empty_buffer v; Some (elems (view b)).

(** The answer to an HTTP GET: a transport error, or a status and the body. *)
Inductive http_reply : Type :=
| TransportError (msg : string)
| Reply (status : Z) (body : res bytes).

(** What the exchange meets outside the process: the n-th fetch of a URL, and how
    many bytes of the n-th line reach the audit file (none when it cannot be
    opened). *)
Class Idp : Type := {
  idp_reply : nat -> string -> http_reply;
  audit_write : nat -> nat
}.

(** [fetch] *)
Definition fetch (reply : http_reply) : res (list idpJWKSKey) :=
  match reply with
  | TransportError m => Err (ErrStr m)
  | Reply status body =>
      if decide (status <> 200) then Err (ErrStr ("status " +:+ pretty.pretty status)) else
      match body with
      | Err e => Err e
      | Ok raw => match v ← unmarshal_json (limit_reader (2 ^ 20) raw); decode_jwks v with
                | None => Err (Errorf_w "parse: " (ErrStr "json: cannot unmarshal"))
                | Some doc => Ok doc
                end
      end
  end.

(** ** The JWT library *)

Class JwtLib : Type := {
  (** The unverified header: [None] when the token is malformed or its
      algorithm is not RS256, RS384 or RS512; else the kid, if a string. *)
  jwt_kid : string -> option string;
  (** Signature, issuer, audience and times checked at a time: the subject. *)
  jwt_validate : string -> rsaKey -> string -> string -> Time -> res string;
  (** [SignedString] with EdDSA: header, claims, private key. *)
  jwt_sign : json -> json -> bytes -> res string
}.

(** ** Configuration and state *)

Record OIDCConfig := mkOIDCConfig {
  oc_Policy : OIDCPolicy;
  oc_IssuerJWKSURLs : gmap string string;
  oc_Audience : string;
  oc_AuditPath : string;
  oc_JWKSCacheTTL : Z;
  oc_WorkspaceID : string
}.

Record OIDCState := mkOIDCState {
  os_cached : gmap string idpJWKSEntry;
  os_fetches : nat;
  os_bruteForce : BruteForceDetector;
  (** what each append added to the audit file *)
  os_audit : list bytes
}.

(** The cache is empty at first; its lifetime is the configuration's. *)
Definition newIDPJWKSCache : gmap string idpJWKSEntry := ∅.

(** [OIDCBootstrap]: the configuration and what the handlers share. *)
Definition OIDCBootstrap : Type := OIDCConfig * OIDCState.

(** [NewOIDCBootstrap]: the configuration with its defaults, and the initial
    state.  A nil policy is [None]. *)
Definition NewOIDCBootstrap (getenv : string -> string) (broker : option Broker)
    (policy : option OIDCPolicy) (cfg : OIDCConfig) : res OIDCBootstrap :=
  match broker, policy with
  | None, _ => Err (ErrStr "oidc: NewOIDCBootstrap: broker must not be nil")
  | _, None => Err (ErrStr "oidc: NewOIDCBootstrap: policy must not be nil")
  | Some _, Some p =>
      if decide (oc_IssuerJWKSURLs cfg = ∅) then
        Err (ErrStr "oidc: NewOIDCBootstrap: at least one issuer JWKS URL required")
      else if decide (oc_Audience cfg = "") then
        Err (ErrStr "oidc: NewOIDCBootstrap: HANKO_OIDC_AUDIENCE is required — empty audience bypasses audience verification")
      else
        Ok (mkOIDCConfig p (oc_IssuerJWKSURLs cfg) (oc_Audience cfg) (oc_AuditPath cfg)
              (if oc_JWKSCacheTTL cfg <=? 0 then Hour else oc_JWKSCacheTTL cfg)
              (oc_WorkspaceID cfg),
            mkOIDCState newIDPJWKSCache 0 (NewBruteForceDetector getenv (oc_WorkspaceID cfg)) [])
  end.

(** ** Request and response *)

Record BootstrapRequest := mkBootstrap {
  bq_OIDCToken : string; bq_OIDCIssuer : string; bq_Audience : string;
  bq_RequestedScope : string; bq_RequestedScopes : slice string; bq_RequestedTTL : Z }.
Definition BootstrapRequest_fields : list (field BootstrapRequest) :=
  [("oidc_token", set_string (fun x r => mkBootstrap x (bq_OIDCIssuer r) (bq_Audience r)
       (bq_RequestedScope r) (bq_RequestedScopes r) (bq_RequestedTTL r)));
   ("oidc_issuer", set_string (fun x r => mkBootstrap (bq_OIDCToken r) x (bq_Audience r)
       (bq_RequestedScope r) (bq_RequestedScopes r) (bq_RequestedTTL r)));
   ("audience", set_string (fun x r => mkBootstrap (bq_OIDCToken r) (bq_OIDCIssuer r) x
       (bq_RequestedScope r) (bq_RequestedScopes r) (bq_RequestedTTL r)));
   ("requested_scope", set_string (fun x r => mkBootstrap (bq_OIDCToken r) (bq_OIDCIssuer r)
       (bq_Audience r) x (bq_RequestedScopes r) (bq_RequestedTTL r)));
   ("requested_scopes", set_strings (fun x r => mkBootstrap (bq_OIDCToken r) (bq_OIDCIssuer r)
       (bq_Audience r) (bq_RequestedScope r) x (bq_RequestedTTL r)));
   ("requested_ttl_sec", set_int (fun x r => mkBootstrap (bq_OIDCToken r) (bq_OIDCIssuer r)
       (bq_Audience r) (bq_RequestedScope r) (bq_RequestedScopes r) x))].
(** [DisallowUnknownFields] *)
Definition decode_bootstrap (body : bytes) : option BootstrapRequest :=
  v ← decode_json (limit_reader (64 * 2 ^ 10) body);
  decode_struct true BootstrapRequest_fields (mkBootstrap "" "" "" "" None 0) v.

Definition errResponse (code reason : string) : json :=
  JObject (("error", JString code) :: if decide (reason = "") then [] else [("reason", JString reason)]).
Definition writeOIDCErr (h : gmap string string) (status : Z) (code reason : string) : Response :=
  mkResponse status h (Json (errResponse code reason)).

(** [BootstrapResponse] *)
Definition bootstrap_json (capToken : string) (expiresAt : json) (scope sigil : string) : json :=
  JObject [("cap_token", JString capToken); ("expires_at", expiresAt);
           ("granted_scope", JString scope); ("granted_sigil", JString sigil)].

(** [fmt.Sprintf("%v", []string)] *)
Definition sprint_strings (l : list string) : string := "[" +:+ Join l " " +:+ "]".

(** ** The caller's address *)

(** The panic of a slice expression out of range is an error here. *)
Definition splitHostPort (hostport : string) : res (string * string) :=
  match CutLast hostport ":" with
  | None => Ok (hostport, "")
  | Some (before, after) =>
      if HasPrefix hostport "[" then
        match cut "]" (to_bytes hostport) with
        | None => Err (ErrStr "missing ] in address")
        | Some (upto, rest) =>
            match rest with
            | [] => Err (Panic "slice bounds out of range")
            | _ :: port => Ok (of_bytes (tail upto), of_bytes port)
            end
        end
      else Ok (before, after)
  end.

Definition clientIP (r : Request) : res string :=
  let xff := rq_Header r "X-Forwarded-For" in
  let ip := if decide (xff = "") then ""
            else trim_space_utf8 (match Cut xff "," with Some (p, _) => p | None => xff end) in
  if decide (ip <> "") then Ok ip else
  match splitHostPort (rq_RemoteAddr r) with
  | Ok (host, _) => Ok host
  | Err (Panic m) => Err (Panic m)
  | Err _ => Ok (rq_RemoteAddr r)
  end.

(** ** The handler *)

(** A handler runs in its own goroutine and shares the state with the others:
    the key cache, the detector and the audit file each have a lock. *)
Abbreviation oidc := (sproc OIDCState).

Section handler.
Context {ED : Ed25519} {ID : Idp} {JL : JwtLib}.
Variable (b : Broker) (cfg : OIDCConfig).

(** The loop over the document's keys: the first key with the kid decides. *)
Definition select_key (doc : list idpJWKSKey) (url kid : string) : res rsaKey :=
  match list_find (fun k => ik_Kid k = kid) doc with
  | None => Err (ErrStr ("oidc: no key with kid=" +:+ kid +:+ " at " +:+ url))
  | Some (_, k) =>
      if decide (ik_Kty k <> "RSA") then
        Err (ErrStr ("oidc: unsupported kty for kid=" +:+ kid))
      else rsaFromJWK k
  end.

(** The cached document, refreshed when missing or expired; a stale one
    survives a failed refresh.  The lock is held throughout, the fetch
    included. *)
Definition keyByKid (url kid : string) : oidc (res rsaKey) := locked (fun st =>
  t ← now;
  let e := os_cached st !! url in
  let expired := match e with None => true | Some e => oc_JWKSCacheTTL cfg <? Sub t (je_fetched e) end in
  if negb expired then
    Ret (match e with Some e => select_key (je_doc e) url kid | None => Err (ErrStr "") end, [], st)
  else
    let st1 cached := mkOIDCState cached (1 + os_fetches st) (os_bruteForce st) (os_audit st) in
    match fetch (idp_reply (os_fetches st) url) with
    | Ok doc => Ret (select_key doc url kid, [], st1 (<[url := mkEntry doc t]> (os_cached st)))
    | Err err =>
        match e with
        | None => Ret (Err (Errorf_w ("oidc: fetch " +:+ url +:+ ": ") err), [], st1 (os_cached st))
        | Some e => Ret (select_key (je_doc e) url kid, [], st1 (os_cached st))
        end
    end).

(** The subject of a valid token of the issuer for the audience. *)
Definition verifyJWT (tok url issuer audience : string) : oidc (res string) :=
  match jwt_kid tok with
  | None => SRet (Err (ErrStr "token is malformed or its method is not allowed"))
  | Some kid =>
      if decide (kid = "") then SRet (Err (ErrStr "missing kid")) else
      k ← keyByKid url kid;
      match k with
      | Err e => SRet (Err e)
      | Ok key =>
          t ← lift now;
          SRet (jwt_validate tok key issuer audience t)
      end
  end.

Definition signCapJWT (cap : CapabilityToken) (row : OIDCPolicyRow) (scope : string)
    (expiresAt : Time) : proc (res string) :=
  t ← now;
  let num z := JNumber (pretty.pretty (z : Z)) in
  let claims := JObject [("iss", JString IssuerName); ("sub", JString (pr_MappedSigil row));
    ("scope", JString scope); ("jti", JString (cap_ID cap)); ("iat", num (Unix t));
    ("nbf", num (Unix t)); ("exp", num (Unix expiresAt))] in
  let header := JObject [("alg", JString "EdDSA"); ("typ", JString "JWT");
    ("kid", JString (brokerKid (br_signerPub b)))] in
  Ret (jwt_sign header claims (br_signerPriv b)).

(** A line of the audit file: the keys of the map in order. *)
Definition audit_line (t : Time) (req : BootstrapRequest) (sub outcome grantedScope : string) : bytes :=
  render (JObject [("granted_scope", JString grantedScope); ("issuer", JString (bq_OIDCIssuer req));
    ("outcome", JString outcome); ("sub", JString sub);
    ("ts", JString (format_rfc3339nano (UTC t)))]) ++ [newline].
(** The line is appended when a path is configured; the time is read before the
    lock is taken. *)
Definition audit (req : BootstrapRequest) (sub outcome grantedScope : string) : oidc unit :=
  if decide (oc_AuditPath cfg = "") then SRet tt else
  t ← lift now;
  let line := audit_line t req sub outcome grantedScope in
  locked (fun st =>
    Ret (tt, [], mkOIDCState (os_cached st) (os_fetches st) (os_bruteForce st)
                   (os_audit st ++ [take (audit_write (length (os_audit st))) line]))).

(** [recordFailureAt] under the detector's lock; an alert is published by a
    goroutine of its own. *)
Definition detect_failure (clientID : string) (t : Time) : oidc unit := locked (fun st =>
  let put d := mkOIDCState (os_cached st) (os_fetches st) d (os_audit st) in
  match (recordFailureAt "" clientID t (os_bruteForce st)).1 with
  | None => Ret (tt, [], put (recordFailureAt "" clientID t (os_bruteForce st)).2)
  | Some _ =>
      corrID ← new_uuid;
      let '(e, d) := recordFailureAt corrID clientID t (os_bruteForce st) in
      Ret (tt, match e with Some (s, p) => [EPublish s p] | None => [] end, put d)
  end).
(** [BruteForceDetector.RecordFailure]: the time is read before the lock is
    taken. *)
Definition RecordFailure (clientID : string) : oidc unit :=
  t ← lift now;
  detect_failure clientID t.

Definition endpoint : string := "/api/v1/sigils/bootstrap-oidc".

(** The lifecycle events of the handler. *)
Definition publish_event (action corrID clientID subjectID : string) (scopes : list string)
    (start : option Time) (outcome reason : string) : proc unit :=
  t ← now;
  t2 ← (match start with Some _ => now | None => Ret zero_time end);
  let duration := match start with Some s => Milliseconds (Sub t2 s) | None => 0 end in
  Publish (OIDCSubject (oc_WorkspaceID cfg) action corrID)
    (POIDC (mkOIDCEvent (format_rfc3339nano (UTC t)) corrID (oc_WorkspaceID cfg) clientID
              subjectID scopes endpoint duration outcome reason)).

(** The end of a failed attempt: [publishFail], then the error response. *)
Definition reject (corrID : string) (start : Time) (h : gmap string string)
    (clientID failure : string) (status : Z) (code reason : string) : oidc (res Response) :=
  _ ← lift (publish_event ActionFailed corrID clientID "" [] (Some start) "failure" failure);
  SRet (Ok (writeOIDCErr h status code reason)).

(** The token is signed, audited, announced and handed over. *)
Definition deliver (corrID : string) (start : Time) (h : gmap string string)
    (req : BootstrapRequest) (scopes : list string) (sub : string) (row : OIDCPolicyRow)
    (capTok : CapabilityToken) (scopeJoined : string) (expiresAt : Time) : oidc (res Response) :=
  jws ← lift (signCapJWT capTok row scopeJoined expiresAt);
  match jws with
  | Err (Panic m) => SRet (Err (Panic m))
  | Err _ => reject corrID start h (pr_MappedSigil row) "sign_failed"
               StatusInternalServerError "sign_failed" "internal error"
  | Ok jws =>
      _ ← audit req sub "granted" scopeJoined;
      _ ← lift (publish_event ActionCodeIssued corrID (pr_MappedSigil row) sub scopes
            (Some start) "success" "");
      SRet (Ok (mkResponse StatusOK h (match json_time expiresAt with
                  | Ok x => Json (bootstrap_json jws x scopeJoined (pr_MappedSigil row))
                  | Err _ => NoBody end)))
  end.

(** Steps after the token was verified, for subject [sub]. *)
Definition mint (corrID : string) (start : Time) (h : gmap string string) (req : BootstrapRequest)
    (scopes : list string) (sub : string) : oidc (res Response) :=
  match Lookup (oc_Policy cfg) (bq_OIDCIssuer req) sub with
  | Some row =>
      if negb (pr_Enabled row) then
        _ ← audit req sub "no_policy" "";
        reject corrID start h (pr_MappedSigil row) "no_policy" StatusForbidden "no_policy"
          ("no enabled policy for sub=" +:+ sub +:+ " on issuer=" +:+ bq_OIDCIssuer req)
      else if negb (scopesSubset scopes (elems (pr_AllowedScopes row))) then
        _ ← audit req sub "policy_denied" (Join scopes " ");
        reject corrID start h (pr_MappedSigil row) "policy_denied" StatusForbidden "policy_denied"
          ("requested scopes exceed policy: requested=" +:+ sprint_strings scopes +:+
           " allowed=" +:+ sprint_strings (elems (pr_AllowedScopes row)))
      else
        let ttl := mint_ttl row (bq_RequestedTTL req) in
        let scopeJoined := Join scopes " " in
        t ← lift now;
        let expiresAt := Add t ttl in
        c ← lift (IssueCap b (pr_MappedSigil row) scopeJoined expiresAt);
        match c with
        | Err (Panic m) => SRet (Err (Panic m))
        | Err _ => reject corrID start h (pr_MappedSigil row) "mint_failed"
                     StatusInternalServerError "mint_failed" "internal error"
        | Ok capTok =>
            _ ← lift (publish_event ActionTokenIssued corrID (pr_MappedSigil row) sub scopes
                  (Some start) "success" "");
            deliver corrID start h req scopes sub row capTok scopeJoined expiresAt
        end
  | None =>
      _ ← audit req sub "no_policy" "";
      reject corrID start h "" "no_policy" StatusForbidden "no_policy"
        ("no enabled policy for sub=" +:+ sub +:+ " on issuer=" +:+ bq_OIDCIssuer req)
  end.

(** The scopes asked for: the list, then the single one. *)
Definition requested_scopes (req : BootstrapRequest) : list string :=
  elems (bq_RequestedScopes req) ++
  if decide (bq_RequestedScope req = "") then [] else [bq_RequestedScope req].

(** The answer to a token that is not valid. *)
Definition invalid_token (corrID : string) (start : Time) (h : gmap string string) (r : Request) :
    oidc (res Response) :=
  _ ← lift (publish_event ActionFailed corrID "" "" [] (Some start) "failure" "invalid_token");
  match clientIP r with
  | Err e => SRet (Err e)
  | Ok ip =>
      _ ← RecordFailure ip;
      SRet (Ok (writeOIDCErr h StatusUnauthorized "invalid_token" "token validation failed"))
  end.

(** The handler after it announced the request. *)
Definition exchange (corrID : string) (start : Time) (h : gmap string string) (r : Request) :
    oidc (res Response) :=
  let reject := reject corrID start h in
  match decode_bootstrap (rq_Body r) with
  | None => reject "" "invalid_request" StatusBadRequest "invalid_request"
              "request body could not be decoded"
  | Some req =>
      if decide (bq_OIDCToken req = "" \/ bq_OIDCIssuer req = "" \/ bq_Audience req = "") then
        reject "" "missing_required_fields" StatusBadRequest "invalid_request"
          "oidc_token, oidc_issuer, audience required"
      else if decide (bq_Audience req <> oc_Audience cfg) then
        reject "" "audience_mismatch" StatusUnauthorized "audience_mismatch"
          "configured audience mismatch"
      else if decide (requested_scopes req = []) then
        reject "" "no_scopes_requested" StatusBadRequest "invalid_request"
          "requested_scope or requested_scopes required"
      else match oc_IssuerJWKSURLs cfg !! bq_OIDCIssuer req with
      | None => reject "" "unknown_issuer" StatusUnauthorized "unknown_issuer"
                  "issuer not configured"
      | Some url =>
          claims ← verifyJWT (bq_OIDCToken req) url (bq_OIDCIssuer req) (bq_Audience req);
          match claims with
          | Err (Panic m) => SRet (Err (Panic m))
          | Err _ => invalid_token corrID start h r
          | Ok sub => mint corrID start h req (requested_scopes req) sub
          end
      end
  end.

Definition Handle (r : Request) : oidc (res Response) :=
  start ← lift now;
  if decide (rq_Method r <> "POST") then
    SRet (Ok (http_Error {["Allow" := "POST"]} "method not allowed" StatusMethodNotAllowed))
  else
  corrID ← lift (if decide (rq_Header r "X-Shikki-Corr-Id" = "") then new_uuid
                 else Ret (rq_Header r "X-Shikki-Corr-Id"));
  let h : gmap string string := <["X-Shikki-Corr-Id" := corrID]>
             {["Content-Type" := "application/json; charset=utf-8"]} in
  _ ← lift (publish_event ActionAuthRequest corrID "" "" [] None "pending" "");
  exchange corrID start h r.
End handler.
