(* ===== verification/OidcProofs.v ===== *)
(** What every run of the OIDC bootstrap handler does, whatever other handlers
    do meanwhile: the steps of [Oidc.Handle], one lemma per helper, in the
    terms of [Shared.assures]. *)

From S2P Require Import Prelude GoBytes GoStrings GoTime Protocol Json Canonical Sha256.
From S2P Require Import Observability Store Effects Crypto Envelope Broker BruteForce Decode Http.
From S2P Require Import Shared Oidc.
Local Open Scope Z_scope.

(** The lifecycle events among the acts of a run. *)
Definition lifecycle (es : list act) : list (NATSSubject * OIDCEvent) :=
  omap (fun a => match a with Emitted (EPublish s (POIDC e)) => Some (s, e) | _ => None end) es.
Definition is_call (a : act) : bool := match a with Called _ _ => true | Emitted _ => false end.

Lemma lifecycle_app es1 es2 : lifecycle (es1 ++ es2) = lifecycle es1 ++ lifecycle es2.
Proof. apply omap_app. Qed.

Lemma scopesSubset_spec requested allowed :
  scopesSubset requested allowed = true <-> Forall (.∈ allowed) requested.
Proof.
  unfold scopesSubset. rewrite <-Is_true_true, forallb_True.
  assert (forall l (s : gset string) x,
    x ∈ foldl (fun s x => {[x]} ∪ s) s l <-> x ∈ l \/ x ∈ s) as H.
  { induction l as [|y l IH]; intros s x; simpl; [set_solver|]. rewrite IH. set_solver. }
  rewrite !Forall_forall. setoid_rewrite bool_decide_spec. setoid_rewrite H. set_solver.
Qed.

(** ** The shared state *)

Section shared.
Context {ID : Idp}.

(** The document is one its URL served. *)
Definition served (url : string) (doc : list idpJWKSKey) : Prop :=
  exists n, fetch (idp_reply n url) = Ok doc.

(** The event of an alert, for the goroutine that publishes it. *)
Definition alert_effects (e : option event) : list effect :=
  match e with Some (s, p) => [EPublish s p] | None => [] end.

(** The critical sections: the key cache, a line of the audit file, a failure. *)
Inductive oidc_label : Type :=
| LKeys
| LAudit (line : bytes)
| LDetect (clientID : string) (e : option event).
(** What the goroutines they start publish. *)
Definition label_events (l : oidc_label) : list effect :=
  match l with LDetect _ e => alert_effects e | _ => [] end.
(** The lines among the sections of a thread. *)
Definition audits (ls : list oidc_label) : list bytes :=
  omap (fun l => match l with LAudit line => Some line | _ => None end) ls.

Lemma audits_app ls1 ls2 : audits (ls1 ++ ls2) = audits ls1 ++ audits ls2.
Proof. apply omap_app. Qed.

(** What the sections do to the shared state. *)
Inductive oidc_step : OIDCState -> oidc_label -> OIDCState -> Prop :=
| step_keys st cached n :
    (forall url e, cached !! url = Some e -> os_cached st !! url = Some e \/ served url (je_doc e)) ->
    oidc_step st LKeys (mkOIDCState cached n (os_bruteForce st) (os_audit st))
| step_audit st line :
    oidc_step st (LAudit line)
      (mkOIDCState (os_cached st) (os_fetches st) (os_bruteForce st)
         (os_audit st ++ [take (audit_write (length (os_audit st))) line]))
| step_detect st corrID clientID t e d :
    recordFailureAt corrID clientID t (os_bruteForce st) = (e, d) ->
    oidc_step st (LDetect clientID e)
      (mkOIDCState (os_cached st) (os_fetches st) d (os_audit st)).

(** Every cached document is one its URL served. *)
Definition cache_honest (st : OIDCState) : Prop :=
  forall url e, os_cached st !! url = Some e -> served url (je_doc e).

Lemma cache_honest_stable st sp st' : cache_honest st -> oidc_step st sp st' -> cache_honest st'.
Proof. intros H Hs. destruct Hs as [st cached n Hc| |]; [|exact H..]. intros url e He. destruct (Hc url e He); eauto. Qed.

End shared.

Section handler.
Context {ED : Ed25519} {ID : Idp} {JL : JwtLib}.
Variable (T : Time -> Prop) (b : Broker) (cfg : OIDCConfig).
Abbreviation guarantees := (assures T cache_honest oidc_step label_events).

Abbreviation subject_of action corrID := (OIDCSubject (oc_WorkspaceID cfg) action corrID).

(** One lifecycle event. *)
Definition publishes (action corrID clientID outcome reason : string) (es : list act) : Prop :=
  exists ev, es = [Emitted (EPublish (subject_of action corrID) (POIDC ev))] /\
    oe_CorrID ev = corrID /\ oe_ClientID ev = clientID /\ oe_Outcome ev = outcome /\
    oe_FailureReason ev = reason.

Lemma publish_event_ensures action corrID clientID sub scopes start outcome reason :
  ensures T (publish_event cfg action corrID clientID sub scopes start outcome reason)
    (fun es _ => publishes action corrID clientID outcome reason es).
Proof.
  unfold publish_event. simpl. intros t _. apply ensures_bind.
  destruct start; simpl; intros; eexists; split; (done || simpl; done).
Qed.

Lemma reject_assures corrID start h clientID failure status code reason :
  guarantees (reject cfg corrID start h clientID failure status code reason)
    (fun es ls x => x = Ok (writeOIDCErr h status code reason) /\ ls = [] /\
       publishes ActionFailed corrID clientID "failure" failure es).
Proof.
  unfold reject. eapply assures_lift_seq; [apply publish_event_ensures|].
  intros es [] Hes. cbn. by rewrite app_nil_r.
Qed.

(** A line about the decision, when there is an audit file. *)
Definition audited (req : BootstrapRequest) (sub outcome scope : string) (ls : list oidc_label) : Prop :=
  if decide (oc_AuditPath cfg = "") then audits ls = []
  else exists t, T t /\ audits ls = [audit_line t req sub outcome scope].

Lemma audit_assures req sub outcome scope :
  guarantees (audit cfg req sub outcome scope)
    (fun es ls _ => es = [] /\ audited req sub outcome scope ls).
Proof.
  unfold audit, audited. case_decide as Hp; [done|]. apply assures_now. intros t Ht st _.
  exists (LAudit (audit_line t req sub outcome scope)). split; [reflexivity|].
  split; [apply step_audit|]. split; [reflexivity|]. exists t. split; [exact Ht|reflexivity].
Qed.

Lemma RecordFailure_assures ip :
  guarantees (RecordFailure ip) (fun es ls _ => es = [] /\ audits ls = []).
Proof.
  unfold RecordFailure, detect_failure. apply assures_now. intros t _ st _.
  destruct (recordFailureAt "" ip t (os_bruteForce st)) as [[e|] d] eqn:E; cbn.
  - intros corrID _. destruct (recordFailureAt corrID ip t (os_bruteForce st)) as [e' d'] eqn:E'.
    cbn. exists (LDetect ip e'). split_and!; [done| |done..]. by eapply step_detect.
  - exists (LDetect ip None). split_and!; [done| |done..]. by apply (step_detect _ "" ip t None d).
Qed.

Lemma keyByKid_assures url kid :
  guarantees (keyByKid cfg url kid) (fun es ls x => es = [] /\ audits ls = [] /\ forall key, x = Ok key ->
    exists doc, served url doc /\ select_key doc url kid = Ok key).
Proof.
  unfold keyByKid. cbn. intros st Hst t _.
  assert (forall doc u e, fetch (idp_reply (os_fetches st) url) = Ok doc ->
    <[url := mkEntry doc t]> (os_cached st) !! u = Some e ->
    os_cached st !! u = Some e \/ served u (je_doc e)) as Hnew.
  { intros doc u e Hf [[<- <-]|[_ He]]%lookup_insert_Some; [right; by eexists|by left]. }
  assert (oidc_step st LKeys st) as Hrefl
    by (destruct st as [c f d a]; apply (step_keys (mkOIDCState c f d a)); auto).
  assert (forall cached n (x : res rsaKey), (forall u e, cached !! u = Some e ->
      os_cached st !! u = Some e \/ served u (je_doc e)) ->
    (forall key, x = Ok key -> exists doc, served url doc /\ select_key doc url kid = Ok key) ->
    exists l, [] = label_events l /\
      oidc_step st l (mkOIDCState cached n (os_bruteForce st) (os_audit st)) /\
      [] = @nil act /\ audits [l] = [] /\
      forall key, x = Ok key -> exists doc, served url doc /\ select_key doc url kid = Ok key) as Hput.
  { intros cached n x Hc Hx. exists LKeys. split_and!; try done. by constructor. }
  destruct (os_cached st !! url) as [e|] eqn:Ee; [|cbn [negb]].
  - pose proof (Hst url e Ee) as Hs. case_match; cbn.
    + exists LKeys. split_and!; [done..|]. eauto.
    + destruct (fetch _) as [doc|] eqn:Ef; cbn; apply Hput; eauto.
      intros key Hk. exists doc. split; [by eexists|done].
  - destruct (fetch _) as [doc|] eqn:Ef; cbn; apply Hput; eauto; [|done].
    intros key Hk. exists doc. split; [by eexists|done].
Qed.

(** The token is a valid one of the issuer for the audience at [t]. *)
Definition authenticated (tok url issuer audience sub : string) (t : Time) : Prop :=
  exists kid doc key, jwt_kid tok = Some kid /\ kid <> "" /\ served url doc /\
    select_key doc url kid = Ok key /\ jwt_validate tok key issuer audience t = Ok sub.

Lemma verifyJWT_assures tok url issuer audience :
  guarantees (verifyJWT cfg tok url issuer audience)
    (fun es ls x => es = [] /\ audits ls = [] /\ forall sub, x = Ok sub ->
       exists t, T t /\ authenticated tok url issuer audience sub t).
Proof.
  unfold verifyJWT, authenticated. destruct (jwt_kid tok) as [kid|] eqn:Ek; [|done].
  case_decide as Hk; [done|]. eapply assures_seq; [apply keyByKid_assures|].
  intros es ls [key|e] (-> & Hls & Hkey); [|cbn; by rewrite app_nil_r].
  apply assures_now. intros t Ht. cbn. rewrite app_nil_r. split_and!; [done..|].
  intros sub Hs. destruct (Hkey key eq_refl) as (doc & Hdoc & Hsel). naive_solver.
Qed.

(** The claims and the header of a minted token. *)
Definition token_claims (cap : CapabilityToken) (sigil scope : string) (iat exp : Time) : json :=
  let num z := JNumber (stdpp.pretty.pretty (z : Z)) in
  JObject [("iss", JString IssuerName); ("sub", JString sigil); ("scope", JString scope);
           ("jti", JString (cap_ID cap)); ("iat", num (Unix iat)); ("nbf", num (Unix iat));
           ("exp", num (Unix exp))].
Definition token_header : json :=
  JObject [("alg", JString "EdDSA"); ("typ", JString "JWT");
           ("kid", JString (brokerKid (br_signerPub b)))].

Lemma signCapJWT_ensures cap row scope exp :
  ensures T (signCapJWT b cap row scope exp)
    (fun es x => es = [] /\ exists iat, T iat /\
       x = jwt_sign token_header (token_claims cap (pr_MappedSigil row) scope iat exp)
             (br_signerPriv b)).
Proof. unfold signCapJWT. simpl. intros t Ht. split; [done|]. by exists t. Qed.

Lemma IssueCap_ensures sigil scope exp :
  ensures T (IssueCap b sigil scope exp)
    (fun es x => lifecycle es = [] /\ forall cap, x = Ok cap ->
       (exists sg, es = [Called (OGetSigil sigil) (Ok sg); Called (OSaveCap cap) (Ok tt)]) /\
       cap_SigilID cap = sigil /\ cap_Scope cap = scope /\ cap_ExpiresAt cap = exp).
Proof.
  unfold IssueCap.
  eapply (ensures_try_with _ _ _ _ (fun es x => es = [Called (OGetSigil sigil) x])); simpl.
  { done. }
  2:{ by intros ? e ->. }
  intros es sg ->. unfold GenerateNonce, try_with. simpl. intros [nonce|e] _; simpl; [|done].
  intros id _ t _ [[]|e] _; simpl; [|done]. split; [done|].
  intros cap [= <-]. split_and!; [by exists sg|done..].
Qed.

(** The actions of the lifecycle events, all for one correlation id. *)
Definition announces (corrID : string) (actions : list string) (es : list act) : Prop :=
  (lifecycle es).*1 = (fun a => subject_of a corrID) <$> actions.

Lemma announces_nil corrID : announces corrID [] [].
Proof. done. Qed.
Lemma announces_silent corrID es : lifecycle es = [] -> announces corrID [] es.
Proof. unfold announces. by intros ->. Qed.
Lemma announces_one action corrID clientID outcome reason es :
  publishes action corrID clientID outcome reason es -> announces corrID [action] es.
Proof. by intros (ev & -> & _). Qed.
Lemma announces_app corrID l1 l2 es1 es2 :
  announces corrID l1 es1 -> announces corrID l2 es2 -> announces corrID (l1 ++ l2) (es1 ++ es2).
Proof. unfold announces. rewrite lifecycle_app, !fmap_app. by intros -> ->. Qed.

Definition calls (es : list act) : list act := filter is_call es.
Lemma calls_app es1 es2 : calls (es1 ++ es2) = calls es1 ++ calls es2.
Proof. apply filter_app. Qed.
Lemma calls_publishes action corrID clientID outcome reason es :
  publishes action corrID clientID outcome reason es -> calls es = [].
Proof. by intros (ev & -> & _). Qed.

(** A capability minted for [sub] under a row of the policy, and the response
    that hands it over as a signed token. *)
Definition minted (req : BootstrapRequest) (sub : string) (es : list act) (ls : list oidc_label)
    (resp : Response) : Prop :=
  exists row cap jws issued iat,
    Lookup (oc_Policy cfg) (bq_OIDCIssuer req) sub = Some row /\ pr_Enabled row = true /\
    Forall (.∈ elems (pr_AllowedScopes row)) (requested_scopes req) /\
    let scope := Join (requested_scopes req) " " in
    let exp := Add issued (mint_ttl row (bq_RequestedTTL req)) in
    T issued /\ T iat /\
    (exists sg, calls es = [Called (OGetSigil (pr_MappedSigil row)) (Ok sg);
                            Called (OSaveCap cap) (Ok tt)]) /\
    audited req sub "granted" scope ls /\
    cap_SigilID cap = pr_MappedSigil row /\ cap_Scope cap = scope /\ cap_ExpiresAt cap = exp /\
    jwt_sign token_header (token_claims cap (pr_MappedSigil row) scope iat exp)
      (br_signerPriv b) = Ok jws /\
    rs_Body resp = match json_time exp with
                   | Ok x => Json (bootstrap_json jws x scope (pr_MappedSigil row))
                   | Err _ => NoBody
                   end.

(** The policy has no enabled row for the subject, or not all the scopes. *)
Definition denied (req : BootstrapRequest) (sub : string) (ls : list oidc_label) : Prop :=
  audited req sub "no_policy" "" ls \/
  audited req sub "policy_denied" (Join (requested_scopes req) " ") ls.

(** The end of a request: refused without touching the store, denied by the
    policy, failed inside the broker, or granted. *)
Inductive ends (corrID : string) (denied : list oidc_label -> Prop)
    (granted : list act -> list oidc_label -> Response -> Prop) :
    list act -> list oidc_label -> Response -> Prop :=
| ends_refused es ls resp :
    rs_Status resp = StatusBadRequest \/ rs_Status resp = StatusUnauthorized ->
    announces corrID [ActionFailed] es -> calls es = [] -> audits ls = [] ->
    ends corrID denied granted es ls resp
| ends_denied es ls resp :
    rs_Status resp = StatusForbidden ->
    announces corrID [ActionFailed] es -> calls es = [] -> denied ls ->
    ends corrID denied granted es ls resp
| ends_failed es ls resp :
    rs_Status resp = StatusInternalServerError ->
    announces corrID [ActionFailed] es \/ announces corrID [ActionTokenIssued; ActionFailed] es ->
    audits ls = [] ->
    ends corrID denied granted es ls resp
| ends_granted es ls resp :
    rs_Status resp = StatusOK ->
    announces corrID [ActionTokenIssued; ActionCodeIssued] es -> granted es ls resp ->
    ends corrID denied granted es ls resp.

(** The result of a handler: a response with the headers set so far, or a panic. *)
Definition responds (corrID : string) (h : gmap string string) (denied : list oidc_label -> Prop)
    (granted : list act -> list oidc_label -> Response -> Prop) (es : list act)
    (ls : list oidc_label) (x : res Response) : Prop :=
  match x with
  | Ok resp => rs_Header resp = h /\ ends corrID denied granted es ls resp
  | Err e => exists m, e = Panic m
  end.

Lemma reject_refuses corrID start h clientID failure status code reason D Gr :
  status = StatusBadRequest \/ status = StatusUnauthorized ->
  guarantees (reject cfg corrID start h clientID failure status code reason)
    (responds corrID h D Gr).
Proof.
  intros Hs. eapply assures_mono; [apply reject_assures|]. intros es ls x (-> & -> & Hes).
  split; [done|]. apply ends_refused; [done| | |done].
  - by eapply announces_one.
  - by eapply calls_publishes.
Qed.

Lemma audit_then_denies req sub outcome joined corrID start h clientID failure code reason
    (D : list oidc_label -> Prop) Gr :
  (forall ls, audited req sub outcome joined ls -> D ls) ->
  guarantees (_ ← audit cfg req sub outcome joined;
              reject cfg corrID start h clientID failure StatusForbidden code reason)
    (responds corrID h D Gr).
Proof.
  intros HD. eapply assures_seq; [apply audit_assures|]. intros es ls [] [-> Hls].
  eapply assures_mono; [apply reject_assures|]. intros es' ls' x (-> & -> & Hes).
  rewrite app_nil_r. split; [done|]. apply ends_denied; [done| | |by apply HD].
  - by eapply announces_one.
  - by eapply calls_publishes.
Qed.

(** A failure inside the broker, after what was announced so far. *)
Lemma reject_fails corrID start h clientID failure code reason D Gr before es0 :
  before = [] \/ before = [ActionTokenIssued] -> announces corrID before es0 ->
  guarantees (reject cfg corrID start h clientID failure StatusInternalServerError code reason)
    (fun es ls x => responds corrID h D Gr (es0 ++ es) ls x).
Proof.
  intros Hb H0. eapply assures_mono; [apply reject_assures|].
  intros es ls x (-> & -> & Hes%announces_one). split; [done|]. apply ends_failed; [done| |done].
  pose proof (announces_app _ _ _ _ _ H0 Hes). destruct Hb as [-> | ->]; auto.
Qed.

(** Signing, auditing and handing over a stored capability. *)
Lemma deliver_assures corrID start h req sub row cap issued es0 :
  Lookup (oc_Policy cfg) (bq_OIDCIssuer req) sub = Some row -> pr_Enabled row = true ->
  Forall (.∈ elems (pr_AllowedScopes row)) (requested_scopes req) ->
  let scope := Join (requested_scopes req) " " in
  let exp := Add issued (mint_ttl row (bq_RequestedTTL req)) in
  T issued -> cap_SigilID cap = pr_MappedSigil row -> cap_Scope cap = scope ->
  cap_ExpiresAt cap = exp ->
  announces corrID [ActionTokenIssued] es0 ->
  (exists sg, calls es0 = [Called (OGetSigil (pr_MappedSigil row)) (Ok sg);
                           Called (OSaveCap cap) (Ok tt)]) ->
  guarantees (deliver b cfg corrID start h req (requested_scopes req) sub row cap scope exp)
    (fun es ls x => responds corrID h (denied req sub) (minted req sub) (es0 ++ es) ls x).
Proof.
  intros Hl He Hall scope exp Ht Hc1 Hc2 Hc3 H0 [sg Hcalls].
  eapply assures_lift_seq; [apply signCapJWT_ensures|]. intros es jws (-> & iat & Hiat & Hj).
  destruct jws as [jws|e].
  2:{ destruct e; try (by eapply reject_fails; eauto). by eexists. }
  eapply assures_seq; [apply audit_assures|]. intros es ls [] [-> Hls].
  eapply assures_lift_seq; [apply publish_event_ensures|]. intros es [] Hes. cbn.
  rewrite !app_nil_r. split; [done|]. apply ends_granted; [done| |].
  - exact (announces_app _ _ _ _ _ H0 (announces_one _ _ _ _ _ _ Hes)).
  - exists row, cap, jws, issued, iat. rewrite calls_app, (calls_publishes _ _ _ _ _ _ Hes), app_nil_r.
    cbv zeta. split_and!; try done. by exists sg.
Qed.

Lemma mint_assures corrID start h req sub :
  guarantees (mint b cfg corrID start h req (requested_scopes req) sub)
    (responds corrID h (denied req sub) (minted req sub)).
Proof.
  unfold mint, denied. destruct (Lookup _ _ _) as [row|] eqn:Hl; [|apply audit_then_denies; auto].
  destruct (pr_Enabled row) eqn:He; cbn [negb]; [|apply audit_then_denies; auto].
  destruct (scopesSubset _ _) eqn:Hs; cbn [negb]; [|apply audit_then_denies; auto].
  apply scopesSubset_spec in Hs. apply assures_now. intros issued Ht.
  eapply assures_lift_seq; [apply IssueCap_ensures|]. intros es [cap|e] [Hes Hcap].
  - destruct (Hcap cap eq_refl) as ([sg Ees] & Hc1 & Hc2 & Hc3).
    eapply assures_lift_seq; [apply publish_event_ensures|]. intros es' [] Hpub.
    eapply assures_mono.
    { apply (deliver_assures corrID start h req sub row cap issued (es ++ es')); try done.
      - apply (announces_app _ [] _); [by apply announces_silent|by eapply announces_one].
      - exists sg. rewrite calls_app, (calls_publishes _ _ _ _ _ _ Hpub), Ees. done. }
    cbn beta. intros es'' ls x. by rewrite <-app_assoc.
  - apply (announces_silent corrID) in Hes.
    destruct e; try (by eapply reject_fails with (before := []); eauto). by eexists.
Qed.

(** What a granted request had to satisfy. *)
Definition granted (r : Request) (es : list act) (ls : list oidc_label) (resp : Response) : Prop :=
  exists req url sub t,
    decode_bootstrap (rq_Body r) = Some req /\ bq_Audience req = oc_Audience cfg /\
    requested_scopes req <> [] /\ oc_IssuerJWKSURLs cfg !! bq_OIDCIssuer req = Some url /\
    T t /\ authenticated (bq_OIDCToken req) url (bq_OIDCIssuer req) (bq_Audience req) sub t /\
    minted req sub es ls resp.

(** A token that was valid, for a subject the policy does not let in. *)
Definition refused_by_policy (r : Request) (ls : list oidc_label) : Prop :=
  exists req url sub t,
    decode_bootstrap (rq_Body r) = Some req /\ T t /\
    oc_IssuerJWKSURLs cfg !! bq_OIDCIssuer req = Some url /\
    authenticated (bq_OIDCToken req) url (bq_OIDCIssuer req) (bq_Audience req) sub t /\
    denied req sub ls.

Lemma responds_mono corrID h (D D' : list oidc_label -> Prop)
    (Gr Gr' : list act -> list oidc_label -> Response -> Prop) es ls x ls' :
  (audits ls = audits ls' -> D ls -> D' ls') ->
  (audits ls = audits ls' -> forall resp, Gr es ls resp -> Gr' es ls' resp) ->
  audits ls = audits ls' ->
  responds corrID h D Gr es ls x -> responds corrID h D' Gr' es ls' x.
Proof.
  unfold responds. intros HD HG E. destruct x; [|done]. intros [Hh He]. split; [done|].
  destruct He; [apply ends_refused; congruence|apply ends_denied; auto|
    apply ends_failed; congruence|apply ends_granted; auto].
Qed.

Lemma audited_audits req sub outcome scope ls ls' :
  audits ls = audits ls' -> audited req sub outcome scope ls -> audited req sub outcome scope ls'.
Proof. unfold audited. by intros ->. Qed.

Lemma clientIP_Err r e : clientIP r = Err e -> exists m, e = Panic m.
Proof. unfold clientIP. repeat case_match; naive_solver. Qed.

Lemma invalid_token_refuses corrID start h r D Gr :
  guarantees (invalid_token cfg corrID start h r) (responds corrID h D Gr).
Proof.
  unfold invalid_token. eapply assures_lift_seq; [apply publish_event_ensures|]. intros es [] Hes.
  destruct (clientIP r) as [ip|e] eqn:Ei; [|by apply clientIP_Err in Ei].
  eapply assures_seq; [apply RecordFailure_assures|]. intros es' ls [] [-> Hls]. cbn.
  rewrite !app_nil_r. split; [done|]. apply ends_refused; [auto| | |done].
  - by eapply announces_one.
  - by eapply calls_publishes.
Qed.

Lemma exchange_assures corrID start h r :
  guarantees (exchange b cfg corrID start h r)
    (responds corrID h (refused_by_policy r) (granted r)).
Proof.
  unfold exchange. destruct (decode_bootstrap _) as [req|] eqn:Hd; [|apply reject_refuses; auto].
  case_decide as Hf; [apply reject_refuses; auto|].
  case_decide as Ha; [apply reject_refuses; auto|].
  case_decide as Hs; [apply reject_refuses; auto|].
  destruct (_ !! _) as [url|] eqn:Hu; [|apply reject_refuses; auto].
  eapply assures_seq; [apply verifyJWT_assures|]. intros es ls [sub|e] (-> & Hls & Hsub).
  - destruct (Hsub sub eq_refl) as (t & Ht & Hauth).
    eapply assures_mono; [apply mint_assures|]. intros es ls' x. apply responds_mono.
    + intros E Hdn. exists req, url, sub, t. split_and!; [done..|].
      destruct Hdn; [left|right]; by eapply audited_audits.
    + intros E resp (row & cap & jws & issued & iat & Hm). exists req, url, sub, t.
      split_and!; [done..|]. exists row, cap, jws, issued, iat. cbv zeta in *.
      destruct Hm as (? & ? & ? & ? & ? & ? & Hau & Hm). apply (audited_audits _ _ _ _ _ _ E) in Hau.
      do 6 (split; [done|]). by split.
    + by rewrite audits_app, Hls.
  - destruct e; try (eapply assures_mono;
      [apply (invalid_token_refuses _ _ _ _ (fun _ => False) (fun _ _ _ => False))|];
      intros es ls' x; apply responds_mono; [done..|by rewrite audits_app, Hls]). by eexists.
Qed.

(** The handler: a wrong method is refused in silence, any other request is
    announced first. *)
Definition handled (r : Request) (es : list act) (ls : list oidc_label) (x : res Response) : Prop :=
  (rq_Method r <> "POST" /\ es = [] /\ ls = [] /\
     x = Ok (http_Error {["Allow" := "POST"]} "method not allowed" StatusMethodNotAllowed)) \/
  (rq_Method r = "POST" /\ exists corrID es1 es2,
     (rq_Header r "X-Shikki-Corr-Id" <> "" -> corrID = rq_Header r "X-Shikki-Corr-Id") /\
     es = es1 ++ es2 /\ publishes ActionAuthRequest corrID "" "pending" "" es1 /\
     responds corrID (<["X-Shikki-Corr-Id" := corrID]>
         {["Content-Type" := "application/json; charset=utf-8"]})
       (refused_by_policy r) (granted r) es2 ls x).

Lemma Handle_assures r : guarantees (Handle b cfg r) (handled r).
Proof.
  unfold Handle. apply assures_now. intros start _. case_decide as Hm; [by left|].
  eapply (assures_lift_seq _ _ _ _ _ _ (fun es corrID => es = [] /\
    (rq_Header r "X-Shikki-Corr-Id" <> "" -> corrID = rq_Header r "X-Shikki-Corr-Id"))).
  { case_decide; simpl; naive_solver. }
  intros es corrID [-> Hc]. eapply assures_lift_seq; [apply publish_event_ensures|].
  intros es1 [] H1. eapply assures_mono; [apply exchange_assures|]. intros es2 ls x H2.
  right. split; [done|]. exists corrID, es1, es2. by split_and!.
Qed.
End handler.
