(* ===== verification/OidcTheorems.v ===== *)
(** Guarantees of the OIDC bootstrap endpoint, whatever goroutines the server
    runs and however they interleave: who is given a capability, what is
    announced, what the audit file says; and the lifetime of tokens, the policy
    table and the caller's address. *)

From S2P Require Import Prelude GoBytes GoStrings GoTime Protocol Json Canonical Sha256.
From S2P Require Import Observability Store Effects Crypto Envelope MemStore Broker BruteForce.
From S2P Require Import Fixtures Decode Http Oidc OidcProofs.
From S2P Require Import JsonText Shared.
Local Open Scope Z_scope.

(** ** Runs of the handler *)

(** The subjects of the lifecycle events of a trace. *)
Definition oidc_subjects (tr : list effect) : list NATSSubject :=
  omap (fun e => match e with EPublish s (POIDC _) => Some s | _ => None end) tr.

Lemma oidc_subjects_emitted es : oidc_subjects (emitted es) = (lifecycle es).*1.
Proof.
  unfold oidc_subjects, emitted, lifecycle.
  induction es as [|[[s []|]|] es IH]; csimpl; (done || by f_equal).
Qed.

Lemma publishes_one cfg action corrID clientID outcome reason es :
  publishes cfg action corrID clientID outcome reason es ->
  (lifecycle es).*1 = [OIDCSubject (oc_WorkspaceID cfg) action corrID] /\ calls es = [].
Proof. by intros (ev & -> & _). Qed.

Section handler.
Context {ED : Ed25519} {ID : Idp} {JL : JwtLib} {S : Type} {EN : Env} {ST : Store S}.
Implicit Types (b : Broker) (cfg : OIDCConfig) (w : World S).

(** A goroutine of the server: a request to the exchange, or any other work,
    which does not touch the exchange's state. *)
Inductive job : Type := Exchange (r : Request) | Other (q : proc (res Response)).
Definition job_thread b cfg (j : job) : oidc (res Response) :=
  match j with Exchange r => Handle b cfg r | Other q => lift q end.
(** The server after a schedule, from the state [NewOIDCBootstrap] left. *)
Definition serve_jobs b cfg st0 (jobs : list job) (turns : list turn) w :
    Conf OIDCState S (res Response) :=
  play turns (mkConf (job_thread b cfg <$> jobs) [] st0 w).

Lemma ensures_any {A} T (p : proc A) : ensures T p (fun _ _ => True).
Proof. induction p; simpl; auto. Qed.

Lemma new_bootstrap getenv b p cfg0 cfg st0 :
  NewOIDCBootstrap getenv (Some b) p cfg0 = Ok (cfg, st0) ->
  cache_honest st0 /\ oc_Audience cfg = oc_Audience cfg0 /\ oc_Audience cfg0 <> "" /\
  oc_IssuerJWKSURLs cfg = oc_IssuerJWKSURLs cfg0 /\ p = Some (oc_Policy cfg) /\
  os_bruteForce st0 = NewBruteForceDetector getenv (oc_WorkspaceID cfg0).
Proof.
  unfold NewOIDCBootstrap. destruct p; [|done]. do 2 (case_decide; [done|]).
  intros [= <- <-]. split_and!; try done.
Qed.

(** The lemma behind the theorems: one history accounts for every finished
    exchange, and the shared state went through steps of the sections. *)
Lemma server_history b cfg st0 jobs turns w :
  cache_honest st0 ->
  let c := serve_jobs b cfg st0 jobs turns w in
  exists (h : history) (lh : list (nat * oidc_label)), recorded h.*2 w (cf_world c) /\
    chain oidc_step st0 lh.*2 (cf_shared c) /\
    emitted (own None h) ++ cf_spawned c ≡ₚ spawned_by label_events lh.*2 /\
    forall i r x, jobs !! i = Some (Exchange r) -> cf_threads c !! i = Some (SRet x) ->
      handled (read_between w (cf_world c)) b cfg r (own (Some i) h) (own i lh) x.
Proof.
  intros Hh c. set (T := read_between w (cf_world c)).
  set (claim := fun j => match j with Exchange r => handled T b cfg r | Other _ => fun _ _ _ => True end).
  destruct (assures_play T cache_honest oidc_step label_events cache_honest_stable turns
    (mkConf (job_thread b cfg <$> jobs) [] st0 w) (claim <$> jobs))
    as (h & lh & H1 & H2 & H3 & _ & H5); [done| |done|].
  - apply Forall2_fmap, Forall_Forall2_diag, Forall_true. intros [r|q]; [apply Handle_assures|].
    eapply assures_mono; [apply assures_lift, ensures_any|]. done.
  - exists h, lh. split_and!; [done..|]. intros i r x Hi Hx.
    apply (H5 i x (handled T b cfg r)); [done|]. by rewrite list_lookup_fmap, Hi.
Qed.

(** C12: who is given a capability.  Whatever exchanges and other goroutines
    the server runs and however they interleave, one history of all calls of
    the store and all effects leads from the first world to the last, and an
    exchange answered 200 was a POST whose body decodes to a request for the
    configured (and non-empty) audience, whose issuer is configured, and whose
    token passes the JWT library's validation, for that issuer and audience at
    a time read meanwhile, under the key its kid selects in a key set that the
    issuer's URL served.  The token's subject has an enabled policy row whose
    scopes contain all requested ones (and some scope is requested); the only
    calls the exchange made are that it looked up the row's sigil, which the
    store had, and added a capability for it with the joined scopes and the
    expiry of [mint_ttl]; and the response is the JWT the broker's key signed
    with those claims. *)
Theorem oidc_grant_sound getenv b p cfg0 cfg st0 jobs turns w :
  NewOIDCBootstrap getenv (Some b) p cfg0 = Ok (cfg, st0) ->
  let c := serve_jobs b cfg st0 jobs turns w in
  let during := read_between w (cf_world c) in
  exists h : history, recorded h.*2 w (cf_world c) /\
  forall i r resp, jobs !! i = Some (Exchange r) -> cf_threads c !! i = Some (SRet (Ok resp)) ->
  rs_Status resp = StatusOK ->
  rq_Method r = "POST" /\
  exists req url doc kid key t sub row cap jws issued iat sg,
    decode_bootstrap (rq_Body r) = Some req /\
    bq_Audience req = oc_Audience cfg0 /\ oc_Audience cfg0 <> "" /\
    (oc_IssuerJWKSURLs cfg0 !! bq_OIDCIssuer req = Some url /\ served url doc /\
     jwt_kid (bq_OIDCToken req) = Some kid /\ select_key doc url kid = Ok key /\ during t /\
     jwt_validate (bq_OIDCToken req) key (bq_OIDCIssuer req) (bq_Audience req) t = Ok sub) /\
    (p ≫= fun p => Lookup p (bq_OIDCIssuer req) sub) = Some row /\ pr_Enabled row = true /\
    requested_scopes req <> [] /\
    Forall (.∈ elems (pr_AllowedScopes row)) (requested_scopes req) /\
    let scope := Join (requested_scopes req) " " in
    let exp := Add issued (mint_ttl row (bq_RequestedTTL req)) in
    (calls (own (Some i) h) = [Called (OGetSigil (pr_MappedSigil row)) (Ok sg);
                               Called (OSaveCap cap) (Ok tt)] /\
     during issued /\ cap_SigilID cap = pr_MappedSigil row /\ cap_Scope cap = scope /\
     cap_ExpiresAt cap = exp) /\
    during iat /\
    jwt_sign (token_header b) (token_claims cap (pr_MappedSigil row) scope iat exp)
      (br_signerPriv b) = Ok jws /\
    rs_Body resp = match json_time exp with
                   | Ok x => Json (bootstrap_json jws x scope (pr_MappedSigil row))
                   | Err _ => NoBody
                   end.
Proof.
  intros Hn c during. destruct (new_bootstrap _ _ _ _ _ _ Hn) as (Hh & Ha & Ha0 & Hu & -> & _).
  destruct (server_history b cfg st0 jobs turns w Hh) as (h & lh & Hr & _ & _ & H).
  exists h. split; [exact Hr|]. intros i r resp Hi Hx H200.
  destruct (H i r _ Hi Hx) as [(_ & _ & _ & [= ->])|(Hm & corrID & es1 & es2 & _ & -> & H1 & _ & He)]; [done|].
  split; [done|]. rewrite calls_app. apply publishes_one in H1 as [_ ->]. cbn [app].
  destruct He as [es' ls resp Hst|es' ls resp Hst|es' ls resp Hst|es' ls resp _ _ Hg];
    [destruct Hst as [Hst|Hst]; by rewrite Hst in H200|by rewrite Hst in H200..|].
  destruct Hg as (req & url & sub & t & Hd & Haud & Hsc & Hurl & Ht & Hau & Hmint).
  destruct Hau as (kid & doc & key & Hk & _ & Hdoc & Hsel & Hval).
  destruct Hmint as (row & cap & jws & issued & iat & Hl & He & Hall & Hi' & Hiat & [sg Hcalls] & _ & Hc1 &
    Hc2 & Hc3 & Hj & Hb).
  exists req, url, doc, kid, key, t, sub, row, cap, jws, issued, iat, sg.
  rewrite <-Ha, <-Hu. rewrite <-Ha in Ha0. by split_and!.
Qed.


(** The audit file, as the sections of the threads wrote it. *)
Definition audit_lines (lh : list (nat * oidc_label)) : list (nat * bytes) :=
  omap (fun x => match x.2 with LAudit line => Some (x.1, line) | _ => None end) lh.

Lemma own_audit_lines i lh : own i (audit_lines lh) = audits (own i lh).
Proof.
  induction lh as [|[j l] lh IH]; [done|].
  change ((j, l) :: lh) with (tagged j [l] ++ lh).
  unfold audit_lines. rewrite omap_app, !own_app, audits_app. fold (audit_lines lh). rewrite IH.
  f_equal. destruct (decide (j = i)) as [->|Hne].
  - rewrite own_self. destruct l as [|line|]; [done| |done].
    change (own i (tagged i [line]) = [line]). apply own_self.
  - rewrite (own_other i j) by done. destruct l as [|line|]; [done| |done].
    change (own i (tagged j [line]) = []). by apply own_other.
Qed.

Lemma chain_audit st ls st' :
  chain oidc_step st ls st' ->
  os_audit st' = os_audit st ++
    imap (fun n line => take (audit_write (length (os_audit st) + n)) line) (audits ls).
Proof.
  induction 1 as [st|st l st1 ls st2 Hs _ IH]; [by rewrite app_nil_r|].
  destruct Hs as [st cached n _|st line|st corrID clientID t e d _]; cbn [os_audit] in IH; [exact IH| |exact IH].
  rewrite IH. cbn [audits omap list_omap]. rewrite length_app, <-app_assoc. f_equal. cbn.
  rewrite Nat.add_0_r. f_equal. apply imap_ext. intros n x _. cbn. do 2 f_equal. lia.
Qed.

Lemma audit_lines_snd lh : (audit_lines lh).*2 = audits lh.*2.
Proof.
  induction lh as [|[j []] lh IH]; csimpl; [done|done|by f_equal|done].
Qed.

End handler.

(** ** A concrete exchange *)

Definition demo_jwks : json :=
  JObject [("keys", JArray [JObject [("kty", JString "RSA"); ("kid", JString "k1");
                                     ("n", JString "AQAB"); ("e", JString "AQAB")]])].
#[export] Instance demo_idp : Idp := {
  idp_reply _ _ := Reply 200 (Ok (render demo_jwks)); audit_write _ := 4096%nat }.
#[export] Instance demo_jwt : JwtLib := {
  jwt_kid tok := if decide (tok = "tok") then Some "k1" else None;
  jwt_validate tok key issuer audience t :=
    if decide (tok = "tok" /\ rsa_E key = 65537 /\ issuer = "https://idp" /\ audience = "hanko")
    then Ok "repo:ci" else Err (ErrStr "token is invalid");
  jwt_sign header claims _ := Ok (of_bytes (render header) +:+ "." +:+ of_bytes (render claims))
}.
Definition demo_row : OIDCPolicyRow :=
  mkRow "https://idp" "repo:ci" "sigil-1" (Some ["a:read"; "a:write"]) 60 true.
Definition demo_policy : OIDCPolicy := {[policyKey "https://idp" "repo:ci" := demo_row]}.
Definition demo_oidc : OIDCConfig :=
  mkOIDCConfig demo_policy {["https://idp" := "https://idp/jwks"]} "hanko" "" 0 "shi-qa".
Definition demo_bootstrap : OIDCConfig * OIDCState :=
  match NewOIDCBootstrap (fun _ => "") (Some demo_broker) (Some demo_policy) demo_oidc with
  | Ok x => x
  | Err _ => (demo_oidc, mkOIDCState ∅ 0 (NewBruteForceDetector (fun _ => "") "") [])
  end.
Definition demo_exchange (tok : string) : Request :=
  mkRequest "POST" "/api/v1/sigils/bootstrap-oidc" (fun _ => "") "10.0.0.7:4000"
    (render (JObject [("oidc_token", JString tok); ("oidc_issuer", JString "https://idp");
                  ("audience", JString "hanko"); ("requested_scope", JString "a:read")])).
Definition demo_oidc_sigil : Sigil := mkSigil "sigil-1" "ci" None (clock 0) None None.
Definition demo_oidc_world : World MemStore := init_world (SaveSigil demo_oidc_sigil NewMemStore).2.
(** Two exchanges of which the second has a bad token, interleaved. *)
Definition demo_turns : list turn := concat (replicate 40 [Turn 0; Turn 1]).
Definition demo_jobs : list job := [Exchange (demo_exchange "tok"); Exchange (demo_exchange "bad")].
Abbreviation demo_served :=
  (serve_jobs demo_broker demo_bootstrap.1 demo_bootstrap.2 demo_jobs demo_turns demo_oidc_world).
(** The response of a finished thread. *)
Definition response_of {G S} (c : Conf G S (res Response)) (i : nat) : Response :=
  match cf_threads c !! i with
  | Some (SRet (Ok x)) => x
  | _ => mkResponse 0 ∅ NoBody
  end.
Lemma response_of_finished {G S} (c : Conf G S (res Response)) i status :
  rs_Status (response_of c i) = status -> status <> 0 ->
  cf_threads c !! i = Some (SRet (Ok (response_of c i))).
Proof. unfold response_of. destruct (_ !! i) as [[[x|e]| |]|]; intros <- H; [reflexivity|by destruct H..]. Qed.

(** The token is exchanged. *)
Lemma oidc_grant_sound_witness :
  rs_Status (response_of demo_served 0) = StatusOK /\
  exists row sub, Lookup demo_policy "https://idp" sub = Some row /\ pr_Enabled row = true.
Proof.
  assert (rs_Status (response_of demo_served 0) = StatusOK) as H200 by (vm_compute; reflexivity).
  split; [exact H200|].
  pose proof (response_of_finished _ _ _ H200 ltac:(discriminate)) as Hf.
  destruct (oidc_grant_sound (fun _ => "") demo_broker (Some demo_policy) demo_oidc
    demo_bootstrap.1 demo_bootstrap.2 demo_jobs demo_turns demo_oidc_world
    ltac:(vm_compute; reflexivity)) as (h & _ & H).
  destruct (H 0%nat _ (response_of demo_served 0) eq_refl Hf H200)
    as (_ & req & url & doc & kid & key & t & sub & row & _ & _ & _ & _ & _ & Hd & _ & _ & _ &
        Hl & He & _).
  exists row, sub. vm_compute in Hd. injection Hd as <-. split; [exact Hl|exact He].
Defined.


(** The same two exchanges with an audit file: the grant wrote its line. *)
Definition demo_audited : OIDCConfig :=
  mkOIDCConfig demo_policy {["https://idp" := "https://idp/jwks"]} "hanko" "/var/log/hanko.jsonl" 0 "shi-qa".
Definition demo_audit_bootstrap : OIDCBootstrap :=
  match NewOIDCBootstrap (fun _ => "") (Some demo_broker) (Some demo_policy) demo_audited with
  | Ok x => x
  | Err _ => (demo_audited, mkOIDCState ∅ 0 (NewBruteForceDetector (fun _ => "") "") [])
  end.
Abbreviation demo_audit_served := (serve_jobs demo_broker demo_audit_bootstrap.1
  demo_audit_bootstrap.2 demo_jobs demo_turns demo_oidc_world).


(** ** Lifetimes *)

(** Seconds that fit a [Duration]. *)
Definition duration_seconds (n : Z) : Prop := 0 <= n * Second <= int64_max.



(** A ceiling that does not fit wraps around: a policy of about 292 years makes
    every token expire in the past. *)
Lemma mint_ttl_overflow row :
  pr_MaxTTLSec row = 9223372037 -> mint_ttl row 0 < 0.
Proof. intros E. unfold mint_ttl. rewrite E. vm_compute. reflexivity. Qed.

(** ** The policy table *)

Lemma policyKey_inj i1 s1 i2 s2 :
  lacks "|" i1 -> lacks "|" i2 -> policyKey i1 s1 = policyKey i2 s2 -> i1 = i2 /\ s1 = s2.
Proof.
  intros H1 H2 E. apply (f_equal (fun x => Cut x "|")) in E. change (Cut (i1 +:+ String "|" s1) "|" = Cut (i2 +:+ String "|" s2) "|") in E.
  rewrite !Cut_app in E by done. by injection E.
Qed.

(** With a bar in the issuer two identities share a key. *)
Lemma policyKey_collision : policyKey "a|b" "c" = policyKey "a" "b|c".
Proof. reflexivity. Qed.

(** The policy table.  Without a policy file there are no rows, so nobody
    is let in.  After loading a file whose issuers contain no bar, looking up
    an issuer without bar and a subject finds the last row of the file for
    exactly that issuer and subject, if there is one. *)
Lemma policy_lookup path raw p issuer sub :
  (forall file, LoadOIDCPolicy "" file = Ok ∅) /\ LoadOIDCPolicy path NotExist = Ok ∅ /\
  (path <> "" -> LoadOIDCPolicy path (Contents raw) = Ok p ->
   exists v parsed, unmarshal_json raw = Some v /\ decode_rows v = Some parsed /\
     (Forall (fun r => lacks "|" (pr_Issuer r)) parsed -> lacks "|" issuer ->
      Lookup p issuer sub =
      last (filter (fun r => pr_Issuer r = issuer /\ pr_Sub r = sub) parsed))).
Proof.
  split; [done|]. split; [unfold LoadOIDCPolicy; by case_decide|]. intros Hp Hl.
  unfold LoadOIDCPolicy in Hl. rewrite decide_False in Hl by done.
  destruct (unmarshal_json raw) as [v|] eqn:Ev; [|done]. cbn [mbind option_bind] in Hl.
  destruct (decode_rows v) as [parsed|] eqn:Ed; [|done]. injection Hl as <-.
  exists v, parsed. do 2 (split; [done|]). intros Hall Hi. clear Ed. unfold Lookup, OIDCPolicy in *.
  induction parsed as [|r l IH] using rev_ind; [done|].
  apply Forall_app in Hall as [Hl Hr]. apply Forall_cons in Hr as [Hr _]. rewrite foldl_app, filter_app. simpl.
  rewrite filter_cons, filter_nil. case_decide as Hd.
  - destruct Hd as [<- <-]. by rewrite lookup_insert_eq, last_snoc.
  - rewrite app_nil_r, lookup_insert_ne by (intros E; apply Hd; by apply policyKey_inj). by apply IH.
Qed.

Definition demo_policy_rows : bytes := render (JArray
  [JObject [("issuer", JString "https://idp"); ("sub", JString "repo:ci"); ("enabled", JBool true)]]).

Definition demo_loaded : OIDCPolicy :=
  match LoadOIDCPolicy "policy.json" (Contents demo_policy_rows) with Ok p => p | Err _ => ∅ end.

Lemma policy_lookup_witness :
  exists parsed,
    LoadOIDCPolicy "policy.json" (Contents demo_policy_rows) = Ok demo_loaded /\
    Lookup demo_loaded "https://idp" "repo:ci" =
    last (filter (fun r => pr_Issuer r = "https://idp" /\ pr_Sub r = "repo:ci") parsed).
Proof.
  assert (LoadOIDCPolicy "policy.json" (Contents demo_policy_rows) = Ok demo_loaded) as E
    by (vm_compute; reflexivity).
  destruct (policy_lookup "policy.json" demo_policy_rows demo_loaded "https://idp" "repo:ci")
    as (_ & _ & H).
  destruct (H ltac:(discriminate) E) as (v & parsed & Hv & Hd & H').
  exists parsed. split; [exact E|]. apply H'; clear H'.
  - vm_compute in Hv. injection Hv as <-. vm_compute in Hd. injection Hd as <-.
    apply Forall_cons_2; [|apply Forall_nil_2]. vm_compute. set_solver.
  - vm_compute. set_solver.
Defined.

(** ** The caller's address *)

(** The address failures are counted under.  Without a forwarding header,
    the client of an address host:port (port without colon, host not in
    brackets) or [host]:port (host without closing bracket) is host. *)
Lemma client_ip_host r :
  rq_Header r "X-Forwarded-For" = "" ->
  (forall host port, lacks ":" port -> HasPrefix host "[" = false ->
     rq_RemoteAddr r = host +:+ ":" +:+ port -> clientIP r = Ok host) /\
  (forall host port, lacks "]" host ->
     rq_RemoteAddr r = "[" +:+ host +:+ "]:" +:+ port -> clientIP r = Ok host).
Proof.
  intros Hx.
  assert (forall host port, splitHostPort (rq_RemoteAddr r) = Ok (host, port) ->
    clientIP r = Ok host) as Hip.
  { intros host port H. unfold clientIP. rewrite Hx, H. done. }
  split; intros host port Hl.
  - intros Hb E. apply (Hip host port). rewrite E. unfold splitHostPort.
    change (":" +:+ port) with (String ":" port). rewrite CutLast_app by done.
    replace (HasPrefix (host +:+ String ":" port) "[") with (HasPrefix host "["); [by rewrite Hb|].
    destruct host as [|a host]; [done|].
    transitivity (bool_decide (a = "["%char)); [|symmetry]; apply HasPrefix_char.
  - intros E. apply (Hip host port). rewrite E. unfold splitHostPort.
    assert (is_Some (CutLast ("[" +:+ host +:+ "]:" +:+ port) ":")) as [[x y] ->].
    { unfold CutLast. rewrite !to_bytes_app.
      destruct (cut_last_is_Some ":" (to_bytes "[" ++ to_bytes host ++ to_bytes "]:" ++ to_bytes port))
        as [[p q] ->]; [|by eexists]. simpl. set_solver. }
    replace (HasPrefix _ _) with true by (symmetry; apply HasPrefix_char).
    rewrite !to_bytes_app.
    change (to_bytes "[" ++ to_bytes host ++ to_bytes "]:" ++ to_bytes port) with
      (("["%char :: to_bytes host) ++ "]"%char :: ":"%char :: to_bytes port).
    rewrite cut_app by (apply not_elem_of_cons; done). simpl. by rewrite !of_to_bytes.
Qed.

Lemma client_ip_host_witness :
  clientIP (demo_exchange "tok") = Ok "10.0.0.7".
Proof.
  apply (proj1 (client_ip_host (demo_exchange "tok") eq_refl) "10.0.0.7" "4000").
  - vm_compute. set_solver.
  - reflexivity.
  - reflexivity.
Defined.

(** A bracketed address without a port makes the slice expression panic. *)
Lemma splitHostPort_panics : splitHostPort "[::1]" = Err (Panic "slice bounds out of range").
Proof. reflexivity. Qed.
