(* ===== verification/Alerts.v ===== *)
(** Brute-force alerts of the running token exchange: the detector of
    brute_force.go under the interleaved handlers of oidc.go.

    Failures are recorded in some order, which need not be the order of their
    time stamps (the clock is read before the lock is taken); the alerts are
    those of a sequential run of the detector on that order, and a budget
    argument ([Shared.spends]) bounds what one client's requests can cause. *)

From S2P Require Import Prelude GoBytes GoStrings GoTime Protocol Json Observability Store Effects.
From S2P Require Import Crypto MemStore Broker BruteForce Fixtures Decode Http Shared Oidc OidcProofs.
From S2P Require Import OidcTheorems.
Local Open Scope Z_scope.

(** ** A sequential run *)

Definition alert_effect (e : event) : effect := EPublish e.1 e.2.

Section chain.
Context {ID : Idp}.

Lemma chain_detect st ls st' :
  chain oidc_step st ls st' ->
  exists calls,
    spawned_by label_events ls = alert_effect <$> (detect calls (os_bruteForce st)).1.*2 /\
    os_bruteForce st' = (detect calls (os_bruteForce st)).2.
Proof.
  induction 1 as [st|st l st1 ls st2 Hs _ (calls & E & IH)]; [by exists []|].
  change (l :: ls) with ([l] ++ ls). rewrite spawned_by_app, E.
  destruct Hs as [st cached n _|st line|st corrID clientID t e d Ed]; [by exists calls..|].
  exists ((corrID, clientID, t) :: calls). cbn [detect fst snd]. rewrite Ed. cbn [os_bruteForce] in *.
  destruct (detect calls d) as [es d']. split; [|exact IH].
  by destruct e as [[s p]|].
Qed.
End chain.

(** The alerts of a run stay recorded. *)
Lemma detect_alerted calls d :
  bfd_alerted d ⊆ bfd_alerted (detect calls d).2 /\
  Forall (fun e => alert_key e ∈ bfd_alerted (detect calls d).2) (detect calls d).1.*2.
Proof.
  revert d. induction calls as [|x calls IH]; intros d; [done|]. rewrite detect_cons. cbn [fst snd].
  destruct (IH (recordFailureAt x.1.1 x.1.2 x.2 d).2) as [H1 H2].
  destruct (recordFailureAt x.1.1 x.1.2 x.2 d).1 as [e|] eqn:E.
  - destruct (recordFailureAt_alert _ _ _ _ _ E) as (_ & Ha & _). rewrite Ha in H1.
    split; [set_solver|]. constructor; [set_solver|done].
  - rewrite (recordFailureAt_quiet _ _ _ _ E) in H1. done.
Qed.

(** ** What one client can cause *)

Section client.
Context {ED : Ed25519} {ID : Idp} {JL : JwtLib} (b : Broker) (cfg : OIDCConfig).
Context (client : string) (threshold windowSec : Z).

(** After [m] failures of the client: the window holds at most [m], and an
    alert needed the threshold. *)
Definition failures_bounded (m : nat) (st : OIDCState) : Prop :=
  let d := os_bruteForce st in
  bfd_threshold d = threshold /\ bfd_windowSec d = windowSec /\
  (length (default [] (bfd_failures d !! client)) <= m)%nat /\
  forall first, bucketKey client first windowSec ∈ bfd_alerted d -> threshold <= Z.of_nat m.

Lemma prune_length n old t : (length (prune n old t) <= length old + 1)%nat.
Proof.
  unfold prune. rewrite length_app. cbn.
  pose proof (length_filter (fun t0 => Before t0 (Add t (minus_window n)) = false) old). lia.
Qed.

Lemma recordFailureAt_bounded corrID ip t st m cached n log :
  failures_bounded m st ->
  failures_bounded (m + (if decide (ip = client) then 1 else 0))
    (mkOIDCState cached n (recordFailureAt corrID ip t (os_bruteForce st)).2 log).
Proof.
  unfold failures_bounded. cbn [os_bruteForce]. set (d := os_bruteForce st).
  intros (Ht & Hw & Hl & Ha).
  destruct (recordFailureAt_failures corrID ip t d) as (Ef & Ew & Et).
  rewrite Ef, Ew, Et. clear Ef Ew Et. split_and!; [done..| |].
  - case_decide as Hip; [subst ip; rewrite lookup_insert_eq|rewrite lookup_insert_ne by done; lia].
    cbn. pose proof (prune_length (bfd_windowSec d) (default [] (bfd_failures d !! client)) t). lia.
  - intros first. unfold recordFailureAt. cbv zeta.
    pose proof (prune_length (bfd_windowSec d) (default [] (bfd_failures d !! ip)) t) as Hp.
    set (fresh := prune _ _ _) in *.
    destruct (Z.ltb_spec (Z.of_nat (length fresh)) (bfd_threshold d)) as [Hlt|Hge];
      [cbn; intros H; specialize (Ha first H); lia|].
    case_decide as Hin; [cbn; intros H; specialize (Ha first H); lia|]. cbn.
    intros [H%elem_of_singleton|H]%elem_of_union; [|specialize (Ha first H); lia].
    rewrite <-Hw in H. apply bucketKey_inj in H as [<- _]. rewrite decide_True by done. lia.
Qed.

(** Sections that leave the detector alone spend nothing. *)
Lemma failures_bounded_keeps m st st' :
  os_bruteForce st' = os_bruteForce st -> failures_bounded m st -> failures_bounded (m + 0) st'.
Proof. unfold failures_bounded. intros ->. by rewrite Nat.add_0_r. Qed.

Lemma spends_keyByKid url kid : spends failures_bounded 0 (keyByKid cfg url kid).
Proof.
  intros m st H t _. cbn; repeat case_match; cbn; exists 0%nat;
    (split_and!; [done| |done]); by eapply failures_bounded_keeps.
Qed.

Lemma spends_audit req sub outcome scope : spends failures_bounded 0 (audit cfg req sub outcome scope).
Proof.
  unfold audit. case_decide; [done|]. apply spends_lift. intros t m st Hb.
  refine (ex_intro _ 0%nat (conj (le_n 0) (conj _ I))). by eapply failures_bounded_keeps.
Qed.

Lemma spends_verifyJWT tok url issuer audience :
  spends failures_bounded 0 (verifyJWT cfg tok url issuer audience).
Proof.
  unfold verifyJWT. case_match; [|done]. case_decide; [done|].
  apply (spends_bind _ 0 0); [apply spends_keyByKid|]. intros [key|e]; [|done]. by apply spends_lift.
Qed.

Lemma spends_reject corrID start h clientID failure status code reason :
  spends failures_bounded 0 (reject cfg corrID start h clientID failure status code reason).
Proof. by apply spends_lift. Qed.

Lemma spends_deliver corrID start h req scopes sub row cap scope exp :
  spends failures_bounded 0 (deliver b cfg corrID start h req scopes sub row cap scope exp).
Proof.
  apply spends_lift. intros [jws|e]; [|by destruct e; first [exact I | apply spends_reject]].
  apply (spends_bind _ 0 0); [apply spends_audit|]. intros []. by apply spends_lift.
Qed.

Lemma spends_audit_reject req sub outcome scope corrID start h clientID failure status code reason :
  spends failures_bounded 0 (_ ← audit cfg req sub outcome scope;
                             reject cfg corrID start h clientID failure status code reason).
Proof. apply (spends_bind _ 0 0); [apply spends_audit|]. intros []. apply spends_reject. Qed.

Lemma spends_mint corrID start h req scopes sub :
  spends failures_bounded 0 (mint b cfg corrID start h req scopes sub).
Proof.
  unfold mint. destruct (Lookup _ _ _) as [row|]; [|apply spends_audit_reject].
  do 2 (case_match; [apply spends_audit_reject|]). apply spends_lift. intros t.
  apply spends_lift. intros [cap|e]; [|by destruct e; first [exact I | apply spends_reject]].
  apply spends_lift. intros []. apply spends_deliver.
Qed.

(** The failures of the client an exchange may record. *)
Definition from_client (r : Request) : nat := if decide (clientIP r = Ok client) then 1 else 0.

Lemma spends_invalid_token corrID start h r :
  spends failures_bounded (from_client r) (invalid_token cfg corrID start h r).
Proof.
  unfold from_client. apply spends_lift. intros []. destruct (clientIP r) as [ip|]; [|done].
  match goal with |- spends _ ?n _ => rewrite <-(Nat.add_0_r n) end. apply spends_bind; [|done].
  apply spends_lift. intros t m st H. cbn.
  replace (if decide (Ok ip = Ok client :> res string) then 1%nat else 0%nat)
    with (if decide (ip = client) then 1%nat else 0%nat) by (repeat case_decide; congruence).
  destruct (recordFailureAt "" ip t (os_bruteForce st)).1; cbn.
  - intros corrID' _. pose proof (recordFailureAt_bounded corrID' ip t st m (os_cached st)
      (os_fetches st) (os_audit st) H) as H'.
    destruct (recordFailureAt corrID' ip t (os_bruteForce st)) as [e' d']. cbn in *. by eexists.
  - eexists. split_and!; [done|by apply recordFailureAt_bounded|done].
Qed.

Lemma spends_Handle r : spends failures_bounded (from_client r) (Handle b cfg r).
Proof.
  assert (forall p : oidc (res Response), spends failures_bounded 0 p ->
    spends failures_bounded (from_client r) p) as H0 by (intros p; apply spends_le; lia).
  unfold Handle. apply spends_lift. intros start. case_decide; [done|]. apply spends_lift.
  intros corrID. apply spends_lift. intros []. unfold exchange.
  destruct (decode_bootstrap _) as [req|]; [|apply H0, spends_reject].
  repeat (case_decide; [apply H0, spends_reject|]).
  destruct (_ !! _) as [url|]; [|apply H0, spends_reject].
  apply (spends_bind _ 0); [apply spends_verifyJWT|]. intros [sub|e]; [apply H0, spends_mint|].
  by destruct e; first [exact I | apply spends_invalid_token].
Qed.
End client.

(** ** The running server *)

Section server.
Context {ED : Ed25519} {ID : Idp} {JL : JwtLib} {S : Type} {EN : Env} {ST : Store S}.

(** The exchanges whose failures count for the client. *)
Definition requests_of (client : string) (jobs : list job) : nat :=
  sum_list ((fun j => match j with Exchange r => from_client client r | Other _ => 0%nat end) <$> jobs).

Lemma serve_jobs_bounded getenv b p cfg0 cfg st0 jobs turns (w : World S) client :
  NewOIDCBootstrap getenv (Some b) p cfg0 = Ok (cfg, st0) ->
  let d := os_bruteForce st0 in
  exists m, (m <= requests_of client jobs)%nat /\
    failures_bounded client (bfd_threshold d) (bfd_windowSec d) m
      (cf_shared (serve_jobs b cfg st0 jobs turns w)).
Proof.
  intros Hn. destruct (new_bootstrap _ _ _ _ _ _ Hn) as (_ & _ & _ & _ & _ & Hd).
  apply (spends_play (failures_bounded client _ _) turns (mkConf (job_thread b cfg <$> jobs) [] st0 w)
    _ 0).
  - cbn. unfold failures_bounded. rewrite Hd. split_and!; [done..|]. intros first. cbn. set_solver.
  - apply Forall2_fmap, Forall_Forall2_diag, Forall_true. intros [r|q]; [apply spends_Handle|].
    clear. by induction q.
Qed.

(** C26: alerts of the token exchange, whatever it serves and however the handlers
    interleave.  The goroutines the exchange starts publish nothing but
    alerts: they publish, now or later, those of a sequential run of the
    detector on the recorded failures.  There is at most one per client and
    bucket, and an alert about a client means that at least the threshold of
    the exchanges came from that client's address. *)
Theorem exchange_alerts getenv b p cfg0 cfg st0 jobs turns (w : World S) :
  NewOIDCBootstrap getenv (Some b) p cfg0 = Ok (cfg, st0) ->
  let c := serve_jobs b cfg st0 jobs turns w in
  let d := NewBruteForceDetector getenv (oc_WorkspaceID cfg0) in
  exists (h : history) calls, recorded h.*2 w (cf_world c) /\
    let alerts := (detect calls d).1.*2 in
    emitted (own None h) ++ cf_spawned c ≡ₚ alert_effect <$> alerts /\
    os_bruteForce (cf_shared c) = (detect calls d).2 /\
    NoDup (alert_bucket <$> alerts) /\
    Forall (fun e => exists a, e.2 = PBruteForce a /\
      bfd_threshold d <= Z.of_nat (requests_of (bf_ClientID a) jobs)) alerts.
Proof.
  intros Hn. destruct (new_bootstrap _ _ _ _ _ _ Hn) as (Hh & _ & _ & _ & _ & Hd).
  cbv zeta. destruct (server_history b cfg st0 jobs turns w Hh) as (h & lh & Hr & Hc & Hs & _).
  apply chain_detect in Hc as (calls & E & Hb). rewrite E in Hs. rewrite Hd in Hs, Hb. exists h, calls.
  split_and!; [done..|apply brute_force_deduplicated|].
  destruct (detect_alerts calls (NewBruteForceDetector getenv (oc_WorkspaceID cfg0))) as [_ Ha].
  destruct (detect_alerted calls (NewBruteForceDetector getenv (oc_WorkspaceID cfg0))) as [_ Hk].
  rewrite !Forall_forall in *. intros e He. destruct (Ha e He) as (_ & a & Ea & Ew).
  exists a. split; [done|]. specialize (Hk e He). cbv beta in Hk. unfold alert_key in Hk.
  rewrite Ea, <-Hb in Hk.
  destruct (serve_jobs_bounded _ _ _ _ _ _ jobs turns w (bf_ClientID a) Hn)
    as (m & Hm & _ & _ & _ & H). rewrite Hd in H. cbn in Ew. rewrite Ew in Hk.
  specialize (H _ Hk). lia.
Qed.
End server.

(** The address is the caller's to choose: of a forwarding header it is the
    part before the first comma. *)
Lemma client_ip_forwarded r v rest :
  v <> "" -> lacks "," v -> trim_space_utf8 v = v ->
  rq_Header r "X-Forwarded-For" = v \/ rq_Header r "X-Forwarded-For" = v +:+ "," +:+ rest ->
  clientIP r = Ok v.
Proof.
  intros Hv Hc Ht Hx. unfold clientIP. cbv zeta.
  assert (match Cut (rq_Header r "X-Forwarded-For") "," with
          | Some (p, _) => p | None => rq_Header r "X-Forwarded-For" end = v) as E.
  { destruct Hx as [-> | ->].
    - unfold Cut. by rewrite cut_none.
    - change ("," +:+ rest) with (String "," rest). by rewrite Cut_app. }
  destruct (decide (rq_Header r "X-Forwarded-For" = "")) as [H0|H0].
  - rewrite H0 in Hx. destruct Hx as [Hx|Hx]; [done|]. by destruct v.
  - rewrite E, Ht. by rewrite decide_True.
Qed.

(** ** Two failures with a threshold of two *)

Definition demo_alert_env (k : string) : string :=
  if decide (k = "SHIKKI_BRUTE_FORCE_THRESHOLD") then "2" else "".
Definition demo_alert_bootstrap : OIDCConfig * OIDCState :=
  match NewOIDCBootstrap demo_alert_env (Some demo_broker) (Some demo_policy) demo_oidc with
  | Ok x => x
  | Err _ => (demo_oidc, mkOIDCState ∅ 0 (NewBruteForceDetector (fun _ => "") "") [])
  end.
Definition demo_failed_jobs : list job := [Exchange (demo_exchange "bad"); Exchange (demo_exchange "bad")].
Abbreviation demo_alerting := (serve_jobs demo_broker demo_alert_bootstrap.1 demo_alert_bootstrap.2
  demo_failed_jobs demo_turns demo_oidc_world).

Lemma exchange_alerts_witness :
  length (cf_spawned demo_alerting) = 1%nat /\
  exists calls, NoDup (alert_bucket <$>
    (detect calls (NewBruteForceDetector demo_alert_env "shi-qa")).1.*2) /\
    os_bruteForce (cf_shared demo_alerting) =
      (detect calls (NewBruteForceDetector demo_alert_env "shi-qa")).2.
Proof.
  split; [vm_compute; reflexivity|].
  destruct (exchange_alerts demo_alert_env demo_broker (Some demo_policy) demo_oidc
    demo_alert_bootstrap.1 demo_alert_bootstrap.2 demo_failed_jobs demo_turns demo_oidc_world
    ltac:(vm_compute; reflexivity)) as (h & calls & _ & _ & Hd & Hn & _).
  exists calls. split; [exact Hn|exact Hd].
Defined.
