(* ===== verification/ConfigReload.v ===== *)
(** Hot configuration reload (internal/observability/config_reload.go).

    The TOML library is the interface [Toml]; the order in which Go ranges
    over a map is the interface [Prelude.MapRange].  The reloader's lock is held for
    the snapshot and for the commit, not in between: [ApplyReload] is the
    handler run alone, [reload_step] interleaves the two critical sections of
    several handlers. *)

From S2P Require Import Prelude GoStrings GoTime GoFloat Protocol Json Canonical Observability.
From S2P Require Import Store Effects Fixtures Decode JsonText.
Local Open Scope Z_scope.

(** What go-toml decodes into [any]. *)
Inductive toml : Type :=
| TString (s : string)
| TInt (z : Z)
| TFloat (f : float64)
| TBool (b : bool)
| TTime (text : string)
| TArray (l : list toml)
| TTable (m : list (string * toml)).

(** [toml.Unmarshal] into a map: the entries decoded, and the error if any. *)
Class Toml : Type := { toml_unmarshal : string -> gmap string toml * option error }.

Record ReloadableConfig := mkConfig {
  JWKSRotationPolicy : string;
  BruteForceThreshold : Z;
  BruteForceWindowSec : Z;
  LogLevel : string;
  NATSWorkspaceID : string;
  RedactionPatterns : slice string
}.

Definition reloadableKeys : gset string :=
  {["jwks_rotation_policy"; "brute_force_threshold"; "brute_force_window_sec"; "log_level";
    "nats_workspace_id"; "redaction_patterns"]}.
Definition nonReloadableKeys : gset string := {["signing_key"; "postgres_url"]}.

Record ReloadRequest := mkReload {
  rq_CorrID : string; rq_RequestedBySubjectID : string; rq_TOMLPayload : string }.
Definition ReloadRequest_fields : list (field ReloadRequest) :=
  [("corr_id", set_string (fun x r => mkReload x (rq_RequestedBySubjectID r) (rq_TOMLPayload r)));
   ("requested_by_subject_id", set_string (fun x r => mkReload (rq_CorrID r) x (rq_TOMLPayload r)));
   ("toml_payload", set_string (fun x r => mkReload (rq_CorrID r) (rq_RequestedBySubjectID r) x))].

Record ConfigReloader := mkReloader {
  rl_current : ReloadableConfig;
  rl_workspaceID : string;
  (** whether [WithMetrics] attached a surface *)
  rl_metrics : bool;
  (** the kid [JWKSKidFunc] returns, when it is set *)
  rl_kid : option string
}.

Definition NewConfigReloader (workspaceID : string) (initial : ReloadableConfig) : ConfigReloader :=
  mkReloader initial workspaceID false None.
Definition Reloader_WithMetrics (r : ConfigReloader) (m : bool) : ConfigReloader :=
  mkReloader (rl_current r) (rl_workspaceID r) m (rl_kid r).
Definition Current (r : ConfigReloader) : ReloadableConfig := rl_current r.

Definition typeErr (key want : string) : string := "type_error:" +:+ key +:+ " expected " +:+ want.

Definition asInt (v : toml) : option Z :=
  match v with
  | TInt n => Some n
  | TFloat f => Some (int_of_float f)
  | _ => None
  end.
Definition asString (v : toml) : option string :=
  match v with TString s => Some s | _ => None end.

(** One key applied; the error is its text. *)
Definition applyKey (cfg : ReloadableConfig) (key : string) (v : toml) :
    result string ReloadableConfig :=
  let '(mkConfig policy threshold window level ws patterns) := cfg in
  if decide (key = "jwks_rotation_policy") then
    match asString v with
    | None => Err (typeErr key "string")
    | Some s => Ok (mkConfig s threshold window level ws patterns)
    end
  else if decide (key = "brute_force_threshold") then
    match asInt v with
    | None => Err (typeErr key "int")
    | Some n => Ok (mkConfig policy n window level ws patterns)
    end
  else if decide (key = "brute_force_window_sec") then
    match asInt v with
    | None => Err (typeErr key "int")
    | Some n => Ok (mkConfig policy threshold n level ws patterns)
    end
  else if decide (key = "log_level") then
    match asString v with
    | None => Err (typeErr key "string")
    | Some s => Ok (mkConfig policy threshold window s ws patterns)
    end
  else if decide (key = "nats_workspace_id") then
    match asString v with
    | None => Err (typeErr key "string")
    | Some s => Ok (mkConfig policy threshold window level s patterns)
    end
  else if decide (key = "redaction_patterns") then
    match v with
    | TArray arr =>
        match mapM asString arr with
        | None => Err (typeErr key "array of string")
        | Some out => Ok (mkConfig policy threshold window level ws (Some out))
        end
    | _ => Err (typeErr key "array")
    end
  else Err ("unknown_key:" +:+ key).

(** The first loop: the first key, in iteration order, that is refused. *)
Fixpoint check_keys (l : list (string * toml)) : option string :=
  match l with
  | [] => None
  | (k, _) :: l =>
      if decide (k ∈ nonReloadableKeys) then Some ("non_reloadable_key:" +:+ k)
      else if decide (k ∉ reloadableKeys) then Some ("unknown_key:" +:+ k)
      else check_keys l
  end.

(** The second loop. *)
Fixpoint apply_keys (l : list (string * toml)) (candidate : ReloadableConfig) :
    result string ReloadableConfig :=
  match l with
  | [] => Ok candidate
  | (k, v) :: l =>
      match applyKey candidate k v with
      | Ok candidate => apply_keys l candidate
      | Err reason => Err reason
      end
  end.

(** [lastToken] *)
Definition lastToken (subject : string) : string :=
  match CutLast subject "." with Some (_, t) => t | None => subject end.

Section reload.
Context {TM : Toml} {MR : MapRange}.

Definition keysOf (n : nat) (m : gmap string toml) : list string :=
  sort_strings (map_range n m).*1.

(** [fail] *)
Definition reload_fail (r : ConfigReloader) (req : ReloadRequest) (attempted : list string)
    (reason : string) : proc (res unit) :=
  ts ← nowRFC3339;
  _ ← Publish (ConfigSubject (rl_workspaceID r) ActionConfigReloadFailed (rq_CorrID req))
        (PConfigReloadFailed (mkConfigReloadFailedEvent ts (rq_CorrID req)
           (rl_workspaceID r) attempted reason true));
  _ ← (if rl_metrics r then IncConfigReload "failure" else Ret tt);
  Ret (Err (ErrStr ("config reload failed: " +:+ reason))).

(** From the decoded map and a snapshot to the candidate, or the reason for
    refusing. *)
Definition prepare (raw : gmap string toml) (current : ReloadableConfig) :
    result string ReloadableConfig :=
  match check_keys (map_range 1 raw) with
  | Some reason => Err reason
  | None => apply_keys (map_range 2 raw) current
  end.

Definition ApplyReload (req : ReloadRequest) (r : ConfigReloader) :
    proc (res unit * ConfigReloader) :=
  start ← now;
  let '(raw, err) := toml_unmarshal (rq_TOMLPayload req) in
  let keys := keysOf 0 raw in
  match err with
  | Some _ => e ← reload_fail r req keys "malformed_toml"; Ret (e, r)
  | None =>
      match prepare raw (rl_current r) with
      | Err reason => e ← reload_fail r req keys reason; Ret (e, r)
      | Ok candidate =>
          let r := mkReloader candidate (rl_workspaceID r) (rl_metrics r) (rl_kid r) in
          ts ← nowRFC3339;
          t2 ← now;
          _ ← Publish (ConfigSubject (rl_workspaceID r) ActionConfigReloaded (rq_CorrID req))
                (PConfigReloaded (mkConfigReloadedEvent ts
                   (rq_CorrID req) (rl_workspaceID r) keys (Milliseconds (Sub t2 start))
                   (default "" (rl_kid r))));
          _ ← (if rl_metrics r then IncConfigReload "success" else Ret tt);
          Ret (Ok tt, r)
      end
  end.

(** [json.Unmarshal(msg.Data, &req)] *)
Definition decode_reload (data : bytes) : option ReloadRequest :=
  v ← unmarshal_json data; decode_struct false ReloadRequest_fields (mkReload "" "" "") v.

(** [Subscribe] on a connection, nil or not, with the outcome of the client's
    [Subscribe]; the handler is [on_message]. *)
Definition Subscribe (conn : option bool) (subscribed : res unit) : res unit :=
  match conn with
  | None => Err (ErrStr "nil nats connection")
  | Some _ => subscribed
  end.

(** The message handler of [Subscribe]. *)
Definition on_message (subject : string) (data : bytes) (r : ConfigReloader) :
    proc ConfigReloader :=
  match decode_reload data with
  | None => Ret r
  | Some req =>
      let req := if decide (rq_CorrID req = "")
                 then mkReload (lastToken subject) (rq_RequestedBySubjectID req) (rq_TOMLPayload req)
                 else req in
      '(_, r) ← ApplyReload req r;
      Ret r
  end.

(** [Subscribe]: the subject listened on. *)
Definition reload_subject (r : ConfigReloader) : string :=
  subject_String (ConfigSubject (rl_workspaceID r) ActionConfigReloadRequested "*").
End reload.

(** ** The meaning of a reload *)

(** The keys the broker may reload, and the type of their values. *)
Inductive kind : Type := KString | KInt | KStrings.
Definition schema : list (string * kind) :=
  [("jwks_rotation_policy", KString); ("brute_force_threshold", KInt);
   ("brute_force_window_sec", KInt); ("log_level", KString); ("nats_workspace_id", KString);
   ("redaction_patterns", KStrings)].

Definition asStrings (v : toml) : option (list string) :=
  match v with TArray l => mapM asString l | _ => None end.

Definition present {A} (o : option A) : bool := match o with Some _ => true | None => false end.
Definition typed (k : string) (v : toml) : bool :=
  match assoc_get schema k with
  | Some KString => present (asString v)
  | Some KInt => present (asInt v)
  | Some KStrings => present (asStrings v)
  | None => false
  end.

(** A request to be accepted: every entry is allowed and typed. *)
Definition acceptable (raw : gmap string toml) : Prop := map_Forall (fun k v => typed k v = true) raw.
#[export] Instance acceptable_dec raw : Decision (acceptable raw).
Proof. apply _. Defined.

Definition override_with {A} (f : toml -> option A) (o : option toml) (old : A) : A :=
  default old (o ≫= f).

(** Each named field takes its new value, the others keep theirs. *)
Definition override (raw : gmap string toml) (c : ReloadableConfig) : ReloadableConfig :=
  mkConfig
    (override_with asString (raw !! "jwks_rotation_policy") (JWKSRotationPolicy c))
    (override_with asInt (raw !! "brute_force_threshold") (BruteForceThreshold c))
    (override_with asInt (raw !! "brute_force_window_sec") (BruteForceWindowSec c))
    (override_with asString (raw !! "log_level") (LogLevel c))
    (override_with asString (raw !! "nats_workspace_id") (NATSWorkspaceID c))
    (override_with (fun v => Some <$> asStrings v)
       (raw !! "redaction_patterns") (RedactionPatterns c)).

Lemma override_insert_one {A} (f : toml -> option A) (raw : gmap string toml) k v key old :
  raw !! k = None ->
  override_with f (raw !! key) (override_with f (({[k := v]} : gmap string toml) !! key) old) =
  override_with f (<[k := v]> raw !! key) old.
Proof.
  intros Hk. destruct (decide (k = key)) as [->|Hne].
  - by rewrite Hk, lookup_insert_eq, lookup_singleton_eq.
  - by rewrite lookup_insert_ne, lookup_singleton_ne.
Qed.

Lemma override_insert raw k v c :
  raw !! k = None -> override raw (override {[k := v]} c) = override (<[k := v]> raw) c.
Proof. intros Hk. unfold override. simpl. by rewrite !override_insert_one. Qed.

Lemma override_empty c : override ∅ c = c.
Proof. by destruct c. Qed.

(** Evaluate the comparisons of a known key. *)
Local Ltac known_key :=
  repeat match goal with
  | |- context [decide (?a = ?b)] =>
      (rewrite (decide_True (P := a = b)) by done) || (rewrite (decide_False (P := a = b)) by done)
  | |- context [{[?k := ?v]} !! ?k'] =>
      (rewrite (lookup_singleton_eq (M := gmap string) k v)) ||
      (rewrite (lookup_singleton_ne (M := gmap string) k k' v) by done)
  end.

Lemma schema_keys k : assoc_get schema k = None \/ k ∈ schema.*1.
Proof.
  unfold schema. simpl. repeat (case_decide; [right; subst; simpl; set_solver|]). by left.
Qed.

Lemma applyKey_spec c k v :
  if typed k v then applyKey c k v = Ok (override {[k := v]} c)
  else exists reason, applyKey c k v = Err reason.
Proof.
  destruct c as [c1 c2 c3 c4 c5 c6]. unfold typed, applyKey, override, override_with.
  destruct (schema_keys k) as [Hk|Hk].
  - rewrite Hk. rewrite !decide_False by (intros ->; discriminate Hk). eauto.
  - simpl in Hk. rewrite !elem_of_cons in Hk.
    destruct Hk as [->|[->|[->|[->|[->|[->|Hk]]]]]]; [..|by apply elem_of_nil in Hk];
      cbn [assoc_get schema]; known_key; simpl.
    + destruct (asString v); simpl; eauto.
    + destruct (asInt v); simpl; eauto.
    + destruct (asInt v); simpl; eauto.
    + destruct (asString v); simpl; eauto.
    + destruct (asString v); simpl; eauto.
    + destruct v as [| | | | |l|]; simpl; eauto. destruct (mapM asString l); simpl; eauto.
Qed.

Lemma typed_reloadable k v :
  typed k v = true -> (k ∈ reloadableKeys) /\ (k ∉ nonReloadableKeys).
Proof.
  unfold typed. destruct (schema_keys k) as [->|Hk]; [done|]. intros _.
  unfold reloadableKeys, nonReloadableKeys. set_solver.
Qed.

Lemma apply_keys_spec l c :
  NoDup l.*1 ->
  if forallb (fun kv => typed kv.1 kv.2) l
  then apply_keys l c = Ok (override (list_to_map l) c)
  else exists reason, apply_keys l c = Err reason.
Proof.
  revert c. induction l as [|[k v] l IH]; intros c Hnd; csimpl in *.
  { by rewrite override_empty. }
  apply NoDup_cons in Hnd as [Hk Hnd]. pose proof (applyKey_spec c k v) as Ha.
  destruct (typed k v); simpl; [|destruct Ha as [reason ->]; eauto].
  rewrite Ha. specialize (IH (override {[k := v]} c) Hnd). destruct (forallb _ l); [|done].
  rewrite IH, override_insert; [done|]. by apply not_elem_of_list_to_map.
Qed.

Lemma check_keys_typed l :
  forallb (fun kv => typed kv.1 kv.2) l = true -> check_keys l = None.
Proof.
  induction l as [|[k v] l IH]; simpl; [done|]. intros [Ht Hl]%andb_true_iff.
  apply typed_reloadable in Ht as [Hr Hn]. rewrite decide_False by done.
  rewrite decide_False by auto. by apply IH.
Qed.

Section reload_proofs.
Context {TM : Toml} {MR : MapRange}.

Lemma map_range_forallb n (raw : gmap string toml) :
  forallb (fun kv => typed kv.1 kv.2) (map_range n raw) = true <-> acceptable raw.
Proof.
  unfold acceptable. rewrite map_Forall_to_list, forallb_forall, Forall_forall.
  setoid_rewrite <-list_elem_of_In. setoid_rewrite (map_range_perm n raw).
  split; intros H x Hx; specialize (H x Hx); by destruct x.
Qed.

Lemma map_range_to_map n (raw : gmap string toml) :
  NoDup (map_range n raw).*1 /\ list_to_map (map_range n raw) = raw.
Proof.
  assert (NoDup (map_range n raw).*1) as Hnd.
  { rewrite map_range_perm. apply NoDup_fst_map_to_list. }
  split; [done|]. rewrite <-(list_to_map_to_list raw) at 2.
  apply list_to_map_proper; [done|]. apply map_range_perm.
Qed.

(** Whatever the iteration orders, the outcome is the same. *)
Lemma prepare_spec raw c :
  (acceptable raw -> prepare raw c = Ok (override raw c)) /\
  (~ acceptable raw -> exists reason, prepare raw c = Err reason).
Proof.
  unfold prepare. destruct (map_range_to_map 2 raw) as [Hnd Hm].
  pose proof (apply_keys_spec (map_range 2 raw) c Hnd) as Ha. rewrite Hm in Ha. split; intros H.
  - rewrite check_keys_typed by (by apply map_range_forallb).
    by rewrite (proj2 (map_range_forallb 2 raw) H) in Ha.
  - destruct (check_keys _); [eauto|]. destruct (forallb _ _) eqn:E; [|done].
    by apply map_range_forallb in E.
Qed.

Lemma keysOf_sorted n raw : keysOf n raw = sort_strings (map_to_list raw).*1.
Proof. apply sort_strings_Permutation. by rewrite map_range_perm. Qed.

(** The request is well-formed TOML with only allowed, well-typed keys. *)
Definition accepted (req : ReloadRequest) : Prop :=
  (toml_unmarshal (rq_TOMLPayload req)).2 = None /\
  acceptable (toml_unmarshal (rq_TOMLPayload req)).1.

Context {S : Type} {EN : Env} {ST : Store S}.

(** The single event of a reload, and the counter when there is one. *)
Definition reload_trace (r : ConfigReloader) (action corrID outcome : string) (p : payload) :
    list effect :=
  EPublish (ConfigSubject (rl_workspaceID r) action corrID) p ::
  if rl_metrics r then [EMetric (CounterInc "hanko_config_reload_total" [outcome])] else [].

(** C18: reloading is all or nothing.  In whatever order Go visits the decoded
    map, a request that is well-formed TOML with only reloadable keys of the
    right types succeeds: exactly the named fields change, and one
    config.reloaded event lists the sorted keys.  Any other request (malformed,
    naming the signing key, the database URL or an unknown key, or with a
    value of the wrong type) is refused: nothing changes, and one
    config.reload_failed event says so. *)
Theorem reload_all_or_nothing req r (w : World S) :
  let '((e, r'), w') := run (ApplyReload req r) w in
  let raw := (toml_unmarshal (rq_TOMLPayload req)).1 in
  let keys := sort_strings (map_to_list raw).*1 in
  (accepted req ->
     e = Ok tt /\
     r' = mkReloader (override raw (Current r)) (rl_workspaceID r) (rl_metrics r) (rl_kid r) /\
     exists ts ms, w_trace w' = w_trace w ++
       reload_trace r ActionConfigReloaded (rq_CorrID req) "success"
         (PConfigReloaded (mkConfigReloadedEvent ts (rq_CorrID req) (rl_workspaceID r) keys ms
            (default "" (rl_kid r))))) /\
  (~ accepted req ->
     r' = r /\ exists ts reason, e = Err (ErrStr ("config reload failed: " +:+ reason)) /\
       w_trace w' = w_trace w ++
       reload_trace r ActionConfigReloadFailed (rq_CorrID req) "failure"
         (PConfigReloadFailed (mkConfigReloadFailedEvent ts (rq_CorrID req) (rl_workspaceID r) keys
            reason true))).
Proof.
  assert (forall reason w0, w_trace w0 = w_trace w -> exists ts w1,
    run (reload_fail r req (keysOf 0 (toml_unmarshal (rq_TOMLPayload req)).1) reason) w0 =
      (Err (ErrStr ("config reload failed: " +:+ reason)), w1) /\
    w_trace w1 = w_trace w ++ reload_trace r ActionConfigReloadFailed (rq_CorrID req) "failure"
      (PConfigReloadFailed (mkConfigReloadFailedEvent ts (rq_CorrID req) (rl_workspaceID r)
         (sort_strings (map_to_list (toml_unmarshal (rq_TOMLPayload req)).1).*1) reason true)))
    as Hfail.
  { intros reason w0 Hw. rewrite keysOf_sorted. unfold reload_fail, reload_trace.
    destruct (rl_metrics r); simpl; eexists _, _; (split; [done|]); simpl;
      by rewrite Hw, <-?app_assoc. }
  unfold ApplyReload, accepted. rewrite run_bind. cbn [now perform run handle].
  destruct (toml_unmarshal (rq_TOMLPayload req)) as [raw [err|]] eqn:Et; cbn [fst snd] in *.
  - rewrite run_bind. edestruct (Hfail "malformed_toml") as (ts & w1 & -> & Htr); [done|].
    simpl. split; [by intros [? _]|]. intros _. split; [done|]. eauto.
  - destruct (prepare_spec raw (rl_current r)) as [Hok Herr].
    destruct (decide (acceptable raw)) as [Ha|Ha].
    + rewrite (Hok Ha). cbn [rl_workspaceID rl_metrics rl_kid]. rewrite keysOf_sorted.
      unfold reload_trace. destruct (rl_metrics r); simpl; (split; [intros _|by intros []]);
        (split; [done|]); (split; [done|]); eexists _, _; simpl; by rewrite <-?app_assoc.
    + destruct (Herr Ha) as [reason ->]. rewrite run_bind.
      edestruct (Hfail reason) as (ts & w1 & -> & Htr); [done|].
      simpl. split; [by intros [_ ?]|]. intros _. split; [done|]. eauto.
Qed.

(** ** Concurrent reloads *)

(** A handler before its snapshot, between its two critical sections, done. *)
Inductive task : Type :=
| Waiting (req : ReloadRequest)
| Prepared (candidate : ReloadableConfig)
| Finished.

(** [ApplyReload] up to its snapshot. *)
Definition attempt (req : ReloadRequest) (c : ReloadableConfig) : task :=
  match toml_unmarshal (rq_TOMLPayload req) with
  | (raw, None) => match prepare raw c with Ok c' => Prepared c' | Err _ => Finished end
  | (_, Some _) => Finished
  end.

Inductive reload_step : list task * ReloadableConfig -> list task * ReloadableConfig -> Prop :=
| step_snapshot i ts c req :
    ts !! i = Some (Waiting req) -> reload_step (ts, c) (<[i := attempt req c]> ts, c)
| step_commit i ts c c' :
    ts !! i = Some (Prepared c') -> reload_step (ts, c) (<[i := Finished]> ts, c').

(** The configurations made by whole reloads, one after the other. *)
Inductive derived (reqs : list ReloadRequest) (initial : ReloadableConfig) :
    ReloadableConfig -> Prop :=
| derived_initial : derived reqs initial initial
| derived_reload c req :
    derived reqs initial c -> req ∈ reqs -> accepted req ->
    derived reqs initial (override (toml_unmarshal (rq_TOMLPayload req)).1 c).

Definition task_ok (reqs : list ReloadRequest) (initial : ReloadableConfig) (t : task) : Prop :=
  match t with
  | Waiting req => req ∈ reqs
  | Prepared c => derived reqs initial c
  | Finished => True
  end.

Lemma attempt_ok reqs initial req c :
  req ∈ reqs -> derived reqs initial c -> task_ok reqs initial (attempt req c).
Proof.
  intros Hreq Hc. unfold attempt. destruct (toml_unmarshal _) as [raw [err|]] eqn:E; [done|].
  destruct (prepare_spec raw c) as [Hok Herr]. destruct (decide (acceptable raw)) as [Ha|Ha].
  - rewrite (Hok Ha). simpl. pose proof (derived_reload reqs initial c req Hc Hreq) as H.
    unfold accepted in H. rewrite E in H. by apply H.
  - by destruct (Herr Ha) as [reason ->].
Qed.

(** C32: no reader ever sees a half-applied reload.  Under every interleaving
    of concurrent reload requests, the live configuration is always the
    initial one with whole accepted requests applied to it, one after the
    other (though a request that snapshotted before another's commit may undo
    that one). *)
Theorem reload_never_torn reqs initial ts c :
  rtc reload_step (Waiting <$> reqs, initial) (ts, c) -> derived reqs initial c.
Proof.
  intros Hsteps. cut (Forall (task_ok reqs initial) ts /\ derived reqs initial c); [tauto|].
  revert Hsteps. apply (rtc_ind_r (fun s => Forall (task_ok reqs initial) s.1 /\
    derived reqs initial s.2)).
  - split; [|constructor]. apply Forall_forall. intros t (req & -> & Hr)%list_elem_of_fmap. done.
  - intros s s' _ Hstep [Hts Hc]. destruct Hstep as [i ts' c' req Hi|i ts' c' c'' Hi]; simpl in *.
    + pose proof (Forall_lookup_1 _ _ _ _ Hts Hi) as Hreq.
      split; [|done]. apply Forall_insert; [done|]. by apply attempt_ok.
    + pose proof (Forall_lookup_1 _ _ _ _ Hts Hi) as Hd. split; [|done].
      by apply Forall_insert.
Qed.
End reload_proofs.

(** ** Correlation ids *)

Lemma lastToken_subject ws action corrID :
  lacks "." corrID -> lastToken (subject_String (ConfigSubject ws action corrID)) = corrID.
Proof.
  intros H. unfold lastToken.
  assert (subject_String (ConfigSubject ws action corrID) =
    ("shikki." +:+ ws +:+ ".broker.hanko.config." +:+ action) +:+ String "." corrID) as ->.
  { apply to_bytes_inj. unfold subject_String.
    repeat (rewrite !to_bytes_app || simpl || rewrite <-!app_assoc). done. }
  by rewrite CutLast_app.
Qed.

(** Correlation of reload requests.  A message whose payload carries no
    correlation id is handled under the id at the end of its subject (an id
    without dots), one that carries an id under that id, and a message that
    does not decode changes nothing. *)
Lemma reload_correlation `{!Toml, !MapRange} ws corrID data req r :
  lacks "." corrID -> decode_reload data = Some req ->
  let subject := subject_String (ConfigSubject ws ActionConfigReloadRequested corrID) in
  let used := if decide (rq_CorrID req = "") then corrID else rq_CorrID req in
  on_message subject data r =
    ('(_, r) ← ApplyReload (mkReload used (rq_RequestedBySubjectID req) (rq_TOMLPayload req)) r;
     Ret r) /\
  (forall bad, decode_reload bad = None -> on_message subject bad r = Ret r).
Proof.
  intros Hc Hd. unfold on_message. split; [|by intros bad ->]. rewrite Hd.
  case_decide; [by rewrite lastToken_subject|]. by destruct req.
Qed.

(** ** A concrete library, for evaluation *)

#[export] Instance demo_toml : Toml := { toml_unmarshal text :=
  if decide (text = "level") then ({["log_level" := TString "debug"]}, None)
  else if decide (text = "window") then ({["brute_force_window_sec" := TInt 30]}, None)
  else if decide (text = "key") then ({["signing_key" := TString "x"]}, None)
  else (∅, Some (ErrStr "toml: invalid")) }.
Definition demo_config : ReloadableConfig := mkConfig "manual" 5 60 "info" "shi-qa" None.
Definition demo_reload (text : string) : ReloadRequest := mkReload "c-1" "ops" text.

Lemma reload_correlation_witness :
  on_message "shikki.ws.broker.hanko.config.reload_requested.c-7"
    (render (JObject [("toml_payload", JString "level")])) (NewConfigReloader "ws" demo_config) =
  ('(_, r) ← ApplyReload (mkReload "c-7" "" "level") (NewConfigReloader "ws" demo_config); Ret r).
Proof.
  apply (reload_correlation "ws" "c-7" (render (JObject [("toml_payload", JString "level")]))
    (mkReload "" "" "level") (NewConfigReloader "ws" demo_config)).
  - vm_compute. set_solver.
  - reflexivity.
Defined.

Lemma reload_never_torn_witness :
  derived [demo_reload "level"] demo_config (mkConfig "manual" 5 60 "debug" "shi-qa" None).
Proof.
  apply (reload_never_torn [demo_reload "level"] demo_config [Finished]).
  eapply rtc_l; [apply (step_snapshot 0 _ _ (demo_reload "level")); reflexivity|].
  eapply rtc_l; [eapply (step_commit 0); reflexivity|]. apply rtc_refl.
Defined.

(** Two reloads of different keys, both reported as applied, can leave only
    the second one: the first handler's commit is overwritten by a candidate
    built from the older snapshot. *)
Lemma reload_lost_update :
  rtc reload_step (Waiting <$> [demo_reload "level"; demo_reload "window"], demo_config)
    ([Finished; Finished], mkConfig "manual" 5 30 "info" "shi-qa" None).
Proof.
  eapply rtc_l; [apply (step_snapshot 0 _ _ (demo_reload "level")); reflexivity|].
  eapply rtc_l; [apply (step_snapshot 1 _ _ (demo_reload "window")); reflexivity|].
  eapply rtc_l; [eapply (step_commit 0); reflexivity|].
  eapply rtc_l; [eapply (step_commit 1); reflexivity|]. apply rtc_refl.
Qed.
