(* ===== verification/Cdc.v ===== *)
(** Change data capture (internal/observability/cdc.go): decoding the rows of
    the logical replication stream, redacting and publishing them, and the
    replication loop.

    The replication library is the interface [LogRepl].  The loop is run on
    the answers its environment gives in each iteration. *)

From S2P Require Import Prelude GoBytes GoTime GoFloat Protocol Sha256 Observability Store.
From S2P Require Import Effects Crypto MemStore Fixtures.
Local Open Scope Z_scope.

Definition CDCSlotName : string := "shikki_hanko_cdc_v1".
Definition CDCAuditTable : string := "hanko_audit".

(** [CDCOp], a string type. *)
Definition CDCInsert : string := "insert".
Definition CDCUpdate : string := "update".
Definition CDCDelete : string := "delete".
Definition cdc_action (op : string) : string :=
  if decide (op = CDCInsert) then ActionAuditRowInserted
  else if decide (op = CDCUpdate) then ActionAuditRowUpdated
  else if decide (op = CDCDelete) then ActionAuditRowDeleted
  else "audit_row_unknown".

Record CDCChange := mkChange {
  ch_Op : string;
  ch_Table : string;
  ch_RowID : string;
  ch_Fields : option (gmap string string);
  ch_Old : option (gmap string string);
  ch_CommitTime : Time
}.

Record CDCPublisher := mkCDC { cp_workspaceID : string; cp_metrics : bool }.

(** ** Redaction *)

Definition hashField (v : string) : string := hex_encode (sha256 (to_bytes v)).
Definition hashFields (m : option (gmap string string)) : option (gmap string string) :=
  fmap (M := gmap string) hashField <$> m.

Section publish.
Context {MR : MapRange}.

(** Reads of nil maps find nothing. *)
Definition diffColumns (old new : option (gmap string string)) : list string :=
  let old := default ∅ old in
  let new := default ∅ new in
  let changed : gset string :=
    foldl (fun s kv => if decide (old !! kv.1 = Some kv.2) then s else {[kv.1]} ∪ s) ∅
      (map_range 0 new) in
  let changed : gset string :=
    foldl (fun s kv => if decide (is_Some (new !! kv.1)) then s else {[kv.1]} ∪ s) changed
      (map_range 1 old) in
  sort_strings (elements changed).

Definition PublishChange (c : CDCPublisher) (corrID : string) (ch : CDCChange) : proc unit :=
  ts ← nowRFC3339;
  let ev hashed diff tombstone :=
    mkCDCEvent ts corrID (cp_workspaceID c) (ch_Table ch) (ch_RowID ch)
      (ch_Op ch) hashed diff tombstone in
  let ev :=
    if decide (ch_Op ch = CDCInsert) then ev (hashFields (ch_Fields ch)) [] ""
    else if decide (ch_Op ch = CDCUpdate) then
      ev (hashFields (ch_Fields ch)) (diffColumns (ch_Old ch) (ch_Fields ch)) ""
    else if decide (ch_Op ch = CDCDelete) then ev (hashFields (ch_Old ch)) [] "row_deleted"
    else ev None [] "" in
  _ ← Publish (CDCSubject (cp_workspaceID c) (cdc_action (ch_Op ch)) corrID) (PCDC ev);
  if cp_metrics c && negb (IsZero (ch_CommitTime ch)) then
    t2 ← now;
    let lag := Seconds (Sub t2 (ch_CommitTime ch)) in
    SetCDCLagSeconds (ch_Table ch) (if float_lt lag (float_of_int 0) then float_of_int 0 else lag)
  else Ret tt.
End publish.

(** ** Decoding *)

Record TupleDataColumn := mkColumn { col_DataType : ascii; col_Data : bytes }.
Record RelationMessage := mkRelation {
  rel_RelationID : Z; rel_RelationName : string; rel_Columns : list string }.

(** The logical messages [pglogrepl.Parse] returns; tuples may be nil. *)
Inductive Message : Type :=
| MRelation (r : RelationMessage)
| MInsert (relation : Z) (tuple : option (list TupleDataColumn))
| MUpdate (relation : Z) (old new : option (list TupleDataColumn))
| MDelete (relation : Z) (old : option (list TupleDataColumn))
| MOther.

Definition CDCDecoder : Type := gmap Z RelationMessage.
Definition NewCDCDecoder : CDCDecoder := ∅.
Definition HandleRelation (d : CDCDecoder) (rel : RelationMessage) : CDCDecoder :=
  <[rel_RelationID rel := rel]> d.

(** The loop over the columns, the i-th with the i-th name of the relation. *)
Fixpoint tuple_columns (names : list string) (cols : list TupleDataColumn)
    (out : gmap string string) : gmap string string :=
  match cols, names with
  | col :: cols, name :: names =>
      tuple_columns names cols
        (if decide (col_DataType col = "t"%char) then <[name := of_bytes (col_Data col)]> out
         else if decide (col_DataType col = "n"%char) then <[name := ""]> out
         else out)
  | _, _ => out
  end.
Definition tupleToMap (rel : RelationMessage) (tup : option (list TupleDataColumn)) :
    gmap string string :=
  match tup with
  | None => ∅
  | Some cols => tuple_columns (rel_Columns rel) cols ∅
  end.

Definition rowID (fields : gmap string string) : string := default "" (fields !! "id").

Definition HandleInsert (d : CDCDecoder) (relation : Z) (tuple : option (list TupleDataColumn)) :
    option CDCChange :=
  rel ← d !! relation;
  let fields := tupleToMap rel tuple in
  Some (mkChange CDCInsert (rel_RelationName rel) (rowID fields) (Some fields) None zero_time).
Definition HandleUpdate (d : CDCDecoder) (relation : Z) (old new : option (list TupleDataColumn)) :
    option CDCChange :=
  rel ← d !! relation;
  let newFields := tupleToMap rel new in
  let oldFields := tupleToMap rel old in
  let id := rowID newFields in
  let id := if decide (id = "") then rowID oldFields else id in
  Some (mkChange CDCUpdate (rel_RelationName rel) id (Some newFields) (Some oldFields) zero_time).
Definition HandleDelete (d : CDCDecoder) (relation : Z) (old : option (list TupleDataColumn)) :
    option CDCChange :=
  rel ← d !! relation;
  let oldFields := tupleToMap rel old in
  Some (mkChange CDCDelete (rel_RelationName rel) (rowID oldFields) None (Some oldFields) zero_time).

(** ** The replication loop *)

Class LogRepl : Type := {
  (** [pglogrepl.Parse] *)
  Parse : bytes -> res Message;
  (** [ParsePrimaryKeepaliveMessage]: whether a reply is requested. *)
  ParsePrimaryKeepaliveMessage : bytes -> res bool;
  (** [ParseXLogData]: where the data starts in the log, and the data. *)
  ParseXLogData : bytes -> res (Z * bytes)
}.
(** [PrimaryKeepaliveMessageByteID] and [XLogDataByteID] of the protocol. *)
Definition keepalive_byte : ascii := "k".
Definition xlog_byte : ascii := "w".

(** What [ReceiveMessage] returns. *)
Inductive received : Type :=
| RTimeout
| RError (e : error)
| ROther
| RCopyData (data : bytes).

(** The answers of one iteration: whether the context is done, what sending a
    status update would return, and the message received. *)
Record tick := mkTick {
  tk_done : option error;
  tk_standby : option error;
  tk_received : received
}.

(** What the loop did, in order: positions reported to the server, and WAL
    data passed to [dispatch]. *)
Inductive cdc_log : Type :=
| Reported (pos : Z)
| Dispatched (start : Z) (wal : bytes).

Record cdc_state := mkCDCState {
  cs_dec : CDCDecoder;
  cs_pos : Z;
  cs_nextStandby : Time;
  cs_log : list cdc_log
}.

Section loop.
Context {MR : MapRange} {LR : LogRepl}.
Variable c : CDCPublisher.

Definition decode (dec : CDCDecoder) (m : Message) : option CDCChange :=
  match m with
  | MRelation _ | MOther => None
  | MInsert relation tuple => HandleInsert dec relation tuple
  | MUpdate relation old new => HandleUpdate dec relation old new
  | MDelete relation old => HandleDelete dec relation old
  end.

Definition dispatch (dec : CDCDecoder) (walData : bytes) : proc CDCDecoder :=
  match Parse walData with
  | Err _ => Ret dec
  | Ok (MRelation rel) => Ret (HandleRelation dec rel)
  | Ok m =>
      match decode dec m with
      | None => Ret dec
      | Some ch =>
          if decide (ch_Table ch <> CDCAuditTable) then Ret dec
          else corrID ← newCorrID; _ ← PublishChange c corrID ch; Ret dec
      end
  end.

(** The status update, when it is due. *)
Definition report (tk : tick) (st : cdc_state) : proc (res unit * cdc_state) :=
  t ← now;
  if After t (cs_nextStandby st) then
    let log := cs_log st ++ [Reported (cs_pos st)] in
    match tk_standby tk with
    | Some err => Ret (Err (Errorf_w "cdc: standby status: " err),
                       mkCDCState (cs_dec st) (cs_pos st) (cs_nextStandby st) log)
    | None => t2 ← now;
              Ret (Ok tt, mkCDCState (cs_dec st) (cs_pos st) (Add t2 (10 * Second)) log)
    end
  else Ret (Ok tt, st).

(** A message received. *)
Definition on_copy_data (data : bytes) (st : cdc_state) : proc (res unit * cdc_state) :=
  match data with
  | [] => Ret (Err (Panic "index out of range"), st)
  | id :: data =>
      if decide (id = keepalive_byte) then
        match ParsePrimaryKeepaliveMessage data with
        | Ok true => t ← now; Ret (Ok tt, mkCDCState (cs_dec st) (cs_pos st) t (cs_log st))
        | _ => Ret (Ok tt, st)
        end
      else if decide (id = xlog_byte) then
        match ParseXLogData data with
        | Err e => Ret (Err (Errorf_w "cdc: parse xlog: " e), st)
        | Ok (start, wal) =>
            dec ← dispatch (cs_dec st) wal;
            Ret (Ok tt, mkCDCState dec (uint64_wrap (start + Z.of_nat (length wal)))
                          (cs_nextStandby st) (cs_log st ++ [Dispatched start wal]))
        end
      else Ret (Ok tt, st)
  end.

(** One iteration; an error ends the loop. *)
Definition iteration (tk : tick) (st : cdc_state) : proc (res unit * cdc_state) :=
  match tk_done tk with
  | Some e => Ret (Err e, st)
  | None =>
      '(r, st) ← report tk st;
      match r with
      | Err e => Ret (Err e, st)
      | Ok _ =>
          match tk_received tk with
          | RTimeout | ROther => Ret (Ok tt, st)
          | RError e => Ret (Err (Errorf_w "cdc: receive: " e), st)
          | RCopyData data => on_copy_data data st
          end
      end
  end.

(** The loop, for as long as the environment answers: the error it returned,
    or [Ok] when it is still running. *)
Fixpoint replicate_loop (ticks : list tick) (st : cdc_state) : proc (res unit * cdc_state) :=
  match ticks with
  | [] => Ret (Ok tt, st)
  | tk :: ticks =>
      '(r, st) ← iteration tk st;
      match r with
      | Err e => Ret (Err e, st)
      | Ok _ => replicate_loop ticks st
      end
  end.

(** [StartReplication], with the answers of the connection set-up: [Connect],
    [IdentifySystem] (the log position) and [StartReplication].  That the slot
    exists already is only printed. *)
Definition StartReplication (connect : option error) (identify : res Z) (start : option error)
    (ticks : list tick) : proc (res unit * cdc_state) :=
  let none pos := mkCDCState NewCDCDecoder pos zero_time [] in
  match connect with
  | Some e => Ret (Err (Errorf_w "cdc: connect: " e), none 0)
  | None =>
      match identify with
      | Err e => Ret (Err (Errorf_w "cdc: identify system: " e), none 0)
      | Ok pos =>
          match start with
          | Some e => Ret (Err (Errorf_w "cdc: start replication: " e), none pos)
          | None =>
              t ← now;
              replicate_loop ticks (mkCDCState NewCDCDecoder pos (Add t (10 * Second)) [])
          end
      end
  end.
End loop.

(** ** Structural differences *)

Section diff.
Context {MR : MapRange}.

Lemma elem_of_mark (P : string * string -> Prop) `{forall x, Decision (P x)}
    (l : list (string * string)) (s : gset string) k :
  k ∈ foldl (fun s kv => if decide (P kv) then s else {[kv.1]} ∪ s) s l <->
  k ∈ s \/ exists v, (k, v) ∈ l /\ ~ P (k, v).
Proof.
  revert s. induction l as [|[k' v'] l IH]; intros s; simpl.
  { setoid_rewrite elem_of_nil. naive_solver. }
  rewrite IH. setoid_rewrite elem_of_cons. case_decide; set_solver.
Qed.

Lemma elem_of_diffColumns old new k :
  k ∈ diffColumns old new <-> default ∅ old !! k <> default ∅ new !! k.
Proof.
  unfold diffColumns. rewrite sort_strings_perm, elem_of_elements.
  rewrite (elem_of_mark (fun kv => is_Some (default ∅ new !! kv.1))).
  rewrite (elem_of_mark (fun kv => default ∅ old !! kv.1 = Some kv.2)).
  setoid_rewrite elem_of_map_range. simpl.
  generalize (default ∅ old) as o, (default ∅ new) as n. intros o n.
  destruct (o !! k) as [v|] eqn:Eo, (n !! k) as [v'|] eqn:En; set_solver.
Qed.

Lemma diffColumns_sorted old new :
  Sorted string_le (diffColumns old new) /\ NoDup (diffColumns old new).
Proof.
  split; [apply sort_strings_sorted|]. unfold diffColumns. rewrite sort_strings_perm.
  apply NoDup_elements.
Qed.

(** Sorted lists without duplicates are equal when they have the same members. *)
Lemma diffColumns_ext o1 n1 o2 n2 :
  (forall k, k ∈ diffColumns o1 n1 <-> k ∈ diffColumns o2 n2) ->
  diffColumns o1 n1 = diffColumns o2 n2.
Proof.
  intros H. destruct (diffColumns_sorted o1 n1) as [S1 N1], (diffColumns_sorted o2 n2) as [S2 N2].
  apply (Sorted_unique string_le); [done..|]. by apply NoDup_Permutation.
Qed.
End diff.

Section redaction.
Context {MR : MapRange} {S : Type} {EN : Env} {ST : Store S}.

(** The event as a function of hashed tuples only. *)
Definition redacted_event (c : CDCPublisher) (ts corrID op table row : string)
    (old new : option (gmap string string)) : CDCEvent :=
  let hashed := if decide (op = CDCDelete) then old
                else if decide (op = CDCInsert \/ op = CDCUpdate) then new else None in
  mkCDCEvent ts corrID (cp_workspaceID c) table row op hashed
    (if decide (op = CDCUpdate) then diffColumns old new else [])
    (if decide (op = CDCDelete) then "row_deleted" else "").

(** No column's two values are a SHA-256 collision. *)
Definition collision_free (ch : CDCChange) : Prop :=
  forall k v v', default ∅ (ch_Old ch) !! k = Some v -> default ∅ (ch_Fields ch) !! k = Some v' ->
    hashField v = hashField v' -> v = v'.

Lemma lookup_hashFields m k : default ∅ (hashFields m) !! k = hashField <$> default ∅ m !! k.
Proof. destruct m as [m|]; simpl; [apply lookup_fmap|]. by rewrite !lookup_empty. Qed.

(** Comparing the hashes finds the columns that comparing the values finds. *)
Lemma diffColumns_hashed ch :
  collision_free ch ->
  diffColumns (ch_Old ch) (ch_Fields ch) =
  diffColumns (hashFields (ch_Old ch)) (hashFields (ch_Fields ch)).
Proof.
  intros Hc. apply diffColumns_ext. intros k. rewrite !elem_of_diffColumns, !lookup_hashFields.
  specialize (Hc k). destruct (default ∅ (ch_Old ch) !! k) as [v|],
    (default ∅ (ch_Fields ch) !! k) as [v'|]; simpl; [|naive_solver..].
  specialize (Hc v v' eq_refl eq_refl). split; [|congruence]. intros Hne [= He]. naive_solver.
Qed.

(** C37: redaction.  What is published about a changed row is computed from the
    SHA-256 hashes of its values alone: besides the operation, the table and
    the row id, the event carries the hashed new tuple (insert, update) or old
    tuple (delete), and for an update the columns whose hashes differ, which
    are the columns whose values differ unless SHA-256 collides on them.  The
    only other effect is the lag gauge, when metrics are on and a commit time
    is known. *)
Theorem cdc_redaction c corrID ch (w : World S) :
  collision_free ch ->
  exists ts lag, w_trace (run (PublishChange c corrID ch) w).2 = w_trace w ++
    EPublish (CDCSubject (cp_workspaceID c) (cdc_action (ch_Op ch)) corrID)
      (PCDC (redacted_event c ts corrID (ch_Op ch) (ch_Table ch) (ch_RowID ch)
               (hashFields (ch_Old ch)) (hashFields (ch_Fields ch)))) ::
    if cp_metrics c && negb (IsZero (ch_CommitTime ch))
    then [EMetric (GaugeSet "hanko_cdc_lag_seconds" [ch_Table ch] lag)] else [].
Proof.
  intros Hc. unfold PublishChange, nowRFC3339. rewrite !run_bind. cbn [now perform run handle].
  set (ts := format_rfc3339nano _). rewrite run_bind. cbn [Publish perform run handle].
  set (ev := if decide (ch_Op ch = CDCInsert) then _ else _).
  assert (ev = redacted_event c ts corrID (ch_Op ch) (ch_Table ch) (ch_RowID ch)
    (hashFields (ch_Old ch)) (hashFields (ch_Fields ch))) as ->.
  { subst ev. unfold redacted_event. rewrite <-(diffColumns_hashed ch Hc).
    destruct ch as [op]; simpl. unfold CDCInsert, CDCUpdate, CDCDelete.
    repeat case_decide; naive_solver. }
  exists ts. destruct (cp_metrics c && _).
  - eexists. rewrite run_bind. cbn [now perform run handle SetCDCLagSeconds].
    cbn [w_trace snd]. by rewrite <-app_assoc.
  - by exists (float_of_int 0).
Qed.
End redaction.

(** ** Decoding *)

Definition column_value (col : TupleDataColumn) : option string :=
  if decide (col_DataType col = "t"%char) then Some (of_bytes (col_Data col))
  else if decide (col_DataType col = "n"%char) then Some ""
  else None.

Lemma tuple_columns_other names cols out k :
  k ∉ names -> tuple_columns names cols out !! k = out !! k.
Proof.
  revert cols out. induction names as [|n names IH]; intros [|col cols] out Hk; simpl; try done.
  apply not_elem_of_cons in Hk as [Hn Hk]. rewrite IH by done.
  repeat case_decide; by rewrite ?lookup_insert_ne.
Qed.

Lemma tuple_columns_lookup names cols out i k :
  NoDup names -> names !! i = Some k ->
  tuple_columns names cols out !! k =
  match cols !! i ≫= column_value with Some v => Some v | None => out !! k end.
Proof.
  revert cols out i. induction names as [|n names IH]; intros [|col cols] out i Hnd Hi; [done..|].
  apply NoDup_cons in Hnd as [Hn Hnd]. destruct i as [|i]; simpl in *.
  - injection Hi as ->. rewrite tuple_columns_other by done. unfold column_value.
    repeat case_decide; by rewrite ?lookup_insert_eq.
  - rewrite (IH cols _ i) by done. destruct (cols !! i ≫= _); [done|].
    assert (n <> k) by (intros ->; by apply list_elem_of_lookup_2 in Hi).
    repeat case_decide; by rewrite ?lookup_insert_ne.
Qed.

(** Decoding a row.  For a relation whose column names are distinct, the
    decoded row maps the i-th name to the text of the i-th column, to the
    empty string when that column is null, and to nothing when its value was
    left out (unchanged) or the tuple is shorter; no other name is mapped. *)
Lemma cdc_tuple_decode rel cols :
  NoDup (rel_Columns rel) ->
  (forall i name, rel_Columns rel !! i = Some name ->
     tupleToMap rel (Some cols) !! name = cols !! i ≫= column_value) /\
  (forall name, name ∉ rel_Columns rel -> tupleToMap rel (Some cols) !! name = None).
Proof.
  intros Hnd. split.
  - intros i name Hi. unfold tupleToMap. rewrite (tuple_columns_lookup _ _ _ i) by done.
    rewrite lookup_empty. by destruct (_ ≫= _).
  - intros name Hn. unfold tupleToMap. by rewrite tuple_columns_other, lookup_empty.
Qed.

Definition demo_audit_relation : RelationMessage :=
  mkRelation 7 CDCAuditTable ["id"; "action"; "actor_sigil_id"].

(** A null column is mapped to the empty string. *)
Lemma cdc_tuple_decode_witness :
  tupleToMap demo_audit_relation
    (Some [mkColumn "t" (to_bytes "r1"); mkColumn "u" []; mkColumn "n" []]) !! "actor_sigil_id" = Some "".
Proof.
  rewrite (proj1 (cdc_tuple_decode demo_audit_relation _ ltac:(apply (bool_decide_unpack _); vm_compute; exact I))
    2%nat "actor_sigil_id" eq_refl). reflexivity.
Defined.

(** ** The replication loop *)

(** The data dispatched, and the position after it. *)
Definition dispatched (log : list cdc_log) : list bytes :=
  omap (fun e => match e with Dispatched _ wal => Some wal | Reported _ => None end) log.
Definition position (pos : Z) (log : list cdc_log) : Z :=
  foldl (fun p e => match e with
                    | Reported _ => p
                    | Dispatched start wal => uint64_wrap (start + Z.of_nat (length wal))
                    end) pos log.
(** Every reported position is the one after the data dispatched before it. *)
Definition reports_sound (pos : Z) (log : list cdc_log) : Prop :=
  forall i p, log !! i = Some (Reported p) -> p = position pos (take i log).

Section stream.
Context {MR : MapRange} {LR : LogRepl}.
Variable (T : Time -> Prop) (c : CDCPublisher).

(** The relations known after some data, and the changes of the audited table
    in it whose relation is known. *)
Fixpoint decoder_after (dec : CDCDecoder) (wals : list bytes) : CDCDecoder :=
  match wals with
  | [] => dec
  | wal :: wals => decoder_after (match Parse wal with
                                  | Ok (MRelation rel) => HandleRelation dec rel
                                  | _ => dec
                                  end) wals
  end.
Fixpoint audited_changes (dec : CDCDecoder) (wals : list bytes) : list CDCChange :=
  match wals with
  | [] => []
  | wal :: rest =>
      filter (fun ch => ch_Table ch = CDCAuditTable)
        (match Parse wal with Ok m => option_list (decode dec m) | Err _ => [] end) ++
      audited_changes (decoder_after dec [wal]) rest
  end.

(** The act is the publication of the change. *)
Definition announces_change (ch : CDCChange) (a : act) : Prop :=
  exists corrID ev,
    a = Emitted (EPublish (CDCSubject (cp_workspaceID c) (cdc_action (ch_Op ch)) corrID) (PCDC ev)) /\
    ce_CorrID ev = corrID /\ ce_Op ev = ch_Op ch /\ ce_Table ev = ch_Table ch /\
    ce_RowID ev = ch_RowID ch.

Lemma PublishChange_ensures corrID ch :
  IsZero (ch_CommitTime ch) = true ->
  ensures T (PublishChange c corrID ch) (fun es _ => exists a, es = [a] /\ announces_change ch a).
Proof.
  intros Hz. unfold PublishChange. apply ensures_now. intros t _.
  rewrite Hz, andb_false_r. simpl. intros _ _. eexists. split; [done|].
  eexists corrID, _. split; [done|]. repeat case_decide; simpl; auto.
Qed.

Lemma decode_zero_time dec m ch : decode dec m = Some ch -> IsZero (ch_CommitTime ch) = true.
Proof.
  destruct m; simpl; try done; unfold HandleInsert, HandleUpdate, HandleDelete;
    destruct (dec !! _); simpl; by intros [= <-].
Qed.

Lemma dispatch_ensures dec wal :
  ensures T (dispatch c dec wal) (fun es dec' =>
    dec' = decoder_after dec [wal] /\ Forall2 announces_change (audited_changes dec [wal]) es).
Proof.
  unfold dispatch. simpl. rewrite app_nil_r. destruct (Parse wal) as [m|e]; [|by simpl].
  destruct (decode dec m) as [ch|] eqn:Ed.
  - assert (ensures T (if decide (ch_Table ch <> CDCAuditTable) then Ret dec
        else corrID ← new_uuid; _ ← PublishChange c corrID ch; Ret dec) (fun es dec' =>
        dec' = dec /\ Forall2 announces_change
          (filter (fun ch => ch_Table ch = CDCAuditTable) [ch]) es)) as H.
    { rewrite filter_cons, filter_nil. case_decide as Ht; case_decide as Ht'; try done.
      apply (ensures_seq _ _ _ (fun es _ => es = [])); [done|]. intros es corrID ->.
      eapply ensures_seq; [apply PublishChange_ensures; by eapply decode_zero_time|].
      intros es [] (a & -> & Ha). simpl. auto. }
    destruct m; done.
  - destruct m; try done.
Qed.

Lemma decoder_after_app dec w1 w2 :
  decoder_after dec (w1 ++ w2) = decoder_after (decoder_after dec w1) w2.
Proof. revert dec. induction w1 as [|w w1 IH]; intros dec; simpl; [done|]. apply IH. Qed.

Lemma audited_changes_app dec w1 w2 :
  audited_changes dec (w1 ++ w2) =
  audited_changes dec w1 ++ audited_changes (decoder_after dec w1) w2.
Proof.
  revert dec. induction w1 as [|w w1 IH]; intros dec; simpl; [done|].
  rewrite IH, app_assoc. done.
Qed.

Lemma reports_sound_app pos l1 l2 :
  reports_sound pos l1 -> reports_sound (position pos l1) l2 -> reports_sound pos (l1 ++ l2).
Proof.
  unfold reports_sound, position. intros H1 H2 i p [Hi|[Hlen Hi]]%lookup_app_Some.
  - rewrite take_app_le by (apply lookup_lt_Some in Hi; lia). by apply H1.
  - rewrite take_app_ge, foldl_app by lia. by apply H2.
Qed.

(** What a part of the loop did. *)
Definition progress (st : cdc_state) (es : list act) (st' : cdc_state) : Prop :=
  exists l, cs_log st' = cs_log st ++ l /\ cs_pos st' = position (cs_pos st) l /\
    reports_sound (cs_pos st) l /\ cs_dec st' = decoder_after (cs_dec st) (dispatched l) /\
    Forall2 announces_change (audited_changes (cs_dec st) (dispatched l)) es.

Lemma progress_none st next log :
  log = cs_log st -> progress st [] (mkCDCState (cs_dec st) (cs_pos st) next log).
Proof. intros ->. exists []. by rewrite app_nil_r. Qed.

Lemma progress_refl st : progress st [] st.
Proof. exists []. by rewrite app_nil_r. Qed.

Lemma progress_trans st1 es1 st2 es2 st3 :
  progress st1 es1 st2 -> progress st2 es2 st3 -> progress st1 (es1 ++ es2) st3.
Proof.
  intros (l1 & Hl1 & Hp1 & Hr1 & Hd1 & Ha1) (l2 & Hl2 & Hp2 & Hr2 & Hd2 & Ha2).
  exists (l1 ++ l2). unfold dispatched in *.
  rewrite omap_app, decoder_after_app, audited_changes_app, <-Hd1.
  split_and!; [by rewrite Hl2, Hl1, app_assoc| | |done|].
  - rewrite Hp2, Hp1. unfold position. by rewrite foldl_app.
  - apply reports_sound_app; [done|]. by rewrite <-Hp1.
  - by apply Forall2_app.
Qed.

Lemma report_ensures tk st : ensures T (report tk st) (fun es x => progress st es x.2).
Proof.
  assert (forall next, progress st []
    (mkCDCState (cs_dec st) (cs_pos st) next (cs_log st ++ [Reported (cs_pos st)]))) as H.
  { intros next. exists [Reported (cs_pos st)]. split_and!; try done.
    intros [|i] p Hi; simpl in Hi; [by injection Hi as <-|done]. }
  unfold report. apply ensures_now. intros t _. case_match; [|apply progress_refl].
  case_match; [apply H|]. apply ensures_now. intros t2 _. apply H.
Qed.

Lemma on_copy_data_ensures data st :
  ensures T (on_copy_data c data st) (fun es x => progress st es x.2).
Proof.
  unfold on_copy_data. destruct data as [|id data]; [apply progress_refl|].
  case_decide; [|case_decide; [|apply progress_refl]].
  - destruct (ParsePrimaryKeepaliveMessage data) as [[]|]; try apply progress_refl.
    apply ensures_now. intros t _. by apply progress_none.
  - destruct (ParseXLogData data) as [[start wal]|]; [|apply progress_refl].
    eapply ensures_seq; [apply dispatch_ensures|]. intros es dec' [-> Ha]. simpl.
    rewrite app_nil_r. exists [Dispatched start wal]. split_and!; try done.
    intros [|i] p Hi; [by simpl in Hi|by simpl in Hi].
Qed.

Lemma iteration_ensures tk st : ensures T (iteration c tk st) (fun es x => progress st es x.2).
Proof.
  unfold iteration. destruct (tk_done tk); [apply progress_refl|].
  eapply ensures_seq; [apply report_ensures|]. intros es [[[]|e] st1] H1; simpl in H1.
  2:{ simpl. by rewrite app_nil_r. }
  assert (progress st (es ++ []) st1) as H1' by (by rewrite app_nil_r).
  destruct (tk_received tk); simpl; try done.
  eapply ensures_mono; [apply on_copy_data_ensures|]. intros es2 x H2. by eapply progress_trans.
Qed.

Lemma replicate_loop_ensures ticks st :
  ensures T (replicate_loop c ticks st) (fun es x => progress st es x.2).
Proof.
  revert st. induction ticks as [|tk ticks IH]; intros st; simpl; [apply progress_refl|].
  eapply ensures_seq; [apply iteration_ensures|]. intros es [[[]|e] st1] H1; simpl in H1.
  2:{ simpl. by rewrite app_nil_r. }
  eapply ensures_mono; [apply IH|]. intros es2 x H2. by eapply progress_trans.
Qed.
End stream.

Section stream_theorem.
Context {MR : MapRange} {LR : LogRepl} {S : Type} {EN : Env} {ST : Store S}.

Lemma announced_effects c chs es :
  Forall2 (announces_change c) chs es ->
  Forall2 (fun ch e => announces_change c ch (Emitted e)) chs (emitted es).
Proof.
  induction 1 as [|ch a chs es (corrID & ev & -> & Hev) H IH]; [constructor|].
  constructor; [|done]. exists corrID, ev. auto.
Qed.

End stream_theorem.

(** ** A concrete stream *)

(** Messages written as one byte. *)
Definition demo_logrepl : LogRepl := {|
  Parse wal := match wal with
               | "R"%char :: _ => Ok (MRelation demo_audit_relation)
               | "I"%char :: row => Ok (MInsert 7 (Some [mkColumn "t" row]))
               | _ => Ok MOther
               end;
  ParsePrimaryKeepaliveMessage _ := Ok true;
  ParseXLogData data := Ok (100, data)
|}.

#[local] Existing Instance demo_logrepl.

Definition demo_cdc : CDCPublisher := mkCDC "shi-qa" true.
Definition demo_tick (data : string) : tick := mkTick None None (RCopyData (to_bytes data)).
Definition demo_stream : (res unit * cdc_state) * World MemStore :=
  run (StartReplication demo_cdc None (Ok 40) None
    [demo_tick "wI0"; demo_tick "wR"; demo_tick "wI1"; demo_tick "k"; demo_tick "wI22"])
    demo_world.

(** The row before its relation is announced is skipped; the keep-alive message
    makes the loop report the position after the second row (100 + 2). *)
Example demo_stream_ok :
  (demo_stream.1.1, cs_pos demo_stream.1.2, length (w_trace demo_stream.2),
   omap (fun e => match e with Reported p => Some p | _ => None end) (cs_log demo_stream.1.2)) =
  (Ok tt, 103, 2%nat, [102]).
Proof. vm_compute. reflexivity. Qed.

Definition demo_change : CDCChange :=
  mkChange CDCUpdate CDCAuditTable "r1" (Some {["id" := "r1"; "action" := "issue"]})
    (Some {["id" := "r1"]}) zero_time.

(** Updating a row from one column to two. *)
Lemma cdc_redaction_witness :
  collision_free demo_change /\
  exists ts lag, w_trace (run (PublishChange demo_cdc "c-1" demo_change) demo_world).2 =
    EPublish (CDCSubject "shi-qa" ActionAuditRowUpdated "c-1")
      (PCDC (redacted_event demo_cdc ts "c-1" CDCUpdate CDCAuditTable "r1"
               (hashFields (ch_Old demo_change)) (hashFields (ch_Fields demo_change)))) ::
    if false then [EMetric (GaugeSet "hanko_cdc_lag_seconds" [CDCAuditTable] lag)] else [].
Proof.
  assert (collision_free demo_change) as H.
  { intros k v v' Ho Hn _. unfold demo_change in Ho, Hn. simpl in Ho, Hn.
    apply lookup_singleton_Some in Ho as [<- <-]. rewrite lookup_insert_eq in Hn. congruence. }
  split; [exact H|]. exact (cdc_redaction demo_cdc "c-1" demo_change demo_world H).
Defined.
