(* ===== verification/Serve.v ===== *)
(** The [serve] command (cmd/hanko-broker/serve.go): flags and environment,
    the wiring of the store, the publisher, the metrics endpoint, the reload
    subscriber, change data capture, the broker and the HTTP server, and how
    the process ends; and [main]'s dispatch over all commands.

    The outcomes of calls into the network are [Net].  While the server runs,
    the requests of the [session] go through [serving_handler], interleaved as
    the schedule says, to the store the process opened. *)

From S2P Require Import Prelude GoTime GoBytes GoStrings Protocol Json Canonical Store.
From S2P Require Import Effects Shared Crypto Envelope Broker Postgres PgStore BruteForce NatsPublisher.
From S2P Require Import Decode JsonText Http Metrics Oidc ConfigReload Cdc Cli.
Local Open Scope go_scope.

(** ** The issuer map *)

(** One entry of the list; blank entries are skipped. *)
Definition add_pair (acc : result arg (gmap string string)) (pair : string) :
    result arg (gmap string string) :=
  match acc with
  | Err e => Err e
  | Ok out =>
      let pair := trim_space_utf8 pair in
      if decide (pair = "") then Ok out else
      match Cut pair "="%char with
      | None => Err (AFmt "issuer pair %q: expected issuer=url" [AStr pair])
      | Some (k, v) => Ok (<[trim_space_utf8 k := trim_space_utf8 v]> out)
      end
  end.
Definition parseIssuerMap (raw : string) : result arg (gmap string string) :=
  match foldl add_pair (Ok ∅) (Split raw ","%char) with
  | Err e => Err e
  | Ok out => if decide (out = ∅) then Err (AFmt "no valid issuer=url pairs" []) else Ok out
  end.

(** ** Flags *)

Record serve_flags := mkServeFlags {
  vf_addr : string; vf_oidcPolicy : string; vf_oidcAudit : string;
  vf_oidcAudience : string; vf_oidcIssuers : string }.
Definition serve_flag_table :
    list (string * (string -> serve_flags -> result outcome serve_flags)) :=
  [("--addr", fun v '(mkServeFlags ad po au ae us) => Ok (mkServeFlags v po au ae us));
   ("--oidc-policy", fun v '(mkServeFlags ad po au ae us) => Ok (mkServeFlags ad v au ae us));
   ("--oidc-audit", fun v '(mkServeFlags ad po au ae us) => Ok (mkServeFlags ad po v ae us));
   ("--oidc-audience", fun v '(mkServeFlags ad po au ae us) => Ok (mkServeFlags ad po au v us));
   ("--oidc-issuers", fun v '(mkServeFlags ad po au ae us) => Ok (mkServeFlags ad po au ae v))].
Definition unknown_flag (a : string) : option outcome :=
  Some (die "serve: unknown flag %q" [AStr a]).
Definition serve_defaults (h : Host) : serve_flags :=
  mkServeFlags "127.0.0.1:8788" (h_getenv h "HANKO_OIDC_POLICY_PATH")
    (h_getenv h "HANKO_OIDC_AUDIT_PATH") (h_getenv h "HANKO_OIDC_AUDIENCE")
    (h_getenv h "HANKO_OIDC_ISSUERS").

(** [os.Getenv] with a default for the empty value. *)
Definition getenv_or (h : Host) (k dflt : string) : string :=
  if decide (h_getenv h k = "") then dflt else h_getenv h k.

(** ** Wiring *)

(** The outcomes of the calls that reach the network or the file system. *)
Record Net := mkNet {
  (** whether the first [nats.Connect] succeeds *)
  net_nats : bool;
  (** [net.Listen] of the metrics endpoint: the bound address *)
  net_listen : string -> res string;
  (** [conn.Subscribe] *)
  net_subscribe : res unit;
  (** the policy file *)
  net_policy : string -> file_read
}.

(** The metrics endpoint: its address when it serves, and the log line. *)
Definition start_metrics (h : Host) (n : Net) : option MetricsServer * list output :=
  let addr := getenv_or h "SHIKKI_METRICS_ADDR" MetricsAddr in
  if decide (addr = "off") then (None, []) else
  match ServeMetrics (net_listen n) addr with
  | Err e => (None, [Printf "hanko-broker: metrics endpoint disabled (%v)\n" [AErr e]])
  | Ok ms => (Some ms, [Printf "hanko-broker: /metrics serving on %s\n" [AStr (Addr ms)]])
  end.

(** The reload subscriber: only over a live connection. *)
Definition start_reloader (n : Net) (natsPub : option NATSPublisher) (workspaceID : string) :
    option ConfigReloader * list output :=
  match natsPub with
  | None => (None, [])
  | Some np =>
      if decide (workspaceID = "") then (None, []) else
      let reloader := Reloader_WithMetrics (NewConfigReloader workspaceID
        (mkConfig "" DefaultBruteForceThreshold DefaultBruteForceWindowSec "info" workspaceID None))
        true in
      match NATSConn np with
      | None => (None, [])
      | Some conn =>
          match Subscribe (Some conn) (net_subscribe n) with
          | Err e => (None, [Printf "hanko-broker: config-reload subscribe failed: %v\n" [AErr e]])
          | Ok _ => (Some reloader, [Println "hanko-broker: config-reload subscriber active"])
          end
      end
  end.

(** Change data capture: the publisher, the DSN and the publication. *)
Definition start_cdc (h : Host) (workspaceID : string) :
    option (CDCPublisher * string * string) * list output :=
  let dsn := h_getenv h "SHIKKI_CDC_DSN" in
  if decide (dsn <> "" /\ workspaceID <> "") then
    (Some (mkCDC workspaceID true, dsn, getenv_or h "SHIKKI_CDC_PUBLICATION" "hanko_audit_pub"),
     [Printf "hanko-broker: CDC replication starting (slot=%s)\n" [AStr CDCSlotName]])
  else (None, []).

(** OIDC bootstrap, when the issuer list is not empty. *)
Definition start_oidc (h : Host) (n : Net) (f : serve_flags) (workspaceID : string) (b : Broker) :
    result outcome (option (OIDCConfig * OIDCState) * list output) :=
  if decide (vf_oidcIssuers f = "") then Ok (None, []) else
  match parseIssuerMap (vf_oidcIssuers f) with
  | Err a => Err (die "serve: --oidc-issuers: %v" [a])
  | Ok issuerMap =>
      match LoadOIDCPolicy (vf_oidcPolicy f) (net_policy n (vf_oidcPolicy f)) with
      | Err e => Err (die "serve: load policy: %v" [AErr e])
      | Ok policy =>
          match NewOIDCBootstrap (h_getenv h) (Some b) (Some policy)
                  (mkOIDCConfig policy issuerMap (vf_oidcAudience f) (vf_oidcAudit f) 0 workspaceID) with
          | Err e => Err (die "serve: oidc bootstrap: %v" [AErr e])
          | Ok oidc =>
              Ok (Some oidc,
                  [Printf "hanko-broker: OIDC bootstrap enabled (policy=%s rows=%d audience=%s)\n"
                     [AStr (vf_oidcPolicy f); AInt (Len policy);
                      AStr (vf_oidcAudience f)]])
          end
      end
  end.

(** A running server. *)
Record Serving := mkServing {
  sv_addr : string;
  sv_backend : backend;
  sv_publisher : option NATSPublisher;
  sv_metrics : option MetricsServer;
  sv_reloader : option ConfigReloader;
  sv_cdc : option (CDCPublisher * string * string);
  sv_http : HTTPServer;
  sv_oidc : option (OIDCConfig * OIDCState);
  sv_timeouts : ServerTimeouts;
  sv_log : list output
}.

(** [&http.Server{...}] sets these two; the others stay zero. *)
Definition serve_timeouts : ServerTimeouts := mkTimeouts (5 * Second) 0 0 (30 * Second).

(** An outcome after log lines on standard error. *)
Definition logged (log : list output) (o : outcome) : outcome :=
  mkOutcome (o_exit o) (o_stdout o) (log ++ o_stderr o).

(** Everything up to [ListenAndServe], the opening of the store aside. *)
Definition start_server (h : Host) (n : Net) (f : serve_flags) (be : backend) :
    result outcome Serving :=
  let natsURL := getenv_or h "SHIKKI_NATS_URL" "nats://localhost:4222" in
  let workspaceID := h_getenv h "SHIKKI_WORKSPACE_ID" in
  let natsPub := NewPublisherFromEnv natsURL workspaceID (net_nats n) in
  let log0 := if decide (workspaceID <> "")
              then [Printf "hanko-broker: NATS publisher active (url=%s workspace=%s)\n"
                      [AStr natsURL; AStr workspaceID]] else [] in
  let '(metrics, log1) := start_metrics h n in
  let '(reloader, log2) := start_reloader n natsPub workspaceID in
  let '(cdc, log3) := start_cdc h workspaceID in
  let log := log0 ++ log1 ++ log2 ++ log3 in
  match loadBrokerKey h with
  | Err o => Err (logged log o)
  | Ok (pub, priv) =>
      let b := WithMetrics (WithPublisher (New pub priv) workspaceID) true in
      match NewHTTPServer (h_getenv h) (Some b) with
      | Err e => Err (logged log (die "serve: %v" [AErr e]))
      | Ok hs =>
          match start_oidc h n f workspaceID b with
          | Err o => Err (logged log o)
          | Ok (oidc, log4) =>
              Ok (mkServing (vf_addr f) be natsPub metrics reloader cdc hs oidc serve_timeouts
                    (log ++ log4 ++
                     [Printf "hanko-broker: serving on %s (kid=%s)\n"
                        [AStr (vf_addr f); AStr (JWKSKid hs)]]))
          end
      end
  end.

(** The mux of the running server on one request. *)
Definition serving_handler {ED : Ed25519} {ID : Idp} {JW : JwtLib} (sv : Serving) (r : Request) :
    oidc (res Response) :=
  match sv_oidc sv with
  | Some (cfg, _) =>
      if decide (rq_Path r = "/api/v1/sigils/bootstrap-oidc")
      then Handle (hs_broker (sv_http sv)) cfg r
      else lift (ServeHTTP (sv_http sv) None r)
  | None => lift (ServeHTTP (sv_http sv) None r)
  end.

(** How serving ends: a signal and the outcome of [Shutdown], or the listener
    returned ([None] for [http.ErrServerClosed] or nil). *)
Inductive serve_end : Type :=
| Signalled (shutdown : res unit)
| Listener (e : option error).
Definition end_serving (ev : serve_end) : outcome :=
  let draining := Println "hanko-broker: shutdown signal received; draining…" in
  match ev with
  | Signalled (Err e) =>
      mkOutcome 1 [] [draining; Printf "hanko-broker: shutdown error: %v\n" [AErr e]]
  | Signalled (Ok _) => mkOutcome 0 [] [draining; Println "hanko-broker: stopped"]
  | Listener (Some e) => die "serve: %v" [AErr e]
  | Listener None => succeed []
  end.

(** What reaches the server while it runs: the requests, each in a goroutine
    of its own; the schedule (a request arrives when its goroutine takes its
    first turn); and then the end, which cuts off what is still running. *)
Record session := mkSession {
  ss_requests : list Request; ss_schedule : list turn; ss_end : serve_end }.
(** The OIDC handler starts with its empty key cache; without it the state is
    not used. *)
Definition oidc_state (sv : Serving) : OIDCState :=
  match sv_oidc sv with
  | Some (_, st) => st
  | None => mkOIDCState ∅ 0 (NewBruteForceDetector (fun _ => "") "") []
  end.

Section session.
Context {ED : Ed25519} {ID : Idp} {JW : JwtLib} {EN : Env} {S : Type} {ST : Store S}.

Definition serve_requests (sv : Serving) (ss : session) (w : World S) :
    Conf OIDCState S (res Response) :=
  play (ss_schedule ss) (mkConf (serving_handler sv <$> ss_requests ss) [] (oidc_state sv) w).
(** The result of each handler that finished; net/http recovers a panic. *)
Definition answers (c : Conf OIDCState S (res Response)) : list (option (res Response)) :=
  (fun p => match p with SRet x => Some x | _ => None end) <$> cf_threads c.
Definition serve_session (sv : Serving) (ss : session) :
    M (World S) (outcome * list (option (res Response))) := fun w =>
  let c := serve_requests sv ss w in
  ((logged (sv_log sv) (end_serving (ss_end ss)), answers c), cf_world c).
End session.

(** ** The commands together *)

Section main.
Context {ED : Ed25519} {ID : Idp} {JW : JwtLib} {EN : Env} {PE : PgEnv}.
Context (pool : string -> res unit) (net : Net).

(** The whole command, with the requests of the session and their answers. *)
Definition serve_run (ev : session) (args : list string) (storeFlag : string) :
    M Machine (outcome * list (option (res Response))) := fun m =>
  let h := mc_host m in
  match parse_flags serve_flag_table unknown_flag args (serve_defaults h) with
  | Err o => ((o, []), m)
  | Ok f =>
      match openStore h storeFlag with
      | Err o => ((o, []), m)
      | Ok be =>
          let '(r, m) := open_backend pool be m in
          match r with
          | Err o => ((o, []), m)
          | Ok _ =>
              match start_server h net f be with
              | Err o => ((o, []), m)
              | Ok sv => process be (fun S ST => serve_session sv ev) m
              end
          end
      end
  end.
Definition runServe (ev : session) (args : list string) (storeFlag : string) :
    M Machine outcome := fun m =>
  let '((o, _), m) := serve_run ev args storeFlag m in (o, m).

(** [mustArgs] *)
Definition must_args (args : list string) (n : nat) (msg : string) (c : M Machine outcome) :
    M Machine outcome := fun m =>
  if decide (length args < n)%nat then (die msg [], m) else c m.
(** A command that needs a store: its arguments first, then [openStore]. *)
Definition store_command (plan : result outcome (proc outcome)) (storeFlag : string) :
    M Machine outcome := fun m =>
  match plan with Err o => (o, m) | Ok p => with_store pool storeFlag p m end.

Definition status_line : string :=
  "{" +:+ dq "status" +:+ ":" +:+ dq "ok" +:+ "," +:+ dq "version" +:+ ":" +:+ dq Version +:+ ","
  +:+ dq "impl" +:+ ":" +:+ dq "go-reference" +:+ "}".

(** [main] on [os.Args[1:]]. *)
Definition main (ev : session) (args : list string) : M Machine outcome := fun m =>
  let h := mc_host m in
  let usage := mkOutcome 1 [] [printUsage] in
  match args with
  | [] => (usage, m)
  | _ =>
      let '(args, storeFlag) := extractStoreFlag args "" in
      match args with
      | [] => (usage, m)
      | cmd :: rest =>
          if decide (cmd = "demo") then run_on BMem runDemo m
          else if decide (cmd = "keygen") then runKeygen rest m
          else if decide (cmd = "status") then (succeed [Println status_line], m)
          else if decide (cmd = "issue") then
            must_args args 2 "issue requires a sub-command: sigil | cap | attestation"
              (store_command (runIssue h rest) storeFlag) m
          else if decide (cmd = "verify") then store_command (runVerify h rest) storeFlag m
          else if decide (cmd = "revoke") then
            must_args args 2 "revoke requires a sub-command: sigil | cap"
              (store_command (runRevoke h rest) storeFlag) m
          else if decide (cmd = "list") then
            must_args args 2 "list requires a sub-command: sigils"
              (runList pool rest storeFlag) m
          else if decide (cmd = "serve") then runServe ev rest storeFlag m
          else if decide (cmd = "help" \/ cmd = "--help" \/ cmd = "-h") then
            (mkOutcome 0 [] [printUsage], m)
          else (mkOutcome 1 [] [Printf "unknown command: %q\n" [AStr cmd]; printUsage], m)
      end
  end.
End main.
