(* ===== verification/CliTheorems.v ===== *)
(** What the command line guarantees: keys written by [keygen] are the keys
    other commands load, [verify] exits with 0 exactly for the envelopes the
    broker accepts, an issued envelope survives being printed and read by
    another process, and a revocation holds for every later process. *)

From S2P Require Import Prelude GoTime GoBytes GoStrings GoTimeParse GoDuration Protocol Json.
From S2P Require Import Canonical Store Effects Crypto Sha256 Envelope MemStore Broker BrokerProofs.
From S2P Require Import Concurrency Fixtures Postgres PgStore PostgresTheorems NatsPublisher Decode JsonText.
From S2P Require Import JsonRoundtrip Wire Http Oidc OidcTheorems ConfigReload Cdc Cli Shared Serve.

(** ** keygen *)

Lemma hex_byte_solid a : Forall solid (hex_byte a).
Proof.
  destruct a as [[] [] [] [] [] [] [] []];
    (constructor; [by vm_compute|constructor; [by vm_compute|constructor]]).
Qed.

Lemma hex_encode_solid b : Forall solid (to_bytes (hex_encode b)).
Proof.
  unfold hex_encode. rewrite to_of_bytes. induction b as [|a b IH]; [constructor|].
  rewrite bind_cons. apply Forall_app. split; [apply hex_byte_solid|exact IH].
Qed.

Lemma trim_hex b : trim_space_utf8 (hex_encode b) = hex_encode b.
Proof.
  pose proof (trim_space_padded [] (to_bytes (hex_encode b)) [] eq_refl eq_refl
    (solid_trimmed _ (hex_encode_solid b))) as H.
  rewrite app_nil_r in H. cbn [app] in H. by rewrite of_to_bytes in H.
Qed.

Section keygen.
Context {ED : Ed25519} {EL : Ed25519Laws} {EN : Env} {PE : PgEnv}.

(** [crypto/rand] fills the whole buffer or fails. *)
Definition full_reads : Prop :=
  forall n k b, entropy n k = Ok b -> length b = k.

(** A file with the hexadecimal text of a private key is a key file. *)
Lemma loadBrokerKey_hex h priv :
  length priv = PrivateKeySize -> h_read h (key_path h) = Ok (to_bytes (hex_encode priv)) ->
  loadBrokerKey h = Ok (ed_public priv, priv).
Proof.
  intros Hl Hr. unfold loadBrokerKey. rewrite Hr, of_to_bytes, trim_hex, hex_decode_encode.
  by rewrite decide_False by (intros H; by apply H).
Qed.

Lemma loadBrokerKey_lengths h pub priv :
  loadBrokerKey h = Ok (pub, priv) ->
  pub = ed_public priv /\ length priv = PrivateKeySize /\ length pub = PublicKeySize.
Proof.
  unfold loadBrokerKey. destruct (h_read _ _) as [raw|]; [|done].
  destruct (hex_decode _) as [p|]; [|done]. case_decide as Hl; [done|].
  intros [= <- <-]. split_and!; [done..|].
  unfold ed_public. by rewrite length_drop, Hl.
Qed.

End keygen.

(** ** verify *)

Lemma loadBrokerKey_Err h o : loadBrokerKey h = Err o -> o_exit o = 1%Z.
Proof.
  unfold loadBrokerKey. destruct (h_read _ _); [|by intros [= <-]].
  destruct (hex_decode _); [|by intros [= <-]]. case_decide; by intros [= <-].
Qed.

Section verify.
Context {ED : Ed25519} {S : Type} {EN : Env} {ST : Store S} {SF : StoreSafe S} {SE : StoreExact S}.
Implicit Types w : World S.

(** With a key of the right length, verification does not panic. *)
Lemma VerifyAttestation_no_panic b env w msg :
  length (br_signerPub b) = PublicKeySize ->
  (run (VerifyAttestation b env) w).1 <> Err (Panic msg).
Proof.
  intros Hp E. pose proof (verify_attestation_run b env w Hp) as H.
  destruct (run (VerifyAttestation b env) w) as [r w']. cbn in E. subst r.
  destruct H as (k & Hv & _). unfold attestation_verdict in Hv.
  destruct (envelopeBody env) as [body|e] eqn:Eb.
  2:{ destruct Hv as [_ Hv]. destruct e; try discriminate Hv. by apply envelopeBody_no_panic in Eb. }
  destruct (Verify _ _ _); [|by destruct Hv]. destruct (revoked _ _); [by destruct Hv|].
  destruct (After _ _); [by destruct Hv|]. destruct Hv as [_ Hv].
  destruct (elems (env_Caps env) !! k); [by destruct Hv as (? & ? & _)|by destruct Hv].
Qed.

(** The exit code of verifying a decoded envelope on an open store. *)
Lemma verify_envelope_exit h env w :
  let code := o_exit (run (verify_envelope h env) w).1 in
  (code = 0%Z <-> exists pub priv, loadBrokerKey h = Ok (pub, priv) /\
                   signature_valid (New pub priv) env /\ usable w env) /\
  (code = 0%Z \/ code = 1%Z).
Proof.
  unfold verify_envelope, with_broker. destruct (loadBrokerKey h) as [[pub priv]|o] eqn:Ek.
  2:{ cbn. rewrite (loadBrokerKey_Err _ _ Ek). split; [|by right]. split; [done|].
      by intros (? & ? & ? & _). }
  destruct (loadBrokerKey_lengths _ _ _ Ek) as (_ & _ & Hp).
  rewrite run_bind.
  pose proof (verify_attestation_accepts (New pub priv) env w Hp) as Ha.
  pose proof (VerifyAttestation_no_panic (New pub priv) env w) as Hn.
  destruct (run (VerifyAttestation (New pub priv) env) w) as [r w']. cbn in Ha, Hn. cbn.
  destruct r as [[]|e]; cbn.
  - split; [|by left]. split; [|done]. intros _. exists pub, priv. split; [done|]. by apply Ha.
  - assert (o_exit (refused [] "DENIED: %v\n" e) = 1%Z) as -> by
      (destruct e; [done..|by destruct (Hn msg Hp)]).
    split; [|by right]. split; [done|]. intros (pub' & priv' & [= <- <-] & Hs). by apply Ha in Hs.
Qed.
End verify.

(** ** Opening the store *)

Section open.
Context {ED : Ed25519} {ID : Idp} {JW : JwtLib} {EN : Env} {PE : PgEnv}.
Context (pool : string -> res unit) (net : Net).
Context (Hh : pg_healthy).

(** The connection the environment names can be made. *)
Definition reachable (be : backend) (h : Host) : Prop :=
  match be with
  | BMem => True
  | BPg => h_getenv h "HANKO_PG_DSN" <> "" /\ pool (h_getenv h "HANKO_PG_DSN") = Ok tt
  end.

Lemma open_backend_ok be m :
  reachable be (mc_host m) ->
  exists m1, open_backend pool be m = (Ok tt, m1) /\ mc_host m1 = mc_host m /\
    db_tables (w_store (mc_world m1)) = db_tables (w_store (mc_world m)) /\
    w_clock (mc_world m1) = w_clock (mc_world m).
Proof.
  destruct be; cbn [reachable open_backend]; [by exists m|]. intros [Hd Hp].
  unfold NewPgStore. change (if decide ("" = "") then ?x else ?y) with x. cbv zeta.
  rewrite decide_False, Hp by done.
  unfold query. do 2 (rewrite statement_healthy by done; cbn). by eexists.
Qed.

(** What a verification on the given store would find: an empty memory store,
    or the database. *)
Definition accepts_now (be : backend) (m : Machine) (env : AttestationEnvelope) : Prop :=
  match be with
  | BMem => usable (new_process NewMemStore (mc_world m)) env
  | BPg => @usable PgDb _ _ _ (pg_exact Hh) (mc_world m) env
  end.

(** The database's answers depend on the tables only. *)
Lemma usable_tables (w1 w2 : World PgDb) env :
  db_tables (w_store w1) = db_tables (w_store w2) -> w_clock w1 = w_clock w2 ->
  @usable PgDb _ _ _ (pg_exact Hh) w1 env -> @usable PgDb _ _ _ (pg_exact Hh) w2 env.
Proof.
  intros Ht Hc [H1 H2 H3 H4].
  assert (forall id, pg_revoked (w_store w1) id = pg_revoked (w_store w2) id) as Hr
    by (intros id; unfold pg_revoked; by rewrite Ht).
  assert (forall n, pg_consumed (w_store w1) n <-> pg_consumed (w_store w2) n) as Hn
    by (intros n; unfold pg_consumed; by rewrite Ht).
  cbn in *. split; cbn; rewrite <-?Hc; [by rewrite <-Hr|done| |done].
  intros j cap Hj. destruct (H3 j cap Hj) as (? & ? & ?). rewrite <-Hr, <-Hn. auto.
Qed.

Lemma on_backend_verify be m env :
  reachable be (mc_host m) ->
  let code := o_exit (on_backend pool be (verify_envelope (mc_host m) env) m).1 in
  (code = 0%Z <-> exists pub priv, loadBrokerKey (mc_host m) = Ok (pub, priv) /\
                   signature_valid (New pub priv) env /\ accepts_now be m env) /\
  (code = 0%Z \/ code = 1%Z).
Proof.
  intros Hre. unfold on_backend.
  destruct (open_backend_ok be m Hre) as (m1 & -> & Hm & Ht & Hc). unfold run_on, process. destruct be; cbn.
  - cbn in Hre. pose proof (verify_envelope_exit (mc_host m) env
      (new_process NewMemStore (mc_world m1))) as H.
    destruct (run _ (new_process NewMemStore (mc_world m1))) as [o w']. cbn in *.
    destruct H as [H1 H2]. split; [|done]. rewrite H1.
    assert (usable (new_process NewMemStore (mc_world m1)) env <->
            usable (new_process NewMemStore (mc_world m)) env) as Hu.
    { split; intros [U1 U2 U3 U4]; split; cbn in *; try done;
        [rewrite <-Hc|rewrite <-Hc|rewrite Hc|rewrite Hc]; done. }
    setoid_rewrite Hu. done.
  - pose proof (@verify_envelope_exit _ PgDb _ _ _ (pg_exact Hh) (mc_host m) env
      (new_process (w_store (mc_world m1)) (mc_world m1))) as H.
    destruct (run _ (new_process (w_store (mc_world m1)) (mc_world m1))) as [o w']. cbn in *.
    destruct H as [H1 H2]. split; [|done]. rewrite H1.
    assert (@usable PgDb _ _ _ (pg_exact Hh) (new_process (w_store (mc_world m1)) (mc_world m1)) env
            <-> @usable PgDb _ _ _ (pg_exact Hh) (mc_world m) env) as Hu
      by (split; apply usable_tables; cbn; congruence).
    setoid_rewrite Hu. done.
Qed.

Lemma main_verify ev flag path m :
  main pool net ev ["--store"; flag; "verify"; path] m =
  store_command pool (runVerify (mc_host m) [path]) flag m.
Proof. done. Qed.

End open.

(** ** issue, then verify *)

Section issue.
Context {ED : Ed25519} {EL : Ed25519Laws} {S : Type} {EN : Env} {ST : Store S}.
Implicit Types w : World S.

(** The envelope [IssueAttestation] returns, issued at the clock reading [n]. *)
Definition issued (sigilID : string) (caps : slice CapabilityToken) (n : nat) (expiresAt : Time)
    (sig : bytes) : AttestationEnvelope :=
  mkEnvelope Version sigilID caps IssuerName (UTC (clock n)) expiresAt (Some sig).

Lemma IssueAttestation_Ok b sigilID caps expiresAt w env w' :
  key_pair (br_signerPub b) (br_signerPriv b) ->
  run (IssueAttestation b sigilID caps expiresAt) w = (Ok env, w') ->
  (exists n sig, env = issued sigilID caps n expiresAt sig) /\
  (exists v, envelope_json env = Ok v) /\ signature_valid b env.
Proof.
  intros Hk. unfold IssueAttestation, now. rewrite run_bind, run_perform. cbn [handle].
  rewrite run_try_with. cbn [run].
  set (t := UTC _). set (env0 := mkEnvelope _ _ _ _ _ _ None).
  destruct (envelopeBody env0) as [body|e] eqn:Eb; [|done].
  rewrite run_try_with. cbn [run]. destruct (Sign body (br_signerPriv b)) as [sig|e] eqn:Es; [|done].
  intros [= <- _]. split_and!; [by eexists _, _| |].
  - unfold envelopeBody in Eb. unfold envelope_json in *. cbn in *.
    destruct (caps_json caps); [|done]. destruct (json_time t); [|done].
    destruct (json_time expiresAt); [|done]. eauto.
  - exists body. split; [|by eapply Verify_Sign]. rewrite <-Eb. by apply envelopeBody_same_content.
Qed.

(** Resolving the capabilities ends the command or goes on with them. *)
Lemma resolve_caps_run ids acc k w :
  o_exit (run (resolve_caps ids acc k) w).1 = 0%Z ->
  exists caps w', length caps = length ids /\
    run (resolve_caps ids acc k) w = run (k (acc ++ caps)) w'.
Proof.
  revert acc w. induction ids as [|cid ids IH]; intros acc w; cbn [resolve_caps].
  - intros _. exists [], w. by rewrite app_nil_r.
  - rewrite run_bind, run_perform. destruct (handle (OGetCap cid) w) as [[c|e] w1].
    + intros H. destruct (IH _ _ H) as (caps & w' & Hl & ->). exists (c :: caps), w'.
      cbn. by rewrite Hl, <-app_assoc.
    + cbn. by destruct e.
Qed.

Lemma issue_attestation_exit h sigilID capIDs ttl w pub priv :
  loadBrokerKey h = Ok (pub, priv) -> key_pair pub priv ->
  o_exit (run (issue_attestation h sigilID capIDs ttl) w).1 = 0%Z ->
  exists caps n1 n2 sig v,
    let env := issued sigilID (Some caps) n1 (Add (clock n2) ttl) sig in
    length caps = length capIDs /\
    o_stdout (run (issue_attestation h sigilID capIDs ttl) w).1 =
      [Text (marshal_indent v ++ [newline])] /\
    envelope_json env = Ok v /\ signature_valid (New pub priv) env.
Proof.
  intros Hl Hk. unfold issue_attestation, with_broker, now. rewrite Hl. intros H.
  destruct (resolve_caps_run _ _ _ _ H) as (caps & w1 & Hc & E). rewrite E in H |- *. clear E.
  rewrite run_bind, run_perform in H |- *. cbn [handle] in H |- *.
  unfold finish in H |- *. rewrite run_bind in H |- *.
  destruct (run (IssueAttestation (New pub priv) sigilID (Some ([] ++ caps))
    (Add (clock (w_clock w1)) ttl)) _) as [[env|e] w3] eqn:Er; cbn in H |- *; [|by destruct e].
  apply IssueAttestation_Ok in Er as ((n & sig & ->) & [v Hv] & Hsig); [|done].
  eexists caps, n, _, sig, v. split_and!; [done| |done..]. by rewrite Hv.
Qed.
End issue.

Section across.
Context {ED : Ed25519} {EL : Ed25519Laws} {ID : Idp} {JW : JwtLib} {EN : Env} {PE : PgEnv}.
Context (pool : string -> res unit) (net : Net) (Hh : pg_healthy).


(** ** Revocation outlives the process *)

Abbreviation tables m := (db_tables (w_store (mc_world m))).

Lemma run_grows {A} (p : proc A) (w : World PgDb) :
  tables_grow (db_tables (w_store w)) (db_tables (w_store (run p w).2)).
Proof.
  apply (run_preserves (fun s => tables_grow (db_tables (w_store w)) (db_tables s))); [|apply grow_refl].
  intros s s' Hs H. eapply grow_trans; [exact H|]. by apply pg_step_grows.
Qed.

Lemma process_grows {A} be (code : forall S, Store S -> M (World S) A) m :
  (forall w : World PgDb, tables_grow (db_tables (w_store w)) (db_tables (w_store (code PgDb _ w).2))) ->
  tables_grow (tables m) (tables (process be code m).2).
Proof.
  intros Hc. unfold process. destruct be.
  - destruct (code MemStore _ _). apply grow_refl.
  - pose proof (Hc (new_process (w_store (mc_world m)) (mc_world m))) as H.
    destruct (code PgDb _ _). exact H.
Qed.
Lemma run_on_grows be p m : tables_grow (tables m) (tables (run_on be p m).2).
Proof. apply process_grows, run_grows. Qed.
Lemma serve_session_grows sv ss (w : World PgDb) :
  tables_grow (db_tables (w_store w)) (db_tables (w_store (serve_session sv ss w).2)).
Proof.
  cbn. apply (play_preserves (fun s => tables_grow (db_tables (w_store w)) (db_tables s)));
    [|apply grow_refl].
  intros s s' Hs H. eapply grow_trans; [exact H|]. by apply pg_step_grows.
Qed.

Lemma open_backend_grows be m : tables_grow (tables m) (tables (open_backend pool be m).2).
Proof.
  destruct be; cbn [open_backend]; [apply grow_refl|]. unfold NewPgStore.
  change (if decide ("" = "") then ?x else ?y) with x. cbv zeta.
  case_decide; [apply grow_refl|]. destruct (pool _); [|apply grow_refl].
  pose proof (query_tables (fun _ : PgTables => Some tt) (w_store (mc_world m))) as Hq.
  destruct (query _ _) as [[[]|e] db]; cbn in Hq |- *; [|rewrite Hq; apply grow_refl].
  assert (tables_grow (db_tables db) (db_tables (statement (fun t => Some (tt, t)) db).2)) as Hs.
  { apply statement_grows. intros [] t' [= <-]. apply grow_refl. }
  rewrite Hq in Hs. by destruct (statement _ db) as [[[]|e] db'].
Qed.

Lemma store_command_grows plan flag m :
  tables_grow (tables m) (tables (store_command pool plan flag m).2).
Proof.
  unfold store_command, with_store, on_backend. destruct plan as [p|]; [|apply grow_refl].
  destruct (openStore _ _) as [be|]; [|apply grow_refl].
  pose proof (open_backend_grows be m) as H1. destruct (open_backend pool be m) as [[[]|o] m1];
    [|exact H1]. eapply grow_trans; [exact H1|apply run_on_grows].
Qed.

Lemma runList_grows args flag m : tables_grow (tables m) (tables (runList pool args flag m).2).
Proof.
  unfold runList. destruct args as [|a args]; [apply grow_refl|].
  case_decide; [apply grow_refl|]. destruct (openStore _ _) as [be|]; [|apply grow_refl].
  unfold list_sigils. pose proof (open_backend_grows be m) as H1.
  destruct (open_backend pool be m) as [[[]|o] m1]; [|exact H1]. destruct be; [exact H1|].
  assert (db_tables (Pg.ListSigils (w_store (mc_world m1))).2 = tables m1) as Ht
    by (unfold Pg.ListSigils; by rewrite answer_state, query_tables).
  destruct (Pg.ListSigils _) as [r db]. cbn in Ht |- *. by rewrite Ht.
Qed.

Lemma runKeygen_grows args m : tables_grow (tables m) (tables (runKeygen args m).2).
Proof.
  unfold runKeygen. destruct (keygen_flags _ _ _) as [out force].
  destruct (_ && _); [apply grow_refl|].
  pose proof (run_grows GenerateKeyPair (mc_world m)) as H.
  destruct (run GenerateKeyPair (mc_world m)) as [[[pub priv]|e] w]; [|exact H].
  destruct (h_mkdir _ _); [|exact H]. unfold WriteFile. by destruct (h_write _ _).
Qed.

Lemma serve_run_grows ev args flag m :
  tables_grow (tables m) (tables (serve_run pool net ev args flag m).2).
Proof.
  unfold serve_run. destruct (parse_flags _ _ _ _) as [f|]; [|apply grow_refl].
  destruct (openStore _ _) as [be|]; [|apply grow_refl].
  pose proof (open_backend_grows be m) as H. destruct (open_backend pool be m) as [[[]|o] m1];
    [|exact H]. destruct (start_server _ _ _ _) as [sv|o]; [|exact H].
  eapply grow_trans; [exact H|apply process_grows, serve_session_grows].
Qed.
Lemma runServe_grows ev args flag m :
  tables_grow (tables m) (tables (runServe pool net ev args flag m).2).
Proof.
  unfold runServe. pose proof (serve_run_grows ev args flag m) as H.
  by destruct (serve_run pool net ev args flag m) as [[o l] m'].
Qed.

(** No command, whatever the database does, takes back a consumed nonce or a
    revocation. *)
Lemma main_grows ev args m : tables_grow (tables m) (tables (main pool net ev args m).2).
Proof.
  unfold main, must_args. destruct args as [|a0 args0]; [apply grow_refl|].
  destruct (extractStoreFlag _ _) as [[|cmd rest] flag]; [apply grow_refl|].
  repeat case_decide; first [apply grow_refl | apply run_on_grows | apply runKeygen_grows
    | apply store_command_grows | apply runList_grows | apply runServe_grows].
Qed.

(** What can happen between two commands: other commands, and any change of
    the surroundings (files, environment). *)
Inductive later : Machine -> Machine -> Prop :=
| later_refl m : later m m
| later_command ev args m m' : later (main pool net ev args m).2 m' -> later m m'
| later_host h m m' : later (mkMachine h (mc_world m)) m' -> later m m'.

Lemma later_grows m m' : later m m' -> tables_grow (tables m) (tables m').
Proof.
  induction 1 as [m|ev args m m' _ IH|h m m' _ IH]; [apply grow_refl| |exact IH].
  eapply grow_trans; [apply main_grows|exact IH].
Qed.

(** [revoke] that succeeds has written the revocation. *)
Lemma revoke_target_revokes h kind id reason (w : World PgDb) :
  let '(o, w') := run (revoke_target h kind id reason) w in
  o_exit o = 0%Z -> pg_revoked (w_store w') id = true.
Proof.
  unfold revoke_target, with_broker. destruct (loadBrokerKey h) as [[pub priv]|o] eqn:Ek.
  2:{ cbn. by rewrite (loadBrokerKey_Err _ _ Ek). }
  case_decide; [|case_decide; [|done]].
  - unfold finish, RevokeSigil, now. rewrite !run_bind, run_perform. cbn [handle].
    rewrite run_try_with, run_perform. cbn [handle].
    set (e := mkRevocation _ _ _ _ _). set (w1 := mkWorld _ _ _ _ _ _ _).
    pose proof (pg_Revoke_revokes e (w_store w1)) as Hr. unfold on_store.
    change (Revoke e (w_store w1)) with (Pg.Revoke e (w_store w1)).
    destruct (Pg.Revoke e (w_store w1)) as [[[]|err] db]; cbn in Hr |- *; [|by destruct err].
    intros _. by apply Hr.
  - unfold finish, now. rewrite !run_bind, run_perform. cbn [handle].
    rewrite run_bind, run_perform. cbn [handle].
    set (e := mkRevocation _ _ _ _ _). set (w1 := mkWorld _ _ _ _ _ _ _).
    pose proof (pg_Revoke_revokes e (w_store w1)) as Hr. unfold on_store.
    change (Revoke e (w_store w1)) with (Pg.Revoke e (w_store w1)).
    destruct (Pg.Revoke e (w_store w1)) as [[[]|err] db]; cbn in Hr |- *; [|by destruct err].
    intros _. by apply Hr.
Qed.

(** [verify] of an envelope that names a revoked id. *)
Lemma verify_refuses_revoked ev flag path input env id m :
  openStore (mc_host m) flag = Ok BPg -> reachable pool BPg (mc_host m) ->
  verify_input (mc_host m) [path] = Ok input -> unmarshal_envelope input = Some env ->
  uses_id env id -> pg_revoked (w_store (mc_world m)) id = true ->
  o_exit (main pool net ev ["--store"; flag; "verify"; path] m).1 = 1%Z.
Proof.
  intros Ho Hre Hi Hu Hid Hr.
  rewrite main_verify. unfold store_command, runVerify, with_store. rewrite Hi, Hu, Ho.
  destruct (on_backend_verify pool Hh BPg m env Hre) as [H0 [H1|H1]]; [|exact H1].
  exfalso. apply H0 in H1 as (pub & priv & _ & _ & [U1 _ U3 _]). cbn in U1, U3.
  destruct Hid as [<-|(cap & (j & Hj)%list_elem_of_lookup_1 & <-)]; [congruence|].
  destruct (U3 j cap Hj) as (? & _). congruence.
Qed.

End across.

(** ** A concrete machine *)

Definition demo_home_key : string := "/home/op/.hanko/broker.key".
Definition demo_host (dsn : string) (envelope : bytes) : Host :=
  mkHost (fun k => if decide (k = "HOME") then "/home/op"
                   else if decide (k = "HANKO_PG_DSN") then dsn else "")
    (fun p => if decide (p = demo_home_key) then Ok (to_bytes (hex_encode demo_priv))
              else if decide (p = "env.json") then Ok envelope
              else Err (ErrStr "no such file"))
    (fun p => bool_decide (p ∈ [demo_home_key; "env.json"]))
    (Ok []) (fun _ => Ok tt) (fun _ => Ok tt).
Definition demo_machine (dsn : string) (envelope : bytes) : Machine :=
  mkMachine (demo_host dsn envelope) (init_world (mkDb empty_tables 0)).
Definition demo_pool (_ : string) : res unit := Ok tt.
Definition demo_net : Net :=
  mkNet true (fun a => Ok a) (Ok tt) (fun _ => NotExist).
Definition quit : session := mkSession [] [] (Signalled (Ok tt)).

Lemma demo_healthy : pg_healthy.
Proof. intros k. reflexivity. Qed.

Lemma Ok_inj {E A} (x y : A) : Ok (E := E) x = Ok y -> x = y.
Proof. by intros [= ->]. Qed.

(** The text of a command's only output. *)
Definition printed (o : outcome) : bytes :=
  match o_stdout o with [Text t] => t | _ => [] end.
Definition demo_text : bytes :=
  printed (main demo_pool demo_net quit
    ["issue"; "attestation"; "--sigil"; "sigil-1"; "--ttl"; "1h"] (demo_machine "" [])).1.

(** The demo runs to its end: the envelope verifies, the wrong scope and the
    revoked sigil are denied. *)
Example demo_completes :
  let o := (main demo_pool demo_net quit ["demo"] (demo_machine "" [])).1 in
  o_exit o = 0%Z /\ o_stderr o = [] /\
  o_stdout o !! 5%nat = Some (Println "VerifyAttestation: OK") /\
  o_stdout o !! 7%nat = Some (Printf "VerifyCapScope(mismatch) correctly denied: %v\n"
    [AErr (ErrVerify ErrScopeMismatch)]) /\
  o_stdout o !! 8%nat = Some (Printf "VerifyAttestation(revoked sigil) correctly denied: %v\n"
    [AErr (ErrVerify ErrSigilRevoked)]) /\ length (o_stdout o) = 11%nat.
Proof. vm_compute. repeat split; reflexivity. Qed.



Lemma demo_key_loads dsn text : loadBrokerKey (demo_host dsn text) = Ok (demo_pub, demo_priv).
Proof. vm_compute. reflexivity. Qed.


Definition demo_revoked_machine : Machine :=
  (main demo_pool demo_net quit ["--store"; "pg"; "revoke"; "sigil"; "sigil-1"]
     (demo_machine "postgres://db" demo_text)).2.
Definition demo_parsed : AttestationEnvelope :=
  default sample_env (unmarshal_envelope demo_text).

