(* ===== verification/ServeTheorems.v ===== *)
(** What the flags and the environment of [serve] and [issue] mean: the issuer
    list, the token life time, and that a server that starts does not serve
    an endpoint whose trust configuration is missing. *)

From S2P Require Import Prelude GoTime GoBytes GoStrings GoTimeParse GoDuration Protocol Json.
From S2P Require Import Canonical Store Effects Crypto Envelope Broker Postgres PgStore.
From S2P Require Import Fixtures NatsPublisher Decode JsonText Http Oidc ConfigReload Cdc Cli.
From S2P Require Import Shared Serve OidcTheorems CliTheorems.

(** ** The issuer list *)

(** One entry as an operator may write it: white space around the issuer and
    around the URL. *)
Record issuer_entry := mkIssuerEntry {
  en_pad1 : bytes; en_issuer : bytes; en_pad2 : bytes;
  en_pad3 : bytes; en_url : bytes; en_pad4 : bytes }.
Definition entry_text (e : issuer_entry) : bytes :=
  en_pad1 e ++ (en_issuer e ++ (en_pad2 e ++ "="%char :: en_pad3 e) ++ en_url e) ++ en_pad4 e.
(** Non-empty ASCII texts without white space; no comma in either, and no
    equals sign in the issuer. *)
Definition entry_ok (e : issuer_entry) : Prop :=
  forallb is_space (en_pad1 e) = true /\ forallb is_space (en_pad2 e) = true /\
  forallb is_space (en_pad3 e) = true /\ forallb is_space (en_pad4 e) = true /\
  en_issuer e <> [] /\ en_url e <> [] /\ Forall solid (en_issuer e) /\ Forall solid (en_url e) /\
  ("="%char ∉ en_issuer e) /\ (","%char ∉ en_issuer e) /\ (","%char ∉ en_url e).
(** The whole list, separated by commas. *)
Fixpoint entries_text (es : list issuer_entry) : bytes :=
  match es with
  | [] => []
  | [e] => entry_text e
  | e :: es => entry_text e ++ ","%char :: entries_text es
  end.
Definition add_entry (m : gmap string string) (e : issuer_entry) : gmap string string :=
  <[of_bytes (en_issuer e) := of_bytes (en_url e)]> m.

Lemma space_lacks (c : ascii) p : forallb is_space p = true -> is_space c = false -> c ∉ p.
Proof.
  intros Hp Hc Hin. pose proof (forallb_elem _ _ _ Hp Hin). congruence.
Qed.

Lemma entry_no_comma e : entry_ok e -> ","%char ∉ entry_text e.
Proof.
  intros (P1 & P2 & P3 & P4 & _ & _ & _ & _ & _ & C1 & C2). unfold entry_text.
  pose proof (space_lacks ","%char). rewrite !not_elem_of_app, not_elem_of_cons.
  split_and!; try done; auto.
Qed.

Lemma split_entries es :
  es <> [] -> Forall entry_ok es -> split_on ","%char (entries_text es) = map entry_text es.
Proof.
  intros Hne H. induction H as [|e es He Hes IH]; [done|]. destruct es as [|e2 es].
  - cbn. by rewrite split_on_end by (by apply entry_no_comma).
  - change (entries_text (e :: e2 :: es)) with (entry_text e ++ ","%char :: entries_text (e2 :: es)).
    rewrite split_on_app by (by apply entry_no_comma). by rewrite IH.
Qed.

Lemma trim_left_of l p :
  Forall solid l -> forallb is_space p = true -> trim_space_utf8 (of_bytes (l ++ p)) = of_bytes l.
Proof. intros Hl Hp. by apply (trim_space_padded [] l p eq_refl Hp), solid_trimmed. Qed.
Lemma trim_right_of l p :
  Forall solid l -> forallb is_space p = true -> trim_space_utf8 (of_bytes (p ++ l)) = of_bytes l.
Proof.
  intros Hl Hp. rewrite <-(app_nil_r l) at 1.
  by apply (trim_space_padded p l [] Hp eq_refl), solid_trimmed.
Qed.

Lemma add_pair_entry m e :
  entry_ok e -> add_pair (Ok m) (of_bytes (entry_text e)) = Ok (add_entry m e).
Proof.
  intros (P1 & P2 & P3 & P4 & N1 & N2 & S1 & S2 & E1 & C1 & C2).
  unfold add_pair, entry_text. rewrite trim_space_padded; [|done|done|].
  2:{ apply trimmed_between; try done. rewrite Forall_app, Forall_cons.
      split_and!; [by apply space_ascii|done|by apply space_ascii]. }
  rewrite decide_False.
  2:{ intros E. apply (f_equal to_bytes) in E. rewrite to_of_bytes in E. by destruct (en_issuer e). }
  unfold Cut. rewrite to_of_bytes, <-app_assoc, app_assoc. cbn [app].
  rewrite cut_app by (rewrite not_elem_of_app; split; [done|by apply space_lacks]).
  cbn [mbind option_bind]. by rewrite trim_left_of, trim_right_of.
Qed.

Lemma parse_entries es m :
  Forall entry_ok es ->
  foldl add_pair (Ok m) (map (fun e => of_bytes (entry_text e)) es) = Ok (foldl add_entry m es).
Proof.
  intros H. revert m. induction H as [|e es He Hes IH]; intros m; [done|].
  cbn [map foldl]. by rewrite add_pair_entry, IH.
Qed.

Lemma add_entries_nonempty es m : es <> [] \/ m <> ∅ -> foldl add_entry m es <> ∅.
Proof.
  revert m. induction es as [|e es IH]; intros m [H|H]; try done; apply IH; right;
    apply insert_non_empty.
Qed.

(** The issuer list means what it says.  A comma-separated list of
    issuer=url entries, with any white space around issuers and URLs, is
    parsed to the map from each issuer to its URL; of two entries for an
    issuer the later one counts. *)
Lemma issuer_list_parsed es :
  es <> [] -> Forall entry_ok es ->
  parseIssuerMap (of_bytes (entries_text es)) = Ok (foldl add_entry ∅ es).
Proof.
  intros Hne H. unfold parseIssuerMap, Split. rewrite to_of_bytes, split_entries by done.
  change (of_bytes <$> map entry_text es) with (map of_bytes (map entry_text es)).
  rewrite map_map, parse_entries by done.
  rewrite decide_False by (apply add_entries_nonempty; by left). done.
Qed.

(** Two entries, the second issuer padded on both sides. *)
Definition demo_entries : list issuer_entry :=
  [mkIssuerEntry [] (to_bytes "https://a") [] [] (to_bytes "https://a/jwks?x=1") [];
   mkIssuerEntry [" "%char] (to_bytes "https://b") [" "%char] [] (to_bytes "https://b/k") [" "%char]].
Lemma demo_entries_ok : Forall entry_ok demo_entries.
Proof.
  repeat constructor; try (vm_compute; reflexivity); try discriminate;
    vm_compute; set_solver.
Qed.
Lemma issuer_list_parsed_witness :
  parseIssuerMap "https://a=https://a/jwks?x=1, https://b =https://b/k " =
  Ok {["https://b" := "https://b/k"; "https://a" := "https://a/jwks?x=1"]}.
Proof. exact (issuer_list_parsed demo_entries ltac:(discriminate) demo_entries_ok). Defined.

(** ** Life times *)



(** ** Starting the server *)

Lemma NewOIDCBootstrap_Ok getenv b policy cfg cfg' st :
  NewOIDCBootstrap getenv (Some b) (Some policy) cfg = Ok (cfg', st) ->
  oc_Policy cfg' = policy /\ oc_IssuerJWKSURLs cfg' = oc_IssuerJWKSURLs cfg /\
  oc_IssuerJWKSURLs cfg <> ∅ /\ oc_Audience cfg' = oc_Audience cfg /\ oc_Audience cfg <> "" /\
  oc_WorkspaceID cfg' = oc_WorkspaceID cfg.
Proof.
  unfold NewOIDCBootstrap. case_decide; [done|]. case_decide; [done|]. by intros [= <- _].
Qed.

Lemma start_oidc_Ok h n f ws b oidc log :
  start_oidc h n f ws b = Ok (oidc, log) ->
  (vf_oidcIssuers f = "" /\ oidc = None) \/
  (vf_oidcIssuers f <> "" /\ exists cfg st,
     oidc = Some (cfg, st) /\ parseIssuerMap (vf_oidcIssuers f) = Ok (oc_IssuerJWKSURLs cfg) /\
     oc_IssuerJWKSURLs cfg <> ∅ /\ oc_Audience cfg = vf_oidcAudience f /\ vf_oidcAudience f <> "" /\
     LoadOIDCPolicy (vf_oidcPolicy f) (net_policy n (vf_oidcPolicy f)) = Ok (oc_Policy cfg) /\
     oc_WorkspaceID cfg = ws).
Proof.
  unfold start_oidc. case_decide as Hi; [intros [= <- _]; by left|].
  destruct (parseIssuerMap _) as [urls|] eqn:Eu; [|done].
  destruct (LoadOIDCPolicy _ _) as [policy|] eqn:Ep; [|done].
  destruct (NewOIDCBootstrap _ _ _ _) as [[cfg st]|] eqn:Eb; [|done]. intros [= <- _].
  apply NewOIDCBootstrap_Ok in Eb as (H1 & H2 & H3 & H4 & H5 & H6). right. split; [done|].
  exists cfg, st. cbn in *. rewrite H1, H2, H4, H6. done.
Qed.

Lemma start_server_Ok h n f be sv :
  start_server h n f be = Ok sv ->
  exists pub priv, loadBrokerKey h = Ok (pub, priv) /\
    hs_broker (sv_http sv) =
      WithMetrics (WithPublisher (New pub priv) (h_getenv h "SHIKKI_WORKSPACE_ID")) true /\
    hs_adminSecret (sv_http sv) = to_bytes (h_getenv h "HANKO_ADMIN_SECRET") /\
    (exists log, start_oidc h n f (h_getenv h "SHIKKI_WORKSPACE_ID") (hs_broker (sv_http sv)) =
       Ok (sv_oidc sv, log)) /\
    (h_getenv h "SHIKKI_WORKSPACE_ID" = "" ->
     sv_publisher sv = None /\ sv_reloader sv = None /\ sv_cdc sv = None).
Proof.
  unfold start_server. destruct (start_metrics h n) as [ms log1].
  destruct (start_reloader _ _ _) as [rl log2] eqn:Er.
  destruct (start_cdc h _) as [cdc log3] eqn:Ec.
  destruct (loadBrokerKey h) as [[pub priv]|] eqn:Ek; [|done].
  unfold NewHTTPServer. case_decide; [done|]. cbn [buildJWKS].
  destruct (start_oidc _ _ _ _ _) as [[oidc log4]|] eqn:Eo; [|done]. intros [= <-].
  exists pub, priv. cbn. split_and!; [done..|by exists log4|].
  intros Hw. rewrite Hw in *. unfold NewPublisherFromEnv, start_cdc in *.
  rewrite decide_True in Er |- * by (by right). cbn in Er. rewrite decide_False in Ec by naive_solver.
  by simplify_eq.
Qed.

Section served.
Context {ED : Ed25519} {ID : Idp} {JW : JwtLib}.

Definition not_found_response : Response := http_Error ∅ "404 page not found" StatusNotFound.
Definition unauthorized_response : Response := http_Error ∅ "unauthorized" StatusUnauthorized.

(** C28: a server that starts is closed by default.  It runs with the broker
    key of the host.  Without an issuer list the token exchange endpoint does
    not exist (404).  With one, the exchange is configured with exactly the
    parsed issuers (at least one), a non-empty audience - the start fails
    otherwise - and the rows of the policy file.  Without an admin secret in
    the environment every request to the admin endpoint is refused (401).
    Without a workspace id there is no NATS publisher, no reload subscriber
    and no change data capture. *)
Theorem server_closed_by_default h n f be sv :
  start_server h n f be = Ok sv ->
  (exists pub priv, loadBrokerKey h = Ok (pub, priv) /\
     br_signerPub (hs_broker (sv_http sv)) = pub /\ br_signerPriv (hs_broker (sv_http sv)) = priv) /\
  (vf_oidcIssuers f = "" -> forall r,
     rq_Path r = "/api/v1/sigils/bootstrap-oidc" ->
     serving_handler sv r = SRet (Ok not_found_response)) /\
  (vf_oidcIssuers f <> "" -> exists cfg st,
     sv_oidc sv = Some (cfg, st) /\ parseIssuerMap (vf_oidcIssuers f) = Ok (oc_IssuerJWKSURLs cfg) /\
     oc_IssuerJWKSURLs cfg <> ∅ /\ oc_Audience cfg = vf_oidcAudience f /\ vf_oidcAudience f <> "" /\
     LoadOIDCPolicy (vf_oidcPolicy f) (net_policy n (vf_oidcPolicy f)) = Ok (oc_Policy cfg)) /\
  (h_getenv h "HANKO_ADMIN_SECRET" = "" -> forall r,
     rq_Path r = "/admin/revoke" ->
     serving_handler sv r = SRet (Ok unauthorized_response)) /\
  (h_getenv h "SHIKKI_WORKSPACE_ID" = "" ->
     sv_publisher sv = None /\ sv_reloader sv = None /\ sv_cdc sv = None).
Proof.
  intros (pub & priv & Hk & Hb & Hs & (log & Ho) & Hw)%start_server_Ok.
  apply start_oidc_Ok in Ho. split_and!; [|intros Hi r Hr|intros Hi|intros Ha r Hr|done].
  - exists pub, priv. by rewrite Hb.
  - destruct Ho as [[_ Ho]|[? _]]; [|done]. unfold serving_handler, ServeHTTP.
    rewrite Ho. by rewrite Hr.
  - destruct Ho as [[? _]|(_ & cfg & st & H)]; [done|]. exists cfg, st. naive_solver.
  - assert (ServeHTTP (sv_http sv) None r = Ret (Ok unauthorized_response)) as E.
    { unfold ServeHTTP. rewrite Hr.
      change (requireAdminSecret (sv_http sv) (handleAdminRevoke (sv_http sv)) r =
        Ret (Ok unauthorized_response)).
      unfold requireAdminSecret. rewrite decide_True; [done|]. left. by rewrite Hs, Ha. }
    unfold serving_handler. rewrite E. destruct (sv_oidc sv) as [[cfg ?]|]; [|done].
    by rewrite Hr.
Qed.
End served.

Definition demo_serve_flags : serve_flags :=
  mkServeFlags "127.0.0.1:8788" "" "" "hanko" "https://idp=https://idp/jwks".
Definition demo_serving : result outcome Serving :=
  start_server (demo_host "" []) demo_net demo_serve_flags BMem.

Lemma server_closed_by_default_witness :
  match demo_serving with
  | Ok sv => exists cfg st, sv_oidc sv = Some (cfg, st) /\ oc_Audience cfg = "hanko" /\
               parseIssuerMap "https://idp=https://idp/jwks" = Ok (oc_IssuerJWKSURLs cfg)
  | Err _ => False
  end.
Proof.
  assert (is_ok demo_serving = true) as Hok by (vm_compute; reflexivity).
  destruct demo_serving as [sv|] eqn:E; [|discriminate Hok].
  destruct (server_closed_by_default (demo_host "" []) demo_net demo_serve_flags BMem sv E)
    as (_ & _ & H & _).
  destruct (H ltac:(discriminate)) as (cfg & st & H1 & H2 & _ & H4 & _).
  exists cfg, st. split_and!; [exact H1|exact H4|exact H2].
Defined.
