(* ===== verification/Sessions.v ===== *)
(** Whole sessions of the server: what its answers mean afterwards, in the
    store and to the commands of other processes. *)

From S2P Require Import Prelude GoTime GoBytes GoStrings Protocol Json Canonical Store Effects Shared.
From S2P Require Import Crypto Envelope MemStore Broker Postgres PgStore PostgresTheorems Fixtures NatsPublisher.
From S2P Require Import Decode JsonText Wire Http HttpTheorems Oidc OidcProofs OidcTheorems.
From S2P Require Import ConfigReload Cdc Cli Serve CliTheorems ServeTheorems Concurrency BrokerProofs.

Lemma new_oidc_honest `{!Idp} getenv b p cfg0 cfg st0 :
  NewOIDCBootstrap getenv (Some b) p cfg0 = Ok (cfg, st0) -> cache_honest st0.
Proof. intros Hn. apply (new_bootstrap _ _ _ _ _ _ Hn). Qed.

Section session.
Context {ED : Ed25519} {ID : Idp} {JW : JwtLib} {EN : Env} {S : Type} {ST : Store S}.

Lemma start_server_honest h n f be sv :
  start_server h n f be = Ok sv -> cache_honest (oidc_state sv).
Proof.
  intros (pub & priv & _ & _ & _ & (log & Ho) & _)%start_server_Ok. unfold oidc_state.
  destruct (sv_oidc sv) as [[cfg st]|]; [|done]. unfold start_oidc in Ho.
  repeat case_match; simplify_eq. by eapply new_oidc_honest.
Qed.

(** One history accounts for all answers of a session. *)
Lemma session_history h n f be sv ss (w : World S)
    (claim : Request -> list act -> list oidc_label -> res Response -> Prop) :
  start_server h n f be = Ok sv ->
  let c := serve_requests sv ss w in
  (forall r, assures (read_between w (cf_world c)) cache_honest oidc_step label_events
               (serving_handler sv r) (claim r)) ->
  exists h : history, recorded h.*2 w (cf_world c) /\
    forall i r x, ss_requests ss !! i = Some r -> answers c !! i = Some (Some x) ->
      exists ls, claim r (own (Some i) h) ls x.
Proof.
  intros Hs c Hc.
  destruct (assures_play (read_between w (cf_world c)) cache_honest oidc_step label_events cache_honest_stable
    (ss_schedule ss) (mkConf (serving_handler sv <$> ss_requests ss) [] (oidc_state sv) w)
    (claim <$> ss_requests ss)) as (hist & lh & H1 & _ & _ & _ & H5); [| |done|].
  - by eapply start_server_honest.
  - by apply Forall2_fmap, Forall_Forall2_diag, Forall_true.
  - exists hist. split; [done|]. intros i r x Hi Hx. unfold answers in Hx.
    rewrite list_lookup_fmap in Hx. fold (serve_requests sv ss w) c in H5.
    destruct (cf_threads c !! i) as [[a| |]|] eqn:Ei; try done. cbn in Hx. injection Hx as ->.
    exists (own i lh). apply (H5 i x (claim r) Ei). by rewrite list_lookup_fmap, Hi.
Qed.

(** A request whose answer is 204 has stored the revocation it asked for. *)
Definition revokes_when_204 (s : HTTPServer) (r : Request) (es : list act) (x : res Response) : Prop :=
  rq_Path r = "/admin/revoke" -> forall resp, x = Ok resp -> rs_Status resp = StatusNoContent ->
  authorized s r /\ exists req e, revocation_asked r req /\ rev_ID e = rr_SigilID req /\
    Called (ORevoke e) (Ok tt) ∈ es.

Lemma ServeHTTP_revokes T s r : ensures T (ServeHTTP s None r) (revokes_when_204 s r).
Proof.
  unfold revokes_when_204. destruct (decide (rq_Path r = "/admin/revoke")) as [Hp|Hp].
  2:{ eapply ensures_mono; [apply ensures_any|]. naive_solver. }
  unfold ServeHTTP. rewrite Hp, decide_False, decide_False, decide_True by naive_solver.
  unfold requireAdminSecret. case_decide as Ha.
  { intros _ resp [= <-]. done. }
  assert (authorized s r) as Hau.
  { split; [intros E; apply Ha; left; by rewrite E|].
    apply ConstantTimeCompare_eq, dec_stable. naive_solver. }
  unfold handleAdminRevoke. case_decide as Hm; [by intros _ resp [= <-]|].
  destruct (decode_revokeRequest _) as [req|] eqn:Ed; [|by intros _ resp [= <-]].
  do 2 (case_decide; [by intros _ resp [= <-]|]). unfold RevokeSigil.
  cbn. intros t _ [[]|err] _; cbn.
  - intros corrID _ t2 _ [] _. intros _ resp [= <-] _. split; [done|].
    exists req, (mkRevocation (rr_SigilID req) "sigil" (rr_Reason req) (UTC t) (rr_RevokedBy req)).
    split_and!; [by split_and!|done|set_solver].
  - by destruct err; cbn; intros _ resp Hx; simplify_eq.
Qed.

Lemma serving_handler_revokes T sv r :
  assures T cache_honest oidc_step label_events (serving_handler sv r)
    (fun es _ x => revokes_when_204 (sv_http sv) r es x).
Proof.
  assert (assures T cache_honest oidc_step label_events (lift (ServeHTTP (sv_http sv) None r))
    (fun es _ x => revokes_when_204 (sv_http sv) r es x)) as Hl.
  { eapply assures_mono; [apply assures_lift, ServeHTTP_revokes|]. by intros es sp a [_ H]. }
  unfold serving_handler. destruct (sv_oidc sv) as [[cfg st]|]; [|exact Hl].
  case_decide as Hp; [|exact Hl]. eapply assures_mono; [apply Handle_assures|].
  intros es sp x _ Hp'. rewrite Hp in Hp'. discriminate.
Qed.
End session.

(** ** Every request is answered *)

Section progress.
Context {ED : Ed25519} {ID : Idp} {JW : JwtLib}.

Lemma within_publish_event cfg action corrID clientID sub scopes start outcome reason :
  proc_within 3 (publish_event cfg action corrID clientID sub scopes start outcome reason).
Proof. unfold publish_event, now, Publish. by destruct start. Qed.

Lemma within_reject cfg corrID start h clientID failure status code reason :
  within 3 (reject cfg corrID start h clientID failure status code reason).
Proof. apply (within_lift 3 0); [apply within_publish_event|done]. Qed.

Lemma within_audit cfg req sub outcome scope : within 2 (audit cfg req sub outcome scope).
Proof. unfold audit. by case_decide. Qed.

Lemma within_audit_reject cfg req sub outcome scope corrID start h clientID failure status code reason :
  within 5 (_ ← audit cfg req sub outcome scope;
            reject cfg corrID start h clientID failure status code reason).
Proof. apply (within_bind 2 3); [apply within_audit|]. intros []. apply within_reject. Qed.

Lemma within_deliver b cfg corrID start h req scopes sub row cap scope exp :
  within 6 (deliver b cfg corrID start h req scopes sub row cap scope exp).
Proof.
  apply (within_lift 1 5); [done|].
  intros [jws|e]; [|by destruct e; first [exact I | eapply within_le; [|apply within_reject]; lia]].
  apply (within_bind 2 3); [apply within_audit|]. intros [].
  apply (within_lift 3 0); [apply within_publish_event|done].
Qed.

Lemma within_mint b cfg corrID start h req scopes sub :
  within 15 (mint b cfg corrID start h req scopes sub).
Proof.
  assert (forall p : oidc (res Response), within 5 p -> within 15 p) as H5
    by (intros p; apply within_le; lia).
  unfold mint. destruct (Lookup _ _ _) as [row|]; [|apply H5, within_audit_reject].
  do 2 (case_match; [apply H5, within_audit_reject|]).
  apply (within_lift 1 14); [done|]. intros t. apply (within_lift 5 9).
  { unfold IssueCap, GenerateNonce, rand_read, now, new_uuid. cbn. intros [sg|e]; [|done].
    cbn. intros [n|e]; [|done]. cbn. intros id t2 [[]|e]; done. }
  intros [cap|e]; [|by destruct e; first [exact I | eapply within_le; [|apply within_reject]; lia]].
  apply (within_lift 3 6); [apply within_publish_event|]. intros []. apply within_deliver.
Qed.

Lemma within_Handle b cfg r : within 22 (Handle b cfg r).
Proof.
  assert (forall p : oidc (res Response), within 3 p -> within 17 p) as H3
    by (intros p; apply within_le; lia).
  apply (within_lift 1 21); [done|]. intros start. case_decide; [done|].
  apply (within_lift 1 20); [by case_decide|]. intros corrID.
  apply (within_lift 3 17); [apply within_publish_event|]. intros []. unfold exchange.
  destruct (decode_bootstrap _) as [req|]; [|apply H3, within_reject].
  repeat (case_decide; [apply H3, within_reject|]).
  destruct (_ !! _) as [url|]; [|apply H3, within_reject].
  apply (within_bind 2 15).
  { unfold verifyJWT. destruct (jwt_kid _); [|done]. case_decide; [done|].
    apply (within_bind 1 1); [done|]. by intros [key|e]. }
  intros [sub|e]; [apply within_mint|].
  assert (within 15 (invalid_token cfg corrID start (<["X-Shikki-Corr-Id" := corrID]>
    {["Content-Type" := "application/json; charset=utf-8"]}) r)) as Hi.
  { apply (within_lift 3 12); [apply within_publish_event|]. intros [].
    by destruct (clientIP r). }
  by destruct e; first [exact I | apply Hi].
Qed.

Lemma within_ServeHTTP s r : proc_within 5 (ServeHTTP s None r).
Proof.
  unfold ServeHTTP, requireAdminSecret, handleAdminRevoke, RevokeSigil, now, new_uuid.
  repeat (case_match; try done). cbn. intros t [[]|err]; [done|]. by destruct err.
Qed.

(** The turns a request needs at most. *)
Definition turns_needed : nat := 22.

Lemma within_serving_handler sv r : within turns_needed (serving_handler sv r).
Proof.
  assert (within turns_needed (lift (G := OIDCState) (ServeHTTP (sv_http sv) None r))) as Hl.
  { apply (within_le 5); [unfold turns_needed; lia|]. apply proc_within_lift, within_ServeHTTP. }
  unfold serving_handler. destruct (sv_oidc sv) as [[cfg st]|]; [|exact Hl].
  case_decide; [apply within_Handle|exact Hl].
Qed.

End progress.

(** ** Revocations made through the server *)

(** A revocation the store answered is still there at the end of the history. *)
Lemma replay_grows {PE : PgEnv} {EN : Env} es (s : PgDb) :
  tables_grow (db_tables s) (db_tables (replay es s)).
Proof.
  revert s. induction es as [|[x|X o x] es IH]; intros s; [apply grow_refl|apply IH|].
  cbn [replay foldl]. eapply grow_trans; [|apply IH].
  apply (handle_preserves (fun s1 => tables_grow (db_tables s) (db_tables s1))); [|apply grow_refl].
  intros s1 s2 Hs H. eapply grow_trans; [exact H|]. by apply pg_step_grows.
Qed.
Lemma replay_revoked {PE : PgEnv} {EN : Env} es e (s : PgDb) :
  legal es s -> Called (ORevoke e) (Ok tt) ∈ es -> pg_revoked (replay es s) (rev_ID e) = true.
Proof.
  intros Hl (l1 & l2 & ->)%list_elem_of_split. rewrite replay_app.
  apply legal_app in Hl as (_ & Hx & _). set (s1 := replay l1 s) in *.
  cbn [replay foldl handle] in *. rewrite on_store_state. rewrite on_store_result in Hx.
  eapply pg_revoked_grows; [apply replay_grows|]. by apply pg_Revoke_revokes.
Qed.

Section across.
Context {ED : Ed25519} {ID : Idp} {JW : JwtLib} {EN : Env} {PE : PgEnv}.
Context (pool : string -> res unit) (net : Net) (Hh : pg_healthy).

(** A command of the server that served requests over Postgres had started. *)
Lemma serve_run_Pg ss args flag m i x :
  openStore (mc_host m) flag = Ok BPg ->
  (serve_run pool net ss args flag m).1.2 !! i = Some x ->
  exists f sv (w : World PgDb), start_server (mc_host m) net f BPg = Ok sv /\
    (serve_run pool net ss args flag m).1.2 = answers (serve_requests sv ss w) /\
    w_store (mc_world (serve_run pool net ss args flag m).2) =
      w_store (cf_world (serve_requests sv ss w)).
Proof.
  intros Ho. unfold serve_run. rewrite Ho. destruct (parse_flags _ _ _ _) as [f|]; [|done].
  destruct (open_backend pool BPg m) as [[[]|o] m1]; [|done].
  destruct (start_server _ _ _ _) as [sv|o] eqn:Es; [|done]. intros _.
  by exists f, sv, (new_process (w_store (mc_world m1)) (mc_world m1)).
Qed.

End across.

(** ** A session with one revocation *)

Definition demo_admin_host : Host :=
  mkHost (fun k => if decide (k = "HANKO_ADMIN_SECRET") then "s3cret"
                   else h_getenv (demo_host "postgres://db" demo_text) k)
    (h_read (demo_host "" demo_text)) (h_exists (demo_host "" demo_text)) (Ok [])
    (fun _ => Ok tt) (fun _ => Ok tt).
Definition demo_admin_machine : Machine :=
  mkMachine demo_admin_host (mc_world (demo_machine "postgres://db" demo_text)).
Definition demo_revoke_session : session :=
  mkSession [demo_revoke_request "guess"; demo_revoke_request "s3cret"]
    (concat (replicate 10 [Turn 0; Turn 1])) (Signalled (Ok tt)).
Abbreviation demo_run := (serve_run demo_pool demo_net demo_revoke_session [] "pg" demo_admin_machine).

Definition demo_admin_server : Serving :=
  mkServing "127.0.0.1:8788" BMem None None None None demo_server None serve_timeouts [].


