(* ===== verification/Events.v ===== *)
(** What leaves the running server is well typed: every metric it records
    belongs to a registered family and carries its number of label values (the
    client library panics otherwise), and every event it publishes is on the
    subject of its payload, under the server's workspace and with the same
    correlation id.

    [emits] is a weakest precondition over the programs of [Effects], simpler
    than [ensures] there because it looks at one effect at a time: every effect
    satisfies [P] and the result satisfies [Q].  [semits] is the same for the
    goroutines of [Shared]; it also speaks of those that have not finished. *)

From S2P Require Import Prelude GoTime GoBytes GoFloat Protocol Json Observability Store Effects Crypto.
From S2P Require Import GoStrings Canonical JsonText EventJson Broker BruteForce NatsPublisher Decode Http HttpTheorems Oidc OidcTheorems ConfigReload Cdc Cli.
From S2P Require Import Fixtures MemStore Postgres Shared Serve CliTheorems ServeTheorems.

(** ** Types of effects *)

(** The family and the label values of a call. *)
Definition call_labels (c : prom_call) : string * list string :=
  match c with
  | HistogramObserve f l _ | CounterInc f l | GaugeSet f l _ => (f, l)
  end.
Definition call_typed (c : prom_call) : Prop :=
  let '(family, labels) := call_labels c in
  exists names, (family, names) ∈ NewMetrics /\ length labels = length names.

(** The entity and the actions a payload may be published under. *)
Definition channels (p : payload) : string * list string :=
  match p with
  | POIDC e =>
      (EntityOIDC,
       if decide (oe_Outcome e = "pending") then [ActionAuthRequest]
       else if decide (oe_Outcome e = "failure") then [ActionFailed]
       else [ActionTokenIssued; ActionCodeIssued])
  | PSigilIssued _ => (EntitySigil, [ActionSigilIssued])
  | PSigilRevoked _ => (EntitySigil, [ActionSigilRevoked])
  | PJWKSRotated _ => (EntityJWKS, [ActionJWKSRotated])
  | PBruteForce _ => (EntitySecurity, [ActionBruteForceDetected])
  | PCDC e => (EntityCDC, [cdc_action (ce_Op e)])
  | PConfigReloaded _ => (EntityConfig, [ActionConfigReloaded])
  | PConfigReloadFailed _ => (EntityConfig, [ActionConfigReloadFailed])
  | PScopeRejected _ => (EntityScope, [ActionUnknownScopeRejected])
  end.
Definition event_typed (ws : string) (s : NATSSubject) (p : payload) : Prop :=
  exists action, action ∈ (channels p).2 /\
    s = mkSubject ws Domain SubDomain (channels p).1 action (payload_ids p).1 /\
    (payload_ids p).2 = ws.
Definition effect_typed (ws : string) (e : effect) : Prop :=
  match e with
  | EPublish s p => event_typed ws s p
  | EMetric c => call_typed c
  end.

(** ** Effects of a program *)

Definition op_emits (P : effect -> Prop) {X} (o : op X) : Prop :=
  match o with OEmit e => P e | _ => True end.
Fixpoint emits {A} (P : effect -> Prop) (Q : A -> Prop) (p : proc A) : Prop :=
  match p with
  | Ret a => Q a
  | Atomic o k => op_emits P o /\ forall x, emits P Q (k x)
  end.

Section emits.
Context (P : effect -> Prop).

Lemma emits_mono {A} (Q1 Q2 : A -> Prop) p :
  emits P Q1 p -> (forall a, Q1 a -> Q2 a) -> emits P Q2 p.
Proof.
  induction p as [a|X o k IH]; cbn; [auto|]. intros [Ho Hk] HQ. split; [done|]. auto.
Qed.

Lemma emits_bind {A B} (Q : B -> Prop) (p : proc A) (f : A -> proc B) :
  emits P (fun a => emits P Q (f a)) p -> emits P Q (p ≫= f).
Proof.
  induction p as [a|X o k IH]; [done|]. intros [Ho Hk]. split; [done|]. intros x. by apply IH.
Qed.

Lemma emits_try {A B} g (Q : res B -> Prop) (c : proc (res A)) (k : A -> proc (res B)) :
  emits P (fun r => match r with Ok a => emits P Q (k a) | Err e => Q (Err (g e)) end) c ->
  emits P Q (try_with g c k).
Proof.
  intros H. apply emits_bind. eapply emits_mono; [exact H|]. by intros [].
Qed.

Lemma emits_perform {X} (o : op X) (Q : X -> Prop) :
  op_emits P o -> (forall x, Q x) -> emits P Q (perform o).
Proof. done. Qed.

(** What [emits] says of a run. *)
Lemma emits_run {A S} {EN : Env} {ST : Store S} (Q : A -> Prop) (p : proc A) (w : World S) :
  emits P Q p ->
  exists es, w_trace (run p w).2 = w_trace w ++ es /\ Forall P es /\ Q (run p w).1.
Proof.
  revert w. induction p as [a|X o k IH]; intros w; cbn [emits run].
  - intros H. exists []. by rewrite app_nil_r.
  - intros [Ho Hk]. destruct (handle o w) as [x w'] eqn:E.
    destruct (IH x w' (Hk x)) as (es & E1 & E2 & E3).
    assert (exists e1, w_trace w' = w_trace w ++ e1 /\ Forall P e1) as (e1 & E4 & E5).
    { pose proof (proj1 (handle_recorded o w)) as Ht. rewrite E in Ht. cbn in Ht.
      exists (emitted (acts_of o x)). split; [exact Ht|]. destruct o; cbn in *; auto. }
    exists (e1 ++ es). rewrite E1, E4, app_assoc, Forall_app. auto.
Qed.

End emits.

(** With critical sections: they keep the invariant [I] of the shared state,
    and the goroutines they start publish events that satisfy [P]. *)
Section semits.
Context {G : Type} (I : G -> Prop) (P : effect -> Prop).

Fixpoint semits {A} (Q : A -> Prop) (p : sproc G A) : Prop :=
  match p with
  | SRet a => Q a
  | SDo o k => op_emits P o /\ forall x, semits Q (k x)
  | SLocked crit k => forall g, I g ->
      emits P (fun y => I y.2 /\ Forall P y.1.2 /\ semits Q (k y.1.1)) (crit g)
  end.

Lemma semits_mono {A} (Q1 Q2 : A -> Prop) p :
  semits Q1 p -> (forall a, Q1 a -> Q2 a) -> semits Q2 p.
Proof.
  induction p as [a|X o k IH|X crit k IH]; cbn; [auto| |]; intros H HQ.
  - destruct H as [Ho Hk]. split; auto.
  - intros g Hg. eapply emits_mono; [by apply H|]. intros y (? & ? & ?). auto.
Qed.

Lemma semits_bind {A B} (Q : B -> Prop) (p : sproc G A) (f : A -> sproc G B) :
  semits (fun a => semits Q (f a)) p -> semits Q (p ≫= f).
Proof.
  induction p as [a|X o k IH|X crit k IH]; [done| |]; intros H.
  - destruct H as [Ho Hk]. split; [done|]. intros x. by apply IH.
  - intros g Hg. eapply emits_mono; [by apply H|]. intros y (? & ? & ?). split_and!; [done..|].
    by apply IH.
Qed.

Lemma semits_lift {A} (Q : A -> Prop) (p : proc A) : emits P Q p -> semits Q (lift p).
Proof. induction p as [a|X o k IH]; [done|]. intros [Ho Hk]. split; [done|]. auto. Qed.

(** Unshared code first, whose effects are known. *)
Lemma semits_lift_seq {A B} (Q : B -> Prop) (p : proc A) (f : A -> sproc G B) :
  emits P (fun _ => True) p -> (forall a, semits Q (f a)) -> semits Q (lift p ≫= f).
Proof. intros Hp Hf. apply semits_bind, semits_lift. eapply emits_mono; [exact Hp|]. auto. Qed.

(** Every schedule. *)
Lemma semits_play {A S} {EN : Env} {ST : Store S} (Q : A -> Prop) turns (c : Conf G S A) :
  I (cf_shared c) -> Forall P (cf_spawned c) -> Forall (semits Q) (cf_threads c) ->
  exists es, w_trace (cf_world (play turns c)) = w_trace (cf_world c) ++ es /\ Forall P es.
Proof.
  revert c. induction turns as [|t turns IH]; intros c HI Hsp Hth.
  { exists []. by rewrite app_nil_r. }
  assert (exists e1, w_trace (cf_world (take_turn c t)) = w_trace (cf_world c) ++ e1 /\ Forall P e1 /\
    I (cf_shared (take_turn c t)) /\ Forall P (cf_spawned (take_turn c t)) /\
    Forall (semits Q) (cf_threads (take_turn c t))) as (e1 & E1 & F1 & HI1 & Hsp1 & Hth1).
  2:{ destruct (IH _ HI1 Hsp1 Hth1) as (e2 & E2 & F2). exists (e1 ++ e2).
      cbn [play foldl]. fold (play turns (take_turn c t)). rewrite E2, E1, app_assoc, Forall_app. auto. }
  assert (exists e1, w_trace (cf_world c) = w_trace (cf_world c) ++ e1 /\ Forall P e1 /\
    I (cf_shared c) /\ Forall P (cf_spawned c) /\ Forall (semits Q) (cf_threads c)) as Hc
    by (exists []; by rewrite app_nil_r).
  destruct t as [i|n]; cbn [take_turn].
  - destruct (cf_threads c !! i) as [[a|X o k|X crit k]|] eqn:Ei; [done| | |done];
      pose proof (Forall_lookup_1 _ _ _ _ Hth Ei) as Hp.
    + destruct Hp as [Ho Hk].
      destruct (emits_run P (fun _ => True) (perform o) (cf_world c)) as (e1 & E4 & E5 & _).
      { by apply emits_perform. }
      rewrite run_perform in E4. destruct (handle o _) as [x w]. exists e1.
      split_and!; [done..|]. by apply Forall_insert.
    + destruct (emits_run P _ _ (cf_world c) (Hp _ HI)) as (e1 & E4 & E5 & H1 & H2 & H3).
      destruct (run (crit _) _) as [[[x sp] g] w]. exists e1.
      split_and!; [done..|by apply Forall_app|by apply Forall_insert].
  - destruct (cf_spawned c !! n) as [e|] eqn:En; [|done]. exists [e].
    assert (P e) as He by (by eapply Forall_lookup_1).
    split_and!; [done|by constructor|done|by apply Forall_delete|done].
Qed.
End semits.

(** Programs are followed step by step. *)
Ltac emit_step :=
  first
    [ exact I
    | apply emits_try
    | apply emits_bind
    | apply emits_perform; [|intros ?]
    | progress cbn [emits op_emits]
    | intros ? ].
(** A call whose effects are known. *)
Ltac sub H := apply emits_bind; eapply emits_mono; [by apply H|].
Ltac ssub H := apply semits_bind; eapply semits_mono; [by apply H|].
Ltac emitting := repeat (emit_step || case_match).

(** ** The parts of the server *)

Lemma typed_event ws s p action :
  action ∈ (channels p).2 -> (payload_ids p).2 = ws ->
  s = mkSubject ws Domain SubDomain (channels p).1 action (payload_ids p).1 ->
  effect_typed ws (EPublish s p).
Proof. intros. by exists action. Qed.

Lemma typed_metric ws c names :
  ((call_labels c).1, names) ∈ NewMetrics -> length (call_labels c).2 = length names ->
  effect_typed ws (EMetric c).
Proof. intros H1 H2. cbn. unfold call_typed. destruct (call_labels c). eauto. Qed.

Lemma typed_sigil_issued ws h c : effect_typed ws (EMetric (CounterInc "hanko_sigil_issued_total" [h; c])).
Proof.
  apply (typed_metric _ _ ["capability_set_hash"; "client_id"]); [|done]. cbn. set_solver.
Qed.
Lemma typed_config_reload ws o : effect_typed ws (EMetric (CounterInc "hanko_config_reload_total" [o])).
Proof. apply (typed_metric _ _ ["outcome"]); [cbn; set_solver|done]. Qed.
Lemma typed_cdc_lag ws t x : effect_typed ws (EMetric (GaugeSet "hanko_cdc_lag_seconds" [t] x)).
Proof. apply (typed_metric _ _ ["table"]); [cbn; set_solver|done]. Qed.

(** An effect that is typed on sight. *)
Ltac typed :=
  first
    [ done
    | apply typed_sigil_issued | apply typed_config_reload | apply typed_cdc_lag
    | eapply typed_event; [by apply list_elem_of_singleton|done..] ].

Section parts.
Context {ED : Ed25519} (ws : string).
Abbreviation T := (effect_typed ws).

Lemma emits_IssueSigil b subject key expires meta :
  br_workspaceID b = ws -> emits T (fun _ => True) (IssueSigil b subject key expires meta).
Proof.
  intros Hb. unfold IssueSigil, now, new_uuid, Publish. rewrite Hb. emitting; typed.
Qed.

Lemma emits_IssueCap b sigilID scope expires :
  emits T (fun _ => True) (IssueCap b sigilID scope expires).
Proof. unfold IssueCap, GenerateNonce, rand_read, now, new_uuid. emitting. Qed.

Lemma emits_RevokeSigil b id reason by_ :
  br_workspaceID b = ws -> emits T (fun _ => True) (RevokeSigil b id reason by_).
Proof.
  intros Hb. unfold RevokeSigil, now, new_uuid, Publish. rewrite Hb. emitting; typed.
Qed.

Lemma emits_ServeHTTP s r :
  br_workspaceID (hs_broker s) = ws -> emits T (fun _ => True) (ServeHTTP s None r).
Proof.
  intros Hb. unfold ServeHTTP, requireAdminSecret, handleAdminRevoke.
  repeat case_match; try exact I. apply emits_bind.
  eapply emits_mono; [by apply emits_RevokeSigil|]. intros a _. by repeat case_match.
Qed.
(** *** Token exchange *)

Section exchange.
Context {ID : Idp} {JL : JwtLib} (b : Broker) (cfg : OIDCConfig).
Hypothesis Hcfg : oc_WorkspaceID cfg = ws.

(** The detector keeps its workspace. *)
Definition handler_state (st : OIDCState) : Prop := bfd_workspaceID (os_bruteForce st) = ws.
Abbreviation typed_exchange := (semits handler_state T (fun _ => True)).

Lemma emits_publish_event action corrID clientID subjectID scopes start outcome reason :
  action ∈ (channels (POIDC (mkOIDCEvent "" corrID ws clientID subjectID scopes endpoint 0
                               outcome reason))).2 ->
  emits T (fun _ => True)
    (publish_event cfg action corrID clientID subjectID scopes start outcome reason).
Proof.
  intros Ha. unfold publish_event, now, Publish. rewrite Hcfg. destruct start; emitting;
    by eapply typed_event; [exact Ha|..].
Qed.

Lemma emits_audit req sub outcome scope : typed_exchange (audit cfg req sub outcome scope).
Proof. unfold audit, now. case_decide; [done|]. by apply semits_lift_seq. Qed.

Lemma emits_keyByKid url kid : typed_exchange (keyByKid cfg url kid).
Proof. unfold keyByKid, now. intros st Hst. emitting; cbn; auto. Qed.

Lemma emits_verifyJWT tok url issuer audience :
  typed_exchange (verifyJWT cfg tok url issuer audience).
Proof.
  unfold verifyJWT, now. case_match; [|done]. case_decide; [done|]. ssub emits_keyByKid.
  intros [k|e] _; [|done]. by apply semits_lift_seq.
Qed.

Lemma emits_RecordFailure ip : typed_exchange (RecordFailure ip).
Proof.
  unfold RecordFailure, detect_failure, handler_state, now, new_uuid.
  apply semits_lift_seq; [done|]. intros t st H. cbn in H.
  assert (forall corrID, bfd_workspaceID (recordFailureAt corrID ip t (os_bruteForce st)).2 = ws)
    as Hw by (intros; unfold recordFailureAt; by repeat case_match).
  destruct ((recordFailureAt "" ip t (os_bruteForce st)).1); [|by cbn; auto].
  apply emits_bind, emits_perform; [done|]. intros corrID. specialize (Hw corrID).
  destruct (recordFailureAt corrID ip t (os_bruteForce st)) as [ev d] eqn:E.
  split_and!; [exact Hw| |done]. destruct ev as [[s p]|]; constructor; [|done].
  unfold recordFailureAt in E. rewrite H in E. repeat case_match; simplify_eq. typed.
Qed.

Lemma emits_reject corrID start h clientID failure status code reason :
  typed_exchange (reject cfg corrID start h clientID failure status code reason).
Proof.
  apply semits_lift_seq; [|done]. apply emits_publish_event. by apply list_elem_of_singleton.
Qed.

Lemma emits_deliver corrID start h req scopes sub row cap scope exp :
  typed_exchange (deliver b cfg corrID start h req scopes sub row cap scope exp).
Proof.
  unfold deliver, signCapJWT, now. apply semits_lift_seq; [by emitting|].
  intros [jws|[]]; try (by apply emits_reject); [|done].
  ssub emits_audit. intros [] _. apply semits_lift_seq; [|done]. apply emits_publish_event. right; left.
Qed.

Lemma emits_mint corrID start h req scopes sub :
  typed_exchange (mint b cfg corrID start h req scopes sub).
Proof.
  unfold mint. destruct (Lookup _ _ _) as [row|]; [|ssub emits_audit; intros; apply emits_reject].
  case_match; [ssub emits_audit; intros; apply emits_reject|].
  case_match; [ssub emits_audit; intros; apply emits_reject|].
  apply semits_lift_seq; [done|]. intros t. apply semits_lift_seq; [apply emits_IssueCap|].
  intros [capTok|[]]; try (by apply emits_reject); [|done].
  apply semits_lift_seq; [apply emits_publish_event; left|]. intros [] . apply emits_deliver.
Qed.

Lemma emits_invalid_token corrID start h r : typed_exchange (invalid_token cfg corrID start h r).
Proof.
  apply semits_lift_seq; [apply emits_publish_event; by apply list_elem_of_singleton|].
  intros _. destruct (clientIP r) as [ip|]; [|done]. by ssub emits_RecordFailure.
Qed.

Lemma emits_exchange corrID start h r : typed_exchange (exchange b cfg corrID start h r).
Proof.
  unfold exchange. destruct (decode_bootstrap _) as [req|]; [|apply emits_reject].
  repeat (case_decide; [apply emits_reject|]).
  destruct (oc_IssuerJWKSURLs cfg !! _) as [url|]; [|apply emits_reject].
  ssub emits_verifyJWT. intros [claims|e] _; [apply emits_mint|].
  by destruct e; first [exact I | apply emits_invalid_token].
Qed.

Lemma emits_Handle r : typed_exchange (Handle b cfg r).
Proof.
  unfold Handle, new_uuid. apply semits_lift_seq; [done|]. intros start. case_decide; [done|].
  apply semits_lift_seq; [by case_decide|]. intros corrID.
  apply semits_lift_seq; [apply emits_publish_event; by apply list_elem_of_singleton|].
  intros []. apply emits_exchange.
Qed.
End exchange.

(** *** Configuration reload and change data capture *)

Lemma emits_ApplyReload `{!Toml, !MapRange} req r :
  rl_workspaceID r = ws ->
  emits T (fun x => rl_workspaceID x.2 = ws) (ApplyReload req r).
Proof.
  intros Hw. assert (forall attempted reason, emits T (fun _ => True) (reload_fail r req attempted reason))
    as Hf by (intros; unfold reload_fail, now, Publish; rewrite Hw; emitting; typed).
  unfold ApplyReload, now, Publish. apply emits_bind, emits_perform; [done|]. intros start.
  destruct (toml_unmarshal _) as [raw [e|]]; [sub Hf; done|].
  destruct (prepare _ _) as [candidate|reason]; [|sub Hf; done]. cbn [rl_workspaceID rl_metrics].
  rewrite Hw. emitting; typed.
Qed.

Lemma emits_on_message `{!Toml, !MapRange} subject data r :
  rl_workspaceID r = ws -> emits T (fun r' => rl_workspaceID r' = ws) (on_message subject data r).
Proof.
  intros Hw. unfold on_message. destruct (decode_reload data) as [req|]; [|done].
  sub emits_ApplyReload. by intros [res r'].
Qed.

Lemma emits_PublishChange `{!MapRange} c corrID ch :
  cp_workspaceID c = ws -> emits T (fun _ => True) (PublishChange c corrID ch).
Proof.
  intros Hc. unfold PublishChange, now, Publish. rewrite Hc.
  apply emits_bind, emits_perform; [done|]. intros t. apply emits_bind. split.
  - apply (typed_event _ _ _ (cdc_action (ch_Op ch))); repeat case_decide; try done;
      by apply list_elem_of_singleton.
  - intros []. cbn [emits]. case_match; [|done]. emitting; typed.
Qed.

Lemma emits_dispatch `{!MapRange, !LogRepl} c dec wal :
  cp_workspaceID c = ws -> emits T (fun _ => True) (dispatch c dec wal).
Proof.
  intros Hc. unfold dispatch, new_uuid. repeat case_match; try done;
    apply emits_bind, emits_perform; try done; intros corrID; by sub emits_PublishChange.
Qed.

Lemma emits_StartReplication `{!MapRange, !LogRepl} c connect identify start ticks :
  cp_workspaceID c = ws ->
  emits T (fun _ => True) (StartReplication c connect identify start ticks).
Proof.
  intros Hc. unfold StartReplication, now.
  destruct connect, identify, start; try done. apply emits_bind, emits_perform; [done|].
  intros t. generalize (mkCDCState NewCDCDecoder a (Add t (10 * Second)) []).
  induction ticks as [|tk ticks IH]; intros st; [done|]. cbn [replicate_loop]. apply emits_bind.
  enough (emits T (fun _ => True) (iteration c tk st)) as Hi
    by (eapply emits_mono; [exact Hi|]; intros [[[]|e] st'] _; [apply IH|done]).
  unfold iteration, report, now. case_match; [done|]. apply emits_bind.
  apply (emits_mono _ (fun _ => True)); [by emitting|]. intros [[[]|e] st'] _; [|done].
  destruct (tk_received tk); try done. unfold on_copy_data, now.
  repeat case_match; try done; [emitting..|sub emits_dispatch; done].
Qed.
End parts.

(** ** The server *)

Section server.
Context {ED : Ed25519} {ID : Idp} {JL : JwtLib} {TL : Toml} {MR : MapRange} {LR : LogRepl}.

Lemma start_server_ws h n f be sv :
  start_server h n f be = Ok sv ->
  let ws := h_getenv h "SHIKKI_WORKSPACE_ID" in
  br_workspaceID (hs_broker (sv_http sv)) = ws /\
  (forall cfg st, sv_oidc sv = Some (cfg, st) -> oc_WorkspaceID cfg = ws /\ handler_state ws st) /\
  (forall r, sv_reloader sv = Some r -> rl_workspaceID r = ws) /\
  (forall c dsn pub, sv_cdc sv = Some (c, dsn, pub) -> cp_workspaceID c = ws).
Proof.
  unfold start_server. destruct (start_metrics h n) as [ms log1].
  destruct (start_reloader _ _ _) as [rl log2] eqn:Er. destruct (start_cdc h _) as [cdc log3] eqn:Ec.
  destruct (loadBrokerKey h) as [[pub priv]|]; [|done].
  unfold NewHTTPServer. case_decide; [done|]. cbn [buildJWKS].
  destruct (start_oidc _ _ _ _ _) as [[oidc log4]|] eqn:Eo; [|done]. intros [= <-]. cbn.
  split_and!; [done|..].
  - intros cfg st ->. unfold start_oidc, NewOIDCBootstrap in Eo. repeat case_match; by simplify_eq.
  - intros r ->. unfold start_reloader in Er. repeat case_match; by simplify_eq.
  - intros c dsn pub' ->. unfold start_cdc in Ec. case_decide; by simplify_eq.
Qed.

(** What the requests share; without the exchange nothing is shared. *)
Definition shared_ws (ws : string) (sv : Serving) (st : OIDCState) : Prop :=
  match sv_oidc sv with Some _ => handler_state ws st | None => True end.

Lemma emits_serving_handler h n f be sv r :
  start_server h n f be = Ok sv -> let ws := h_getenv h "SHIKKI_WORKSPACE_ID" in
  semits (shared_ws ws sv) (effect_typed ws) (fun _ => True) (serving_handler sv r).
Proof.
  intros (Hb & Ho & _)%start_server_ws ws. unfold serving_handler, shared_ws.
  destruct (sv_oidc sv) as [[cfg st0]|]; [|by apply semits_lift, emits_ServeHTTP].
  case_decide; [|by apply semits_lift, emits_ServeHTTP]. apply emits_Handle. by eapply Ho.
Qed.

Lemma serve_requests_typed {S} {EN : Env} {ST : Store S} h n f be sv ss (w : World S) :
  start_server h n f be = Ok sv ->
  exists es, w_trace (cf_world (serve_requests sv ss w)) = w_trace w ++ es /\
    Forall (effect_typed (h_getenv h "SHIKKI_WORKSPACE_ID")) es.
Proof.
  intros Hs. set (ws := h_getenv h _).
  apply (semits_play (shared_ws ws sv) (effect_typed ws) (fun _ => True)); cbn; [|done|].
  - destruct (start_server_ws _ _ _ _ _ Hs) as (_ & Ho & _). unfold shared_ws, oidc_state.
    destruct (sv_oidc sv) as [[cfg st]|]; [|done]. by eapply Ho.
  - apply Forall_fmap, Forall_true. intros r. by eapply emits_serving_handler.
Qed.

(** What a program adds to the trace is typed. *)
Definition typed_run {A S} {EN : Env} {ST : Store S} (ws : string) (p : proc A) (w : World S) : Prop :=
  exists es, w_trace (run p w).2 = w_trace w ++ es /\ Forall (effect_typed ws) es.
(** The reload messages of a session, one after the other. *)
Fixpoint reload_session (msgs : list (string * bytes)) (r : ConfigReloader) : proc ConfigReloader :=
  match msgs with
  | [] => Ret r
  | (subject, data) :: msgs => r ← on_message subject data r; reload_session msgs r
  end.

Lemma server_effects_typed {S} {EN : Env} {ST : Store S} h n f be sv (w : World S) :
  start_server h n f be = Ok sv ->
  let ws := h_getenv h "SHIKKI_WORKSPACE_ID" in
  (forall ss, exists es, w_trace (serve_session sv ss w).2 = w_trace w ++ es /\
                         Forall (effect_typed ws) es) /\
  (forall r msgs, sv_reloader sv = Some r -> typed_run ws (reload_session msgs r) w) /\
  (forall c dsn pub connect identify start ticks, sv_cdc sv = Some (c, dsn, pub) ->
     typed_run ws (StartReplication c connect identify start ticks) w).
Proof.
  intros Hs ws. assert (forall A Q (p : proc A), emits (effect_typed ws) Q p -> typed_run ws p w) as Hr
    by (intros A Q p (es & ? & ? & _)%(emits_run _ _ _ w); by exists es).
  destruct (start_server_ws _ _ _ _ _ Hs) as (_ & _ & Hrl & Hcdc). split_and!.
  - intros ss. by eapply serve_requests_typed.
  - intros r msgs Er. apply (Hr _ (fun _ => True)). specialize (Hrl r Er). clear Er. revert r Hrl.
    induction msgs as [|[subject data] msgs IH]; intros r Hw; [done|]. cbn [reload_session].
    sub emits_on_message. exact IH.
  - intros c dsn pub connect identify start ticks Ec. eapply Hr, emits_StartReplication.
    by eapply Hcdc.
Qed.

(** C22: everything that leaves a started server is well typed.  Whatever
    requests it serves and however their goroutines (those that publish alerts
    included) interleave, whatever reload messages arrive and whatever the
    replication stream brings: every recorded metric is a registered family
    with its number of label values, and every published event is on the
    subject that belongs to its payload (entity and action), under the
    workspace id of the environment, which is also the payload's, and with the
    payload's correlation id. *)
Theorem effects_well_typed {S} {EN : Env} {ST : Store S} h n f be sv (w : World S) :
  start_server h n f be = Ok sv ->
  let ws := h_getenv h "SHIKKI_WORKSPACE_ID" in
  (forall ss, exists es, w_trace (serve_session sv ss w).2 = w_trace w ++ es /\
                         Forall (effect_typed ws) es) /\
  (forall r msgs, sv_reloader sv = Some r -> typed_run ws (reload_session msgs r) w) /\
  (forall c dsn pub connect identify start ticks, sv_cdc sv = Some (c, dsn, pub) ->
     typed_run ws (StartReplication c connect identify start ticks) w).
Proof. apply server_effects_typed. Qed.
(** ** Messages *)

Definition messages (es : list effect) : list pendingEvent :=
  omap (fun e => match e with EPublish s p => message (s, p) | EMetric _ => None end) es.

(** A subscriber can tell where the message belongs, from its subject and from
    its data alike. *)
Definition attributed (ws : string) (msg : pendingEvent) : Prop :=
  exists s m, pe_subject msg = subject_String s /\ ns_WorkspaceID s = ws /\
    (lacks "." ws -> lacks "." (ns_CorrID s) ->
     Split (pe_subject msg) "." =
       ["shikki"; ws; Domain; SubDomain; ns_Entity s; ns_Action s; ns_CorrID s]) /\
    unmarshal_json (pe_data msg) = Some (JObject m) /\
    assoc_get m "workspace_id" = Some (JString (to_valid_utf8 ws)) /\
    assoc_get m "corr_id" = Some (JString (to_valid_utf8 (ns_CorrID s))).

Lemma cdc_action_lacks op : lacks "." (cdc_action op).
Proof. unfold cdc_action. repeat case_decide; vm_compute; set_solver. Qed.
Lemma channel_lacks p action :
  action ∈ (channels p).2 -> lacks "." (channels p).1 /\ lacks "." action.
Proof.
  destruct p as [e| | | | |e| | |]; cbn [channels fst snd].
  6:{ intros ->%list_elem_of_singleton. split; [vm_compute; set_solver|apply cdc_action_lacks]. }
  all: repeat case_decide; intros Ha; set_unfold in Ha;
    destruct_or?; subst; split; vm_compute; set_solver.
Qed.

Lemma typed_attributed ws es :
  Forall (effect_typed ws) es -> Forall (attributed ws) (messages es).
Proof.
  intros H. apply Forall_forall. intros msg Hm. unfold messages in Hm.
  apply list_elem_of_omap in Hm as ([s p|c] & He & Hm); [|done].
  rewrite Forall_forall in H. destruct (H _ He) as (action & Ha & -> & Hw).
  destruct (message_reads _ _ Hm) as (Hs & m & Hu & Hc & Hws). cbn [fst snd] in *.
  destruct (channel_lacks _ _ Ha) as [L1 L2].
  eexists _, m. split_and!; [exact Hs|done| |done|by rewrite Hws, Hw|done].
  intros Lw Lc. cbn [ns_CorrID ns_Entity ns_Action] in *. rewrite Hs. apply subject_split.
  unfold subject_tokens_ok. cbn. repeat constructor; try done; vm_compute; set_solver.
Qed.

(** C23: every message of a started server can be attributed.  What it publishes
    while it serves requests, handles reload messages or follows the
    replication stream, marshalled as it goes to NATS, is on a subject of the
    server's workspace, and its data parses as a JSON object whose
    workspace_id and corr_id are the workspace of the environment and the
    correlation id of the subject (with bytes that are not UTF-8 replaced).
    Without dots in those two the subject has exactly the seven tokens of the
    grammar. *)
Theorem messages_attributed {S} {EN : Env} {ST : Store S} h n f be sv (w : World S) :
  start_server h n f be = Ok sv ->
  let ws := h_getenv h "SHIKKI_WORKSPACE_ID" in
  let after w' := exists es, w_trace w' = w_trace w ++ es /\ Forall (attributed ws) (messages es) in
  (forall ss, after (serve_session sv ss w).2) /\
  (forall r msgs, sv_reloader sv = Some r -> after (run (reload_session msgs r) w).2) /\
  (forall c dsn pub connect identify start ticks, sv_cdc sv = Some (c, dsn, pub) ->
     after (run (StartReplication c connect identify start ticks) w).2).
Proof.
  intros Hs ws after. destruct (server_effects_typed h n f be sv w Hs) as (H1 & H2 & H3).
  split_and!.
  - intros ss. destruct (H1 ss) as (es & E & F). exists es. split; [done|by apply typed_attributed].
  - intros r msgs Hr. destruct (H2 r msgs Hr) as (es & E & F).
    exists es. split; [done|by apply typed_attributed].
  - intros c dsn pub connect identify start ticks Hc.
    destruct (H3 c dsn pub connect identify start ticks Hc) as (es & E & F).
    exists es. split; [done|by apply typed_attributed].
Qed.
End server.

(** A correlation id with a dot adds tokens to the subject. *)
Lemma corr_id_adds_tokens :
  Split (subject_String (OIDCSubject "ws" ActionAuthRequest "a.b")) "." =
  ["shikki"; "ws"; "broker"; "hanko"; "oidc"; "auth_request"; "a"; "b"].
Proof. vm_compute. reflexivity. Qed.

(** A server with an admin secret and a workspace, and one revocation. *)
Definition demo_typed_host : Host :=
  mkHost (fun k => if decide (k = "HOME") then "/home/op"
                   else if decide (k = "HANKO_ADMIN_SECRET") then "s3cret"
                   else if decide (k = "SHIKKI_WORKSPACE_ID") then "ws" else "")
    (h_read (demo_host "" [])) (h_exists (demo_host "" [])) (Ok []) (fun _ => Ok tt) (fun _ => Ok tt).
Definition demo_session : session :=
  mkSession [demo_revoke_request "s3cret"] (replicate 10 (Turn 0)) (Signalled (Ok tt)).
#[export] Instance demo_logrepl : LogRepl := {
  Parse _ := Ok MOther; ParsePrimaryKeepaliveMessage _ := Ok false; ParseXLogData d := Ok (0%Z, d) }.

Definition demo_typed : result outcome Serving :=
  start_server demo_typed_host demo_net (serve_defaults demo_typed_host) BMem.
Definition demo_trace (sv : Serving) : list effect :=
  w_trace (serve_session sv demo_session demo_world).2.

Lemma effects_well_typed_witness :
  exists sv, demo_typed = Ok sv /\ length (demo_trace sv) = 1%nat /\
    Forall (effect_typed "ws") (demo_trace sv).
Proof.
  assert (match demo_typed with Ok sv => length (demo_trace sv) | Err _ => 0%nat end = 1%nat) as Hl
    by (vm_compute; reflexivity).
  destruct demo_typed as [sv|] eqn:E; [|discriminate Hl].
  exists sv. split; [reflexivity|]. split; [exact Hl|].
  destruct (effects_well_typed demo_typed_host demo_net (serve_defaults demo_typed_host) BMem sv
    demo_world E) as [H _].
  destruct (H demo_session) as (es & E1 & E2). unfold demo_trace. rewrite E1. exact E2.
Defined.

Lemma messages_attributed_witness :
  exists sv, demo_typed = Ok sv /\ length (messages (demo_trace sv)) = 1%nat /\
    Forall (attributed "ws") (messages (demo_trace sv)).
Proof.
  assert (match demo_typed with Ok sv => length (messages (demo_trace sv)) | Err _ => 0%nat end = 1%nat)
    as Hl by (vm_compute; reflexivity).
  destruct demo_typed as [sv|] eqn:E; [|discriminate Hl].
  exists sv. split; [reflexivity|]. split; [exact Hl|].
  destruct (messages_attributed demo_typed_host demo_net (serve_defaults demo_typed_host) BMem sv
    demo_world E) as [H _].
  destruct (H demo_session) as (es & E1 & E2). unfold demo_trace. rewrite E1. exact E2.
Defined.
