(* ===== verification/Cve.v ===== *)
(** The vulnerability watcher (cve/watcher.go): reading the requirements of a
    go.mod file and asking OSV.dev about them. *)

From stdpp Require pretty.
From S2P Require Import Prelude GoBytes GoStrings GoTime Protocol Json Canonical JsonText.
From S2P Require Import JsonRoundtrip Decode.
Local Open Scope Z_scope.

Record Dep := mkDep { d_Name : string; d_Version : string }.
Record Finding := mkFinding { f_Dep : Dep; f_VulnIDs : list string }.
#[export] Instance Dep_eq_dec : EqDecision Dep.
Proof. solve_decision. Defined.

(** ** [bufio.Scanner] over lines *)

Definition MaxScanTokenSize : Z := 65536.
(** [dropCR] *)
Definition drop_cr (l : bytes) : bytes :=
  match last l with
  | Some a => if decide (a = "013"%char) then take (length l - 1) l else l
  | None => l
  end.
(** The text between line breaks; what follows the last break is a line only
    if it is not empty. *)
Definition raw_lines (l : bytes) : list bytes :=
  let parts := split_on newline l in
  match last parts with
  | Some [] => take (length parts - 1) parts
  | _ => parts
  end.
(** The lines up to the first that does not fit the buffer, and whether there
    is such a line. *)
Fixpoint fitting (ls : list bytes) : list bytes * bool :=
  match ls with
  | [] => ([], false)
  | l :: ls => if MaxScanTokenSize <=? Z.of_nat (length l) then ([], true)
               else let '(ok, long) := fitting ls in (drop_cr l :: ok, long)
  end.
Definition scan_lines (l : bytes) : list bytes * bool := fitting (raw_lines l).

(** ** [strings.Fields] on UTF-8 text *)

Fixpoint fields_runes (l : list rune) (cur : bytes) : list bytes :=
  match l with
  | [] => match cur with [] => [] | _ => [cur] end
  | r :: l =>
      if is_space_rune r
      then match cur with [] => fields_runes l [] | _ => cur :: fields_runes l [] end
      else fields_runes l (cur ++ raw_bytes r)
  end.
Definition fields_utf8 (s : string) : list string :=
  of_bytes <$> fields_runes (decode_runes (to_bytes s)) [].

(** ** go.mod *)

(** Everything before the first "//". *)
Fixpoint before_comment (l : bytes) : option bytes :=
  match l with
  | a :: l' =>
      match l' with
      | b :: _ => if decide (a = "/"%char /\ b = "/"%char) then Some []
                  else (cons a) <$> before_comment l'
      | [] => None
      end
  | [] => None
  end.

Definition parseDep (line : string) : option Dep :=
  let line := match before_comment (to_bytes line) with
              | Some l => trim_space_utf8 (of_bytes l)
              | None => line
              end in
  match fields_utf8 line with
  | name :: version :: _ => Some (mkDep name version)
  | _ => None
  end.

Record gomod := mkGomod { gm_module : string; gm_deps : list Dep; gm_inRequireBlock : bool }.
Definition add_dep (o : option Dep) (g : gomod) : gomod :=
  match o with
  | Some d => mkGomod (gm_module g) (gm_deps g ++ [d]) (gm_inRequireBlock g)
  | None => g
  end.
(** The body of the loop over lines. *)
Definition gomod_line (g : gomod) (text : bytes) : gomod :=
  let line := trim_space_utf8 (of_bytes text) in
  if HasPrefix line "module " then
    mkGomod (trim_space_utf8 (TrimPrefix line "module ")) (gm_deps g) (gm_inRequireBlock g)
  else if decide (line = "require (") then mkGomod (gm_module g) (gm_deps g) true
  else if gm_inRequireBlock g && bool_decide (line = ")") then
    mkGomod (gm_module g) (gm_deps g) false
  else if HasPrefix line "require " then add_dep (parseDep (TrimPrefix line "require ")) g
  else if gm_inRequireBlock g then add_dep (parseDep line) g
  else g.

(** [file] is the outcome of opening and reading the file. *)
Definition ParseGoMod (file : res bytes) : res (string * list Dep) :=
  match file with
  | Err e => Err (Errorf_w "open go.mod: " e)
  | Ok content =>
      let '(ls, long) := scan_lines content in
      let g := foldl gomod_line (mkGomod "" [] false) ls in
      if long : bool then Err (Errorf_w "scan go.mod: " (ErrStr "bufio.Scanner: token too long"))
      else Ok (gm_module g, gm_deps g)
  end.

(** ** OSV.dev *)

(** [osvQuery] with its tags. *)
Definition osv_query (d : Dep) : json :=
  JObject [("package", JObject [("name", JString (d_Name d)); ("ecosystem", JString "Go")]);
           ("version", JString (d_Version d))].
Definition osv_request (deps : list Dep) : bytes :=
  render (JObject [("queries", JArray (osv_query <$> deps))]).

(** The answer to the POST: a transport error, or a status and the body, which
    arrives whole. *)
Inductive osv_reply : Type :=
| OsvTransport (e : error)
| OsvReply (status : Z) (body : bytes).

(** [osvVuln], [osvResult] and [osvBatchResponse], decoded into buffers. *)
Definition vuln_fields : list (field string) := [("id", set_string (fun x _ => x))].
Definition result_fields : list (field (buffer string)) :=
  [("vulns", decode_slice (fun v s => decode_struct false vuln_fields s v) "")].
Definition response_fields : list (field (buffer (buffer string))) :=
  [("results", decode_slice (fun v b => decode_struct false result_fields b v) empty_buffer)].
(** The ids of each result, in order. *)
Definition decode_response (body : bytes) : option (list (list string)) :=
  v ← decode_json body;
  b ← decode_struct false response_fields empty_buffer v;
  Some ((fun r => elems (view r)) <$> elems (view b)).

(** The loop over the results: those beyond the queries are cut off, those
    without vulnerabilities skipped. *)
Fixpoint findings (deps : list Dep) (results : list (list string)) : list Finding :=
  match deps, results with
  | d :: deps, ids :: results =>
      match ids with
      | [] => findings deps results
      | _ => mkFinding d ids :: findings deps results
      end
  | _, _ => []
  end.
(** A slice built by [append] from nil. *)
Definition appended {A} (l : list A) : slice A := match l with [] => None | _ => Some l end.

(** The [http.Client]: the answer to a POST of a body to a URL. *)
Definition http_client : Type := string -> bytes -> osv_reply.
Record Watcher := mkWatcher { wt_client : http_client }.
(** A nil client is the default one. *)
Definition New (DefaultClient : http_client) (httpClient : option http_client) : Watcher :=
  mkWatcher (default DefaultClient httpClient).
Definition osvBatchURL : string := "https://api.osv.dev/v1/querybatch".

Definition CheckBatch (w : Watcher) (deps : list Dep) : res (slice Finding) :=
  match deps with
  | [] => Ok None
  | _ =>
      match wt_client w osvBatchURL (osv_request deps) with
      | OsvTransport e => Err (Errorf_w "osv request: " e)
      | OsvReply status body =>
          if decide (status <> 200) then
            Err (ErrStr ("osv returned status " +:+ pretty.pretty status +:+ ": " +:+
                         of_bytes (limit_reader 1024 body)))
          else match decode_response body with
               | None => Err (Errorf_w "decode osv response: " (ErrStr "json"))
               | Some results => Ok (appended (findings deps results))
               end
      end
  end.

Example ParseGoMod_ex :
  ParseGoMod (Ok (to_bytes "module  example.com/m" ++ [newline] ++ to_bytes "go 1.25" ++
    [newline] ++ to_bytes "require a.b/c v1.2.3 // indirect" ++ ["013"%char; newline] ++
    to_bytes "require (" ++ [newline] ++ to_bytes "  d v0.1.0" ++ [newline] ++ to_bytes "  // note" ++
    [newline] ++ to_bytes ")" ++ [newline] ++ to_bytes "x y"))
  = Ok ("example.com/m", [mkDep "a.b/c" "v1.2.3"; mkDep "d" "v0.1.0"]).
Proof. vm_compute. reflexivity. Qed.

(** ** What a reply means *)

Lemma findings_spec deps results f :
  f ∈ findings deps results <->
  exists i, deps !! i = Some (f_Dep f) /\ results !! i = Some (f_VulnIDs f) /\ f_VulnIDs f <> [].
Proof.
  revert results. induction deps as [|d deps IH]; intros results; [set_solver|].
  destruct results as [|ids results]; cbn [findings]; [set_solver|].
  assert ((exists i, (d :: deps) !! i = Some (f_Dep f) /\
     (ids :: results) !! i = Some (f_VulnIDs f) /\ f_VulnIDs f <> []) <->
    (d = f_Dep f /\ ids = f_VulnIDs f /\ f_VulnIDs f <> []) \/ f ∈ findings deps results) as ->.
  { rewrite IH. split.
    - intros ([|i] & H1 & H2 & H3); [left; cbn in *; simplify_eq; auto|right; eauto].
    - intros [(-> & -> & H)|(i & H)]; [by exists 0%nat|by exists (S i)]. }
  destruct ids as [|x ids]; [split; [by right|intros [(? & <- & ?)|?]; done]|].
  rewrite elem_of_cons. destruct f as [d' ids']. cbn. naive_solver.
Qed.

(** Findings come in the order of the dependencies. *)
Lemma findings_sublist deps results : f_Dep <$> findings deps results `sublist_of` deps.
Proof.
  revert results. induction deps as [|d deps IH]; intros [|ids results]; cbn; [done..| |].
  - apply sublist_nil_l.
  - destruct ids; cbn; [by apply sublist_cons|by apply sublist_skip].
Qed.

Lemma osv_query_wf d :
  valid_utf8 (d_Name d) = true -> valid_utf8 (d_Version d) = true -> json_wf (osv_query d) = true.
Proof.
  intros H1 H2. unfold osv_query. cbn [json_wf forallb map fst snd]. rewrite H1, H2.
  vm_compute. reflexivity.
Qed.

Lemma osv_request_read deps :
  Forall (fun d => valid_utf8 (d_Name d) = true /\ valid_utf8 (d_Version d) = true) deps ->
  unmarshal_json (osv_request deps) = Some (JObject [("queries", JArray (osv_query <$> deps))]).
Proof.
  intros H. unfold unmarshal_json, osv_request.
  assert (forall d, numbers_ok (osv_query d) = true /\ depth (osv_query d) = 2) as Hq by done.
  rewrite parse_marshal.
  - cbn [fmap option_fmap option_map]. rewrite cook_as_read, sanitize_id; [done|].
    cbn [json_wf forallb map fst snd]. rewrite !andb_true_iff.
    split_and!; [vm_compute; reflexivity..| |vm_compute; reflexivity]. apply forallb_forall. intros q Hq'%list_elem_of_In. apply list_elem_of_fmap in Hq' as (d & -> & Hd).
    rewrite Forall_forall in H. destruct (H d Hd). by apply osv_query_wf.
  - cbn [numbers_ok forallb snd]. rewrite andb_true_r. apply forallb_forall.
    intros q Hq'%list_elem_of_In. apply list_elem_of_fmap in Hq' as (d & -> & Hd). apply Hq.
  - cbn [depth map snd foldr]. unfold max_depth.
    enough (foldr Z.max 0 (map depth (osv_query <$> deps)) <= 2) by lia.
    apply max_le; [lia|]. intros q (d & -> & Hd)%list_elem_of_fmap. by rewrite (proj2 (Hq d)).
Qed.

(** C29: the watcher reports what OSV.dev answered, for the dependency it was
    asked about.  The request's text decodes to one query per dependency, in
    order.  A transport error, another status than 200 or an undecodable body
    is an error and never an empty report; otherwise the findings are exactly
    the dependencies whose own result has vulnerabilities, with all their
    ids, in the order of the dependencies. *)
Theorem check_batch_correct w deps :
  deps <> [] -> Forall (fun d => valid_utf8 (d_Name d) = true /\ valid_utf8 (d_Version d) = true) deps ->
  unmarshal_json (osv_request deps) = Some (JObject [("queries", JArray (osv_query <$> deps))]) /\
  match wt_client w osvBatchURL (osv_request deps) with
  | OsvTransport e => is_ok (CheckBatch w deps) = false
  | OsvReply status body =>
      match decode_response body with
      | Some results =>
          if decide (status = 200) then
            exists fs, CheckBatch w deps = Ok fs /\ f_Dep <$> elems fs `sublist_of` deps /\
              forall f, f ∈ elems fs <-> exists i, deps !! i = Some (f_Dep f) /\
                          results !! i = Some (f_VulnIDs f) /\ f_VulnIDs f <> []
          else is_ok (CheckBatch w deps) = false
      | None => is_ok (CheckBatch w deps) = false
      end
  end.
Proof.
  intros Hne Hv. split; [by apply osv_request_read|]. unfold CheckBatch.
  destruct deps as [|d deps]; [done|]. destruct (wt_client w _ _) as [e|status body]; [done|].
  destruct (decide (status = 200)) as [->|Hs].
  - rewrite decide_False by (intros H; by apply H).
    destruct (decode_response body) as [results|]; [|done].
    eexists. split; [done|].
    assert (forall l : list Finding, elems (appended l) = l) as -> by (by intros []).
    split; [apply findings_sublist|]. apply findings_spec.
  - rewrite decide_True by done. by destruct (decode_response body).
Qed.

Definition demo_deps : list Dep := [mkDep "a.b/c" "v1.2.3"; mkDep "d" "v0.1.0"].
Definition demo_osv_body : bytes := render (JObject [("results", JArray
    [JObject []; JObject [("vulns", JArray [JObject [("id", JString "GO-2024-1")]])]])]).
Definition demo_osv : Watcher :=
  New (fun _ _ => OsvTransport (ErrStr "no route")) (Some (fun _ _ => OsvReply 200 demo_osv_body)).
Lemma check_batch_correct_witness :
  exists fs, CheckBatch demo_osv demo_deps = Ok fs /\
    (mkFinding (mkDep "d" "v0.1.0") ["GO-2024-1"]) ∈ elems fs.
Proof.
  destruct (check_batch_correct demo_osv demo_deps) as [_ H].
  - discriminate.
  - repeat constructor; vm_compute; reflexivity.
  - assert (decode_response demo_osv_body = Some [[]; ["GO-2024-1"]]) as E
      by (vm_compute; reflexivity).
    replace (wt_client demo_osv osvBatchURL (osv_request demo_deps))
      with (OsvReply 200 demo_osv_body) in H by reflexivity.
    rewrite E in H. rewrite decide_True in H by reflexivity.
    destruct H as (fs & H1 & _ & H3). exists fs. split; [exact H1|]. apply H3.
    exists 1%nat. split_and!; [reflexivity..|discriminate].
Defined.

(** ** Reading a go.mod file as the go command writes it *)

Record require := mkRequire { rq_name : bytes; rq_version : bytes; rq_indirect : bool }.
Definition comment (ind : bool) : bytes := if ind then to_bytes " // indirect" else [].
Definition require_line (r : require) : bytes :=
  "009"%char :: rq_name r ++ " "%char :: rq_version r ++ comment (rq_indirect r).
Definition gomod_lines (m : bytes) (rs : list require) : list bytes :=
  [to_bytes "module " ++ m; []; to_bytes "require ("] ++ map require_line rs ++ [to_bytes ")"].
Definition gomod_text (m : bytes) (rs : list require) : bytes :=
  gomod_lines m rs ≫= fun l => l ++ [newline].

(** A word of the file: ASCII without white space, not a comment, and short
    enough for the scanner's buffer. *)
Definition word (l : bytes) : Prop :=
  l <> [] /\ Forall solid l /\ before_comment l = None /\ Z.of_nat (length l) < 30000.
Definition require_ok (r : require) : Prop :=
  word (rq_name r) /\ word (rq_version r) /\
  rq_name r <> to_bytes "module" /\ rq_name r <> to_bytes "require".
Definition dep_of (r : require) : Dep :=
  mkDep (of_bytes (rq_name r)) (of_bytes (rq_version r)).

(** *** Lines *)

Lemma split_lines ls :
  Forall (fun l => newline ∉ l) ls ->
  split_on newline (ls ≫= fun l => l ++ [newline]) = ls ++ [[]].
Proof.
  induction 1 as [|l ls Hl Hls IH]; [done|]. rewrite bind_cons, <-app_assoc. cbn [app].
  by rewrite split_on_app, IH.
Qed.

Lemma raw_lines_lines ls :
  Forall (fun l => newline ∉ l) ls -> raw_lines (ls ≫= fun l => l ++ [newline]) = ls.
Proof.
  intros H. unfold raw_lines. rewrite split_lines by done. rewrite last_snoc, length_app.
  cbn [length]. replace (length ls + 1 - 1)%nat with (length ls) by lia. by rewrite take_app_length.
Qed.

(** A line that the scanner hands on as it is. *)
Definition plain_line (l : bytes) : Prop :=
  (newline ∉ l) /\ last l <> Some "013"%char /\ Z.of_nat (length l) < MaxScanTokenSize.

Lemma fitting_plain ls : Forall plain_line ls -> fitting ls = (ls, false).
Proof.
  induction 1 as [|l ls (_ & Hc & Hl) Hls IH]; [done|]. cbn [fitting].
  rewrite (proj2 (Z.leb_gt _ _)) by done. rewrite IH. unfold drop_cr.
  destruct (last l) as [a|]; [|done]. by rewrite decide_False by congruence.
Qed.

Lemma scan_plain ls :
  Forall plain_line ls -> scan_lines (ls ≫= fun l => l ++ [newline]) = (ls, false).
Proof.
  intros H. unfold scan_lines. rewrite raw_lines_lines; [by apply fitting_plain|].
  eapply Forall_impl; [exact H|]. by intros l [? _].
Qed.

(** *** Words *)

Lemma solid_not_space a : solid a -> a <> " "%char.
Proof. by intros [_ H] ->. Qed.

Lemma fields_word l cur rest :
  Forall solid l ->
  fields_runes (map RAscii l ++ rest) cur = fields_runes rest (cur ++ l).
Proof.
  intros H. revert cur. induction H as [|a l [_ Ha] Hl IH]; intros cur; [by rewrite app_nil_r|].
  cbn [map app fields_runes is_space_rune]. rewrite Ha, IH. cbn [raw_bytes].
  by rewrite <-app_assoc.
Qed.

Lemma fields_two x y :
  x <> [] -> y <> [] -> Forall solid x -> Forall solid y ->
  fields_utf8 (of_bytes (x ++ " "%char :: y)) = [of_bytes x; of_bytes y].
Proof.
  intros Hx Hy Sx Sy. unfold fields_utf8. rewrite to_of_bytes, decode_runes_ascii.
  2:{ rewrite Forall_app, Forall_cons. split_and!; [by apply solid_ascii|done|by apply solid_ascii]. }
  rewrite map_app, fields_word by done. cbn [map app fields_runes is_space_rune].
  change (is_space " "%char) with true. destruct x as [|a x]; [done|]. cbn [app].
  rewrite <-(app_nil_r (map RAscii y)), fields_word by done. cbn [app fields_runes].
  by destruct y.
Qed.

Lemma before_comment_none_app l r :
  before_comment l = None -> before_comment r = None ->
  (forall a t, r = a :: t -> a <> "/"%char) -> before_comment (l ++ r) = None.
Proof.
  intros Hl Hr Hh. induction l as [|a l IH]; [done|]. cbn [app before_comment] in *.
  destruct l as [|b l].
  - cbn [app]. destruct r as [|b r]; [done|]. rewrite decide_False.
    + by rewrite Hr.
    + intros [_ ->]. by eapply Hh.
  - cbn [app] in *. destruct (decide (a = "/"%char /\ b = "/"%char)) as [|Hn]; [done|].
    destruct (before_comment (b :: l)) eqn:E; [done|]. by rewrite IH.
Qed.

Lemma before_comment_found l r :
  before_comment (l ++ [" "%char]) = None ->
  before_comment (l ++ [" "%char] ++ "/"%char :: "/"%char :: r) = Some (l ++ [" "%char]).
Proof.
  induction l as [|a l IH]; [done|]. cbn [app before_comment].
  destruct l as [|b l]; cbn [app] in *.
  - rewrite !decide_False by (intros [_ ?]; discriminate). done.
  - destruct (decide (a = "/"%char /\ b = "/"%char)) as [|Hn]; [done|].
    destruct (before_comment (b :: l ++ [" "%char])) eqn:E; [done|]. intros _. by rewrite IH.
Qed.

Lemma strip_prefix_word w x r :
  Forall solid w -> Forall solid x -> x <> w -> strip_prefix (w ++ [" "%char]) (x ++ " "%char :: r) = None.
Proof.
  intros Hw. revert x. induction Hw as [|a w Ha Hw IH]; intros x Hx Hne.
  - destruct Hx as [|b x Hb Hx]; [done|]. cbn [app strip_prefix].
    rewrite decide_False; [done|]. intros <-. by apply (solid_not_space " "%char).
  - destruct Hx as [|b x Hb Hx]; cbn [app strip_prefix].
    + rewrite decide_False; [done|]. intros ->. by apply (solid_not_space " "%char).
    + case_decide as E; [|done]. subst b. apply IH; [done|congruence].
Qed.

Lemma HasPrefix_word w x r :
  Forall solid w -> Forall solid x -> x <> w ->
  HasPrefix (of_bytes (x ++ " "%char :: r)) (of_bytes (w ++ [" "%char])) = false.
Proof.
  intros Hw Hx Hne. unfold HasPrefix. rewrite !to_of_bytes, strip_prefix_word by done.
  apply bool_decide_eq_false. by intros [].
Qed.

Lemma strip_prefix_self p l : strip_prefix p (p ++ l) = Some l.
Proof. induction p as [|a p IH]; cbn; [done|]. by rewrite decide_True. Qed.

Lemma comment_ascii ind : Forall (fun a => byte_val a < 128) (comment ind).
Proof. destruct ind; repeat constructor. Qed.

Definition entry_bytes (r : require) : bytes :=
  rq_name r ++ " "%char :: rq_version r ++ comment (rq_indirect r).

Lemma entry_trimmed r : require_ok r -> trimmed (entry_bytes r).
Proof.
  intros ((N1 & S1 & _) & (N2 & S2 & _) & _). unfold entry_bytes. destruct (rq_indirect r).
  - assert (rq_name r ++ " "%char :: rq_version r ++ comment true =
      rq_name r ++ (" "%char :: rq_version r ++ to_bytes " // ") ++ to_bytes "indirect") as ->
      by (cbn; by rewrite <-app_assoc).
    apply trimmed_between; try done; [repeat constructor|].
    constructor; [done|]. apply Forall_app. split; [by apply solid_ascii|repeat constructor].
  - cbn [comment]. rewrite app_nil_r.
    change (rq_name r ++ " "%char :: rq_version r) with (rq_name r ++ [" "%char] ++ rq_version r).
    apply trimmed_between; try done. repeat constructor.
Qed.

Lemma parseDep_entry r : require_ok r -> parseDep (of_bytes (entry_bytes r)) = Some (dep_of r).
Proof.
  intros ((N1 & S1 & C1 & _) & (N2 & S2 & C2 & _) & _). unfold parseDep, entry_bytes.
  rewrite to_of_bytes.
  assert (before_comment (rq_name r ++ " "%char :: rq_version r) = None) as Hn.
  { apply before_comment_none_app; [done| |by intros a t [= <- _]].
    change (" "%char :: rq_version r) with ([" "%char] ++ rq_version r).
    destruct (rq_version r) as [|a v]; [done|]. cbn [app].
    change (before_comment (" "%char :: a :: v)) with
      (if decide (" "%char = "/"%char /\ a = "/"%char) then Some []
       else cons " "%char <$> before_comment (a :: v)).
    rewrite decide_False by (intros [? _]; discriminate). by rewrite C2. }
  destruct (rq_indirect r); cbn [comment].
  - assert (rq_name r ++ " "%char :: rq_version r ++ to_bytes " // indirect" =
      (rq_name r ++ " "%char :: rq_version r) ++ [" "%char] ++ "/"%char :: "/"%char :: to_bytes " indirect")
      as -> by (rewrite <-app_assoc; done).
    rewrite before_comment_found.
    + assert (trim_space_utf8 (of_bytes ((rq_name r ++ " "%char :: rq_version r) ++ [" "%char])) =
        of_bytes (rq_name r ++ " "%char :: rq_version r)) as ->.
      { apply (trim_space_padded [] _ [" "%char]); [done..|].
        apply (trimmed_between (rq_name r) [" "%char] (rq_version r)); try done. repeat constructor. }
      by rewrite fields_two.
    + apply before_comment_none_app; [done..|by intros a t [= <- _]].
  - rewrite app_nil_r, Hn. by rewrite fields_two.
Qed.

Lemma gomod_line_module m g :
  word m -> gomod_line g (to_bytes "module " ++ m) = mkGomod (of_bytes m) (gm_deps g) (gm_inRequireBlock g).
Proof.
  intros (N & S & _). unfold gomod_line.
  assert (trim_space_utf8 (of_bytes (to_bytes "module " ++ m)) = of_bytes (to_bytes "module " ++ m)) as ->.
  { pose proof (trim_space_padded [] (to_bytes "module " ++ m) [] eq_refl eq_refl) as H.
    rewrite app_nil_r in H. apply H. apply (trimmed_between (to_bytes "module") [" "%char] m);
      try done; repeat constructor. }
  unfold HasPrefix, TrimPrefix. rewrite to_of_bytes, strip_prefix_self.
  rewrite bool_decide_eq_true_2 by (by eexists).
  pose proof (trim_space_padded [] m [] eq_refl eq_refl (solid_trimmed m S)) as H.
  rewrite app_nil_r in H. cbn [app] in H. change (default ?x (Some m)) with m. by rewrite H.
Qed.

Lemma gomod_line_entry r m ds :
  require_ok r ->
  gomod_line (mkGomod m ds true) (require_line r) = mkGomod m (ds ++ [dep_of r]) true.
Proof.
  intros Hr. unfold gomod_line.
  change (require_line r) with (["009"%char] ++ entry_bytes r).
  rewrite <-(app_nil_r (entry_bytes r)), trim_space_padded by (done || by apply entry_trimmed).
  pose proof Hr as ((N1 & S1 & _) & _ & M1 & M2).
  assert (forall w, Forall solid w -> rq_name r <> w ->
    HasPrefix (of_bytes (entry_bytes r)) (of_bytes (w ++ [" "%char])) = false) as Hp
    by (intros w Hw Hne; by apply HasPrefix_word).
  pose proof (Hp (to_bytes "module") ltac:(repeat constructor) M1) as P1.
  pose proof (Hp (to_bytes "require") ltac:(repeat constructor) M2) as P2. clear Hp.
  change (of_bytes (to_bytes "module" ++ [" "%char])) with "module " in P1.
  change (of_bytes (to_bytes "require" ++ [" "%char])) with "require " in P2.
  rewrite P1, decide_False; [|by intros E; rewrite E in P2].
  cbn [gm_inRequireBlock andb]. rewrite bool_decide_eq_false_2.
  2:{ intros E. apply (f_equal to_bytes) in E. rewrite to_of_bytes in E. unfold entry_bytes in E.
      apply (f_equal length) in E. rewrite length_app in E. destruct (rq_name r); [done|].
      cbn in E. lia. }
  rewrite P2, parseDep_entry by done. done.
Qed.

Lemma gomod_entries rs m ds :
  Forall require_ok rs ->
  foldl gomod_line (mkGomod m ds true) (map require_line rs) = mkGomod m (ds ++ map dep_of rs) true.
Proof.
  intros H. revert ds. induction H as [|r rs Hr Hrs IH]; intros ds; cbn [map foldl].
  - by rewrite app_nil_r.
  - by rewrite gomod_line_entry, IH, <-app_assoc.
Qed.

Lemma solid_no_newline l : Forall solid l -> newline ∉ l.
Proof. rewrite Forall_forall. intros H Hin. by destruct (H _ Hin). Qed.

Lemma solid_plain_last p l : l <> [] -> Forall solid l -> last (p ++ l) <> Some "013"%char.
Proof.
  intros Hne H E. rewrite last_app in E. destruct (last l) as [a|] eqn:El.
  - simplify_eq. apply last_Some in El as (l' & ->). apply Forall_app in H as [_ H].
    by apply Forall_cons in H as [[_ ?] _].
  - by apply last_None in El.
Qed.

Lemma require_line_plain r : require_ok r -> plain_line (require_line r).
Proof.
  intros ((N1 & S1 & _ & L1) & (N2 & S2 & _ & L2) & _). unfold plain_line, require_line.
  pose proof (solid_no_newline _ S1). pose proof (solid_no_newline _ S2). split_and!.
  - rewrite not_elem_of_cons, not_elem_of_app, not_elem_of_cons, not_elem_of_app.
    split_and!; [done|done|done|done|]. by destruct (rq_indirect r); vm_compute; rewrite ?elem_of_cons; set_solver.
  - rewrite !app_comm_cons, app_assoc. destruct (rq_indirect r); cbn [comment].
    + change (to_bytes " // indirect") with (to_bytes " // " ++ to_bytes "indirect").
      rewrite app_assoc. apply solid_plain_last; [done|]. repeat constructor.
    + rewrite app_nil_r, <-app_comm_cons, app_comm_cons.
      change (" "%char :: rq_version r) with ([" "%char] ++ rq_version r).
      rewrite app_assoc. by apply solid_plain_last.
  - unfold MaxScanTokenSize. cbn [length]. rewrite length_app. cbn [length]. rewrite length_app.
    assert (length (comment (rq_indirect r)) <= 12)%nat by (destruct (rq_indirect r); vm_compute; lia).
    lia.
Qed.

Lemma gomod_plain m rs : word m -> Forall require_ok rs -> Forall plain_line (gomod_lines m rs).
Proof.
  intros (N & S & _ & L) H. unfold gomod_lines. rewrite !Forall_app, !Forall_cons. split_and!.
  - split_and!.
    + rewrite not_elem_of_app. split; [vm_compute; set_solver|by apply solid_no_newline].
    + by apply solid_plain_last.
    + rewrite length_app. change (length (to_bytes "module ")) with 7%nat. unfold MaxScanTokenSize. lia.
  - split_and!; [set_solver|done|done].
  - split_and!; [vm_compute; set_solver|done|done].
  - done.
  - apply Forall_map. eapply Forall_impl; [exact H|]. apply require_line_plain.
  - split_and!; [vm_compute; set_solver|done|done].
  - done.
Qed.


